(* ===== verification/_CoqProject ===== *)
-Q . S2P
Prelude.v
BlockHashCache.v
Bitcoin.v
Errors.v
AuxPow.v
Signatures.v
Block.v
Serial.v
Aura.v
Candidates.v
Store.v
Retarget.v
AuxMiner.v
BTree.v
Wallet.v
WalletProofs.v
Bridge.v
Engine.v
Payouts.v
ChainRange.v
RpcRetry.v
RpcTypes.v
RateLimiter.v
Text.v
QuotaConfig.v
RpcBehaviour.v
Multiaddr.v
Network.v
NetworkProofs.v
DelayQueue.v
Handler.v
Codec.v
HandlerProofs.v
Framed.v
Upgrade.v
Exchange.v
JsonRpc.v
Metrics.v
AuxPowCodec.v
Miner.v
Chain.v
Node.v
ChainProofs.v
Acts.v
Safety.v
ChainWitness.v
Cluster.v
ClusterWitness.v
Locks.v
Tasks.v
App.v
