(* ===== verification/Prelude.v ===== *)
(** * Alys: a merge-mined sidechain node with a federated Bitcoin bridge

    Alys is a consensus node beside an EVM execution client. A fixed set of
    authorities takes turns producing blocks (Aura), two thirds of them approve
    a block, and the head of the chain moves only to approved blocks. Bitcoin
    miners finalize ranges of blocks by merged mining: an AuxPow commits to the
    hashes of the blocks since the last finalized one and travels in the header
    of a later block. A federation holds bitcoins in a taproot wallet: a deposit
    (peg-in) is credited on the sidechain as a withdrawal of a block, and an
    event of the bridge contract (peg-out) is paid from the wallet once the
    block that contains it is finalized.

    ** How the sources are modelled

    Functions of the sources are functions here, with the sources' names. A
    fallible function returns [res E A]: [Ok], [Err] (the sources' error
    enumerations, file [Errors]) or [Panic]. [Panic] is an [unwrap], a failed
    index or an arithmetic overflow (the docker image is built with the dev
    profile, which checks overflows, and a panic aborts the process in both
    profiles), and also a loop that would never end. Code that changes state is in the state monad [ST S E A],
    [S -> res E A * S]; the state after an error is the state the code leaves.
    Machine integers are [Z] with explicit checked or wrapping operations
    ([add_chk], [wrap], ...). Hashes, keys and scripts are lists of bytes.

    Libraries outside the repository are classes of operations ([BitcoinLib],
    [BlsLib], [BlockLib] for serialisation and roots, [StoreLib], [DecimalLib],
    [WalletLib], [BridgeLib], [ExecutionApi], [FeeEstimate], [SszLib] and
    [FrameLib] for the wire format, [Streams] and [DelayQueue] for substreams
    and timers, [MultiaddrLib], [GossipLib], [JsonLib]), with a second class of
    the documented facts the code relies on ([BitcoinLaws], [BlsLaws],
    [BlockLaws], [StoreLaws], [DecimalLaws], [WalletLaws], [MultiaddrLaws],
    [GossipLaws], ...). Every class of laws has a concrete instance, and the
    witnesses of the theorems evaluate the models with it.
    The merged-mining service is written against the trait [ChainManager]; here
    it is a class with laws ([ChainManagerLaws]) that the service's theorems
    use, and [ChainProofs.chain_manager_laws] discharges them for the chain.
    The JSON-RPC server sees the chain through [ChainManager] and
    [JsonRpc.ChainQueries], which [Node] instantiates.

    ** The files

    - [Prelude]: results, the state monad, checked integers, byte strings,
      shared lemmas, the relation [tracks] with its tactic.
    - [Bitcoin], [Errors], [BTree], [Serial]: Bitcoin data and the interface of
      the bitcoin crate; error enumerations ([app/src/error.rs]); ordered maps;
      a concrete serialisation for the witnesses.
    - [AuxPow], [AuxPowCodec] ([app/src/auxpow.rs]): Merkle branches, the
      merged-mining header of a coinbase, [check], [aggregate_hash], the nonce
      search [mine]; the bytes of an AuxPow.
    - [Retarget] and [AuxMiner] ([app/src/auxpow_miner.rs]): compact targets,
      the retarget rule; [create_aux_block], [submit_aux_block] and the
      background miner.
    - [Signatures], [Block], [Aura], [Candidates], [BlockHashCache] (the files
      of the same names under [app/src] and [app/src/block_candidate]):
      approvals and their aggregate, blocks, slots and the two-thirds rule, the
      proposals under approval, the hashes no proof of work covers.
    - [Store] ([app/src/store.rs]): the key-value layout, and the abstract view
      of it that the rest of the node relies on.
    - [Wallet], [WalletProofs] ([crates/federation/src/bitcoin_signing.rs]):
      UTXOs, payments and their checks, collection of signatures.
    - [Bridge] ([crates/federation/src/lib.rs], [bitcoin_stream.rs]): peg-ins,
      peg-outs, the errors of Bitcoin Core and the stream of confirmed Bitcoin
      blocks.
    - [Engine] ([app/src/engine.rs]): amounts and the Engine API calls.
    - [Payouts], [ChainRange], [RpcRetry], [Chain], [Node] ([app/src/chain.rs]):
      fees, peg-ins and withdrawals; walks along parent links; requests with
      retries and a circuit breaker; the state of the node with its operations
      on blocks, proofs of work and signatures; block production,
      synchronisation and the handlers of messages.
    - [ChainProofs], [Acts], [Safety], [ChainWitness]: theorems about the node's
      operations; its handlers as sequences of acts, with the scheme for
      invariants of all acts; the whole node as a transition system; and the
      concrete node the theorems are applied to.
    - [Cluster], [ClusterWitness]: several nodes, the messages they send and an
      adversary; a federation of three.
    - [Locks] ([app/src/chain.rs], [engine.rs], [rpc.rs]): the lock sections of
      every function, and fair locks.
    - [JsonRpc] ([app/src/rpc.rs]): parsing, dispatch and every method of the
      JSON-RPC server.
    - [Metrics] ([app/src/metrics.rs]): the metrics, every use of them, the
      page, and the counters of the JSON-RPC server.
    - [Miner] ([crates/miner/src/main.rs], the JSON of [AuxBlock]): a round of
      the stand-alone miner against that server.
    - [RpcTypes], [Codec] ([app/src/network/rpc/methods.rs], [protocol.rs],
      [outbound.rs], [codec/]): the messages between peers and their encoding.
    - [RateLimiter], [Text], [QuotaConfig] ([rate_limiter.rs], [config.rs]):
      token buckets, and the quotas as texts.
    - [RpcBehaviour] ([rpc/mod.rs], [self_limiter.rs]): the behaviour that
      passes requests to connections, with the limiter of own requests.
    - [DelayQueue] (interface of the timers), [Handler], [HandlerProofs] ([rpc/handler.rs]): the handler
      of one connection, with its substreams, timers, dials and shutdown.
    - [Framed], [Upgrade] ([rpc/mod.rs], [protocol.rs], [outbound.rs]): a model
      of the framed streams of [tokio_util], a library, over any codec, from its
      documentation; the set-up of a connection and the upgrades of a substream
      with their timeout.
    - [Exchange]: two handlers and the bytes between them.
    - [Multiaddr], [Network], [NetworkProofs] ([app/src/network/mod.rs]): the
      addresses of boot nodes, the backend's loop over commands, swarm events
      and the reconnection timer, and the client.
    - [Tasks] ([app/src/chain.rs]): the tasks that listen to the network, the
      chain and the backend together.
    - [App] ([app/src/app.rs], [app/src/spec.rs]): the arguments, the chain
      specification, and the start of a node out of all these parts.

    ** What is shown

    - Head and finality ([Safety], [ChainProofs]): from an empty database on,
      through gossip, production, synchronisation, roll backs and restarts, the
      head and every stored block descend from the genesis block by blocks that
      passed the majority check; short of a roll back the head never goes down;
      a fresh node is consistent and an import keeps the store
      a chain of parent links, its references stored and the cache of hashes
      equal to the unfinalized part of that chain, unless it is of an AuxPow
      header of height 0; an accepted block passed the checks of the node's role
      (only a validator checks withdrawals and compares peg-outs, and old blocks
      are not checked against the target); an AuxPow that passes [check_pow]
      commits to the stored range it names and meets the required target, and
      one that miners build from the hashes handed to them is accepted.
    - The federation ([Cluster]): nodes act in any order, on messages that are
      delayed, repeated, lost or made up, short of forging the signatures of the
      nodes; every block a node accepts has the approvals of two thirds of the
      authorities, less the bits set beyond the authority set, which the code
      counts, and those of the nodes were given after checking the block.
      Two approved blocks of one height are possible all the same, without a
      faulty node ([approved_blocks_can_conflict]).
    - Locks ([Locks]): tasks that interleave at their locks in any way never
      block each other for good.
    - Consensus ([Aura], [Signatures], [Candidates]): two majorities share a
      third of the authorities, less the bits beyond the set; aggregates of
      checked approvals verify; the candidate cache keeps its invariant, and its
      candidate is the last block inserted with the flag or since then the first
      of the highest slot; authorities work only in slots of their own.
    - Work ([AuxPow], [Retarget], [AuxMiner]): an accepted AuxPow has a Merkle
      path from the committed hash to the parent block; exactly when a check
      panics; the percentage of a retarget on every branch; compact targets
      survive their encoding; a submitted
      AuxPow is queued for the range it was created for.
    - Store and walks ([Store], [ChainRange]): the layout refines the abstract
      view; walks end on a store whose blocks are above their parents, and
      return exactly the path or an error.
    - Money ([Payouts], [Wallet], [Bridge]): fees are conserved by their split,
      the first sixteen accounts are credited exactly their peg-ins, checked
      withdrawals pay every account what it is owed, a payment that one member
      creates pays the peg-outs and is accepted by any member that has its inputs
      or can fetch them, finalized payments pass the witness check, only
      confirmed deposits become peg-ins.
    - Requests ([RpcRetry], [ChainProofs]): the number of attempts is bounded,
      a tripped breaker blocks and recovers, synchronisation ends after a short
      answer, which is every answer of a peer that runs this program
      ([Tasks.sync_takes_one_block]).
    - Wire format ([Codec], [Upgrade], [QuotaConfig], [Multiaddr]): requests,
      responses, quotas and lists of addresses are read as they were written,
      however the bytes are split; whatever a peer sends on a new substream, its
      upgrade ends by the timeout and does not panic; parsing ends.
    - Connections ([HandlerProofs], [RateLimiter], [RpcBehaviour]): for any
      behaviour of the peer, the network and the clock, the handler does not
      panic, stays within its limits, forgets no request, passes on no more
      responses than were asked for, and ends when it shuts down; blocks that one
      handler serves within the response timeout are what the other reports
      ([Exchange], both handlers driven by their polls); limiters
      grant at most their quota in any window and lose no request.
    - Backend ([NetworkProofs], [Tasks]): over all runs, responses reach the
      channel of their request and no other; exactly when a turn panics; when
      it can wait for a slow client; redials are spaced; subscribers see the
      current peers; gossip arrives as it was sent.
    - JSON-RPC ([JsonRpc], [Miner]): each answer carries the id of its request;
      queries change nothing; the work of the stand-alone miner reaches the chain.
    - Metrics ([Metrics]): no use of a metric panics and the page is always served;
      a client can add series without bound.
    - Start ([App]): exactly when a node gets as far as its chain, its database,
      clients, keys and wallet included; how the process ends; a first start
      stores the genesis block; a restart rebuilds the state of the earlier run
      from its database; two quorums of the federation share a third of it.
    - Some theorems show what the code does where that is surprising:
      [gossip_pow_panics], [genesis_range_refused], [rollback_keeps_stale_cache],
      [unsynced_monitor_drops_pegins], [fee_receiver_pegin_rejected],
      [early_approval_lost], [spent_input_accepted_again], [lost_slots_stay],
      [short_hash_panics], [one_block_served], [connected_peer_redialled],
      [request_burst_aborts] and others.

    ** Fuel and bounds

    The walks of [ChainRange] carry one unit of fuel more than the database has
    entries: a walk along distinct stored blocks ends earlier (lemma
    [path_fuel]), and a walk that does not is a loop. [AuxPow.mine] tries the
    [2 ^ 32 - 1] nonces of the source's loop. The slot worker and the Bitcoin
    stream run over a list of readings of their environment (clock, node), one
    step per reading. The rounds of [sync] are an argument; [sync_one_round]
    says when one is enough. The two loops of [Multiaddr] have fuel for one
    more turn than the text has characters; [Multiaddr.parse_returns] shows
    that they end. The loops of the connection handler over its substreams run
    over the keys present when they start.

    ** What is not modelled

    Logging and tracing; the libraries named above, with the libp2p
    swarm, the command line parser, HTTP and JSON; the texts of errors. The
    handlers of one node run one after the other, or, in [Cluster], interleave
    at their acts: what two handlers do to the data between two locks of one act
    is not modelled, and [Locks] has the locks without the data. *)
From stdpp Require Import base decidable option list gmap numbers relations.
From Stdlib Require Import ZArith Lia.

#[global] Open Scope Z_scope.

(** * Outcomes of Rust code *)

(** A call returns [Ok a] or [Err e] like a Rust [Result]; [Panic] is an
    [unwrap]/[expect]/[assert!]/[unreachable!], an out-of-range index or a
    checked arithmetic overflow, all of which abort the process
    ([panic = "abort"] in both cargo profiles). *)
Inductive res (E A : Type) : Type :=
| Ok (a : A)
| Err (e : E)
| Panic.

Arguments Ok {E A} _.
Arguments Err {E A} _.
Arguments Panic {E A}.

#[global] Instance res_ret {E} : MRet (res E) := fun _ a => Ok a.
#[global] Instance res_bind {E} : MBind (res E) := fun _ _ k m =>
  match m with
  | Ok a => k a
  | Err e => Err e
  | Panic => Panic
  end.
#[global] Instance res_fmap {E} : FMap (res E) := fun _ _ f m =>
  match m with
  | Ok a => Ok (f a)
  | Err e => Err e
  | Panic => Panic
  end.

(** [Result::map_err]. *)
Definition map_err {E F A} (f : E -> F) (m : res E A) : res F A :=
  match m with
  | Ok a => Ok a
  | Err e => Err (f e)
  | Panic => Panic
  end.

(** [Option::ok_or]. *)
Definition ok_or {E A} (o : option A) (e : E) : res E A :=
  match o with Some a => Ok a | None => Err e end.

(** [Option::unwrap] / [Option::expect]. *)
Definition unwrap {E A} (o : option A) : res E A :=
  match o with Some a => Ok a | None => Panic end.

(** [Result::unwrap]: an error aborts the process. *)
Definition unwrap_res {E F A} (m : res E A) : res F A :=
  match m with Ok a => Ok a | Err _ | Panic => Panic end.

Definition is_ok {E A} (m : res E A) : bool :=
  match m with Ok _ => true | _ => false end.

(** * Stateful code

    Methods behind locks mutate shared state and may fail half-way: the writes
    made before an error stay. A computation therefore returns its outcome
    together with the state it leaves, on every path. *)
Definition ST (S E A : Type) : Type := S -> res E A * S.

#[global] Instance st_ret {S E} : MRet (ST S E) := fun _ a s => (Ok a, s).
#[global] Instance st_bind {S E} : MBind (ST S E) := fun _ _ k m s =>
  match m s with
  | (Ok a, s') => k a s'
  | (Err e, s') => (Err e, s')
  | (Panic, s') => (Panic, s')
  end.

Definition getS {S E} : ST S E S := fun s => (Ok s, s).
Definition modifyS {S E} (f : S -> S) : ST S E unit := fun s => (Ok tt, f s).
Definition liftR {S E A} (m : res E A) : ST S E A := fun s => (m, s).
Definition throw {S E A} (e : E) : ST S E A := fun s => (Err e, s).
Definition panic {S E A} : ST S E A := fun s => (Panic, s).

(** A loop over a list that stops at the first error. *)
Fixpoint mapM_ {S E A} (f : A -> ST S E unit) (l : list A) : ST S E unit :=
  match l with
  | [] => mret tt
  | x :: l' => f x ;; mapM_ f l'
  end.

(** The same for a pure loop, [iter().map(f).collect::<Result<Vec<_>,_>>()]. *)
Fixpoint collect {E A B} (f : A -> res E B) (l : list A) : res E (list B) :=
  match l with
  | [] => Ok []
  | x :: l' => y ← f x; ys ← collect f l'; Ok (y :: ys)
  end.

(** * Machine integers *)

Definition in_width (w z : Z) : bool := (0 <=? z) && (z <? 2 ^ w).

(** An [as] cast to a [w]-bit unsigned type. *)
Definition wrap (w z : Z) : Z := z mod 2 ^ w.

(** [+], [-], [*] on [w]-bit unsigned integers with overflow checks. *)
Definition chk {E} (w z : Z) : res E Z := if in_width w z then Ok z else Panic.
Definition add_chk {E} (w a b : Z) : res E Z := chk w (a + b).
Definition sub_chk {E} (w a b : Z) : res E Z := chk w (a - b).
Definition mul_chk {E} (w a b : Z) : res E Z := chk w (a * b).

(** [/] and [%]: a zero divisor panics. *)
Definition div_chk {E} (a b : Z) : res E Z := if b =? 0 then Panic else Ok (a / b).
Definition rem_chk {E} (a b : Z) : res E Z := if b =? 0 then Panic else Ok (a mod b).

Definition saturating_sub (a b : Z) : Z := Z.max 0 (a - b).
Definition saturating_mul (w a b : Z) : Z := Z.min (2 ^ w - 1) (a * b).

(** [a >> n] and [1 << n] on a [w]-bit type: a shift by the width or more
    panics. *)
Definition shr_chk {E} (w a n : Z) : res E Z :=
  if n <? w then Ok (Z.shiftr a n) else Panic.
Definition shl_chk {E} (w a n : Z) : res E Z :=
  if n <? w then Ok (wrap w (Z.shiftl a n)) else Panic.

(** * Bytes *)

(** Bytes are integers below 256; a 32-byte hash is a list of 32 bytes in
    memory order. *)
Definition is_byte (b : Z) : bool := in_width 8 b.

Fixpoint to_le_bytes (n : nat) (z : Z) : list Z :=
  match n with
  | O => []
  | S n' => z mod 256 :: to_le_bytes n' (z / 256)
  end.

Fixpoint from_le_bytes (l : list Z) : Z :=
  match l with
  | [] => 0
  | b :: l' => b + 256 * from_le_bytes l'
  end.

Definition to_be_bytes (n : nat) (z : Z) : list Z := reverse (to_le_bytes n z).
Definition from_be_bytes (l : list Z) : Z := from_le_bytes (reverse l).

(** A 32-byte hash ([Hash256], [BlockHash], [Txid], [TxMerkleNode], ...). *)
Abbreviation hash := (list Z).
Definition zero_hash : hash := replicate 32 0.
Definition is_zero (h : hash) : bool := bool_decide (h = zero_hash).

(** [slice[i..j]] of a list long enough. *)
Definition slice {A} (i j : nat) (l : list A) : list A := take (j - i) (drop i l).

(** [iter().position(p)]. *)
Fixpoint position {A} (p : A -> bool) (l : list A) : option nat :=
  match l with
  | [] => None
  | x :: l' => if p x then Some O else S <$> position p l'
  end.

(** * Automation *)

Create HintDb alys.

(** Case analysis on every [match] and [if] of the goal and the hypotheses,
    with the outcomes of [Ok]/[Err]/[Panic] equations propagated. *)
Ltac unfold_monad :=
  unfold mbind, mret, res_bind, res_ret, st_bind, st_ret, res_fmap in *.
Ltac inv_res :=
  unfold_monad; repeat (case_match || simplify_eq/=).

Ltac split_and_lia := repeat split; try lia.

(** Arithmetic goals with divisions by constants. *)
Ltac zdiv := Z.div_mod_to_equations; nia.

(** * Lemmas the components share *)

Lemma in_width_spec w z : in_width w z = true <-> 0 <= z < 2 ^ w.
Proof. unfold in_width. lia. Qed.

Lemma chk_ok {E} w z : 0 <= z < 2 ^ w -> chk (E:=E) w z = Ok z.
Proof. intros H%in_width_spec. unfold chk. by rewrite H. Qed.

Lemma chk_inv {E} w z r : chk (E:=E) w z = Ok r -> r = z /\ 0 <= z < 2 ^ w.
Proof. unfold chk. intros. inv_res. split; [done|by apply in_width_spec]. Qed.

Lemma chk_not_err {E} w z (e : E) : chk w z <> Err e.
Proof. unfold chk. by case_match. Qed.

#[export] Hint Resolve chk_ok : alys.

Lemma add_chk_ok {E} w a b : 0 <= a + b < 2 ^ w -> add_chk (E:=E) w a b = Ok (a + b).
Proof. apply chk_ok. Qed.

Lemma mul_chk_ok {E} w a b : 0 <= a * b < 2 ^ w -> mul_chk (E:=E) w a b = Ok (a * b).
Proof. apply chk_ok. Qed.

Lemma sub_chk_ok {E} w a b : 0 <= a - b < 2 ^ w -> sub_chk (E:=E) w a b = Ok (a - b).
Proof. apply chk_ok. Qed.

Lemma wrap_small w z : 0 <= z < 2 ^ w -> wrap w z = z.
Proof. apply Z.mod_small. Qed.

Lemma wrap_bound w z : 0 <= w -> 0 <= wrap w z < 2 ^ w.
Proof. intros. apply Z.mod_pos_bound. lia. Qed.

Lemma to_le_bytes_length n z : length (to_le_bytes n z) = n.
Proof. revert z. induction n; intros; simpl; auto. Qed.

Lemma to_le_bytes_byte n z : Forall (fun b => is_byte b = true) (to_le_bytes n z).
Proof.
  revert z. induction n as [|n IH]; intros z; simpl; constructor; auto.
  apply in_width_spec. pose proof (Z.mod_pos_bound z 256). lia.
Qed.

Lemma from_to_le_bytes n z :
  0 <= z < 256 ^ Z.of_nat n -> from_le_bytes (to_le_bytes n z) = z.
Proof.
  revert z. induction n as [|n IH]; intros z Hz; simpl.
  - change (256 ^ Z.of_nat 0) with 1 in Hz. lia.
  - rewrite Nat2Z.inj_succ, Z.pow_succ_r in Hz by lia.
    rewrite IH by (split; [apply Z.div_pos; lia | apply Z.div_lt_upper_bound; lia]).
    pose proof (Z.div_mod z 256). lia.
Qed.

Lemma to_from_le_bytes l :
  Forall (fun b => is_byte b = true) l -> to_le_bytes (length l) (from_le_bytes l) = l.
Proof.
  induction 1 as [|b l Hb Hl IH]; simpl; [done|].
  apply in_width_spec in Hb. change (2 ^ 8) with 256 in Hb.
  replace (b + 256 * from_le_bytes l) with (from_le_bytes l * 256 + b) by lia.
  rewrite Z.div_add_l, (Z.div_small b), Z.add_0_r, IH by lia. f_equal.
  rewrite Z.add_comm, Z.mod_add by lia. by apply Z.mod_small.
Qed.

Lemma to_be_bytes_inj n a b :
  0 <= a < 256 ^ Z.of_nat n -> 0 <= b < 256 ^ Z.of_nat n ->
  to_be_bytes n a = to_be_bytes n b -> a = b.
Proof.
  intros Ha Hb H. apply (inj reverse) in H.
  rewrite <-(from_to_le_bytes n a), <-(from_to_le_bytes n b) by done. by rewrite H.
Qed.

Lemma slice_app_l {A} (l1 l2 : list A) j : length l1 = j -> slice 0 j (l1 ++ l2) = l1.
Proof. intros <-. unfold slice. rewrite drop_0, Nat.sub_0_r. by rewrite take_app_length. Qed.

Lemma slice_app_r {A} (l1 l2 : list A) i j :
  length l1 = i -> slice i (i + j) (l1 ++ l2) = slice 0 j l2.
Proof.
  intros <-. unfold slice. rewrite drop_app_length, drop_0. f_equal. lia.
Qed.

Lemma position_Some {A} (p : A -> bool) l i :
  position p l = Some i <->
  (exists x, l !! i = Some x /\ p x = true) /\
  (forall j x, (j < i)%nat -> l !! j = Some x -> p x = false).
Proof.
  revert i. induction l as [|y l IH]; intros i; simpl.
  { split; [done|]. intros [(x & Hx & _) _]. by rewrite lookup_nil in Hx. }
  destruct (p y) eqn:Hy.
  - split.
    + intros [= <-]. split; [by exists y|]. intros; lia.
    + intros [(x & Hx & Hp) Hmin]. destruct i as [|i]; [done|].
      exfalso. specialize (Hmin O y ltac:(lia) eq_refl). congruence.
  - rewrite fmap_Some. setoid_rewrite IH. split.
    + intros (i' & [(x & Hx & Hp) Hmin] & ->). split; [by exists x|].
      intros [|j] z Hj Hz; simpl in *; [congruence|]. apply (Hmin j z); [lia|done].
    + intros [(x & Hx & Hp) Hmin]. destruct i as [|i]; simpl in *; [congruence|].
      exists i. split; [|done]. split; [by exists x|].
      intros j z Hj Hz. apply (Hmin (S j) z); [lia|done].
Qed.

Lemma position_None {A} (p : A -> bool) l :
  position p l = None <-> Forall (fun x => p x = false) l.
Proof.
  induction l as [|y l IH]; simpl; [done|].
  rewrite Forall_cons, <-IH. destruct (p y); [naive_solver|].
  rewrite fmap_None. naive_solver.
Qed.

(** Reachability: an invariant that every step keeps holds in every state a
    run reaches. *)
Lemma rtc_invariant {S} (step : relation S) (I : S -> Prop) s s' :
  (forall x y, step x y -> I x -> I y) -> rtc step s s' -> I s -> I s'.
Proof. intros Hstep. induction 1; eauto. Qed.

Lemma collect_Ok {E A B} (f : A -> res E B) l ys :
  collect f l = Ok ys <-> Forall2 (fun x y => f x = Ok y) l ys.
Proof.
  revert ys. induction l as [|x l IH]; intros ys; cbn.
  { split; [intros [= <-]; constructor | by inversion 1]. }
  split; intros H.
  - inv_res. constructor; [done|by apply IH].
  - inversion H as [|? y ? ys' Hf Hl]; subst. apply IH in Hl. by rewrite Hf, Hl.
Qed.

Lemma collect_total {E A B} (f : A -> res E B) l :
  Forall (fun x => exists y, f x = Ok y) l -> exists ys, collect f l = Ok ys.
Proof.
  induction 1 as [|x l [y Hy] _ [ys IH]]; [by exists []|].
  exists (y :: ys). cbn. by rewrite Hy, IH.
Qed.

Lemma collect_ext {E A A' B} (f : A -> res E B) (g : A' -> res E B) l l' :
  Forall2 (fun x x' => f x = g x') l l' -> collect f l = collect g l'.
Proof. induction 1 as [|x x' l l' Hx _ IH]; cbn; [done|]. by rewrite Hx, IH. Qed.

Lemma Forall2_lookup_imap {A B} (R : nat * A -> B -> Prop) (l : list A) (l' : list B) :
  Forall2 R (imap pair l) l' <->
  length l' = length l /\
  forall i x y, l !! i = Some x -> l' !! i = Some y -> R (i, x) y.
Proof.
  rewrite Forall2_same_length_lookup, length_imap. split.
  - intros [Hl H]. split; [done|]. intros i x y Hx Hy. apply (H i); [|done].
    by rewrite list_lookup_imap, Hx.
  - intros [Hl H]. split; [done|]. intros i x y Hx Hy. rewrite list_lookup_imap in Hx.
    destruct (l !! i) as [z|] eqn:Ez; simplify_eq/=. by apply H.
Qed.

Lemma zip_reverse {A B} (l : list A) (k : list B) :
  length l = length k -> zip (reverse l) (reverse k) = reverse (zip l k).
Proof.
  revert k. induction l as [|x l IH]; intros [|y k] H; try done. injection H as H.
  cbn [zip zip_with]. rewrite !reverse_cons, zip_with_app by (rewrite !length_reverse; lia).
  by rewrite IH.
Qed.

(** A sequence that succeeds, step by step. *)
Lemma res_bind_Ok {E A B} (m : res E A) (k : A -> res E B) b :
  (m ≫= k) = Ok b <-> exists a, m = Ok a /\ k a = Ok b.
Proof. destruct m; cbn; naive_solver. Qed.

Lemma unwrap_Ok {E A} (o : option A) a : unwrap (E:=E) o = Ok a <-> o = Some a.
Proof. destruct o; cbn; naive_solver. Qed.

Lemma unwrap_res_Ok {E F A} (m : res E A) a : unwrap_res (F:=F) m = Ok a -> m = Ok a.
Proof. destruct m; cbn; naive_solver. Qed.

Lemma map_err_Ok {E F A} (f : E -> F) (m : res E A) a : map_err f m = Ok a <-> m = Ok a.
Proof. destruct m; cbn; naive_solver. Qed.

(** Inverting a successful stateful computation. *)
Lemma st_bind_Ok {S E A B} (m : ST S E A) (k : A -> ST S E B) s b s' :
  (m ≫= k) s = (Ok b, s') <-> exists a s1, m s = (Ok a, s1) /\ k a s1 = (Ok b, s').
Proof.
  unfold mbind, st_bind. destruct (m s) as [[a| |] s1]; split; intros; try naive_solver.
Qed.

(** [tracks R m]: whatever its outcome, [m] moves the state along [R]. *)
Definition tracks {S E A} (R : relation S) (m : ST S E A) : Prop := forall s, R s (m s).2.

Section Tracks.
Context {S E : Type} (R : relation S) `{!PreOrder R}.

Lemma tracks_bind {A B} (m : ST S E A) (k : A -> ST S E B) :
  tracks R m -> (forall a, tracks R (k a)) -> tracks R (m ≫= k).
Proof.
  intros Hm Hk s. unfold mbind, st_bind. specialize (Hm s).
  destruct (m s) as [[a|e|] s']; cbn in *; [|done..]. etrans; [done|apply Hk].
Qed.

(** The same with what is known of the value passed on. *)
Lemma tracks_bind_post {A B} (Q : A -> Prop) (m : ST S E A) (k : A -> ST S E B) :
  tracks R m -> (forall s a s', m s = (Ok a, s') -> Q a) -> (forall a, Q a -> tracks R (k a)) ->
  tracks R (m ≫= k).
Proof.
  intros Hm HQ Hk s. unfold mbind, st_bind. specialize (Hm s).
  destruct (m s) as [[a|e|] s'] eqn:Es; cbn in *; [|done..]. etrans; [done|].
  apply Hk. by eapply HQ.
Qed.

Lemma tracks_getS : tracks R (getS : ST S E S).
Proof. intros s. reflexivity. Qed.

Lemma tracks_modifyS (f : S -> S) : (forall s, R s (f s)) -> tracks R (modifyS f : ST S E unit).
Proof. intros H s. apply H. Qed.

Lemma tracks_ret {A} (a : A) : tracks R (mret a : ST S E A).
Proof. intros s. reflexivity. Qed.

Lemma tracks_liftR {A} (r : res E A) : tracks R (liftR r).
Proof. intros s. reflexivity. Qed.

Lemma tracks_throw {A} (e : E) : tracks R (throw e : ST S E A).
Proof. intros s. reflexivity. Qed.

Lemma tracks_mapM_ {A} (f : A -> ST S E unit) l :
  (forall x, tracks R (f x)) -> tracks R (mapM_ f l).
Proof.
  intros Hf. induction l as [|x l IH]; cbn; [apply tracks_ret|]. by apply tracks_bind.
Qed.
End Tracks.

#[export] Hint Resolve tracks_ret tracks_liftR tracks_throw tracks_getS : alys.

(** Decompose a [tracks] goal along the monad, leaving the calls that the
    hints do not know. *)
Ltac track :=
  repeat (intros;
    first
      [ solve [auto with alys typeclass_instances]
      | lazymatch goal with |- tracks _ (mbind _ _) => apply tracks_bind; [apply _| |] end
      | lazymatch goal with |- tracks _ (mapM_ _ _) => apply tracks_mapM_; [apply _|] end
      | lazymatch goal with |- tracks _ (modifyS _) => apply tracks_modifyS; intros; reflexivity end
      | match goal with |- tracks _ (match ?x with _ => _ end) => destruct x end ]); intros.

(** ** Triples *)

(** Total correctness of a stateful computation: from a state in [P] it does
    not panic, and ends with a value in [Q] or an error in [X]. *)
Definition triple {S E A} (P : S -> Prop) (m : ST S E A) (Q : A -> S -> Prop) (X : E -> S -> Prop) :
    Prop :=
  forall s, P s ->
  match m s with
  | (Ok a, s') => Q a s'
  | (Err e, s') => X e s'
  | (Panic, _) => False
  end.

Section Triples.
Context {S E : Type}.

Lemma triple_bind {A B} P (m : ST S E A) (k : A -> ST S E B) R Q X :
  triple P m R X -> (forall a, triple (R a) (k a) Q X) -> triple P (m ≫= k) Q X.
Proof.
  intros Hm Hk s Hs. specialize (Hm s Hs). unfold mbind, st_bind.
  destruct (m s) as [[a|e|] s']; [by apply Hk|done|done].
Qed.

Lemma triple_bind_assoc {A B C} P (m : ST S E A) (k : A -> ST S E B) (l : B -> ST S E C) R Q X :
  triple P (m ≫= k) R X -> (forall b, triple (R b) (l b) Q X) ->
  triple P (m ≫= fun a => k a ≫= l) Q X.
Proof.
  intros Hm Hl s Hs. specialize (Hm s Hs). revert Hm. unfold mbind, st_bind.
  destruct (m s) as [[a|e|] s1]; [|done..]. destruct (k a s1) as [[b|e|] s2]; [|done..]. apply Hl.
Qed.

Lemma triple_weaken {A} (P P' : S -> Prop) (m : ST S E A) (Q Q' : A -> S -> Prop) X :
  triple P m Q X -> (forall s, P' s -> P s) -> (forall a s, Q a s -> Q' a s) -> triple P' m Q' X.
Proof.
  intros Hm HP HQ s Hs. specialize (Hm s (HP s Hs)). destruct (m s) as [[a|e|] s']; auto.
Qed.

Lemma triple_ret {A} P (a : A) (Q : A -> S -> Prop) (X : E -> S -> Prop) :
  (forall s, P s -> Q a s) -> triple P (mret a) Q X.
Proof. intros HQ s Hs. by apply HQ. Qed.

Lemma triple_modify P f (Q : unit -> S -> Prop) (X : E -> S -> Prop) :
  (forall s, P s -> Q tt (f s)) -> triple P (modifyS f) Q X.
Proof. intros HQ s Hs. by apply HQ. Qed.

Lemma triple_throw {A} P e (Q : A -> S -> Prop) (X : E -> S -> Prop) :
  (forall s, P s -> X e s) -> triple P (throw e) Q X.
Proof. intros HX s Hs. by apply HX. Qed.

Lemma triple_get P (Q : S -> S -> Prop) (X : E -> S -> Prop) :
  (forall s, P s -> Q s s) -> triple P getS Q X.
Proof. intros HQ s Hs. by apply HQ. Qed.

(** Reading the state to choose what to do. *)
Lemma triple_get_bind {B} P (k : S -> ST S E B) Q X :
  (forall s0, P s0 -> triple (fun s => s = s0) (k s0) Q X) -> triple P (getS ≫= k) Q X.
Proof. intros Hk s Hs. unfold mbind, st_bind, getS. by apply Hk. Qed.

End Triples.
