(* ===== verification/BlockHashCache.v ===== *)
(** The cache of the hashes of the blocks that no proof of work covers yet
    ([app/src/block_hash_cache.rs]). A block's hash is appended on import; when
    an AuxPow block is imported the cache drops everything up to the end of the
    range that AuxPow covers. *)
From stdpp Require Import base decidable list.
From Stdlib Require Import ZArith Lia.
From S2P Require Import Prelude.

Module BlockHashCache.

Record t := mk { hashes : list hash }.

(** The error is the text [eyre!("Hash not found in cache")]. *)
Inductive error := HashNotFound.

Definition new (aggregate_hashes : option (list hash)) : t :=
  mk (default [] aggregate_hashes).

Definition init (hs : list hash) : ST t error unit := modifyS (fun _ => mk hs).

Definition add (h : hash) : ST t error unit :=
  modifyS (fun c => mk (hashes c ++ [h])).

Definition get (c : t) : list hash := hashes c.

Definition reset_with (h : hash) : ST t error unit :=
  c ← getS;
  match position (fun x => bool_decide (x = h)) (hashes c) with
  | Some index => modifyS (fun c => mk (drop (index + 1) (hashes c)))
  | None => throw HashNotFound
  end.

Definition len (c : t) : nat := length (hashes c).
Definition is_empty (c : t) : bool := bool_decide (hashes c = []).

(** ** Lemmas *)

Lemma reset_with_found pre h post :
  h ∉ pre ->
  reset_with h (mk (pre ++ h :: post)) = (Ok tt, mk post).
Proof.
  intros Hpre. unfold reset_with, getS, modifyS, mbind, st_bind; cbn.
  assert (position (fun x => bool_decide (x = h)) (pre ++ h :: post)
          = Some (length pre)) as ->.
  { apply position_Some. split.
    - exists h. rewrite list_lookup_middle by done. by rewrite bool_decide_true.
    - intros j x Hj Hx. rewrite lookup_app_l in Hx by done.
      apply bool_decide_false. intros ->. apply Hpre, list_elem_of_lookup. eauto. }
  do 2 f_equal. cbn. rewrite (cons_middle h pre post), (assoc_L app).
  by rewrite drop_app_length' by (rewrite length_app; simpl; lia).
Qed.

Lemma reset_with_inv h c c' :
  reset_with h c = (Ok tt, c') ->
  exists pre post, hashes c = pre ++ h :: post /\ ~ (h ∈ pre) /\ c' = mk post.
Proof.
  unfold reset_with, getS, modifyS, throw, mbind, st_bind.
  destruct (position _ (hashes c)) as [i|] eqn:E; [|done]. intros [= <-].
  apply position_Some in E as [(x & Hx & Hp) Hmin]. apply bool_decide_eq_true in Hp as ->.
  exists (take i (hashes c)), (drop (i + 1) (hashes c)). split_and!; [|intros Hin|done].
  - rewrite <-(take_drop_middle _ _ _ Hx) at 1. by rewrite Nat.add_1_r.
  - apply list_elem_of_lookup in Hin as [j Hj]. apply lookup_take_Some in Hj as [Hj Hlt].
    specialize (Hmin j h Hlt Hj). by rewrite bool_decide_true in Hmin.
Qed.

Lemma reset_with_missing h c :
  h ∉ hashes c -> reset_with h c = (Err HashNotFound, c).
Proof.
  intros Hh. unfold reset_with, getS, mbind, st_bind; cbn.
  assert (position (fun x => bool_decide (x = h)) (hashes c) = None) as ->; [|done].
  apply position_None, Forall_forall. intros x Hx. apply bool_decide_false.
  by intros ->.
Qed.

End BlockHashCache.
