(* ===== verification/Bitcoin.v ===== *)
(** The Bitcoin data the node handles, with the fields the sources read and
    write, and the interface of the [bitcoin] crate: its functions are not part
    of the repository, so they are operations of a class whose instances are
    arguments of every model that uses them. *)
From stdpp Require Import base decidable list countable.
From Stdlib Require Import ZArith.
From S2P Require Import Prelude.

(** A script, a witness item: raw bytes. *)
Abbreviation bytes := (list Z).

Record OutPoint := mkOutPoint { op_txid : hash; vout : Z }.

Record TxIn := mkTxIn {
  previous_output : OutPoint;
  script_sig : bytes;
  sequence : Z;
  witness : list bytes;
}.

Record TxOut := mkTxOut { value : Z; script_pubkey : bytes }.

Record Transaction := mkTransaction {
  version : Z;
  lock_time : Z;
  input : list TxIn;
  output : list TxOut;
}.

(** A Bitcoin block header; [h_version] is an [i32]. *)
Record Header := mkHeader {
  h_version : Z;
  prev_blockhash : hash;
  merkle_root : hash;
  time : Z;
  bits : Z;
  nonce : Z;
}.

#[global] Instance OutPoint_eq_dec : EqDecision OutPoint.
Proof. solve_decision. Defined.
#[global] Instance TxIn_eq_dec : EqDecision TxIn.
Proof. solve_decision. Defined.
#[global] Instance TxOut_eq_dec : EqDecision TxOut.
Proof. solve_decision. Defined.
#[global] Instance Transaction_eq_dec : EqDecision Transaction.
Proof. solve_decision. Defined.
#[global] Instance Header_eq_dec : EqDecision Header.
Proof. solve_decision. Defined.

#[global] Instance OutPoint_countable : Countable OutPoint.
Proof.
  refine (inj_countable' (fun o => (op_txid o, vout o))
            (fun p => mkOutPoint p.1 p.2) _). by intros [].
Defined.

(** [TxOut::default()]: the value [0xffff_ffff_ffff_ffff] and an empty script. *)
Definition TxOut_default : TxOut := mkTxOut (2 ^ 64 - 1) [].

(** The functions of the [bitcoin] crate the node calls. [sha256d] is the
    double hash of the bytes an engine was fed; [header_hash] is
    [Header::block_hash]; [target_from_compact] and [is_met_by] are
    [Target::from_compact] and [Target::is_met_by]; [push_instructions] gives
    the pushed bytes of the instructions of a script ([None] for an opcode that
    pushes nothing), up to the first malformed one. *)
Class BitcoinLib := {
  sha256d : bytes -> hash;
  txid : Transaction -> hash;
  header_hash : Header -> hash;
  target_from_compact : Z -> Z;
  is_met_by : Z -> hash -> bool;
  push_instructions : bytes -> list (option bytes);
}.

(** What a caller may rely on: hashes are 32 bytes. *)
Class BitcoinLaws (B : BitcoinLib) := {
  sha256d_len b : length (sha256d b) = 32%nat;
  txid_len tx : length (txid tx) = 32%nat;
}.

(** Two different inputs of the hash function with the same output: what an
    argument about hashes has to exhibit instead of assuming injectivity. *)
Definition collision {B : BitcoinLib} : Prop :=
  exists x y : bytes, x <> y /\ sha256d x = sha256d y.

(** A small instance, for evaluating the models on concrete inputs: the "hash"
    of some bytes is a polynomial in them modulo 2^60, a transaction is identified by
    its output values and scripts, a header by its nonce, and a target is met
    by the hashes not above it. *)
Module ExampleLib.

Definition digest (b : bytes) : hash :=
  to_le_bytes 32 (foldl (fun acc x => Z.land (acc * 16 + acc + x + 1) (Z.ones 60)) 0 b).

Definition tx_bytes (tx : Transaction) : bytes :=
  concat (map (fun i => op_txid (previous_output i) ++ [vout (previous_output i)]) (input tx))
  ++ concat (map (fun o => to_le_bytes 8 (value o) ++ script_pubkey o) (output tx)).

Definition lib : BitcoinLib := {|
  sha256d := digest;
  txid tx := digest (tx_bytes tx);
  header_hash h := to_le_bytes 32 (nonce h);
  target_from_compact b := b;
  is_met_by t h := from_le_bytes h <=? t;
  push_instructions s := [Some s];
|}.

Lemma bitcoin_laws : BitcoinLaws lib.
Proof. split; intros; apply to_le_bytes_length. Qed.

End ExampleLib.
