(* ===== verification/Errors.v ===== *)
(** The error types of the node ([app/src/error.rs]), of consensus
    ([app/src/aura.rs]) and of the bridge ([crates/federation/src/lib.rs]).
    Payloads that are error values or messages of other libraries are left out;
    the constructors are the sources'. *)
From stdpp Require Import base decidable.
From Stdlib Require Import ZArith.
From S2P Require Import Prelude.

Inductive AuraError := SlotIsInFuture | SlotAuthorNotFound | BadSignature.

Inductive BlockErrorBlockTypes :=
| LastFinalized
| Head
| PreviousHead
| GenericHash (h : hash)
| Height (n : Z)
| Genesis
| AuxPowFirst
| AuxPowLast.

Inductive AuxPowMiningError :=
| UnknownError
| HashRetrievalError (b : BlockErrorBlockTypes)
| NoWorkToDo.

Inductive ChainError_ :=
| AuxPowMiningError_ (e : AuxPowMiningError)
| BlockRetrievalError (b : BlockErrorBlockTypes).

Module Fed.

Inductive Error :=
| ParsingError
| DbError
| UnknownOrSpentInput
| InvalidNumberOfSignatures
| MissingSignature
| TxidNotFound
| BitcoinError
| IncorrectSignature
| InvalidWitnessLength
| InvalidWitnessScript
| MissingPegoutProposal
| InvalidPegoutOutput
| InvalidPegoutOutputCount
| FeesExceedPegoutValue
| InvalidChangeOutput
| UnspendableInput
| InvalidTransactionHeader
| InsufficientConfirmations (n : Z)
| NotAPegin
| BitcoinBlockNotFound (h : hash)
| RpcError.

End Fed.

Inductive Error :=
| PayloadIdUnavailable
| InvalidBlockHash
| DbReadError
| ExecutionLayerError
| EngineApiError
| TimeError
| AuraError_ (e : AuraError)
| FederationError (e : Fed.Error)
| ExecutionHashChainIncontiguous
| MissingParent
| InvalidSignature
| UnknownAuthority
| CandidateCacheError
| CodecError
| InvalidPowRange
| InvalidBlockRange
| StorageError
| MissingRequiredPow
| MissingBlock
| ProcessGenesis
| UnknownWithdrawal
| PegInAlreadyIncluded
| IllegalFinalization
| InvalidBlock
| InvalidPow
| ChainSyncing
| ChainError (e : ChainError_)
| MaxRetriesExceeded
| RpcRequestFailed
| GenericError.

#[global] Instance BlockErrorBlockTypes_eq_dec : EqDecision BlockErrorBlockTypes.
Proof. solve_decision. Defined.
#[global] Instance Fed_Error_eq_dec : EqDecision Fed.Error.
Proof. solve_decision. Defined.
#[global] Instance AuxPowMiningError_eq_dec : EqDecision AuxPowMiningError.
Proof. solve_decision. Defined.
#[global] Instance ChainError_eq_dec : EqDecision ChainError_.
Proof. solve_decision. Defined.
#[global] Instance AuraError_eq_dec : EqDecision AuraError.
Proof. solve_decision. Defined.
#[global] Instance Error_eq_dec : EqDecision Error.
Proof. solve_decision. Defined.
