(* ===== verification/AuxPow.v ===== *)
(** Auxiliary proof of work: Merkle branches, the merged-mining header in the
    parent coinbase, the check of a submitted AuxPow and the built-in miner
    ([app/src/auxpow.rs]). *)
From stdpp Require Import base decidable list.
From Stdlib Require Import ZArith Lia.
From S2P Require Import Prelude Bitcoin.

Module AuxPow.

Definition MERGED_MINING_HEADER : bytes := [250; 190; 109; 109].
Definition MERGED_MINING_HEADER_LENGTH : nat := 44.

Inductive AuxPowError :=
| MultipleHeaders
| MissingHeader
| InvalidBlockHash
| InvalidSlice
| ParentHasChainId
| MerkleBranchTooLong
| MerkleRootIncorrect
| CoinbaseNoInputs
| CoinbaseInvalidOutputs
| MissingMerkleRoot
| InvalidMerkleSize
| WrongIndex.

Abbreviation result A := (res AuxPowError A).

Record MerkleBranch := mkBranch {
  branch_hash : list hash;
  branch_side_mask : Z;
}.

Record MergedMiningHeader := mkMMH {
  magic : bytes;
  block_hash : hash;
  merkle_size : Z;
  merkle_nonce : Z;
}.

(** The AuxPow of a block; the hash of the parent header, [auxpow_block_hash],
    is carried but not used. *)
Record t := mk {
  coinbase_txn : Transaction;
  auxpow_block_hash : hash;
  coinbase_branch : MerkleBranch;
  blockchain_branch : MerkleBranch;
  parent_block : Header;
}.

#[global] Instance MerkleBranch_eq_dec : EqDecision MerkleBranch.
Proof. solve_decision. Defined.
#[global] Instance t_eq_dec : EqDecision t.
Proof. solve_decision. Defined.

Section WithBitcoin.
Context `{B : BitcoinLib}.

(** [SHA256D(left + right)]. *)
Definition parent_hash (left right : hash) : hash := sha256d (left ++ right).

(** One level of the climb: bit [n] of the mask puts the sibling on the left.
    The shift [b >> n] is on [u32]. *)
Definition branch_step (b : Z) (n : nat) (sibling h : hash) : result hash :=
  s ← shr_chk 32 b (Z.of_nat n);
  Ok (if Z.land s 1 =? 1 then parent_hash sibling h else parent_hash h sibling).

Fixpoint climb (b : Z) (n : nat) (l : list hash) (h : hash) : result hash :=
  match l with
  | [] => Ok h
  | sibling :: l' => h' ← branch_step b n sibling h; climb b (S n) l' h'
  end.

Definition check_merkle_branch (br : MerkleBranch) (h : hash) : result hash :=
  climb (branch_side_mask br) 0 (branch_hash br) h.

(** The 44 bytes after the magic, decoded: [header[4..36]] reversed, then two
    little-endian [u32]s. *)
Definition decode_header (header : bytes) : MergedMiningHeader :=
  mkMMH (slice 0 4 header) (reverse (slice 4 36 header))
        (from_le_bytes (slice 36 40 header)) (from_le_bytes (slice 40 44 header)).

(** The loop over the instructions of a [script_sig]: at most one pushed item
    of the right length and magic. *)
Fixpoint find_header (l : list (option bytes)) (header : option bytes) :
    result (option bytes) :=
  match l with
  | [] => Ok header
  | Some b :: l' =>
      if bool_decide (length b = MERGED_MINING_HEADER_LENGTH)
         && bool_decide (slice 0 4 b = MERGED_MINING_HEADER)
      then match header with
           | Some _ => Err MultipleHeaders
           | None => find_header l' (Some b)
           end
      else find_header l' header
  | None :: l' => find_header l' header
  end.

Definition from_script_sig (script : bytes) : result MergedMiningHeader :=
  header ← find_header (push_instructions script) None;
  header ← ok_or header MissingHeader;
  Ok (decode_header header).

Definition from_script_pub_key (script : bytes) (root_hash : hash) :
    result MergedMiningHeader :=
  if negb (bool_decide (length script = MERGED_MINING_HEADER_LENGTH))
  then Err MissingHeader
  else if negb (bool_decide (slice 0 4 script = MERGED_MINING_HEADER))
  then Err MissingHeader
  else if negb (bool_decide (reverse (slice 4 36 script) = root_hash))
  then Err MissingMerkleRoot
  else Ok (decode_header script).

Definition to_script_pub_key (h : MergedMiningHeader) : bytes :=
  magic h ++ block_hash h ++ to_le_bytes 4 (merkle_size h) ++ to_le_bytes 4 (merkle_nonce h).

(** The two implementations of the trait [CoinbaseParser]. *)
Definition parse_coinbase_vin (tx : Transaction) (_ : hash) : result MergedMiningHeader :=
  match input tx with
  | [] => Err CoinbaseNoInputs
  | i :: _ => from_script_sig (script_sig i)
  end.

Definition parse_coinbase_vout (tx : Transaction) (root_hash : hash) :
    result MergedMiningHeader :=
  o2 ← ok_or (output tx !! 2%nat) CoinbaseInvalidOutputs;
  match from_script_pub_key (script_pubkey o2) root_hash with
  | Ok header => Ok header
  | Err _ =>
      o3 ← ok_or (output tx !! 3%nat) CoinbaseInvalidOutputs;
      from_script_pub_key (script_pubkey o3) root_hash
  | Panic => Panic
  end.

(** The version is an [i32]; [as u32] keeps its bits. *)
Definition get_parent_chain_id (a : t) : Z := wrap 32 (h_version (parent_block a)) / 2 ^ 16.

(** The commitment to a range of blocks: the hash of their hashes in order. *)
Definition aggregate_hash (hashes : list hash) : hash := sha256d (concat hashes).

Definition get_expected_index (nonce chain_id : Z) (h : nat) : result Z :=
  m ← shl_chk 64 1 (Z.of_nat h);
  r ← mul_chk 64 nonce 1103515245;
  r ← add_chk 64 r 12345;
  r ← rem_chk r m;
  r ← add_chk 64 r chain_id;
  r ← mul_chk 64 r 1103515245;
  r ← add_chk 64 r 12345;
  rem_chk r m.

(** [_check::<C>], [parse] being [C::parse_coinbase]. *)
Definition check_with (parse : Transaction -> hash -> result MergedMiningHeader)
    (a : t) (hash_aux_block : hash) (chain_id : Z) : result unit :=
  if get_parent_chain_id a =? chain_id then Err ParentHasChainId
  else if (30 <? length (branch_hash (blockchain_branch a)))%nat
  then Err MerkleBranchTooLong
  else
    n_root_hash ← check_merkle_branch (blockchain_branch a) hash_aux_block;
    let vch_root_hash := reverse n_root_hash in
    coinbase_root ← check_merkle_branch (coinbase_branch a) (txid (coinbase_txn a));
    if negb (bool_decide (coinbase_root = merkle_root (parent_block a)))
    then Err MerkleRootIncorrect
    else
      header ← parse (coinbase_txn a) vch_root_hash;
      if negb (bool_decide (block_hash header = vch_root_hash))
      then Err MissingMerkleRoot
      else
        let merkle_height := length (branch_hash (blockchain_branch a)) in
        size ← shl_chk 32 1 (Z.of_nat merkle_height);
        if negb (merkle_size header =? size) then Err InvalidMerkleSize
        else
          index ← get_expected_index (merkle_nonce header) chain_id merkle_height;
          if negb (branch_side_mask (blockchain_branch a) =? index)
          then Err WrongIndex
          else Ok tt.

Definition check (a : t) (hash_aux_block : hash) (chain_id : Z) : result unit :=
  check_with parse_coinbase_vout a hash_aux_block chain_id.

Definition check_proof_of_work (a : t) (cbits : Z) : bool :=
  is_met_by (target_from_compact cbits) (header_hash (parent_block a)).

(** ** The built-in miner *)

Definition mine_transaction (sidechain_hash : hash) : Transaction :=
  mkTransaction 0 0 []
    [TxOut_default; TxOut_default;
     mkTxOut 0 (to_script_pub_key (mkMMH MERGED_MINING_HEADER sidechain_hash 1 0))].

(** The candidate with a given nonce; the parent chain id is 1. *)
Definition mine_candidate (sidechain_hash : hash) (n : Z) : t :=
  let tx := mine_transaction sidechain_hash in
  mk tx zero_hash (mkBranch [] 0) (mkBranch [] 0)
     (mkHeader (1 * 2 ^ 16) zero_hash (txid tx) 0 0 n).

(** [for nonce in nonce0 .. nonce0 + fuel]; running out of nonces panics. *)
Fixpoint mine_loop (fuel : nat) (n : Z) (sidechain_hash : hash) (target chain_id : Z) :
    result t :=
  match fuel with
  | O => Panic
  | S fuel' =>
      let a := mine_candidate sidechain_hash n in
      if check_proof_of_work a target
      then unwrap_res (check a sidechain_hash chain_id) ;; Ok a
      else mine_loop fuel' (n + 1) sidechain_hash target chain_id
  end.

(** [0 .. u32::MAX] excludes the last nonce. *)
Definition mine (sidechain_hash : hash) (target chain_id : Z) : result t :=
  mine_loop (Z.to_nat (2 ^ 32 - 1)) 0 sidechain_hash target chain_id.

(** ** Merkle branches against a reference tree *)

(** A binary hash tree, its root, and the leaf and the sibling hashes (bottom
    up) that the bits of an index select, most significant bit first. *)
Inductive tree := Leaf (h : hash) | Node (l r : tree).

Fixpoint tree_root (t : tree) : hash :=
  match t with Leaf h => h | Node l r => parent_hash (tree_root l) (tree_root r) end.

Fixpoint proof_for (d : nat) (t : tree) (i : Z) : option (hash * list hash) :=
  match d, t with
  | O, Leaf h => Some (h, [])
  | S d', Node l r =>
      let (near, far) := if Z.testbit i (Z.of_nat d') then (r, l) else (l, r) in
      '(h, sib) ← proof_for d' near i; Some (h, sib ++ [tree_root far])
  | _, _ => None
  end.

Lemma land_1_testbit b n :
  0 <= n -> (Z.land (Z.shiftr b n) 1 =? 1) = Z.testbit b n.
Proof.
  intros Hn. change 1 with (Z.ones 1) at 1. rewrite Z.land_ones by lia.
  rewrite Z.shiftr_div_pow2 by done. change (2 ^ 1) with 2.
  pose proof (Z.testbit_spec' b n Hn) as Ht.
  rewrite <-Ht. by destruct (Z.testbit b n).
Qed.

Lemma branch_step_small b n sibling h :
  (n < 32)%nat ->
  branch_step b n sibling h =
  Ok (if Z.testbit b (Z.of_nat n) then parent_hash sibling h else parent_hash h sibling).
Proof.
  intros Hn. unfold branch_step, shr_chk.
  replace (Z.of_nat n <? 32) with true by lia. unfold mbind, res_bind.
  by rewrite land_1_testbit by lia.
Qed.

Lemma climb_app b n l1 l2 h :
  climb b n (l1 ++ l2) h = climb b n l1 h ≫= climb b (n + length l1) l2.
Proof.
  revert n h. induction l1 as [|x l1 IH]; intros n h; simpl.
  { by rewrite Nat.add_0_r. }
  unfold mbind, res_bind. destruct (branch_step b n x h); [|done..].
  rewrite IH. by rewrite Nat.add_succ_r.
Qed.

Lemma proof_for_length d t i h sib :
  proof_for d t i = Some (h, sib) -> length sib = d.
Proof.
  revert t h sib. induction d as [|d IH]; intros [h0|l r] h sib; simpl; try done.
  { by intros [= <- <-]. }
  destruct (if Z.testbit _ _ then _ else _) as [near far] eqn:E.
  intros H. apply bind_Some in H as ([h' sib'] & H & [= <- <-]).
  rewrite length_app. simpl. apply IH in H. lia.
Qed.

Lemma climb_proof d t i h sib :
  (d <= 32)%nat -> proof_for d t i = Some (h, sib) -> climb i 0 sib h = Ok (tree_root t).
Proof.
  revert t h sib. induction d as [|d IH]; intros [h0|l r] h sib Hd; simpl; try done.
  { by intros [= <- <-]. }
  destruct (Z.testbit i (Z.of_nat d)) eqn:Hb; intros H;
    apply bind_Some in H as ([h' sib'] & H & [= <- <-]);
    rewrite climb_app, (IH _ _ _ ltac:(lia) H); apply proof_for_length in H;
    unfold mbind, res_bind; cbn [climb];
    rewrite Nat.add_0_l, H, branch_step_small, Hb by lia; done.
Qed.

(** Equal roots under one mask come from equal leaves and siblings, or two
    hash inputs collide. *)
Lemma parent_hash_inj x y x' y' :
  length x = length x' -> parent_hash x y = parent_hash x' y' ->
  (x = x' /\ y = y') \/ collision.
Proof.
  intros Hl H. destruct (decide (x ++ y = x' ++ y')) as [E|E].
  - left. by apply app_inj_1 in E.
  - right. by exists (x ++ y), (x' ++ y').
Qed.

Lemma climb_len `{!BitcoinLaws B} b n l h r :
  climb b n l h = Ok r -> length h = 32%nat -> length r = 32%nat.
Proof.
  revert n h. induction l as [|x l IH]; intros n h; simpl.
  { by intros [= <-]. }
  intros H Hh. inv_res. eapply IH; [done|]. unfold branch_step in *.
  inv_res; apply sha256d_len.
Qed.

Lemma climb_binding `{!BitcoinLaws B} b n l l' h h' r :
  Forall (fun x => length x = 32%nat) l -> Forall (fun x => length x = 32%nat) l' ->
  length h = 32%nat -> length h' = 32%nat -> length l = length l' ->
  climb b n l h = Ok r -> climb b n l' h' = Ok r ->
  (h = h' /\ l = l') \/ collision.
Proof.
  revert n l' h h'. induction l as [|x l IH]; intros n [|x' l'] h h' Hl Hl' Hh Hh' Hlen;
    simpl in *; try done.
  { intros [= <-] [= <-]. by left. }
  intros H H'. apply Forall_cons in Hl as [Hx Hl], Hl' as [Hx' Hl'].
  unfold mbind, res_bind in *.
  destruct (branch_step b n x h) as [y| |] eqn:E; try done.
  destruct (branch_step b n x' h') as [y'| |] eqn:E'; try done.
  unfold branch_step, shr_chk, mbind, res_bind in E, E'.
  destruct (Z.of_nat n <? 32); try done. injection E as <-. injection E' as <-.
  case_match;
    (destruct (IH (S n) l' _ _ Hl Hl' (sha256d_len _) (sha256d_len _) ltac:(lia) H H')
      as [[E ->]|?]; [|by right]);
    apply parent_hash_inj in E; naive_solver congruence.
Qed.

(** ** The merged-mining header *)

Lemma to_script_length h :
  length (magic h) = 4%nat -> length (block_hash h) = 32%nat ->
  length (to_script_pub_key h) = MERGED_MINING_HEADER_LENGTH.
Proof.
  intros Hm Hb. unfold to_script_pub_key.
  rewrite !length_app, !to_le_bytes_length. unfold MERGED_MINING_HEADER_LENGTH. lia.
Qed.

(** The four fields of a script of the shape the miner writes. *)
Lemma slice_script (m b s n : bytes) :
  length m = 4%nat -> length b = 32%nat -> length s = 4%nat -> length n = 4%nat ->
  slice 0 4 (m ++ b ++ s ++ n) = m /\ slice 4 36 (m ++ b ++ s ++ n) = b /\
  slice 36 40 (m ++ b ++ s ++ n) = s /\ slice 40 44 (m ++ b ++ s ++ n) = n.
Proof.
  intros Hm Hb Hs Hn. repeat split.
  - by apply slice_app_l.
  - change 36%nat with (4 + 32)%nat. rewrite slice_app_r by done. by apply slice_app_l.
  - rewrite (assoc_L app m). change 40%nat with (36 + 4)%nat.
    rewrite slice_app_r by (rewrite length_app; lia). by apply slice_app_l.
  - rewrite (assoc_L app m), (assoc_L app (m ++ b)). change 44%nat with (40 + 4)%nat.
    rewrite slice_app_r by (rewrite !length_app; lia).
    pose proof (slice_app_l n [] 4 Hn) as E. by rewrite app_nil_r in E.
Qed.

Lemma script_split (s : bytes) :
  length s = 44%nat ->
  s = slice 0 4 s ++ slice 4 36 s ++ slice 36 40 s ++ slice 40 44 s.
Proof.
  intros Hs. unfold slice. simpl (_ - _)%nat. rewrite drop_0.
  rewrite <-(take_drop 4 s) at 1. f_equal.
  rewrite <-(take_drop 32 (drop 4 s)) at 1. f_equal. rewrite drop_drop. simpl.
  rewrite <-(take_drop 4 (drop 36 s)) at 1. f_equal. rewrite drop_drop. simpl.
  symmetry. apply take_ge. rewrite length_drop. lia.
Qed.

(** A script accepted for a root carries the root's bytes in reverse. *)
Lemma from_script_pub_key_inv s root h :
  from_script_pub_key s root = Ok h ->
  block_hash h = root /\
  exists sz nn, s = MERGED_MINING_HEADER ++ reverse root ++ sz ++ nn /\
    length sz = 4%nat /\ length nn = 4%nat /\
    merkle_size h = from_le_bytes sz /\ merkle_nonce h = from_le_bytes nn.
Proof.
  unfold from_script_pub_key. intros H.
  repeat (case_match; [done|]). injection H as <-.
  match goal with H1 : negb _ = false, H2 : negb _ = false, H3 : negb _ = false |- _ =>
    apply negb_false_iff, bool_decide_eq_true in H1, H2, H3;
    rename H1 into Hl, H2 into Hm, H3 into Hr end.
  split; [done|]. exists (slice 36 40 s), (slice 40 44 s).
  rewrite (script_split s Hl) at 1. rewrite Hm, <-Hr, reverse_involutive.
  unfold MERGED_MINING_HEADER_LENGTH in Hl. unfold slice.
  repeat split; rewrite length_take, length_drop; lia.
Qed.

Lemma from_script_pub_key_shape (root sz nn : bytes) :
  length root = 32%nat -> length sz = 4%nat -> length nn = 4%nat ->
  from_script_pub_key (MERGED_MINING_HEADER ++ root ++ sz ++ nn) (reverse root)
  = Ok (mkMMH MERGED_MINING_HEADER (reverse root) (from_le_bytes sz) (from_le_bytes nn)).
Proof.
  intros Hr Hs Hn.
  destruct (slice_script MERGED_MINING_HEADER root sz nn eq_refl Hr Hs Hn)
    as (E1 & E2 & E3 & E4).
  unfold from_script_pub_key, decode_header. rewrite E1, E2, E3, E4.
  rewrite !bool_decide_true by
    (rewrite ?length_app; unfold MERGED_MINING_HEADER_LENGTH; simpl; lia || done).
  done.
Qed.

(** ** The expected index *)

Lemma get_expected_index_bound n c h :
  0 <= n < 2 ^ 32 -> 0 <= c < 2 ^ 32 -> (h <= 30)%nat ->
  exists i, get_expected_index n c h = Ok i /\ 0 <= i < 2 ^ Z.of_nat h.
Proof.
  intros Hn Hc Hh. unfold get_expected_index, shl_chk.
  assert (1 <= 2 ^ Z.of_nat h <= 2 ^ 30) as Hp.
  { split; [apply Z.lt_pred_le, Z.pow_pos_nonneg; lia|apply Z.pow_le_mono_r; lia]. }
  replace (Z.of_nat h <? 64) with true by lia.
  rewrite Z.shiftl_mul_pow2, Z.mul_1_l, wrap_small by lia. cbn [mbind res_bind].
  unfold mbind, res_bind.
  rewrite mul_chk_ok, add_chk_ok by lia. unfold rem_chk.
  replace (2 ^ Z.of_nat h =? 0) with false by lia.
  pose proof (Z.mod_pos_bound (n * 1103515245 + 12345) (2 ^ Z.of_nat h) ltac:(lia)).
  rewrite !add_chk_ok, mul_chk_ok, add_chk_ok by nia.
  eexists. split; [done|]. apply Z.mod_pos_bound. lia.
Qed.

(** ** The check *)

Lemma parse_coinbase_vout_inv tx root h :
  parse_coinbase_vout tx root = Ok h ->
  exists k o, (k = 2%nat \/ k = 3%nat) /\ output tx !! k = Some o /\
    from_script_pub_key (script_pubkey o) root = Ok h.
Proof.
  unfold parse_coinbase_vout, ok_or. intros H. inv_res; naive_solver.
Qed.

Lemma climb_ok b n l h :
  (n + length l <= 32)%nat -> exists r, climb b n l h = Ok r.
Proof.
  revert n h. induction l as [|x l IH]; intros n h Hn; simpl in *; [by eexists|].
  rewrite branch_step_small by lia. apply IH. lia.
Qed.

Lemma climb_too_long b n l h :
  (n <= 32)%nat -> (32 < n + length l)%nat -> climb b n l h = Panic.
Proof.
  revert n h. induction l as [|x l IH]; intros n h Hn Hl; simpl in *; [lia|].
  destruct (decide (n = 32%nat)) as [->|Hne]; [done|].
  rewrite branch_step_small by lia. apply IH; lia.
Qed.

Lemma from_script_pub_key_not_panic s root : from_script_pub_key s root <> Panic.
Proof. unfold from_script_pub_key. by repeat case_match. Qed.

Lemma parse_coinbase_vout_not_panic tx root : parse_coinbase_vout tx root <> Panic.
Proof.
  unfold parse_coinbase_vout, ok_or, mbind, res_bind. intros H.
  repeat case_match; simplify_eq/=;
    match goal with H : from_script_pub_key _ _ = Panic |- _ =>
      by apply from_script_pub_key_not_panic in H end.
Qed.

(** The scripts of a transaction are byte strings. *)
Definition scripts_wf (tx : Transaction) : Prop :=
  Forall (fun o => Forall (fun b => is_byte b = true) (script_pubkey o)) (output tx).

Lemma from_le_bytes_bound l :
  Forall (fun b => is_byte b = true) l -> 0 <= from_le_bytes l < 256 ^ Z.of_nat (length l).
Proof.
  induction 1 as [|b l Hb Hl IH]; [done|]. apply in_width_spec in Hb.
  cbn [from_le_bytes length]. rewrite Nat2Z.inj_succ, Z.pow_succ_r by lia. lia.
Qed.

Lemma parsed_nonce_bound tx root h :
  scripts_wf tx -> parse_coinbase_vout tx root = Ok h -> 0 <= merkle_nonce h < 2 ^ 32.
Proof.
  intros Hwf (k & o & _ & Ho & Hs)%parse_coinbase_vout_inv.
  apply from_script_pub_key_inv in Hs as (_ & sz & nn & Hs & _ & Hn & _ & ->).
  assert (Forall (fun b => is_byte b = true) nn) as Hb.
  { eapply Forall_lookup_1 in Hwf; [|done]. cbn in Hwf. rewrite Hs in Hwf.
    rewrite !Forall_app in Hwf. by destruct_and! Hwf. }
  apply from_le_bytes_bound in Hb. by rewrite Hn in Hb.
Qed.

(** The check of an AuxPow with well-formed fields panics on exactly one kind
    of input. *)
Lemma check_panic a h cid :
  scripts_wf (coinbase_txn a) -> 0 <= cid < 2 ^ 32 ->
  check a h cid = Panic <->
  get_parent_chain_id a <> cid /\ (length (branch_hash (blockchain_branch a)) <= 30)%nat /\
  (32 < length (branch_hash (coinbase_branch a)))%nat.
Proof.
  intros Hwf Hcid. unfold check, check_with, check_merkle_branch.
  destruct (Z.eqb_spec (get_parent_chain_id a) cid); [split; [done|naive_solver]|].
  destruct (Nat.ltb_spec 30 (length (branch_hash (blockchain_branch a))));
    [split; [done|lia]|].
  destruct (climb_ok (branch_side_mask (blockchain_branch a)) 0
              (branch_hash (blockchain_branch a)) h ltac:(lia)) as [root ->].
  unfold mbind, res_bind.
  destruct (decide (32 < length (branch_hash (coinbase_branch a)))%nat) as [Hl|Hl].
  { by rewrite climb_too_long by lia. }
  split; [|naive_solver]. intros Hp. exfalso. revert Hp.
  destruct (climb_ok (branch_side_mask (coinbase_branch a)) 0
              (branch_hash (coinbase_branch a)) (txid (coinbase_txn a)) ltac:(lia)) as [croot ->].
  case_match; [done|].
  destruct (parse_coinbase_vout _ _) as [hdr| |] eqn:E; [|done|by apply parse_coinbase_vout_not_panic in E].
  case_match; [done|]. unfold shl_chk.
  replace (Z.of_nat (length (branch_hash (blockchain_branch a))) <? 32) with true by lia.
  case_match; [done|].
  destruct (get_expected_index_bound (merkle_nonce hdr) cid
             (length (branch_hash (blockchain_branch a)))) as (i & -> & _);
    [by eapply parsed_nonce_bound|done|done|]. by case_match.
Qed.

(** ** The miner *)

Lemma mine_candidate_check sidechain_hash n cid :
  length sidechain_hash = 32%nat -> 0 <= cid < 2 ^ 32 -> cid <> 1 ->
  check (mine_candidate sidechain_hash n) sidechain_hash cid = Ok tt.
Proof.
  intros Hl Hc H1. unfold check, check_with.
  change (get_parent_chain_id _) with 1. replace (1 =? cid) with false by lia.
  cbn [mine_candidate blockchain_branch coinbase_branch coinbase_txn parent_block
       branch_hash branch_side_mask check_merkle_branch climb length merkle_root Nat.ltb
       Nat.leb].
  unfold mbind, res_bind. rewrite bool_decide_true by done. cbn [negb].
  assert (parse_coinbase_vout (mine_transaction sidechain_hash) (reverse sidechain_hash)
          = Ok (mkMMH MERGED_MINING_HEADER (reverse sidechain_hash) 1 0)) as ->.
  { unfold parse_coinbase_vout, mbind, res_bind.
    change (output _ !! 2%nat) with (Some (mkTxOut 0 (to_script_pub_key
      (mkMMH MERGED_MINING_HEADER sidechain_hash 1 0)))).
    cbn [ok_or script_pubkey]. unfold to_script_pub_key.
    cbn [magic block_hash merkle_size merkle_nonce].
    by rewrite from_script_pub_key_shape. }
  cbn [block_hash]. rewrite bool_decide_true by done. cbn [negb merkle_size merkle_nonce].
  destruct (get_expected_index_bound 0 cid 0 ltac:(lia) Hc ltac:(lia)) as (i & E & Hi).
  change (shl_chk 32 1 (Z.of_nat 0)) with (Ok (E:=AuxPowError) 1). rewrite E.
  assert (i = 0) as -> by (change (2 ^ Z.of_nat 0) with 1 in Hi; lia). done.
Qed.

Lemma mine_loop_finds k fuel n sidechain_hash target cid :
  length sidechain_hash = 32%nat -> 0 <= cid < 2 ^ 32 -> cid <> 1 ->
  (k < fuel)%nat ->
  check_proof_of_work (mine_candidate sidechain_hash (n + Z.of_nat k)) target = true ->
  exists a, mine_loop fuel n sidechain_hash target cid = Ok a /\
    check_proof_of_work a target = true /\ check a sidechain_hash cid = Ok tt.
Proof.
  intros Hl Hc H1. revert fuel n.
  induction k as [|k IH]; intros [|fuel] n Hk Hp; try lia; cbn [mine_loop].
  - rewrite Z.add_0_r in Hp. rewrite Hp, mine_candidate_check by done.
    eexists. split; [done|]. split; [done|]. by apply mine_candidate_check.
  - case_match eqn:E.
    + rewrite mine_candidate_check by done. eexists. split; [done|]. split; [done|].
      by apply mine_candidate_check.
    + apply IH; [lia|]. by replace (n + 1 + Z.of_nat k) with (n + Z.of_nat (S k)) by lia.
Qed.

(** ** What an accepted AuxPow certifies *)

(** Output [o] carries a merged-mining header for the chain-tree root [root]
    with the size of a tree of height [height] and a nonce [nn]. *)
Definition carries (o : TxOut) (root : hash) (height : nat) (nn : Z) : Prop :=
  exists nb, length nb = 4%nat /\ nn = from_le_bytes nb /\ exists sz,
    length sz = 4%nat /\ from_le_bytes sz = 2 ^ Z.of_nat height /\
    script_pubkey o = MERGED_MINING_HEADER ++ root ++ sz ++ nb.

(** The AuxPow binds the aux block hash [h] to the work of its parent header. *)
Record certifies (a : t) (h : hash) (cid : Z) : Prop := {
  cert_chain : get_parent_chain_id a <> cid;
  cert_height : (length (branch_hash (blockchain_branch a)) <= 30)%nat;
  cert_coinbase :
    check_merkle_branch (coinbase_branch a) (txid (coinbase_txn a))
    = Ok (merkle_root (parent_block a));
  cert_commit : exists k o root nn,
    (k = 2%nat \/ k = 3%nat) /\ output (coinbase_txn a) !! k = Some o /\
    check_merkle_branch (blockchain_branch a) h = Ok root /\
    carries o root (length (branch_hash (blockchain_branch a))) nn /\
    get_expected_index nn cid (length (branch_hash (blockchain_branch a)))
    = Ok (branch_side_mask (blockchain_branch a));
}.

Lemma shl_1_small (h : nat) : (h <= 30)%nat ->
  shl_chk (E:=AuxPowError) 32 1 (Z.of_nat h) = Ok (2 ^ Z.of_nat h).
Proof.
  intros Hh. unfold shl_chk. replace (Z.of_nat h <? 32) with true by lia.
  rewrite Z.shiftl_mul_pow2, Z.mul_1_l, wrap_small by
    first [lia | split; [lia|apply Z.pow_lt_mono_r; lia]]. done.
Qed.

Lemma check_inv a h cid : check a h cid = Ok tt -> certifies a h cid.
Proof.
  unfold check, check_with. intros H.
  destruct (Z.eqb_spec (get_parent_chain_id a) cid); [done|].
  destruct (Nat.ltb_spec 30 (length (branch_hash (blockchain_branch a)))); [done|].
  rewrite shl_1_small in H by lia. unfold mbind, res_bind in H.
  repeat (case_match; try done).
  rewrite !negb_false_iff, ?bool_decide_eq_true, ?Z.eqb_eq in *. subst.
  match goal with H : parse_coinbase_vout _ _ = _ |- _ =>
    apply parse_coinbase_vout_inv in H as (k & o & Hk & Ho & Hs) end.
  apply from_script_pub_key_inv in Hs as (_ & sz & nb & Hs & Hsz & Hnb & Esz & Enb).
  rewrite reverse_involutive in Hs.
  split; [done|lia|congruence|]. eexists k, o, _, _. split; [done|]. split; [done|].
  split; [done|]. split; [|by f_equal]. exists nb. split; [done|]. split; [done|].
  exists sz. split; [done|]. split; [congruence|done].
Qed.

(** C7: An AuxPow that passes [AuxPow::check] certifies its block hash: its
    parent is of another chain, its coinbase is in the parent's Merkle tree,
    output 2 or 3 of the coinbase carries the merged-mining header with the
    root that the chain branch computes from the hash and the size of that
    tree, and the branch index is the one the header's nonce and the chain id
    determine. *)
Theorem check_sound a h cid : check a h cid = Ok tt -> certifies a h cid.
Proof. apply check_inv. Qed.

Lemma carries_inj o root root' height nn nn' :
  length root = 32%nat -> length root' = 32%nat ->
  carries o root height nn -> carries o root' height nn' -> root = root'.
Proof.
  intros Hr Hr' (nb & _ & _ & sz & _ & _ & E) (nb' & _ & _ & sz' & _ & _ & E').
  rewrite E in E'. apply app_inj_1 in E' as [_ E']; [|done].
  apply app_inj_1 in E' as [? _]; [done|lia].
Qed.

(** Two hashes certified through the same output are equal. *)
Lemma certified_unique `{!BitcoinLaws B} a h h' o root root' nn nn' :
  Forall (fun x => length x = 32%nat) (branch_hash (blockchain_branch a)) ->
  length h = 32%nat -> length h' = 32%nat ->
  check_merkle_branch (blockchain_branch a) h = Ok root ->
  check_merkle_branch (blockchain_branch a) h' = Ok root' ->
  carries o root (length (branch_hash (blockchain_branch a))) nn ->
  carries o root' (length (branch_hash (blockchain_branch a))) nn' ->
  h = h' \/ collision.
Proof.
  intros Hl Hh Hh' E E' Hc Hc'. assert (root = root') as <-.
  { eapply carries_inj; [..|done|done]; by eapply climb_len. }
  edestruct climb_binding as [[-> _]|?]; [exact Hl|exact Hl|exact Hh|exact Hh'|done|
    exact E|exact E'|by left|by right].
Qed.

(** One AuxPow certifies at most two block hashes, one for each of the two
    coinbase outputs that may hold the header: of three accepted hashes two are
    equal, unless a collision of the hash function is exhibited. *)
Theorem check_at_most_two `{!BitcoinLaws B} a cid h1 h2 h3 :
  Forall (fun x => length x = 32%nat) (branch_hash (blockchain_branch a)) ->
  Forall (fun x => length x = 32%nat) [h1; h2; h3] ->
  check a h1 cid = Ok tt -> check a h2 cid = Ok tt -> check a h3 cid = Ok tt ->
  h1 = h2 \/ h1 = h3 \/ h2 = h3 \/ collision.
Proof.
  intros Hl Hh H1%check_inv H2%check_inv H3%check_inv.
  rewrite !Forall_cons in Hh. destruct Hh as (L1 & L2 & L3 & _).
  destruct H1 as [_ _ _ (k1 & o1 & r1 & n1 & K1 & O1 & B1 & C1 & _)].
  destruct H2 as [_ _ _ (k2 & o2 & r2 & n2 & K2 & O2 & B2 & C2 & _)].
  destruct H3 as [_ _ _ (k3 & o3 & r3 & n3 & K3 & O3 & B3 & C3 & _)].
  pose proof (fun o r r' n n' h h' => certified_unique a h h' o r r' n n' Hl) as U.
  destruct K1, K2, K3; simplify_eq;
    first [ destruct (U _ _ _ _ _ _ _ L1 L2 B1 B2 C1 C2); by eauto
          | destruct (U _ _ _ _ _ _ _ L1 L3 B1 B3 C1 C3); by eauto
          | destruct (U _ _ _ _ _ _ _ L2 L3 B2 B3 C2 C3); by eauto ].
Qed.

(** With byte-string scripts and a 32-bit chain id, [AuxPow::check] aborts
    the process on exactly one kind of input: a coinbase branch of more than
    32 hashes (the shift of the 32-bit side mask), which no guard excludes. *)
Theorem check_panics_iff a h cid :
  scripts_wf (coinbase_txn a) -> 0 <= cid < 2 ^ 32 ->
  check a h cid = Panic <->
  get_parent_chain_id a <> cid /\ (length (branch_hash (blockchain_branch a)) <= 30)%nat /\
  (32 < length (branch_hash (coinbase_branch a)))%nat.
Proof. apply check_panic. Qed.

(** A Merkle branch cut out of a hash tree of depth at most 32 for the leaf
    of an index computes the root of the tree, the side mask being the index. *)
Theorem branch_computes_root d t i h sib :
  (d <= 32)%nat -> proof_for d t i = Some (h, sib) ->
  check_merkle_branch (mkBranch sib i) h = Ok (tree_root t).
Proof. apply climb_proof. Qed.

(** C19: The built-in miner returns an AuxPow whenever one of the nonces it tries
    meets the target and the chain id is not the parent's 1, and what it
    returns meets the target and passes [check] for the mined hash. *)
Theorem mine_ok sidechain_hash target cid k :
  length sidechain_hash = 32%nat -> 0 <= cid < 2 ^ 32 -> cid <> 1 ->
  0 <= k < 2 ^ 32 - 1 ->
  check_proof_of_work (mine_candidate sidechain_hash k) target = true ->
  exists a, mine sidechain_hash target cid = Ok a /\
    check_proof_of_work a target = true /\ check a sidechain_hash cid = Ok tt.
Proof.
  intros Hl Hc H1 Hk Hp. apply (mine_loop_finds (Z.to_nat k)); try done; [lia|].
  by rewrite Z2Nat.id, Z.add_0_l by lia.
Qed.

(** Equal aggregates of lists of hashes are of equal lists. *)
Lemma concat_hashes_inj (l l' : list hash) :
  Forall (fun x => length x = 32%nat) l -> Forall (fun x => length x = 32%nat) l' ->
  concat l = concat l' -> l = l'.
Proof.
  revert l'. induction l as [|x l IH]; intros [|x' l'] Hl Hl' E; try done; simpl in *.
  - apply Forall_cons in Hl' as [Hx _]. by destruct x'.
  - apply Forall_cons in Hl as [Hx _]. by destruct x.
  - apply Forall_cons in Hl as [Hx Hl], Hl' as [Hx' Hl'].
    apply app_inj_1 in E as [-> E]; [|lia]. f_equal. by apply IH.
Qed.

(** The aggregate hash commits to the range of blocks in order: two
    different lists of block hashes have different aggregates, unless a
    collision of the hash function is exhibited. *)
Theorem aggregate_hash_binding l l' :
  Forall (fun x => length x = 32%nat) l -> Forall (fun x => length x = 32%nat) l' ->
  aggregate_hash l = aggregate_hash l' -> l = l' \/ collision.
Proof.
  intros Hl Hl' E. destruct (decide (concat l = concat l')).
  - left. by apply concat_hashes_inj.
  - right. by exists (concat l), (concat l').
Qed.

End WithBitcoin.

(** ** Witnesses *)

Module Witness.
#[local] Existing Instance ExampleLib.lib.
#[local] Existing Instance ExampleLib.bitcoin_laws.

Definition h0 : hash := to_le_bytes 32 7.
Definition mined : t := mine_candidate h0 5.

Lemma check_sound_witness : check mined h0 1212 = Ok tt /\ certifies mined h0 1212.
Proof. split; [vm_compute; reflexivity|]. apply check_sound. vm_compute. reflexivity. Defined.

(** Outputs 2 and 3 commit to different hashes: both are accepted. *)
Definition h1 : hash := to_le_bytes 32 8.
Definition two_commitments : t :=
  let tx := mkTransaction 0 0 []
    [TxOut_default; TxOut_default;
     mkTxOut 0 (to_script_pub_key (mkMMH MERGED_MINING_HEADER h0 1 0));
     mkTxOut 0 (to_script_pub_key (mkMMH MERGED_MINING_HEADER h1 1 0))] in
  mk tx zero_hash (mkBranch [] 0) (mkBranch [] 0)
     (mkHeader (1 * 2 ^ 16) zero_hash (txid tx) 0 0 0).

Lemma check_at_most_two_witness :
  (check two_commitments h0 1212 = Ok tt /\ check two_commitments h1 1212 = Ok tt /\ h0 <> h1) /\
  (h0 = h1 \/ h0 = h0 \/ h1 = h0 \/ collision).
Proof.
  split; [repeat split; vm_compute; (reflexivity || discriminate)|].
  apply (check_at_most_two two_commitments 1212);
    [constructor|repeat constructor|vm_compute; reflexivity..].
Defined.

Definition long_branch : t :=
  mk (mine_transaction h0) zero_hash (mkBranch (replicate 33 h1) 0) (mkBranch [] 0)
     (parent_block mined).

Lemma check_panics_witness : check long_branch h0 1212 = Panic.
Proof.
  apply check_panics_iff.
  - repeat constructor.
  - split; [discriminate|reflexivity].
  - split; [discriminate|]. split; vm_compute; repeat constructor.
Defined.

Definition tree4 : tree :=
  Node (Node (Leaf h0) (Leaf h1)) (Node (Leaf h1) (Leaf h0)).

Lemma branch_computes_root_witness :
  check_merkle_branch (mkBranch [h1; tree_root (Node (Leaf h1) (Leaf h0))] 0) h0
  = Ok (tree_root tree4).
Proof. apply (branch_computes_root 2); [lia|reflexivity]. Defined.

Lemma mine_witness :
  exists a, mine h0 10 1212 = Ok a /\ check_proof_of_work a 10 = true /\
    check a h0 1212 = Ok tt.
Proof.
  apply (mine_ok h0 10 1212 3); [reflexivity|split; [discriminate|reflexivity]|discriminate|
    split; [discriminate|reflexivity]|vm_compute; reflexivity].
Defined.

Lemma aggregate_hash_binding_witness :
  [h0; h1] = [h0; h1] \/ collision.
Proof. apply aggregate_hash_binding; [repeat constructor..|reflexivity]. Defined.

End Witness.

End AuxPow.
