(* ===== verification/Signatures.v ===== *)
(** Approvals of blocks ([app/src/signatures.rs]): a single authority's
    signature, and the aggregate of the approvals of a block with the bit list
    of who signed. *)
From stdpp Require Import base decidable list.
From Stdlib Require Import ZArith Lia.
From S2P Require Import Prelude Errors.

(** Keys and signatures are the [bls] crate's; they are compared and stored as
    bytes. *)
Abbreviation PublicKey := (list Z).
Abbreviation Signature := (list Z).
Abbreviation AggregateSignature := (list Z).

(** The functions of the [bls] crate: [SecretKey::sign] and [public_key],
    [Signature::verify], [AggregateSignature::empty] and [add_assign], and
    [SignatureSet::multiple_pubkeys(..).verify()]. *)
Class BlsLib := {
  SecretKey : Type;
  public_key : SecretKey -> PublicKey;
  sk_sign : SecretKey -> hash -> Signature;
  sig_verify : Signature -> PublicKey -> hash -> bool;
  agg_empty : AggregateSignature;
  agg_add : AggregateSignature -> Signature -> AggregateSignature;
  agg_verify : AggregateSignature -> list PublicKey -> hash -> bool;
}.

(** The correctness of the signature scheme: a signature verifies under its
    signer's key, and the aggregate of valid signatures of a message verifies
    under the keys that made them, in any order. *)
Class BlsLaws (L : BlsLib) := {
  sign_verify sk m : sig_verify (sk_sign sk m) (public_key sk) m = true;
  agg_verify_valid (l : list (Signature * PublicKey)) pks m :
    l <> [] -> Forall (fun p => sig_verify p.1 p.2 m = true) l -> map snd l ≡ₚ pks ->
    agg_verify (foldl agg_add agg_empty (map fst l)) pks m = true;
}.

Module Signatures.

(** [U15]. *)
Definition MaxValidators : nat := 15.

Record IndividualApproval := mkIndividual {
  signature : Signature;
  authority_index : Z;
}.

(** [CheckedIndividualApproval] wraps an approval; [assume_checked] and
    [check] are its only constructors. *)
Record CheckedIndividualApproval := mkChecked { data : IndividualApproval }.

Definition assume_checked (a : IndividualApproval) : CheckedIndividualApproval := mkChecked a.

(** [aggregation_bits]: a [BitList] of length [MaxValidators]. *)
Record AggregateApproval := mkAggregate {
  aggregation_bits : list bool;
  aggregate_signature : AggregateSignature;
}.

#[global] Instance IndividualApproval_eq_dec : EqDecision IndividualApproval.
Proof. solve_decision. Defined.
#[global] Instance Checked_eq_dec : EqDecision CheckedIndividualApproval.
Proof. solve_decision. Defined.
#[global] Instance AggregateApproval_eq_dec : EqDecision AggregateApproval.
Proof. solve_decision. Defined.

Section WithBls.
Context `{L : BlsLib}.

Definition check (a : IndividualApproval) (d : hash) (authorities : list PublicKey) :
    res Error CheckedIndividualApproval :=
  pubkey ← ok_or (authorities !! Z.to_nat (authority_index a)) UnknownAuthority;
  if sig_verify (signature a) pubkey d then Ok (mkChecked a) else Err InvalidSignature.

Definition new : AggregateApproval :=
  mkAggregate (replicate MaxValidators false) agg_empty.

(** [BitList::get] and [set] fail out of range. *)
Definition add_approval (ag : AggregateApproval) (c : CheckedIndividualApproval) :
    res Error AggregateApproval :=
  let i := Z.to_nat (authority_index (data c)) in
  bit ← ok_or (aggregation_bits ag !! i) UnknownAuthority;
  if bit : bool then Ok ag
  else Ok (mkAggregate (<[i := true]> (aggregation_bits ag))
                       (agg_add (aggregate_signature ag) (signature (data c)))).

Definition into_aggregate (c : CheckedIndividualApproval) : res Error AggregateApproval :=
  unwrap_res (add_approval new c).

(** The keys of the set bits, the shorter of the two lists bounding the zip. *)
Definition signers (bits : list bool) (authorities : list PublicKey) : list PublicKey :=
  map snd (filter (fun p => p.1 = true) (zip bits authorities)).

Definition verify (ag : AggregateApproval) (authorities : list PublicKey) (d : hash) : bool :=
  agg_verify (aggregate_signature ag) (signers (aggregation_bits ag) authorities) d.

Definition num_approvals (ag : AggregateApproval) : nat :=
  length (filter (fun b => b = true) (aggregation_bits ag)).

Definition is_signed_by (ag : AggregateApproval) (i : Z) : bool :=
  default false (aggregation_bits ag !! Z.to_nat i).

(** ** Lemmas *)

(** Adding a list of approvals one after another. *)
Fixpoint add_all (ag : AggregateApproval) (l : list CheckedIndividualApproval) :
    res Error AggregateApproval :=
  match l with
  | [] => Ok ag
  | c :: l' => ag' ← add_approval ag c; add_all ag' l'
  end.

Lemma approval_check_inv a d authorities c :
  check a d authorities = Ok c ->
  c = mkChecked a /\ exists pk, authorities !! Z.to_nat (authority_index a) = Some pk /\
    sig_verify (signature a) pk d = true.
Proof.
  unfold check, ok_or, mbind, res_bind.
  destruct (authorities !! _) as [pk|] eqn:E; [|done].
  destruct (sig_verify _ _ _) eqn:E'; [|done]. intros [= <-]. eauto.
Qed.

Lemma add_approval_cases ag c ag' :
  add_approval ag c = Ok ag' ->
  (is_signed_by ag (authority_index (data c)) = true /\ ag' = ag) \/
  (aggregation_bits ag !! Z.to_nat (authority_index (data c)) = Some false /\
   ag' = mkAggregate (<[Z.to_nat (authority_index (data c)) := true]> (aggregation_bits ag))
                     (agg_add (aggregate_signature ag) (signature (data c)))).
Proof.
  unfold add_approval, is_signed_by, ok_or. intros H. inv_res; naive_solver.
Qed.

Lemma add_approval_length ag c ag' :
  add_approval ag c = Ok ag' -> length (aggregation_bits ag') = length (aggregation_bits ag).
Proof.
  intros [[_ ->]|[_ ->]]%add_approval_cases; [done|]. apply length_insert.
Qed.

(** Setting a clear bit adds one signer and leaves the others. *)
Lemma signers_insert bits authorities i pk :
  bits !! i = Some false -> authorities !! i = Some pk ->
  signers (<[i := true]> bits) authorities ≡ₚ pk :: signers bits authorities.
Proof.
  unfold signers. revert i authorities.
  induction bits as [|b bits IH]; intros [|i] [|a authorities] Hb Ha; simplify_eq/=; try done.
  specialize (IH i authorities Hb Ha). destruct b; simpl; rewrite IH; [constructor|done].
Qed.

Lemma num_approvals_insert bits i :
  bits !! i = Some false ->
  length (filter (fun b => b = true) (<[i := true]> bits))
  = S (length (filter (fun b => b = true) bits)).
Proof.
  revert i. induction bits as [|b bits IH]; intros [|i] Hb; simplify_eq/=; try done.
  specialize (IH i Hb). rewrite !filter_cons. case_decide; simpl; lia.
Qed.

Lemma signers_none n authorities : signers (replicate n false) authorities = [].
Proof.
  unfold signers. revert authorities. induction n as [|n IH]; intros [|a au]; simpl; try done.
  apply IH.
Qed.

(** An aggregate built from valid approvals: its signature is the sum of the
    signatures of its signers. *)
Definition valid_aggregate (authorities : list PublicKey) (d : hash) (ag : AggregateApproval) :=
  exists l : list (Signature * PublicKey),
    Forall (fun p => sig_verify p.1 p.2 d = true) l /\
    map snd l ≡ₚ signers (aggregation_bits ag) authorities /\
    foldl agg_add agg_empty (map fst l) = aggregate_signature ag.

Lemma valid_new authorities d : valid_aggregate authorities d new.
Proof. exists []. cbn [new aggregation_bits]. by rewrite signers_none. Qed.

Lemma valid_add authorities d ag a c ag' :
  check a d authorities = Ok c -> valid_aggregate authorities d ag ->
  add_approval ag c = Ok ag' -> valid_aggregate authorities d ag'.
Proof.
  intros Hc (l & Hl & Hp & Hs) [[_ ->]|[Hb ->]]%add_approval_cases; [by exists l|].
  apply approval_check_inv in Hc as (-> & pk & Hpk & Hv). exists (l ++ [(signature a, pk)]).
  split; [|split].
  - apply Forall_app; split; [done|]. by constructor.
  - rewrite map_app, Hp. cbn. rewrite (signers_insert _ _ _ _ Hb Hpk).
    by rewrite Permutation_app_comm.
  - rewrite map_app, foldl_app, Hs. done.
Qed.

Lemma add_all_valid authorities d l ag :
  Forall (fun c => check (data c) d authorities = Ok c) l ->
  (length authorities <= length (aggregation_bits ag))%nat ->
  valid_aggregate authorities d ag ->
  exists ag', add_all ag l = Ok ag' /\ valid_aggregate authorities d ag' /\
    length (aggregation_bits ag') = length (aggregation_bits ag).
Proof.
  intros Hl. revert ag. induction Hl as [|c l Hc Hl IH]; intros ag Hlen Hv; simpl.
  { by exists ag. }
  assert (exists ag1, add_approval ag c = Ok ag1) as [ag1 H1].
  { apply approval_check_inv in Hc as (_ & pk & Hpk%lookup_lt_Some & _). unfold add_approval.
    destruct (lookup_lt_is_Some_2 (aggregation_bits ag)
      (Z.to_nat (authority_index (data c)))) as [b Hb]; [lia|].
    cbv zeta. rewrite Hb. destruct b; cbn; eauto. }
  rewrite H1. unfold mbind, res_bind. pose proof (add_approval_length _ _ _ H1) as Hlen1.
  destruct (IH ag1) as (ag' & ? & ? & ?); [lia|by eapply valid_add|]. exists ag'.
  split_and!; [done|done|lia].
Qed.

Lemma valid_aggregate_verify `{!BlsLaws L} authorities d ag :
  valid_aggregate authorities d ag ->
  signers (aggregation_bits ag) authorities <> [] ->
  verify ag authorities d = true.
Proof.
  intros (l & Hl & Hp & Hs) Hne. unfold verify. rewrite <-Hs.
  apply agg_verify_valid; [|done|done].
  intros ->. by apply Permutation_nil_l in Hp.
Qed.

Lemma add_approval_signed ag c ag' :
  add_approval ag c = Ok ag' ->
  is_signed_by ag' (authority_index (data c)) = true.
Proof.
  intros [[Hs ->]|[Hb ->]]%add_approval_cases; [done|].
  unfold is_signed_by. cbn. rewrite list_lookup_insert_eq; [done|by eapply lookup_lt_Some].
Qed.

Lemma add_approval_mono ag c ag' i :
  add_approval ag c = Ok ag' -> is_signed_by ag i = true -> is_signed_by ag' i = true.
Proof.
  intros [[Hs ->]|[Hb ->]]%add_approval_cases Hi; [done|].
  unfold is_signed_by in *. cbn.
  destruct (decide (Z.to_nat (authority_index (data c)) = Z.to_nat i)) as [<-|].
  - rewrite list_lookup_insert_eq; [done|by eapply lookup_lt_Some].
  - by rewrite list_lookup_insert_ne.
Qed.

Lemma add_all_mono l ag ag' i :
  add_all ag l = Ok ag' -> is_signed_by ag i = true -> is_signed_by ag' i = true.
Proof.
  revert ag. induction l as [|c l IH]; intros ag H Hi; cbn in H; [by simplify_eq|].
  unfold mbind, res_bind in H. destruct (add_approval ag c) eqn:E; try done.
  eapply IH; [done|]. by eapply add_approval_mono.
Qed.

Lemma is_signed_by_signer ag authorities i pk :
  authorities !! Z.to_nat i = Some pk -> is_signed_by ag i = true ->
  pk ∈ signers (aggregation_bits ag) authorities.
Proof.
  unfold is_signed_by, signers. intros Ha Hb.
  destruct (aggregation_bits ag !! Z.to_nat i) as [b|] eqn:E; [|done]. simpl in Hb; subst.
  apply list_elem_of_fmap. exists (true, pk). split; [done|].
  apply list_elem_of_filter. split; [done|]. apply list_elem_of_lookup. exists (Z.to_nat i).
  by apply lookup_zip_with_Some; exists true, pk.
Qed.

(** ** Properties *)

(** C13: Collecting approvals is correct: from the empty aggregate, adding any
    non-empty list of approvals that passed [check] (repeats included) succeeds
    with at most 15 authorities, the aggregate verifies, and every approver is
    recorded as a signer. *)
Theorem aggregate_of_checked_verifies `{!BlsLaws L} authorities d l :
  (length authorities <= MaxValidators)%nat -> l <> [] ->
  Forall (fun c => check (data c) d authorities = Ok c) l ->
  exists ag, add_all new l = Ok ag /\ verify ag authorities d = true /\
    Forall (fun c => is_signed_by ag (authority_index (data c)) = true) l.
Proof.
  intros Hlen Hne Hl.
  destruct (add_all_valid authorities d l new Hl Hlen (valid_new authorities d))
    as (ag & Hag & Hv & _).
  assert (Forall (fun c => is_signed_by ag (authority_index (data c)) = true) l) as Hsig.
  { clear Hne Hv. revert Hag. generalize new as ag0. clear Hlen Hl.
    induction l as [|c l IH]; intros ag0 Hag; constructor; cbn in Hag;
      unfold mbind, res_bind in Hag; destruct (add_approval ag0 c) eqn:E; try done.
    - eapply add_all_mono; [done|]. by eapply add_approval_signed.
    - by eapply IH. }
  exists ag. split; [done|]. split; [|done]. apply valid_aggregate_verify; [done|].
  destruct l as [|c l]; [done|]. apply Forall_cons in Hl as [Hc _], Hsig as [Hs _].
  apply approval_check_inv in Hc as (_ & pk & Hpk & _).
  pose proof (is_signed_by_signer ag authorities _ _ Hpk Hs) as Hin.
  intros E. rewrite E in Hin. by apply not_elem_of_nil in Hin.
Qed.

(** Adding an approval sets exactly its bit: the count grows by one for a
    new signer and not at all for one already in the aggregate, whose signature
    is not added a second time. *)
Theorem add_approval_counts ag c :
  match add_approval ag c with
  | Ok ag' =>
      (is_signed_by ag (authority_index (data c)) = true /\ ag' = ag) \/
      (is_signed_by ag (authority_index (data c)) = false /\
       num_approvals ag' = S (num_approvals ag) /\
       forall i, is_signed_by ag' i = (Z.to_nat i =? Z.to_nat (authority_index (data c)))%nat
                                       || is_signed_by ag i)
  | Err e => e = UnknownAuthority /\
      (length (aggregation_bits ag) <= Z.to_nat (authority_index (data c)))%nat
  | Panic => False
  end.
Proof.
  destruct (add_approval ag c) as [ag'|e|] eqn:E.
  - destruct (add_approval_cases _ _ _ E) as [[? ->]|[Hb ->]]; [by left|]. right.
    split; [unfold is_signed_by; by rewrite Hb|].
    split; [by apply num_approvals_insert|]. intros i. unfold is_signed_by; cbn.
    destruct (Nat.eqb_spec (Z.to_nat i) (Z.to_nat (authority_index (data c)))) as [->|];
      [|by rewrite list_lookup_insert_ne].
    rewrite list_lookup_insert_eq; [done|by eapply lookup_lt_Some].
  - unfold add_approval, ok_or in E. inv_res. split; [done|]. by apply lookup_ge_None.
  - unfold add_approval, ok_or in E. inv_res.
Qed.

End WithBls.

(** ** A small instance of the signature scheme

    The linear structure of BLS over the integers: a signature is the secret
    times the hash of the message, and aggregation adds. *)
Module Example.

Definition H (m : hash) : Z := 1 + from_le_bytes m.
Definition num (s : list Z) : Z := match s with [x] => x | _ => 0 end.
Definition total (l : list (list Z)) : Z := foldr (fun s acc => num s + acc) 0 l.

Definition bls : BlsLib := {|
  SecretKey := Z;
  public_key sk := [sk];
  sk_sign sk m := [sk * H m];
  sig_verify s pk m := num s =? num pk * H m;
  agg_empty := [0];
  agg_add a s := [num a + num s];
  agg_verify a pks m := bool_decide (pks <> []) && (num a =? total pks * H m);
|}.

Lemma total_perm l l' : l ≡ₚ l' -> total l = total l'.
Proof. unfold total. induction 1; cbn in *; lia. Qed.

Lemma agg_total l a : num (foldl (agg_add (BlsLib:=bls)) a l) = num a + total l.
Proof.
  revert a. induction l as [|s l IH]; intros a; cbn; [lia|].
  change (fun a0 s0 : list Z => [num a0 + num s0]) with (agg_add (BlsLib:=bls)).
  rewrite IH. cbn. unfold total. lia.
Qed.

Lemma bls_laws : BlsLaws bls.
Proof.
  split; [intros; cbn; lia|].
  intros l pks m Hne Hl Hp. unfold agg_verify, bls.
  rewrite bool_decide_true by (intros ->; symmetry in Hp; apply Permutation_nil_l in Hp; by destruct l).
  cbn [andb]. change (fun a0 s0 : list Z => [num a0 + num s0]) with (agg_add (BlsLib:=bls)).
  rewrite <-(total_perm _ _ Hp). apply Z.eqb_eq.
  change (num (foldl (agg_add (BlsLib:=bls)) [0] (map fst l)) = total (map snd l) * H m).
  rewrite agg_total. cbn [num]. clear Hp Hne.
  induction Hl as [|[s p] l Hp Hl IH]; cbn in *; [lia|]. unfold total in *. lia.
Qed.

End Example.

Module Witness.
#[local] Existing Instance Example.bls.
#[local] Existing Instance Example.bls_laws.

Definition authorities : list PublicKey := [[3]; [5]; [7]].
Definition d : hash := zero_hash.
Definition approvals : list CheckedIndividualApproval :=
  [mkChecked (mkIndividual [7] 2); mkChecked (mkIndividual [3] 0);
   mkChecked (mkIndividual [7] 2)].

Lemma aggregate_of_checked_verifies_witness :
  exists ag, add_all new approvals = Ok ag /\ verify ag authorities d = true /\
    Forall (fun c => is_signed_by ag (authority_index (data c)) = true) approvals.
Proof.
  apply aggregate_of_checked_verifies; [cbv; lia|discriminate|].
  repeat constructor; vm_compute; reflexivity.
Defined.

End Witness.

End Signatures.
