(* ===== verification/Block.v ===== *)
(** Blocks of the side chain ([app/src/block.rs]): the AuxPow header, the
    consensus block around an execution payload, its signed form, and the
    reference to a block the store keeps ([BlockRef], [app/src/store.rs]). *)
From stdpp Require Import base decidable list.
From Stdlib Require Import ZArith Lia.
From S2P Require Import Prelude Bitcoin Errors AuxPow Signatures.

(** An EVM address: 20 bytes. *)
Abbreviation Address := (list Z).
Definition zero_address : Address := replicate 20 0.

Record Withdrawal := mkWithdrawal {
  w_index : Z;
  validator_index : Z;
  w_address : Address;
  amount : Z;
}.

(** [ExecutionPayloadCapella]; transactions are RLP bytes, [base_fee_per_gas]
    is a 256-bit integer. *)
Record Payload := mkPayload {
  p_parent_hash : hash;
  p_fee_recipient : Address;
  state_root : hash;
  receipts_root : hash;
  logs_bloom : bytes;
  prev_randao : hash;
  block_number : Z;
  gas_limit : Z;
  gas_used : Z;
  timestamp : Z;
  extra_data : bytes;
  base_fee_per_gas : Z;
  p_block_hash : hash;
  transactions : list bytes;
  withdrawals : list Withdrawal;
}.

Record AuxPowHeader := mkAuxPowHeader {
  range_start : hash;
  range_end : hash;
  a_bits : Z;
  a_chain_id : Z;
  a_height : Z;
  a_auxpow : option AuxPow.t;
  a_fee_recipient : Address;
}.

(** [pegins] pairs a Bitcoin transaction id with the hash of its block. *)
Record ConsensusBlock := mkBlock {
  parent_hash : hash;
  slot : Z;
  auxpow_header : option AuxPowHeader;
  execution_payload : Payload;
  pegins : list (hash * hash);
  pegout_payment_proposal : option Transaction;
  finalized_pegouts : list Transaction;
}.

Record SignedConsensusBlock := mkSigned {
  message : ConsensusBlock;
  b_signature : Signatures.AggregateApproval;
}.

Record BlockRef := mkRef { ref_hash : hash; ref_height : Z }.

#[global] Instance Withdrawal_eq_dec : EqDecision Withdrawal.
Proof. solve_decision. Defined.
#[global] Instance Payload_eq_dec : EqDecision Payload.
Proof. solve_decision. Defined.
#[global] Instance AuxPowHeader_eq_dec : EqDecision AuxPowHeader.
Proof. solve_decision. Defined.
#[global] Instance ConsensusBlock_eq_dec : EqDecision ConsensusBlock.
Proof. solve_decision. Defined.
#[global] Instance SignedConsensusBlock_eq_dec : EqDecision SignedConsensusBlock.
Proof. solve_decision. Defined.
#[global] Instance BlockRef_eq_dec : EqDecision BlockRef.
Proof. solve_decision. Defined.

(** The serialisation and hashing libraries: [rmp_serde] on blocks and signed
    blocks, [tree_hash::merkle_root]. *)
Class BlockLib := {
  rmp_block : ConsensusBlock -> bytes;
  rmp_signed : SignedConsensusBlock -> bytes;
  rmp_signed_decode : bytes -> option SignedConsensusBlock;
  tree_merkle_root : bytes -> hash;
}.

(** Decoding inverts encoding, and roots are 32 bytes. *)
Class BlockLaws (K : BlockLib) := {
  rmp_round_trip b : rmp_signed_decode (rmp_signed b) = Some b;
  tree_merkle_root_len b : length (tree_merkle_root b) = 32%nat;
}.

(** An authority: its key pair and its position in the authority set. *)
Record Authority `{L : BlsLib} := mkAuthority { signer : SecretKey; index : Z }.
Arguments mkAuthority {L} _ _.

Definition payload_default : Payload :=
  mkPayload zero_hash zero_address zero_hash zero_hash (replicate 256 0) zero_hash
            0 0 0 0 [] 0 zero_hash [] [].

Definition block_default : ConsensusBlock :=
  mkBlock zero_hash 0 None payload_default [] None [].

(** The fields of a chain spec the block constructor reads. *)
Definition genesis_header (bits chain_id : Z) : AuxPowHeader :=
  mkAuxPowHeader zero_hash zero_hash bits chain_id 0 None zero_address.

Section WithLibs.
Context `{L : BlsLib, K : BlockLib}.

(** [ConsensusBlock::new]; a payload that is not a Capella one panics
    ([as_capella().unwrap()]), so the argument is the Capella payload if it is
    one. *)
Definition new_block (s : Z) (payload : option Payload) (prev : hash)
    (header : option AuxPowHeader) (pegins : list (hash * hash))
    (proposal : option Transaction) (finalized : list Transaction) :
    res Error ConsensusBlock :=
  p ← unwrap payload;
  Ok (mkBlock prev s header p pegins proposal finalized).

Definition signing_root (b : ConsensusBlock) : hash := tree_merkle_root (rmp_block b).

(** The [BlockIndex] of a block: hash, time, bits, chain id, height. The
    AuxPow fields are only asked of blocks that have the header. *)
Definition bi_block_hash (b : ConsensusBlock) : hash := signing_root b.
Definition bi_block_time (b : ConsensusBlock) : Z := timestamp (execution_payload b).
Definition bi_bits (b : ConsensusBlock) : res Error Z :=
  unwrap (a_bits <$> auxpow_header b).
Definition bi_chain_id (b : ConsensusBlock) : res Error Z :=
  unwrap (a_chain_id <$> auxpow_header b).
Definition bi_height (b : ConsensusBlock) : Z := block_number (execution_payload b).

Definition sign (b : ConsensusBlock) (a : Authority) : Signatures.CheckedIndividualApproval :=
  Signatures.assume_checked
    (Signatures.mkIndividual (sk_sign (signer a) (signing_root b)) (index a)).

Definition sign_block (b : ConsensusBlock) (a : Authority) : res Error SignedConsensusBlock :=
  approval ← Signatures.into_aggregate (sign b a);
  Ok (mkSigned b approval).

Definition verify_signature (b : SignedConsensusBlock) (public_keys : list PublicKey) : bool :=
  Signatures.verify (b_signature b) public_keys (signing_root (message b)).

Definition is_signed_by (b : SignedConsensusBlock) (i : Z) : bool :=
  Signatures.is_signed_by (b_signature b) i.

Definition num_approvals (b : SignedConsensusBlock) : nat :=
  Signatures.num_approvals (b_signature b).

Definition canonical_root (b : SignedConsensusBlock) : hash := signing_root (message b).

Definition add_approval (b : SignedConsensusBlock) (c : Signatures.CheckedIndividualApproval) :
    res Error SignedConsensusBlock :=
  ag ← Signatures.add_approval (b_signature b) c;
  Ok (mkSigned (message b) ag).

Definition block_ref (b : SignedConsensusBlock) : BlockRef :=
  mkRef (canonical_root b) (block_number (execution_payload (message b))).

(** The genesis block: an execution payload that does not start at zero
    panics. *)
Definition genesis (bits chain_id : Z) (payload : Payload) : res Error SignedConsensusBlock :=
  if negb (block_number payload =? 0) then Panic
  else Ok (mkSigned
    (mkBlock zero_hash 0 (Some (genesis_header bits chain_id)) payload [] None [])
    Signatures.new).

(** ** Lemmas *)

Lemma add_approval_message b c b' : add_approval b c = Ok b' -> message b' = message b.
Proof. unfold add_approval. intros. by inv_res. Qed.

Lemma add_approval_root b c b' : add_approval b c = Ok b' -> canonical_root b' = canonical_root b.
Proof. unfold canonical_root. by intros ->%add_approval_message. Qed.

(** A block signed by an authority of the set verifies under the set. *)
Lemma sign_block_ok `{!BlsLaws L} b a authorities :
  0 <= index a -> authorities !! Z.to_nat (index a) = Some (public_key (signer a)) ->
  (length authorities <= Signatures.MaxValidators)%nat ->
  exists sb, sign_block b a = Ok sb /\ message sb = b /\
    verify_signature sb authorities = true /\ is_signed_by sb (index a) = true /\
    num_approvals sb = 1%nat.
Proof.
  intros Hi Ha Hlen. unfold sign_block, Signatures.into_aggregate.
  assert (Signatures.check (Signatures.data (sign b a)) (signing_root b) authorities
          = Ok (sign b a)) as Hc.
  { unfold Signatures.check, ok_or, sign; cbn. rewrite Ha. cbn. by rewrite sign_verify. }
  pose proof (Signatures.add_all_valid authorities (signing_root b) [sign b a] Signatures.new)
    as (ag & Hag & Hv & _); [by constructor|done|apply Signatures.valid_new|].
  cbn in Hag. unfold mbind, res_bind in Hag.
  destruct (Signatures.add_approval Signatures.new (sign b a)) as [ag'| |] eqn:E; simplify_eq.
  assert (Signatures.is_signed_by ag (index a) = true) as Hs
    by apply (Signatures.add_approval_signed _ _ _ E).
  eexists. split; [done|]. split; [done|]. split; [|split; [done|]].
  - apply Signatures.valid_aggregate_verify; [done|]. intros Hnil.
    pose proof (Signatures.is_signed_by_signer _ _ _ _ Ha Hs) as Hin.
    cbn [b_signature] in Hnil. rewrite Hnil in Hin. by apply not_elem_of_nil in Hin.
  - destruct (Signatures.add_approval_cases _ _ _ E) as [[Hf _]|[Hb ->]].
    + unfold Signatures.is_signed_by in Hf. cbn [Signatures.new Signatures.aggregation_bits] in Hf.
      assert (Z.to_nat (index a) < Signatures.MaxValidators)%nat
        by (apply lookup_lt_Some in Ha; lia).
      by rewrite (lookup_replicate_2 _ false) in Hf.
    + unfold num_approvals, Signatures.num_approvals. cbn [b_signature Signatures.aggregation_bits].
      by rewrite Signatures.num_approvals_insert.
Qed.

End WithLibs.
