(* ===== verification/Serial.v ===== *)
(** A concrete serialisation of the chain's data, used to instantiate the
    library interfaces: a record is the list of the codes of its fields, and a
    code is written as the list of its bits. Decoding inverts encoding. *)
From stdpp Require Import base decidable list countable.
From Stdlib Require Import ZArith Lia.
From S2P Require Import Prelude Bitcoin Errors AuxPow Signatures Block.

#[global] Instance TxIn_countable : Countable TxIn.
Proof.
  refine (inj_countable
    (fun r => [encode (previous_output r); encode (script_sig r); encode (sequence r); encode
        (witness r)] : list positive)
    (fun l => match l with
      | [x0; x1; x2; x3] => y0 ← decode x0; y1 ← decode x1; y2 ← decode x2; y3 ← decode x3; Some
          (mkTxIn y0 y1 y2 y3)
      | _ => None end) _).
  intros []. cbn. by rewrite !decode_encode.
Defined.

#[global] Instance TxOut_countable : Countable TxOut.
Proof.
  refine (inj_countable
    (fun r => [encode (value r); encode (script_pubkey r)] : list positive)
    (fun l => match l with
      | [x0; x1] => y0 ← decode x0; y1 ← decode x1; Some (mkTxOut y0 y1)
      | _ => None end) _).
  intros []. cbn. by rewrite !decode_encode.
Defined.

#[global] Instance Transaction_countable : Countable Transaction.
Proof.
  refine (inj_countable
    (fun r => [encode (version r); encode (lock_time r); encode (input r); encode (output r)] :
        list positive)
    (fun l => match l with
      | [x0; x1; x2; x3] => y0 ← decode x0; y1 ← decode x1; y2 ← decode x2; y3 ← decode x3; Some
          (mkTransaction y0 y1 y2 y3)
      | _ => None end) _).
  intros []. cbn. by rewrite !decode_encode.
Defined.

#[global] Instance Header_countable : Countable Header.
Proof.
  refine (inj_countable
    (fun r => [encode (h_version r); encode (prev_blockhash r); encode (merkle_root r); encode
        (time r); encode (bits r); encode (nonce r)] : list positive)
    (fun l => match l with
      | [x0; x1; x2; x3; x4; x5] => y0 ← decode x0; y1 ← decode x1; y2 ← decode x2; y3 ← decode
          x3; y4 ← decode x4; y5 ← decode x5; Some (mkHeader y0 y1 y2 y3 y4 y5)
      | _ => None end) _).
  intros []. cbn. by rewrite !decode_encode.
Defined.

#[global] Instance MerkleBranch_countable : Countable AuxPow.MerkleBranch.
Proof.
  refine (inj_countable
    (fun r => [encode (AuxPow.branch_hash r); encode (AuxPow.branch_side_mask r)] : list positive)
    (fun l => match l with
      | [x0; x1] => y0 ← decode x0; y1 ← decode x1; Some (AuxPow.mkBranch y0 y1)
      | _ => None end) _).
  intros []. cbn. by rewrite !decode_encode.
Defined.

#[global] Instance AuxPow_t_countable : Countable AuxPow.t.
Proof.
  refine (inj_countable
    (fun r => [encode (AuxPow.coinbase_txn r); encode (AuxPow.auxpow_block_hash r); encode
        (AuxPow.coinbase_branch r); encode (AuxPow.blockchain_branch r); encode
        (AuxPow.parent_block r)] : list positive)
    (fun l => match l with
      | [x0; x1; x2; x3; x4] => y0 ← decode x0; y1 ← decode x1; y2 ← decode x2; y3 ← decode x3;
          y4 ← decode x4; Some (AuxPow.mk y0 y1 y2 y3 y4)
      | _ => None end) _).
  intros []. cbn. by rewrite !decode_encode.
Defined.

#[global] Instance Withdrawal_countable : Countable Withdrawal.
Proof.
  refine (inj_countable
    (fun r => [encode (w_index r); encode (validator_index r); encode (w_address r); encode
        (amount r)] : list positive)
    (fun l => match l with
      | [x0; x1; x2; x3] => y0 ← decode x0; y1 ← decode x1; y2 ← decode x2; y3 ← decode x3; Some
          (mkWithdrawal y0 y1 y2 y3)
      | _ => None end) _).
  intros []. cbn. by rewrite !decode_encode.
Defined.

#[global] Instance Payload_countable : Countable Payload.
Proof.
  refine (inj_countable
    (fun r => [encode (p_parent_hash r); encode (p_fee_recipient r); encode (state_root r);
        encode (receipts_root r); encode (logs_bloom r); encode (prev_randao r); encode
        (block_number r); encode (gas_limit r); encode (gas_used r); encode (timestamp r);
        encode (extra_data r); encode (base_fee_per_gas r); encode (p_block_hash r); encode
        (transactions r); encode (withdrawals r)] : list positive)
    (fun l => match l with
      | [x0; x1; x2; x3; x4; x5; x6; x7; x8; x9; x10; x11; x12; x13; x14] => y0 ← decode x0; y1
          ← decode x1; y2 ← decode x2; y3 ← decode x3; y4 ← decode x4; y5 ← decode x5; y6 ←
          decode x6; y7 ← decode x7; y8 ← decode x8; y9 ← decode x9; y10 ← decode x10; y11 ←
          decode x11; y12 ← decode x12; y13 ← decode x13; y14 ← decode x14; Some (mkPayload y0
          y1 y2 y3 y4 y5 y6 y7 y8 y9 y10 y11 y12 y13 y14)
      | _ => None end) _).
  intros []. cbn. by rewrite !decode_encode.
Defined.

#[global] Instance AuxPowHeader_countable : Countable AuxPowHeader.
Proof.
  refine (inj_countable
    (fun r => [encode (range_start r); encode (range_end r); encode (a_bits r); encode
        (a_chain_id r); encode (a_height r); encode (a_auxpow r); encode (a_fee_recipient r)] :
        list positive)
    (fun l => match l with
      | [x0; x1; x2; x3; x4; x5; x6] => y0 ← decode x0; y1 ← decode x1; y2 ← decode x2; y3 ←
          decode x3; y4 ← decode x4; y5 ← decode x5; y6 ← decode x6; Some (mkAuxPowHeader y0 y1
          y2 y3 y4 y5 y6)
      | _ => None end) _).
  intros []. cbn. by rewrite !decode_encode.
Defined.

#[global] Instance ConsensusBlock_countable : Countable ConsensusBlock.
Proof.
  refine (inj_countable
    (fun r => [encode (parent_hash r); encode (slot r); encode (auxpow_header r); encode
        (execution_payload r); encode (pegins r); encode (pegout_payment_proposal r); encode
        (finalized_pegouts r)] : list positive)
    (fun l => match l with
      | [x0; x1; x2; x3; x4; x5; x6] => y0 ← decode x0; y1 ← decode x1; y2 ← decode x2; y3 ←
          decode x3; y4 ← decode x4; y5 ← decode x5; y6 ← decode x6; Some (mkBlock y0 y1 y2 y3
          y4 y5 y6)
      | _ => None end) _).
  intros []. cbn. by rewrite !decode_encode.
Defined.

#[global] Instance AggregateApproval_countable : Countable Signatures.AggregateApproval.
Proof.
  refine (inj_countable
    (fun r => [encode (Signatures.aggregation_bits r); encode (Signatures.aggregate_signature
        r)] : list positive)
    (fun l => match l with
      | [x0; x1] => y0 ← decode x0; y1 ← decode x1; Some (Signatures.mkAggregate y0 y1)
      | _ => None end) _).
  intros []. cbn. by rewrite !decode_encode.
Defined.

#[global] Instance SignedConsensusBlock_countable : Countable SignedConsensusBlock.
Proof.
  refine (inj_countable
    (fun r => [encode (message r); encode (b_signature r)] : list positive)
    (fun l => match l with
      | [x0; x1] => y0 ← decode x0; y1 ← decode x1; Some (mkSigned y0 y1)
      | _ => None end) _).
  intros []. cbn. by rewrite !decode_encode.
Defined.

#[global] Instance BlockRef_countable : Countable BlockRef.
Proof.
  refine (inj_countable
    (fun r => [encode (ref_hash r); encode (ref_height r)] : list positive)
    (fun l => match l with
      | [x0; x1] => y0 ← decode x0; y1 ← decode x1; Some (mkRef y0 y1)
      | _ => None end) _).
  intros []. cbn. by rewrite !decode_encode.
Defined.

(** The bits of a code, least significant first, closed by a 2. *)
Fixpoint bits_of (p : positive) : bytes :=
  match p with
  | xH => [2]
  | xO p' => 0 :: bits_of p'
  | xI p' => 1 :: bits_of p'
  end.

Fixpoint of_bits (l : bytes) : option (positive * bytes) :=
  match l with
  | [] => None
  | b :: l' =>
      if b =? 2 then Some (xH, l')
      else '(p, rest) ← of_bits l';
           Some (if b =? 0 then xO p else xI p, rest)
  end.

Lemma of_bits_of p rest : of_bits (bits_of p ++ rest) = Some (p, rest).
Proof. induction p as [p IH|p IH|]; cbn; [by rewrite IH..|done]. Qed.

(** A value in front of the rest of a stream. *)
Definition ser {A} `{Countable A} (a : A) : bytes := bits_of (encode a).
Definition deser {A} `{Countable A} (l : bytes) : option (A * bytes) :=
  '(p, rest) ← of_bits l; a ← decode p; Some (a, rest).

Lemma deser_ser {A} `{Countable A} (a : A) rest : deser (ser a ++ rest) = Some (a, rest).
Proof. unfold deser, ser. rewrite of_bits_of. cbn. by rewrite decode_encode. Qed.

Module ExampleSerial.

(** A root that depends on every bit of the encoding. *)
Definition fold_root (b : bytes) : hash :=
  to_le_bytes 32 (foldl (fun acc x => Z.land (acc * 8 + acc + x + 1) (Z.ones 60)) 0 b).

Definition blocks : BlockLib := {|
  rmp_block b := ser b;
  rmp_signed b := ser b;
  rmp_signed_decode l := fst <$> deser l;
  tree_merkle_root := fold_root;
|}.

Lemma block_laws : BlockLaws blocks.
Proof.
  split; [|intros; apply to_le_bytes_length].
  intros b. cbn [rmp_signed_decode rmp_signed blocks]. pose proof (deser_ser b []) as E. rewrite app_nil_r in E. by rewrite E.
Qed.

End ExampleSerial.
