(* ===== verification/Aura.v ===== *)
(** Aura consensus ([app/src/aura.rs]): whose turn a slot is, the check of a
    block's slot and signatures, the two-thirds approval, and the worker that
    claims slots as time passes. Metrics are left out. *)
From stdpp Require Import base decidable list.
From Stdlib Require Import ZArith Lia Sorted.
From S2P Require Import Prelude Bitcoin Errors AuxPow Signatures Block Serial.

Module Aura.

(** [slot_from_timestamp]. *)
Definition slot_from_timestamp {E} (ts slot_duration : Z) : res E Z := div_chk ts slot_duration.

(** The index is cast to [u8]. *)
Definition slot_author {A E} (s : Z) (authorities : list A) : res E (option (Z * A)) :=
  match authorities with
  | [] => Ok None
  | _ =>
      let idx := s mod Z.of_nat (length authorities) in
      current_author ← unwrap (authorities !! Z.to_nat idx);
      Ok (Some (wrap 8 idx, current_author))
  end.

Section WithLibs.
Context `{L : BlsLib, K : BlockLib}.

Record t := mk {
  authorities : list PublicKey;
  slot_duration : Z;
  authority : option Authority;
}.

(** [Aura::new]: a signer that is not in the set panics. *)
Definition new (auths : list PublicKey) (dur : Z) (maybe_signer : option SecretKey) :
    res Error t :=
  match maybe_signer with
  | Some sk =>
      i ← unwrap (position (fun x => bool_decide (public_key sk = x)) auths);
      Ok (mk auths dur (Some (mkAuthority sk (wrap 8 (Z.of_nat i)))))
  | None => Ok (mk auths dur None)
  end.

(** The slot of the block's own timestamp bounds its slot, with a drift of one,
    under the configured slot duration or under 3000 ms. The expected author is
    looked up and not compared. *)
Definition check_signed_by_author (a : t) (b : SignedConsensusBlock) : res AuraError unit :=
  let ts := wrap 64 (timestamp (execution_payload (message b)) * 1000) in
  let s := slot (message b) in
  slot_now ← slot_from_timestamp ts (slot_duration a);
  slot_with_3000_duration ← slot_from_timestamp ts 3000;
  limit ← add_chk 64 slot_now 1;
  in_future ← (if limit <? s then
                 limit' ← add_chk 64 slot_with_3000_duration 1;
                 Ok (limit' <? s)
               else Ok false);
  if in_future : bool then Err SlotIsInFuture
  else
    expected ← slot_author s (authorities a);
    ok_or expected SlotAuthorNotFound ;;
    if verify_signature b (authorities a) then Ok tt else Err BadSignature.

Definition required_signatures (n : nat) : nat := (n * 2 + 2) / 3.

Definition majority_approved (a : t) (b : SignedConsensusBlock) : res AuraError bool :=
  check_signed_by_author a b ;;
  if (num_approvals b <? required_signatures (length (authorities a)))%nat then Ok false
  else if verify_signature b (authorities a) then Ok true else Err BadSignature.

(** ** The slot worker *)

(** [time_until_next_slot] at [now] (milliseconds since the epoch). *)
Definition time_until_next_slot (now dur : Z) : res Error Z :=
  next_slot ← div_chk (now + dur) dur;
  Ok (wrap 64 (next_slot * dur - now)).

(** [claim_slot]: a signer is expected. *)
Definition claim_slot (maybe_signer : option SecretKey) (s : Z) (auths : list PublicKey) :
    res Error (option PublicKey) :=
  expected_author ← slot_author s auths;
  match expected_author with
  | None => Ok None
  | Some (_, p) =>
      sk ← unwrap maybe_signer;
      Ok (if bool_decide (public_key sk = p) then Some p else None)
  end.

(** The worker's state, and the clock as the sequence of times (milliseconds)
    at which a wait ends and the slot is computed. *)
Record Worker := mkWorker {
  last_slot : Z;
  w_slot_duration : Z;
  w_authorities : list PublicKey;
  maybe_signer : option SecretKey;
}.

Definition set_last_slot (s : Z) (w : Worker) : Worker :=
  mkWorker s (w_slot_duration w) (w_authorities w) (maybe_signer w).

(** The loop of [next_slot]: wake-ups that do not reach a new slot are
    skipped. [None]: the clock readings given are used up while it waits. *)
Fixpoint next_slot (w : Worker) (clock : list Z) :
    res Error (option (Z * Worker * list Z)) :=
  match clock with
  | [] => Ok None
  | now :: clock' =>
      s ← slot_from_timestamp (wrap 64 now) (wrap 64 (w_slot_duration w));
      if last_slot w <? s then Ok (Some (s, set_last_slot s w, clock'))
      else next_slot w clock'
  end.

(** [on_slot]: whether the chain is asked to produce a block for the slot. *)
Definition on_slot (w : Worker) (s : Z) : res Error bool :=
  claimed ← claim_slot (maybe_signer w) s (w_authorities w);
  Ok (bool_decide (is_Some claimed)).

(** [start_slot_worker] over the clock readings: the slots for which
    [produce_block] is called, in order. Every turn uses at least one reading,
    so their number is enough fuel. *)
Fixpoint slot_worker (fuel : nat) (w : Worker) (clock : list Z) : res Error (list Z) :=
  match fuel with
  | O => Ok []
  | S fuel' =>
      r ← next_slot w clock;
      match r with
      | None => Ok []
      | Some (s, w', clock') =>
          mine ← (match maybe_signer w' with Some _ => on_slot w' s | None => Ok false end);
          rest ← slot_worker fuel' w' clock';
          Ok (if mine : bool then s :: rest else rest)
      end
  end.

Definition start_slot_worker (w : Worker) (clock : list Z) : res Error (list Z) :=
  slot_worker (length clock) w clock.

(** ** Lemmas *)

Lemma slot_author_spec {A E} s (auths : list A) :
  auths <> [] ->
  exists p, auths !! Z.to_nat (s mod Z.of_nat (length auths)) = Some p /\
    slot_author (E:=E) s auths = Ok (Some (wrap 8 (s mod Z.of_nat (length auths)), p)).
Proof.
  intros Hne. assert (0 < Z.of_nat (length auths)) by (destruct auths; [done|cbn; lia]).
  pose proof (Z.mod_pos_bound s (Z.of_nat (length auths)) ltac:(lia)) as Hm.
  destruct (lookup_lt_is_Some_2 auths (Z.to_nat (s mod Z.of_nat (length auths))))
    as [p Hp]; [lia|].
  exists p. split; [done|]. unfold slot_author. destruct auths; [done|]. by rewrite Hp.
Qed.

Lemma next_slot_inv w clock s w' clock' :
  next_slot w clock = Ok (Some (s, w', clock')) ->
  last_slot w < s /\ w' = set_last_slot s w /\ (length clock' < length clock)%nat.
Proof.
  revert w. induction clock as [|now clock IH]; intros w; cbn; [done|].
  unfold mbind, res_bind. destruct (slot_from_timestamp _ _) as [s'| |]; [|done..].
  destruct (Z.ltb_spec (last_slot w) s').
  - intros [= <- <- <-]. split_and!; [done|done|lia].
  - intros (? & ? & ?)%IH. split_and!; [done|done|lia].
Qed.

Lemma claim_slot_inv ms s auths p :
  claim_slot ms s auths = Ok (Some p) ->
  auths !! Z.to_nat (s mod Z.of_nat (length auths)) = Some p /\
  exists sk, ms = Some sk /\ public_key sk = p.
Proof.
  unfold claim_slot. destruct (decide (auths = [])) as [->|Hne]; [done|].
  destruct (slot_author_spec (E:=Error) s auths Hne) as (q & Hq & ->).
  unfold mbind, res_bind, unwrap. destruct ms as [sk|]; [|done].
  case_bool_decide as Hsk; intros [= <-]. split; [done|]. exists sk. by split.
Qed.

Definition own_slot (w : Worker) (s : Z) : Prop :=
  exists sk, maybe_signer w = Some sk /\
    w_authorities w !! Z.to_nat (s mod Z.of_nat (length (w_authorities w)))
    = Some (public_key sk).

Lemma slot_worker_inv fuel w clock l :
  slot_worker fuel w clock = Ok l ->
  Forall (fun s => last_slot w < s /\ own_slot w s) l /\ StronglySorted Z.lt l.
Proof.
  revert w clock l. induction fuel as [|fuel IH]; intros w clock l; cbn.
  { intros [= <-]. split; constructor. }
  unfold mbind, res_bind. destruct (next_slot w clock) as [[[[s w'] clock']|]| |] eqn:En; try done.
  2:{ intros [= <-]. split; constructor. }
  apply next_slot_inv in En as (Hs & -> & _).
  destruct (match maybe_signer _ with Some _ => _ | None => _ end) as [mine| |] eqn:Em; try done.
  destruct (slot_worker fuel _ clock') as [rest| |] eqn:Er; try done.
  apply IH in Er as [Hall Hsort]. cbn [last_slot set_last_slot] in Hall.
  assert (Forall (fun s' => last_slot w < s' /\ own_slot w s') rest) as Hrest.
  { eapply Forall_impl; [exact Hall|]. intros s' [? ?]. split; [lia|done]. }
  intros [= <-]. destruct mine; [|done]. split.
  - constructor; [|done]. split; [done|]. destruct (maybe_signer w) as [sk|] eqn:Esk; [|by cbn in Em; rewrite Esk in Em].
    cbn [maybe_signer set_last_slot] in Em. rewrite Esk in Em.
    unfold on_slot, mbind, res_bind in Em.
    destruct (claim_slot _ _ _) as [[p|]| |] eqn:Ec; try done.
    apply claim_slot_inv in Ec as (Hp & sk' & Hsk' & <-). exists sk'. split; [|done].
    cbn in Hsk'. congruence.
  - constructor; [done|]. eapply Forall_impl; [exact Hall|]. by intros s' [? _].
Qed.

(** The number of set bits of two bit lists of the same length that both have
    set. *)
Lemma bits_intersection (l l' : list bool) :
  length l = length l' ->
  (length (filter (fun b => b = true) l) + length (filter (fun b => b = true) l')
   <= length l + length (filter (fun b => b = true) (zip_with andb l l')))%nat.
Proof.
  revert l'. induction l as [|b l IH]; intros [|b' l'] H; simpl in *; try done.
  injection H as H. specialize (IH l' H). rewrite !filter_cons.
  destruct b, b'; simpl; repeat case_decide; simpl; try done; lia.
Qed.

(** No bit is set beyond the authorities. *)
Definition no_phantom_bits (n : nat) (ag : Signatures.AggregateApproval) : Prop :=
  Forall (fun b => b = false) (drop n (Signatures.aggregation_bits ag)).

(** The number of bits set beyond the authorities. *)
Definition phantom_bits (n : nat) (ag : Signatures.AggregateApproval) : nat :=
  length (filter (fun b => b = true) (drop n (Signatures.aggregation_bits ag))).

Lemma num_approvals_split n ag :
  Signatures.num_approvals ag
  = (length (filter (fun b => b = true) (take n (Signatures.aggregation_bits ag)))
     + phantom_bits n ag)%nat.
Proof.
  unfold phantom_bits, Signatures.num_approvals.
  rewrite <-(take_drop n (Signatures.aggregation_bits ag)) at 1. by rewrite filter_app, length_app.
Qed.

Lemma phantom_bits_none n ag : no_phantom_bits n ag -> phantom_bits n ag = 0%nat.
Proof.
  unfold no_phantom_bits, phantom_bits.
  induction 1 as [|b l -> _ IH]; [done|]. by rewrite filter_cons_False.
Qed.

Lemma required_two_thirds n k : (required_signatures n <= k)%nat -> (2 * n <= 3 * k)%nat.
Proof.
  unfold required_signatures. pose proof (Nat.div_mod (n * 2 + 2) 3 ltac:(lia)).
  pose proof (Nat.mod_upper_bound (n * 2 + 2) 3 ltac:(lia)). lia.
Qed.

Lemma majority_approved_inv a b :
  majority_approved a b = Ok true ->
  verify_signature b (authorities a) = true /\
  (required_signatures (length (authorities a)) <= num_approvals b)%nat.
Proof.
  unfold majority_approved, mbind, res_bind. intros H.
  destruct (check_signed_by_author a b); try done.
  destruct (Nat.ltb_spec (num_approvals b) (required_signatures (length (authorities a)))); [done|].
  by destruct (verify_signature _ _).
Qed.

(** The authorities whose bit is set. *)
Definition approvers (n : nat) (b : SignedConsensusBlock) : list bool :=
  take n (Signatures.aggregation_bits (b_signature b)).

(** ** Properties *)

(** C8: Two blocks that pass the majority check of the same authority set are
    both approved by at least a third of the authorities, less the bits set
    beyond the authorities in either, which the check counts as approvals. The
    bits are those of a vector of fifteen, the type of the field. *)
Theorem majorities_intersect a b b' :
  length (Signatures.aggregation_bits (b_signature b)) = Signatures.MaxValidators ->
  length (Signatures.aggregation_bits (b_signature b')) = Signatures.MaxValidators ->
  majority_approved a b = Ok true -> majority_approved a b' = Ok true ->
  (length (authorities a) <=
   3 * (length (filter (fun x => x = true) (zip_with andb (approvers (length (authorities a)) b)
                                                          (approvers (length (authorities a)) b')))
        + phantom_bits (length (authorities a)) (b_signature b)
        + phantom_bits (length (authorities a)) (b_signature b')))%nat.
Proof.
  intros Hl Hl' [_ H]%majority_approved_inv [_ H']%majority_approved_inv.
  revert H H'. generalize (length (authorities a)) as n. intros n H%required_two_thirds H'%required_two_thirds.
  unfold num_approvals in *. rewrite (num_approvals_split n) in H, H'.
  pose proof (bits_intersection (approvers n b) (approvers n b')) as Hi.
  unfold approvers in *. rewrite !length_take in Hi. specialize (Hi ltac:(lia)). lia.
Qed.

(** A block majority-approved with clear bits beyond the authorities really
    carries the approvals of two thirds of the set: that many different
    positions of the set are among the signers its signature was verified
    against. *)
Theorem majority_has_two_thirds a b :
  no_phantom_bits (length (authorities a)) (b_signature b) ->
  majority_approved a b = Ok true ->
  verify_signature b (authorities a) = true /\
  (2 * length (authorities a) <=
   3 * length (Signatures.signers (Signatures.aggregation_bits (b_signature b))
                                  (authorities a)))%nat.
Proof.
  intros Hp [Hv H]%majority_approved_inv. split; [done|].
  apply required_two_thirds in H. unfold num_approvals in H.
  rewrite (num_approvals_split (length (authorities a))), (phantom_bits_none _ _ Hp) in H.
  assert (length (filter (fun x => x = true) (take (length (authorities a))
            (Signatures.aggregation_bits (b_signature b))))
          <= length (Signatures.signers (Signatures.aggregation_bits (b_signature b))
                                        (authorities a)))%nat as Hle.
  { unfold Signatures.signers. rewrite length_map. generalize (authorities a) as au. clear.
    induction (Signatures.aggregation_bits (b_signature b)) as [|x l IH]; intros [|k au];
      simpl; try lia. specialize (IH au). rewrite !filter_cons.
    repeat case_decide; simpl in *; try done; lia. }
  lia.
Qed.

(** The slot worker asks for a block only in its own slots, at most once per
    slot and in increasing order, whatever the clock readings are. *)
Theorem slot_worker_own_slots w clock l :
  start_slot_worker w clock = Ok l ->
  Forall (own_slot w) l /\ StronglySorted Z.lt l /\ NoDup l.
Proof.
  intros [Hall Hs]%slot_worker_inv. split_and!.
  - eapply Forall_impl; [exact Hall|]. by intros s [_ ?].
  - done.
  - clear Hall. induction Hs as [|s l Hs IH Hf]; constructor; [|done].
    intros Hin. eapply Forall_forall in Hf; [|done]. lia.
Qed.

(** The wait before the next slot is positive and at most one slot, and ends
    in the next slot. *)
Theorem time_until_next_slot_spec now dur :
  0 < dur < 2 ^ 64 -> 0 <= now ->
  exists d s, time_until_next_slot now dur = Ok d /\ 0 < d <= dur /\
    slot_from_timestamp (E:=Error) now dur = Ok s /\
    slot_from_timestamp (E:=Error) (now + d) dur = Ok (s + 1).
Proof.
  intros Hd Hn. unfold time_until_next_slot, slot_from_timestamp, div_chk.
  replace (dur =? 0) with false by lia. unfold mbind, res_bind.
  replace (now + dur) with (now + 1 * dur) by lia. rewrite Z.div_add by lia.
  pose proof (Z.div_mod now dur ltac:(lia)) as E.
  pose proof (Z.mod_pos_bound now dur ltac:(lia)) as Hm.
  exists ((now / dur + 1) * dur - now), (now / dur).
  rewrite wrap_small by nia. split_and!; [done|nia|nia|done|].
  f_equal. replace (now + ((now / dur + 1) * dur - now)) with ((now / dur + 1) * dur) by lia.
  apply Z.div_mul. lia.
Qed.

(** Within every run of as many consecutive slots as there are authorities,
    each authority is the author of exactly one slot. *)
Theorem slot_author_round_robin {A} (auths : list A) s i p :
  auths !! i = Some p -> 0 <= s -> (length auths <= 256)%nat ->
  exists k, 0 <= k < Z.of_nat (length auths) /\
    slot_author (E:=Error) (s + k) auths = Ok (Some (Z.of_nat i, p)) /\
    forall k', 0 <= k' < Z.of_nat (length auths) ->
      slot_author (E:=Error) (s + k') auths = Ok (Some (Z.of_nat i, p)) -> k' = k.
Proof.
  intros Hi Hs Hn. pose proof (lookup_lt_Some _ _ _ Hi) as Hlt.
  set (n := Z.of_nat (length auths)) in *. assert (0 < n) as Hpos by lia.
  assert (auths <> []) as Hne by (by destruct auths).
  assert (forall k', (s + k') mod n = Z.of_nat i <->
            slot_author (E:=Error) (s + k') auths = Ok (Some (Z.of_nat i, p))) as Hiff.
  { intros k'. destruct (slot_author_spec (E:=Error) (s + k') auths Hne) as (q & Hq & E).
    pose proof (Z.mod_pos_bound (s + k') n Hpos) as Hm. fold n in Hq, E.
    rewrite E, wrap_small by lia. split; [intros Heq|intros [= -> _]; done].
    rewrite Heq in *. rewrite Nat2Z.id in Hq. congruence. }
  exists ((Z.of_nat i - s) mod n).
  pose proof (Z.mod_pos_bound (Z.of_nat i - s) n Hpos) as Hk.
  split; [done|]. split.
  - apply Hiff. rewrite Zplus_mod_idemp_r. replace (s + (Z.of_nat i - s)) with (Z.of_nat i) by lia.
    apply Z.mod_small. lia.
  - intros k' Hk' H%Hiff. rewrite <-H.
    rewrite Zminus_mod_idemp_l. replace (s + k' - s) with k' by lia. by rewrite Z.mod_small.
Qed.

End WithLibs.

(** ** Witnesses, and the phantom-bit behaviour *)

Module Witness.
#[local] Existing Instance Signatures.Example.bls.
#[local] Existing Instance Signatures.Example.bls_laws.
#[local] Existing Instance ExampleSerial.blocks.

Definition aura : t := mk [[3]; [5]; [7]] 2000 None.

Definition signed_with (sks : list (Z * Z)) (bits : list bool) : SignedConsensusBlock :=
  mkSigned block_default
    (Signatures.mkAggregate bits
      (foldl agg_add agg_empty (map (fun '(sk, _) => sk_sign sk (signing_root block_default)) sks))).

Definition two_of_three : SignedConsensusBlock :=
  signed_with [(3, 0); (7, 2)] ([true; false; true] ++ replicate 12 false).

Definition other_two : SignedConsensusBlock :=
  signed_with [(3, 0); (5, 1)] ([true; true; false] ++ replicate 12 false).

Lemma majorities_intersect_witness :
  (3 <= 3 * (length (filter (fun x => x = true)
     (zip_with andb (approvers 3 two_of_three) (approvers 3 other_two))) + 0 + 0))%nat.
Proof.
  apply (majorities_intersect aura two_of_three other_two); vm_compute; reflexivity.
Defined.

Lemma majority_has_two_thirds_witness :
  verify_signature two_of_three (authorities aura) = true /\
  (2 * 3 <= 3 * length (Signatures.signers
     (Signatures.aggregation_bits (b_signature two_of_three)) (authorities aura)))%nat.
Proof.
  apply (majority_has_two_thirds aura); [|vm_compute; reflexivity].
  unfold no_phantom_bits; vm_compute; repeat constructor.
Defined.

(** The approval count includes bits beyond the authority set, which the
    signature check skips: a block signed by one of three authorities is
    majority-approved when a phantom bit is set too. *)
Theorem phantom_bit_majority :
  exists b, majority_approved aura b = Ok true /\
    length (Signatures.signers (Signatures.aggregation_bits (b_signature b))
                               (authorities aura)) = 1%nat.
Proof.
  exists (signed_with [(3, 0)] ([true; false; false; true] ++ replicate 11 false)).
  split; vm_compute; reflexivity.
Qed.

Definition worker : Worker := mkWorker 0 2000 [[3]; [5]; [7]] (Some 5).

Lemma slot_worker_own_slots_witness :
  start_slot_worker worker [2000; 2500; 4100; 8000; 8001; 20000] = Ok [1; 4; 10] /\
  (Forall (own_slot worker) [1; 4; 10] /\ StronglySorted Z.lt [1; 4; 10] /\ NoDup [1; 4; 10]).
Proof.
  split; [vm_compute; reflexivity|].
  apply (slot_worker_own_slots worker [2000; 2500; 4100; 8000; 8001; 20000]).
  vm_compute. reflexivity.
Defined.

Lemma time_until_next_slot_witness :
  exists d s, time_until_next_slot 4100 2000 = Ok d /\ 0 < d <= 2000 /\
    slot_from_timestamp (E:=Error) 4100 2000 = Ok s /\
    slot_from_timestamp (E:=Error) (4100 + d) 2000 = Ok (s + 1).
Proof. apply time_until_next_slot_spec; lia. Defined.

Lemma slot_author_round_robin_witness :
  exists k, 0 <= k < 3 /\
    slot_author (E:=Error) (100 + k) [3; 5; 7] = Ok (Some (1, 5)) /\
    forall k', 0 <= k' < 3 ->
      slot_author (E:=Error) (100 + k') [3; 5; 7] = Ok (Some (1, 5)) -> k' = k.
Proof. apply (slot_author_round_robin [3; 5; 7] 100 1 5); [reflexivity|lia|simpl; lia]. Defined.

End Witness.

End Aura.
