(* ===== verification/Candidates.v ===== *)
(** Block candidates: the proposals under approval, one per height
    ([app/src/block_candidate/mod.rs], [candidate_state.rs] and
    [block_candidate_cache.rs]). The [RwLock] around the cache makes every
    operation of [BlockCandidates] atomic, so its methods are the cache's. *)
From stdpp Require Import base decidable list gmap.
From Stdlib Require Import ZArith Lia.
From S2P Require Import Prelude Bitcoin Errors AuxPow Signatures Block Serial.

Module Candidates.

(** [ApproveBlock] of [app/src/network/mod.rs]. *)
Record ApproveBlock := mkApprove {
  block_hash : hash;
  signature : Signatures.IndividualApproval;
}.

Inductive CandidateState :=
| CheckedBlock (b : SignedConsensusBlock)
| QueuedApprovals (v : list Signatures.CheckedIndividualApproval).

Definition state_default : CandidateState := QueuedApprovals [].

Definition state_get_block (s : CandidateState) : option SignedConsensusBlock :=
  match s with CheckedBlock b => Some b | QueuedApprovals _ => None end.

Record t := mk {
  candidates_by_height : gmap Z CandidateState;
  hash_to_height : gmap hash Z;
}.

Definition new : t := mk ∅ ∅.

Section WithLibs.
Context `{L : BlsLib, K : BlockLib}.

Definition add_checked_approval (c : Signatures.CheckedIndividualApproval) :
    ST CandidateState Error unit := fun s =>
  match s with
  | CheckedBlock x =>
      match add_approval x c with
      | Ok x' => (Ok tt, CheckedBlock x')
      | Err e => (Err e, s)
      | Panic => (Panic, s)
      end
  | QueuedApprovals v => (Ok tt, QueuedApprovals (v ++ [c]))
  end.

Definition add_unchecked_approval (a : ApproveBlock) (authorities : list PublicKey) :
    ST CandidateState Error unit :=
  checked ← liftR (Signatures.check (signature a) (block_hash a) authorities);
  add_checked_approval checked.

(** The queue is drained into the block; when an approval does not fit, the
    error leaves the drained queue behind. *)
Definition add_checked_block (b : SignedConsensusBlock) : ST CandidateState Error unit := fun s =>
  match s with
  | QueuedApprovals queued =>
      match mapM_ add_checked_approval queued (CheckedBlock b) with
      | (Ok _, new_state) => (Ok tt, new_state)
      | (Err e, _) => (Err e, QueuedApprovals [])
      | (Panic, _) => (Panic, QueuedApprovals [])
      end
  | CheckedBlock _ => (Ok tt, CheckedBlock b)
  end.

(** ** The cache *)

Definition set_candidate (k : Z) (s : CandidateState) (c : t) : t :=
  mk (<[k := s]> (candidates_by_height c)) (hash_to_height c).
Definition set_height (h : hash) (k : Z) (c : t) : t :=
  mk (candidates_by_height c) (<[h := k]> (hash_to_height c)).
Definition forget_hash (h : hash) (c : t) : t :=
  mk (candidates_by_height c) (delete h (hash_to_height c)).

(** An update through [get_mut] of the candidate at a height. *)
Definition update_candidate (k : Z) (s : CandidateState) (m : ST CandidateState Error unit) :
    ST t Error unit := fun c =>
  let (r, s') := m s in (r, set_candidate k s' c).

Definition insert (b : SignedConsensusBlock) (is_syncing : bool) : ST t Error unit :=
  let h := canonical_root b in
  let k := block_number (execution_payload (message b)) in
  c ← getS;
  match candidates_by_height c !! k with
  | Some s =>
      match state_get_block s with
      | Some existing =>
          if (slot (message existing) <? slot (message b)) || is_syncing then
            modifyS (forget_hash (canonical_root existing)) ;;
            update_candidate k s (add_checked_block b) ;;
            modifyS (set_height h k)
          else mret tt
      | None =>
          update_candidate k s (add_checked_block b) ;;
          modifyS (set_height h k)
      end
  | None =>
      let (r, s) := add_checked_block b state_default in
      liftR r ;;
      modifyS (fun c => set_height h k (set_candidate k s c))
  end.

Definition add_approval (a : ApproveBlock) (authorities : list PublicKey) (is_syncing : bool) :
    ST t Error unit :=
  let h := block_hash a in
  c ← getS;
  let known :=
    k ← hash_to_height c !! h;
    s ← candidates_by_height c !! k;
    Some (k, s) in
  match known with
  | Some (k, s) =>
      match state_get_block s with
      | Some current =>
          if negb (bool_decide (canonical_root current = h)) && negb is_syncing
          then modifyS (forget_hash h)
          else update_candidate k s (add_unchecked_approval a authorities)
      | None => update_candidate k s (add_unchecked_approval a authorities)
      end
  | None =>
      let (r, s) := add_unchecked_approval a authorities state_default in
      liftR r ;;
      modifyS (fun c => set_candidate 0 s (set_height h 0 c))
  end.

Definition remove (h : hash) : ST t Error (option CandidateState) :=
  c ← getS;
  match hash_to_height c !! h with
  | Some k =>
      modifyS (fun c => mk (delete k (candidates_by_height c)) (delete h (hash_to_height c))) ;;
      mret (candidates_by_height c !! k)
  | None => mret None
  end.

Definition clear : ST t Error unit := modifyS (fun _ => new).

Definition get_block (h : hash) (c : t) : option SignedConsensusBlock :=
  k ← hash_to_height c !! h;
  s ← candidates_by_height c !! k;
  state_get_block s.

Definition len (c : t) : nat := size (candidates_by_height c).
Definition is_empty (c : t) : bool := bool_decide (candidates_by_height c = ∅).

(** ** The cache as a state machine *)

Abbreviation number b := (block_number (execution_payload (message b))).

(** Calls the node makes, inserting blocks of [U] above the genesis. *)
Inductive step (U : list SignedConsensusBlock) : t -> t -> Prop :=
| step_insert b sync c r c' :
    b ∈ U -> insert b sync c = (r, c') -> step U c c'
| step_approve a authorities sync c r c' :
    add_approval a authorities sync c = (r, c') -> step U c c'
| step_remove h c r c' : remove h c = (r, c') -> step U c c'
| step_clear c r c' : clear c = (r, c') -> step U c c'.

(** Above height 0 the two maps mirror each other: a candidate is a block of
    that height, filed under its hash; height 0 only holds queued approvals. *)
Record inv (U : list SignedConsensusBlock) (c : t) : Prop := {
  inv_height k s : candidates_by_height c !! k = Some s ->
    (k = 0 /\ state_get_block s = None) \/
    (0 < k /\ exists b, s = CheckedBlock b /\ number b = k /\
       hash_to_height c !! canonical_root b = Some k /\
       exists b0, b0 ∈ U /\ message b = message b0);
  inv_hash h k : hash_to_height c !! h = Some k -> k <> 0 ->
    exists b, candidates_by_height c !! k = Some (CheckedBlock b) /\ canonical_root b = h;
}.

(** The blocks handed to the cache are above the genesis, and blocks of
    different heights have different roots. *)
Definition usable (U : list SignedConsensusBlock) : Prop :=
  (forall b, b ∈ U -> 0 < number b) /\
  (forall b b', b ∈ U -> b' ∈ U -> canonical_root b = canonical_root b' ->
     number b = number b').

Lemma add_checked_approval_block c b r s' :
  add_checked_approval c (CheckedBlock b) = (r, s') ->
  exists b', s' = CheckedBlock b' /\ message b' = message b.
Proof.
  cbn. destruct (Block.add_approval b c) as [x| |] eqn:E; intros [= <- <-]; eauto.
  apply add_approval_message in E. eauto.
Qed.

Lemma add_unchecked_approval_block a au b r s' :
  add_unchecked_approval a au (CheckedBlock b) = (r, s') ->
  exists b', s' = CheckedBlock b' /\ message b' = message b.
Proof.
  unfold add_unchecked_approval, liftR, mbind, st_bind.
  destruct (Signatures.check _ _ _); [apply add_checked_approval_block|intros [= _ <-]; eauto..].
Qed.

Lemma add_unchecked_approval_queue a au v r s' :
  add_unchecked_approval a au (QueuedApprovals v) = (r, s') -> state_get_block s' = None.
Proof.
  unfold add_unchecked_approval, liftR, mbind, st_bind.
  by destruct (Signatures.check _ _ _); intros [= _ <-].
Qed.

Lemma add_checked_block_default b :
  add_checked_block b state_default = (Ok tt, CheckedBlock b).
Proof. done. Qed.

(** ** A predicate on the messages of the candidates *)

Definition holds (P : ConsensusBlock -> Prop) (c : t) : Prop :=
  forall k b, candidates_by_height c !! k = Some (CheckedBlock b) -> P (message b).

Lemma holds_set P k s c :
  (forall b, s = CheckedBlock b -> P (message b)) -> holds P c -> holds P (set_candidate k s c).
Proof.
  intros Hs Hc k' b H. cbn in H. apply lookup_insert_Some in H as [[_ ->]|[_ H]]; eauto.
Qed.

Lemma drain_block l b r s :
  mapM_ add_checked_approval l (CheckedBlock b) = (r, s) ->
  exists b', s = CheckedBlock b' /\ message b' = message b.
Proof.
  revert b. induction l as [|a l IH]; intros b H.
  - injection H as _ <-. eauto.
  - cbn [mapM_] in H. unfold mbind, st_bind in H.
    destruct (add_checked_approval a (CheckedBlock b)) as [r1 s1] eqn:E.
    apply add_checked_approval_block in E as (b1 & -> & Hm). destruct r1; [|injection H as _ <-; eauto..].
    apply IH in H as (b' & -> & Hb'). exists b'. by rewrite Hb'.
Qed.

Lemma add_checked_block_message b s r s' b' :
  add_checked_block b s = (r, s') -> s' = CheckedBlock b' -> message b' = message b.
Proof.
  destruct s as [e|v]; cbn; [by intros [= _ <-] [= <-]|].
  destruct (mapM_ add_checked_approval v (CheckedBlock b)) as [[] s1] eqn:E;
    apply drain_block in E as (b1 & -> & Hm); intros [= _ <-] H; by simplify_eq.
Qed.

Lemma insert_holds P b sync c : P (message b) -> holds P c -> holds P (insert b sync c).2.
Proof.
  intros Hb Hc. unfold insert, getS, modifyS, liftR, mbind, st_bind, update_candidate. cbv zeta.
  assert (forall k s c0, holds P c0 -> holds P (set_candidate k (add_checked_block b s).2 c0)) as Hset.
  { intros k s c0 H0. apply holds_set; [|done]. intros b' Hb'.
    destruct (add_checked_block b s) as [r s'] eqn:E. cbn in Hb'.
    by rewrite (add_checked_block_message _ _ _ _ _ E Hb'). }
  destruct (candidates_by_height c !! _) as [s|]; [|by apply (Hset _ state_default)].
  destruct (state_get_block s); [destruct (_ || _); [|done]|];
    specialize (Hset (block_number (execution_payload (message b))) s);
    destruct (add_checked_block b s) as [[] s']; by apply Hset.
Qed.

Lemma add_unchecked_message a au s r s' b' :
  add_unchecked_approval a au s = (r, s') -> s' = CheckedBlock b' ->
  exists b, s = CheckedBlock b /\ message b' = message b.
Proof.
  destruct s as [b|v].
  - intros (b1 & -> & ?)%add_unchecked_approval_block [= <-]. eauto.
  - intros H%add_unchecked_approval_queue ->. done.
Qed.

Lemma add_approval_holds P a au sync c : holds P c -> holds P (add_approval a au sync c).2.
Proof.
  intros Hc. unfold add_approval, getS, modifyS, liftR, mbind, st_bind, update_candidate. cbv zeta.
  assert (forall k s c0, holds P c0 -> (forall b, s = CheckedBlock b -> P (message b)) ->
            holds P (set_candidate k (add_unchecked_approval a au s).2 c0)) as Hset.
  { intros k s c0 H0 Hs. apply holds_set; [|done]. intros b' Hb'.
    destruct (add_unchecked_approval a au s) as [r s'] eqn:E. cbn in Hb'.
    destruct (add_unchecked_message _ _ _ _ _ _ E Hb') as (b & -> & ->). by apply Hs. }
  assert (holds P (set_candidate 0 (add_unchecked_approval a au state_default).2
                     (set_height (block_hash a) 0 c))) as H0 by by apply Hset.
  destruct (hash_to_height c !! block_hash a) as [k|]; cbn;
    [destruct (candidates_by_height c !! k) as [s|] eqn:Ek; cbn|];
    [|by destruct (add_unchecked_approval a au state_default) as [[] s]..].
  assert (holds P (set_candidate k (add_unchecked_approval a au s).2 c)) as H1
    by (apply Hset; [done|intros b ->; by eapply Hc]).
  destruct (state_get_block s); [destruct (_ && _); [done|]|];
    by destruct (add_unchecked_approval a au s) as [[] s'].
Qed.

Lemma get_block_holds P h c b : holds P c -> get_block h c = Some b -> P (message b).
Proof.
  intros Hc H. unfold get_block in H. destruct (hash_to_height c !! h) as [k|]; cbn in H; [|done].
  destruct (candidates_by_height c !! k) as [[e|]|] eqn:Ek; cbn in H; [|done..].
  simplify_eq. by eapply Hc.
Qed.

(** What [insert] does above the genesis, under the invariant. *)
Lemma insert_cases U b sync c :
  inv U c -> 0 < number b ->
  let h := canonical_root b in
  insert b sync c =
  (Ok tt, match candidates_by_height c !! number b with
          | Some (CheckedBlock existing) =>
              if (slot (message existing) <? slot (message b)) || sync
              then set_height h (number b) (set_candidate (number b) (CheckedBlock b)
                     (forget_hash (canonical_root existing) c))
              else c
          | _ => set_height h (number b) (set_candidate (number b) (CheckedBlock b) c)
          end).
Proof.
  intros Hi Hk h. unfold insert, getS, modifyS, mbind, st_bind. cbv zeta.
  destruct (candidates_by_height c !! number b) as [s|] eqn:E; [|done].
  destruct (inv_height U c Hi _ _ E) as [[? _]|(_ & b0 & -> & _)]; [lia|]. cbn.
  by destruct (_ || _).
Qed.

Lemma inv_put U b c c0 :
  inv U c -> usable U -> b ∈ U ->
  candidates_by_height c0 = candidates_by_height c ->
  (forall h, h <> canonical_root b -> hash_to_height c0 !! h =
     match candidates_by_height c !! number b with
     | Some (CheckedBlock e) => if decide (h = canonical_root e) then None
                                else hash_to_height c !! h
     | _ => hash_to_height c !! h
     end) ->
  inv U (set_height (canonical_root b) (number b) (set_candidate (number b) (CheckedBlock b) c0)).
Proof.
  intros Hi [Hpos Hinj] HbU Hc Hh.
  assert (forall h k e, hash_to_height c0 !! h = Some k -> h <> canonical_root b ->
            k = number b -> candidates_by_height c !! k = Some (CheckedBlock e) -> False) as Hgone.
  { intros h k e H Hne -> He. rewrite Hh, He in H by done. case_decide as Hd; [done|].
    destruct (inv_hash U c Hi _ _ H) as (b' & Hb' & <-); [specialize (Hpos _ HbU); lia|].
    simplify_eq. }
  split; cbn; rewrite ?Hc.
  - intros k s Hs. destruct (decide (k = number b)) as [->|Hne].
    + rewrite lookup_insert_eq in Hs. simplify_eq. right. split; [by apply Hpos|].
      exists b. rewrite lookup_insert_eq. split_and!; eauto.
    + rewrite lookup_insert_ne in Hs by done.
      destruct (inv_height U c Hi _ _ Hs) as [?|(Hk & b' & -> & Hn & Hb' & b0 & Hb0 & Hm)];
        [by left|]. right. split; [done|]. exists b'. split; [done|]. split; [done|].
      assert (canonical_root b' <> canonical_root b) as Hr.
      { intros E. apply Hne. rewrite <-Hn, Hm. apply Hinj; [done|done|].
        by rewrite <-E; unfold canonical_root; rewrite Hm. }
      split; [|eauto]. rewrite lookup_insert_ne, Hh by done.
      destruct (candidates_by_height c !! number b) as [[e|]|] eqn:Ee; [|done..].
      case_decide as Hd; [|done]. exfalso.
      destruct (inv_height U c Hi _ _ Ee) as [[_ ?]|(_ & e' & [= <-] & _ & He & _)]; [done|].
      rewrite <-Hd, Hb' in He. simplify_eq.
  - intros h k Hk Hk0. destruct (decide (h = canonical_root b)) as [->|Hne].
    + rewrite lookup_insert_eq in Hk. simplify_eq. exists b. by rewrite lookup_insert_eq.
    + rewrite lookup_insert_ne in Hk by done. pose proof Hk as Hk'. rewrite Hh in Hk by done.
      assert (hash_to_height c !! h = Some k) as Hk1.
      { destruct (candidates_by_height c !! number b) as [[e|]|]; [|done..]. by case_decide. }
      destruct (inv_hash U c Hi _ _ Hk1 Hk0) as (b' & Hb' & <-). exists b'. split; [|done].
      rewrite lookup_insert_ne; [done|]. intros E.
      eapply Hgone; [exact Hk'|done|by symmetry|exact Hb'].
Qed.

Lemma inv_insert U b sync c r c' :
  usable U -> b ∈ U -> insert b sync c = (r, c') -> inv U c -> inv U c'.
Proof.
  intros HU HbU H Hi. rewrite (insert_cases U) in H by (done || by apply HU).
  injection H as _ <-.
  destruct (candidates_by_height c !! number b) as [[e|v]|] eqn:E.
  2,3: apply (inv_put U b c); try done; intros h Hne; by rewrite E.
  destruct (_ || _); [|done]. apply (inv_put U b c); [done..|].
  intros h Hne. rewrite E. cbn. case_decide as Hd; [by subst; rewrite lookup_delete_eq|].
  by rewrite lookup_delete_ne.
Qed.

Lemma inv_approve_known U c k b b' :
  inv U c -> candidates_by_height c !! k = Some (CheckedBlock b) -> message b' = message b ->
  inv U (set_candidate k (CheckedBlock b') c).
Proof.
  intros Hi Hk Hm. split; cbn.
  - intros k' s Hs. destruct (decide (k' = k)) as [->|Hne].
    + rewrite lookup_insert_eq in Hs. simplify_eq.
      destruct (inv_height U c Hi _ _ Hk) as [[_ ?]|(Hp & e & [= <-] & Hn & Hh & b0 & Hb0 & Hm0)];
        [done|]. right. split; [done|]. exists b'. unfold canonical_root in *. rewrite Hm. eauto 10.
    + rewrite lookup_insert_ne in Hs by done. by eapply inv_height.
  - intros h k' Hh H0. destruct (inv_hash U c Hi _ _ Hh H0) as (e & He & <-).
    destruct (decide (k' = k)) as [->|Hne].
    + simplify_eq. exists b'. rewrite lookup_insert_eq. split; [done|].
      by unfold canonical_root; rewrite Hm.
    + exists e. by rewrite lookup_insert_ne.
Qed.

(** Height 0 may change freely between queues of approvals. *)
Lemma inv_queue U c s h :
  inv U c -> state_get_block s = None ->
  (forall k, hash_to_height c !! h = Some k -> k = 0 \/ candidates_by_height c !! k = None) ->
  inv U (set_candidate 0 s (set_height h 0 c)).
Proof.
  intros Hi Hs Hh. split; cbn.
  - intros k s' Hk. destruct (decide (k = 0)) as [->|Hne].
    + rewrite lookup_insert_eq in Hk. simplify_eq. by left.
    + rewrite lookup_insert_ne in Hk by done.
      destruct (inv_height U c Hi _ _ Hk) as [?|(Hp & b & -> & Hn & Hb & Hm)]; [by left|].
      right. split; [done|]. exists b. split_and!; [done|done| |done].
      destruct (decide (h = canonical_root b)) as [->|]; [|by rewrite lookup_insert_ne].
      destruct (Hh _ Hb) as [?|?]; [done|congruence].
  - intros h' k Hk H0. destruct (decide (h' = h)) as [->|Hne].
    + rewrite lookup_insert_eq in Hk. simplify_eq.
    + rewrite lookup_insert_ne in Hk by done.
      destruct (inv_hash U c Hi _ _ Hk H0) as (b & Hb & <-). exists b.
      by rewrite lookup_insert_ne.
Qed.

Lemma inv_approve U a au sync c r c' :
  add_approval a au sync c = (r, c') -> inv U c -> inv U c'.
Proof.
  unfold add_approval, getS, modifyS, liftR, mbind, st_bind, update_candidate. intros H Hi.
  cbv zeta in H. destruct (hash_to_height c !! block_hash a) as [k|] eqn:Eh; cbn in H.
  - destruct (candidates_by_height c !! k) as [s|] eqn:Ek; cbn in H.
    + destruct (inv_height U c Hi _ _ Ek) as [[-> Hs]|(Hp & b & -> & Hn & Hb & _)].
      * rewrite Hs in H. destruct (add_unchecked_approval a au s) as [r' s'] eqn:Ea.
        injection H as _ <-. destruct s as [|v]; [done|].
        apply add_unchecked_approval_queue in Ea.
        assert (inv U (set_candidate 0 s' (set_height (block_hash a) 0 c))) as HQ.
        { apply inv_queue; [done|done|]. intros k' Hk'. rewrite Eh in Hk'. simplify_eq. by left. }
        unfold set_height, set_candidate in *. cbn in HQ. by rewrite (insert_id (hash_to_height c)) in HQ.
      * cbn in H. destruct (inv_hash U c Hi _ _ Eh ltac:(lia)) as (b' & Hb' & Hr). simplify_eq.
        rewrite bool_decide_true in H by done. cbn in H.
        destruct (add_unchecked_approval a au (CheckedBlock _)) as [r' s'] eqn:Ea.
        injection H as _ <-. apply add_unchecked_approval_block in Ea as (b'' & -> & Hm).
        by eapply inv_approve_known.
    + destruct (add_unchecked_approval a au state_default) as [[]  s] eqn:Ea;
        injection H as _ <-; try done.
      apply inv_queue; [done|eapply add_unchecked_approval_queue; exact Ea|].
      intros k' Hk'. simplify_eq. by right.
  - destruct (add_unchecked_approval a au state_default) as [[]  s] eqn:Ea;
      injection H as _ <-; try done.
    apply inv_queue; [done|eapply add_unchecked_approval_queue; exact Ea|]. intros k' Hk'. simplify_eq.
Qed.

Lemma inv_remove U h c r c' : remove h c = (r, c') -> inv U c -> inv U c'.
Proof.
  unfold remove, getS, modifyS, mbind, st_bind, mret, st_ret. intros H Hi.
  destruct (hash_to_height c !! h) as [k|] eqn:Eh; injection H as _ <-; [|done].
  split; cbn.
  - intros k' s Hs. apply lookup_delete_Some in Hs as [Hne Hs].
    destruct (inv_height U c Hi _ _ Hs) as [?|(Hp & b & -> & Hn & Hb & Hm)]; [by left|].
    right. split; [done|]. exists b. split_and!; [done|done| |done].
    rewrite lookup_delete_ne; [done|]. intros ->. congruence.
  - intros h' k' Hk H0. apply lookup_delete_Some in Hk as [Hne Hk].
    destruct (inv_hash U c Hi _ _ Hk H0) as (b & Hb & <-). exists b. split; [|done].
    rewrite lookup_delete_ne; [done|]. intros ->.
    destruct (inv_hash U c Hi _ _ Eh H0) as (b' & Hb' & <-). congruence.
Qed.

Lemma inv_new U : inv U new.
Proof. split; cbn; intros *; by rewrite lookup_empty. Qed.

Lemma inv_step U c c' : usable U -> step U c c' -> inv U c -> inv U c'.
Proof.
  intros HU [b sync c0 r c1 Hb H|a au sync c0 r c1 H|h c0 r c1 H|c0 r c1 H] Hi.
  - by eapply inv_insert.
  - by eapply inv_approve.
  - by eapply inv_remove.
  - injection H as _ <-. apply inv_new.
Qed.

Lemma inv_reachable U c : usable U -> rtc (step U) new c -> inv U c.
Proof.
  intros HU H. eapply rtc_invariant; [|exact H|apply inv_new].
  intros x y Hxy. by apply inv_step.
Qed.

(** ** Which block is the candidate of a height *)

(** The message of the candidate at a height. *)
Definition candidate (k : Z) (c : t) : option ConsensusBlock :=
  s ← candidates_by_height c !! k; message <$> state_get_block s.

(** Insertions and approvals, with the flag they are called with. *)
Inductive Call :=
| CallInsert (b : SignedConsensusBlock) (is_syncing : bool)
| CallApprove (a : ApproveBlock) (authorities : list PublicKey) (is_syncing : bool).

Definition call (x : Call) (c : t) : t :=
  match x with
  | CallInsert b f => (insert b f c).2
  | CallApprove a au f => (add_approval a au f c).2
  end.

Definition call_ok (U : list SignedConsensusBlock) (x : Call) : Prop :=
  match x with CallInsert b _ => b ∈ U | CallApprove _ _ _ => True end.

(** The blocks of a height among the insertions, with their flags. *)
Definition inserted (k : Z) (xs : list Call) : list (ConsensusBlock * bool) :=
  omap (fun x => match x with
                 | CallInsert b f => if number b =? k then Some (message b, f) else None
                 | CallApprove _ _ _ => None
                 end) xs.

(** [w] leads the insertions [l]: no insertion after it has the flag or a higher
    slot, and it has a higher slot than those before it, back to the beginning
    or to one with the flag (which may be its own). *)
Definition leads (w : ConsensusBlock) (l : list (ConsensusBlock * bool)) : Prop :=
  exists l0 l1 f l2, l = l0 ++ l1 ++ (w, f) :: l2 /\
    (l0 = [] \/ exists b, head (l1 ++ [(w, f)]) = Some (b, true)) /\
    Forall (fun x => slot x.1 < slot w) l1 /\
    Forall (fun x => x.2 = false /\ slot x.1 <= slot w) l2.

Lemma leads_first b f : leads b [(b, f)].
Proof. exists [], [], f, []. split_and!; [done|by left|constructor..]. Qed.

Lemma leads_flag b l : leads b (l ++ [(b, true)]).
Proof. exists l, [], true, []. split_and!; [done|right; by exists b|constructor..]. Qed.

Lemma leads_kept w l b : leads w l -> slot b <= slot w -> leads w (l ++ [(b, false)]).
Proof.
  intros (l0 & l1 & f & l2 & -> & Hh & H1 & H2) Hle. exists l0, l1, f, (l2 ++ [(b, false)]).
  split_and!; [by rewrite <-!app_assoc|done|done|].
  apply Forall_app. split; [done|]. by repeat constructor.
Qed.

Lemma leads_higher w l b f : leads w l -> slot w < slot b -> leads b (l ++ [(b, f)]).
Proof.
  intros (l0 & l1 & f0 & l2 & -> & Hh & H1 & H2) Hlt.
  exists l0, (l1 ++ (w, f0) :: l2), f, []. split_and!; [by rewrite <-!app_assoc| | |constructor].
  - destruct Hh as [->|[x Hx]]; [by left|right]. exists x. by destruct l1; cbn in *.
  - apply Forall_app. split; [|constructor; [done|]]; eapply Forall_impl; try done; cbn; intros; lia.
Qed.

Lemma candidate_approve U a au sync c k :
  inv U c -> 0 < k -> candidate k (add_approval a au sync c).2 = candidate k c.
Proof.
  intros Hi Hk. unfold add_approval, getS, modifyS, liftR, mbind, st_bind, update_candidate. cbv zeta.
  assert (forall s c0, candidates_by_height c0 = candidates_by_height c ->
            candidate k (set_candidate 0 s c0) = candidate k c) as H0.
  { intros s c0 E. unfold candidate. cbn. by rewrite lookup_insert_ne, E by lia. }
  destruct (hash_to_height c !! block_hash a) as [k'|] eqn:Eh; cbn;
    [|destruct (add_unchecked_approval a au state_default) as [[] ?]; [by apply (H0 _ (set_height (block_hash a) 0 c))|done..]].
  destruct (candidates_by_height c !! k') as [s|] eqn:Ek; cbn;
    [|destruct (add_unchecked_approval a au state_default) as [[] ?]; [by apply (H0 _ (set_height (block_hash a) 0 c))|done..]].
  destruct (inv_height U c Hi _ _ Ek) as [[-> Hs]|(Hp & b & -> & _)].
  { rewrite Hs. destruct (add_unchecked_approval a au s). by apply H0. }
  cbn. destruct (_ && _); [done|].
  destruct (add_unchecked_approval a au (CheckedBlock b)) as [r' s'] eqn:Ea.
  apply add_unchecked_approval_block in Ea as (b' & -> & Hm).
  unfold candidate. cbn. destruct (decide (k' = k)) as [->|Hne]; [|by rewrite lookup_insert_ne].
  rewrite lookup_insert_eq, Ek. cbn. by rewrite Hm.
Qed.

Lemma candidate_insert_ne U b sync c k :
  inv U c -> 0 < number b -> k <> number b -> candidate k (insert b sync c).2 = candidate k c.
Proof.
  intros Hi Hb Hne. rewrite (insert_cases U) by done. unfold candidate.
  destruct (candidates_by_height c !! number b) as [[e|]|]; [destruct (_ || _); [|done]|..];
    cbn; by rewrite lookup_insert_ne.
Qed.

(** The candidate after an insertion, from the one before. *)
Lemma candidate_insert U b sync c :
  inv U c -> 0 < number b ->
  candidate (number b) (insert b sync c).2 =
  match candidate (number b) c with
  | Some e => if (slot e <? slot (message b)) || sync then Some (message b) else Some e
  | None => Some (message b)
  end.
Proof.
  intros Hi Hb. rewrite (insert_cases U) by done. unfold candidate. cbn.
  destruct (candidates_by_height c !! number b) as [[e|]|] eqn:E;
    cbn; [destruct (_ || _)|..]; cbn; by rewrite ?lookup_insert_eq, ?E.
Qed.

(** The candidate of a height after calls, by what was inserted there. *)
Definition led (k : Z) (l : list (ConsensusBlock * bool)) (c : t) : Prop :=
  match candidate k c with Some w => leads w l | None => l = [] end.

Lemma led_call U x k l c :
  usable U -> inv U c -> 0 < k -> call_ok U x -> led k l c -> led k (l ++ inserted k [x]) (call x c).
Proof.
  intros HU Hi Hk Hx Hl. unfold led in *. destruct x as [b f|a au f]; cbn;
    [|by rewrite app_nil_r, (candidate_approve U)].
  pose proof (proj1 HU b Hx) as Hb. destruct (Z.eqb_spec (number b) k) as [<-|Hne].
  - rewrite (candidate_insert U) by done. destruct (candidate (number b) c) as [e|].
    + destruct f; [rewrite orb_true_r; apply leads_flag|]. rewrite orb_false_r.
      destruct (Z.ltb_spec (slot e) (slot (message b))); [by eapply leads_higher|by apply leads_kept].
    + subst l. apply leads_first.
  - by rewrite app_nil_r, (candidate_insert_ne U).
Qed.

Lemma call_inv U x c : usable U -> call_ok U x -> inv U c -> inv U (call x c).
Proof.
  intros HU Hx Hi. destruct x as [b f|a au f]; cbn.
  - eapply (inv_insert U b f c); [done|done|apply surjective_pairing|done].
  - eapply (inv_approve U a au f c); [apply surjective_pairing|done].
Qed.

Lemma calls_led U k xs c l :
  usable U -> 0 < k -> Forall (call_ok U) xs -> inv U c -> led k l c ->
  led k (l ++ inserted k xs) (foldl (fun c x => call x c) c xs).
Proof.
  intros HU Hk Hxs. revert c l. induction Hxs as [|x xs Hx Hxs IH]; intros c l Hi Hl.
  { by rewrite app_nil_r. }
  cbn [foldl]. replace (inserted k (x :: xs)) with (inserted k [x] ++ inserted k xs)
    by (unfold inserted; rewrite <-omap_app; done).
  rewrite app_assoc. apply IH; [by apply call_inv|by apply (led_call U)].
Qed.

(** ** Properties *)

(** Whatever approvals, insertions and removals the node makes, a lookup of
    a hash in the candidate cache returns a block with that hash. *)
Theorem get_block_root U c h b :
  usable U -> rtc (step U) new c -> get_block h c = Some b -> canonical_root b = h.
Proof.
  intros HU Hr%inv_reachable H; [|done]. unfold get_block in H.
  apply bind_Some in H as (k & Hk & H). apply bind_Some in H as (s & Hs & H).
  destruct (inv_height U c Hr _ _ Hs) as [[-> ?]|(Hp & b' & -> & _)]; [congruence|].
  destruct (inv_hash U c Hr _ _ Hk ltac:(lia)) as (b'' & ? & <-). by simplify_eq/=.
Qed.

(** C11: Which block is the candidate of a height. Take any state the cache
    reaches that has no candidate at the height, and any sequence of insertions
    and approvals from there, where all blocks are above the genesis and blocks of
    different heights have different roots. There is no candidate while no block of the height
    was inserted; otherwise it is the block that leads the insertions of the
    height: the last one inserted with the flag or, since then, the first of the
    highest slot. (The flag that the node passes is whether it is synced, so on a
    synced node it is always the last block, and on one that is not synced the
    first of the highest slot.) Approvals never change which block it is. *)
Theorem insert_keeps_highest_slot U c k xs :
  usable U -> rtc (step U) new c -> 0 < k -> candidate k c = None -> Forall (call_ok U) xs ->
  match candidate k (foldl (fun c x => call x c) c xs) with
  | Some w => leads w (inserted k xs)
  | None => inserted k xs = []
  end.
Proof.
  intros HU Hr%inv_reachable Hk Hc Hxs; [|done].
  apply (calls_led U k xs c []); [done..|]. unfold led. by rewrite Hc.
Qed.

(** With the syncing flag set an insertion always replaces the candidate of
    its height, also by a block of a lower slot. *)
Theorem insert_syncing_replaces U c b :
  usable U -> rtc (step U) new c -> b ∈ U ->
  exists c', insert b true c = (Ok tt, c') /\ get_block (canonical_root b) c' = Some b.
Proof.
  intros HU Hr%inv_reachable HbU; [|done].
  rewrite (insert_cases U) by (done || by apply HU).
  destruct (candidates_by_height c !! number b) as [[e|v]|] eqn:E; rewrite ?orb_true_r;
    (eexists; split; [done|]); unfold get_block; cbn; rewrite lookup_insert_eq; cbn;
    by rewrite lookup_insert_eq.
Qed.

(** An approval that arrives before its block is lost: it is filed at the
    placeholder height 0, and the block that arrives later is stored with only
    the approvals it came with. *)
Theorem early_approval_lost a au sync sync' b c :
  0 < number b -> block_hash a = canonical_root b ->
  add_approval a au sync new = (Ok tt, c) ->
  exists c', insert b sync' c = (Ok tt, c') /\
    get_block (canonical_root b) c' = Some b.
Proof.
  intros Hk Hh H. unfold add_approval, getS, modifyS, liftR, mbind, st_bind in H.
  cbv zeta in H. cbn [hash_to_height new] in H. rewrite lookup_empty in H. cbn in H.
  destruct (add_unchecked_approval a au state_default) as [[] s] eqn:Ea; simplify_eq.
  unfold insert, getS, modifyS, mbind, st_bind. cbv zeta.
  cbn [candidates_by_height set_candidate set_height new].
  rewrite lookup_insert_ne, lookup_empty by lia. eexists. split; [done|].
  unfold get_block. cbn. rewrite lookup_insert_eq. cbn. by rewrite lookup_insert_eq.
Qed.

End WithLibs.

Module Witness.
#[local] Existing Instance Signatures.Example.bls.
#[local] Existing Instance ExampleSerial.blocks.

Definition block_at (n s : Z) : SignedConsensusBlock :=
  mkSigned (mkBlock zero_hash s None
    (mkPayload zero_hash [] zero_hash zero_hash [] zero_hash n 0 0 0 [] 0 zero_hash [] [])
    [] None []) Signatures.new.

Definition b1 : SignedConsensusBlock := block_at 1 10.
Definition b1' : SignedConsensusBlock := block_at 1 12.
Definition U : list SignedConsensusBlock := [b1; b1'].

Lemma U_usable : usable U.
Proof.
  split.
  - intros b Hb. unfold U in Hb. rewrite !elem_of_cons, elem_of_nil in Hb.
    by destruct Hb as [->|[->|[]]].
  - intros b b' Hb Hb' _. unfold U in *. rewrite !elem_of_cons, elem_of_nil in Hb, Hb'.
    naive_solver.
Qed.

Definition c1 : t := (insert b1 false new).2.
Definition c2 : t := (insert b1' false c1).2.

Lemma c1_reachable : rtc (step U) new c1.
Proof.
  eapply rtc_l; [|apply rtc_refl]. eapply (step_insert U b1 false); [apply elem_of_cons; by left|].
  apply surjective_pairing.
Qed.

Lemma get_block_root_witness : canonical_root b1 = canonical_root b1.
Proof.
  apply (get_block_root U c1); [apply U_usable|apply c1_reachable|vm_compute; reflexivity].
Defined.

Definition approval : ApproveBlock :=
  mkApprove (canonical_root b1)
            (Signatures.mkIndividual (sk_sign 3 (canonical_root b1) : Signature) 0).

Definition calls : list Call :=
  [CallInsert b1 false; CallApprove approval [[3]] false; CallInsert b1' false; CallInsert b1 true].

Lemma insert_keeps_highest_slot_witness :
  candidate 1 (foldl (fun c x => call x c) new calls) = Some (message b1) /\
  leads (message b1) [(message b1, false); (message b1', false); (message b1, true)].
Proof.
  assert (candidate 1 (foldl (fun c x => call x c) new calls) = Some (message b1)) as E
    by (vm_compute; reflexivity).
  split; [exact E|].
  pose proof (insert_keeps_highest_slot U new 1 calls U_usable (rtc_refl _ _) eq_refl eq_refl) as H.
  rewrite E in H. apply H. unfold calls, U.
  repeat constructor; rewrite ?elem_of_cons; auto.
Defined.

Lemma insert_syncing_replaces_witness :
  exists c', insert b1 true c1 = (Ok tt, c') /\ get_block (canonical_root b1) c' = Some b1.
Proof.
  apply (insert_syncing_replaces U c1 b1); [apply U_usable|apply c1_reachable|].
  apply elem_of_cons; by left.
Defined.

Lemma early_approval_lost_witness :
  exists c', insert b1 false (add_approval approval [[3]] false new).2 = (Ok tt, c') /\
    get_block (canonical_root b1) c' = Some b1.
Proof.
  apply (early_approval_lost approval [[3]] false false b1); [reflexivity|reflexivity|].
  vm_compute. reflexivity.
Defined.

End Witness.

End Candidates.
