(* ===== verification/Store.v ===== *)
(** The block store ([app/src/store.rs]): chain references, blocks, the indices
    by height and by AuxPow height, accumulated fees and the Bitcoin scan
    height, all in one key-value database; and the abstract store the rest of
    the node sees, which the key-value layout refines. *)
From stdpp Require Import base decidable list gmap.
From Stdlib Require Import ZArith Lia.
From S2P Require Import Prelude Bitcoin Errors AuxPow Signatures Block Serial.

(** [get_key_for_col] of the database library, and the SSZ codecs of the two
    fixed-size values the store keeps. *)
Class StoreLib := {
  get_key_for_col : bytes -> bytes -> bytes;
  ssz_ref : BlockRef -> bytes;
  ssz_ref_decode : bytes -> option BlockRef;
  ssz_u32 : Z -> bytes;
  ssz_u32_decode : bytes -> option Z;
}.

(** A key determines its column and the key in it, for columns of one length;
    the codecs round-trip. *)
Class StoreLaws (S : StoreLib) := {
  key_inj c k c' k' : length c = length c' ->
    get_key_for_col c k = get_key_for_col c' k' -> c = c' /\ k = k';
  ssz_ref_round_trip r : ssz_ref_decode (ssz_ref r) = Some r;
  ssz_u32_round_trip z : 0 <= z < 2 ^ 32 -> ssz_u32_decode (ssz_u32 z) = Some z;
}.

Module Store.

Definition HEAD_KEY : hash := replicate 32 5.
Definition LATEST_POW_BLOCK_KEY : hash := replicate 32 6.
Definition DEFAULT_KEY : hash := replicate 32 7.

Inductive DbColumn := ChainInfo | Block | AuxPowBlockHeight | BlockFees
  | BitcoinScanStartHeight | BlockByHeight.

(** The three-letter names: chi, blk, axh, fee, scn, bbh. *)
Definition column_name (c : DbColumn) : bytes :=
  match c with
  | ChainInfo => [99; 104; 105]
  | Block => [98; 108; 107]
  | AuxPowBlockHeight => [97; 120; 104]
  | BlockFees => [102; 101; 101]
  | BitcoinScanStartHeight => [115; 99; 110]
  | BlockByHeight => [98; 98; 104]
  end.

(** The database, with whether its reads and writes work. *)
Record Db := mkDb {
  kv : gmap bytes bytes;
  read_ok : bool;
  write_ok : bool;
}.

(** [KeyValueStoreOp::PutKeyValue]; the node issues no deletions. *)
Inductive KeyValueStoreOp := PutKeyValue (k v : bytes).

Section WithLibs.
Context `{L : BlsLib, K : BlockLib, S : StoreLib}.

Definition col_key (c : DbColumn) (k : bytes) : bytes := get_key_for_col (column_name c) k.

Definition get_bytes (d : Db) (c : DbColumn) (k : bytes) : res unit (option bytes) :=
  if read_ok d then Ok (kv d !! col_key c k) else Err tt.

Definition apply_op (m : gmap bytes bytes) (o : KeyValueStoreOp) : gmap bytes bytes :=
  match o with PutKeyValue k v => <[k := v]> m end.

(** [do_atomically]: all of the operations or none. *)
Definition commit_ops (ops : list KeyValueStoreOp) : ST Db Error unit := fun d =>
  if write_ok d then (Ok tt, mkDb (foldl apply_op (kv d) ops) (read_ok d) (write_ok d))
  else (Err StorageError, d).

Definition set_ref (r : BlockRef) (k : bytes) : list KeyValueStoreOp :=
  [PutKeyValue (col_key ChainInfo k) (ssz_ref r)].

Definition get_ref (d : Db) (k : bytes) : res Error (option BlockRef) :=
  b ← unwrap_res (get_bytes d ChainInfo k);
  match b with
  | None => Ok None
  | Some b => match ssz_ref_decode b with Some r => Ok (Some r) | None => Err DbReadError end
  end.

Definition set_head (r : BlockRef) : list KeyValueStoreOp := set_ref r HEAD_KEY.
Definition set_latest_pow_block (r : BlockRef) : list KeyValueStoreOp :=
  set_ref r LATEST_POW_BLOCK_KEY.

Definition get_head (d : Db) : res Error (option BlockRef) :=
  map_err (fun _ => ChainError (BlockRetrievalError Head)) (get_ref d HEAD_KEY).
Definition get_latest_pow_block (d : Db) : res Error (option BlockRef) :=
  get_ref d LATEST_POW_BLOCK_KEY.

Definition put_block (root : hash) (b : SignedConsensusBlock) : list KeyValueStoreOp :=
  [PutKeyValue (col_key Block root) (rmp_signed b);
   PutKeyValue (col_key BlockByHeight
                  (to_be_bytes 8 (block_number (execution_payload (message b))))) root]
  ++ match auxpow_header (message b) with
     | Some h => [PutKeyValue (col_key AuxPowBlockHeight (to_be_bytes 8 (a_height h))) root]
     | None => []
     end.

Definition get_block_with (d : Db) (root : hash)
    (decoder : bytes -> res Error SignedConsensusBlock) :
    res Error (option SignedConsensusBlock) :=
  b ← unwrap_res (get_bytes d Block root);
  match b with
  | None => Ok None
  | Some b => map_err (fun _ => DbReadError) (Some <$> decoder b)
  end.

Definition get_block (d : Db) (root : hash) : res Error (option SignedConsensusBlock) :=
  get_block_with d root (fun b => ok_or (rmp_signed_decode b) CodecError).

Definition put_block_by_height (b : SignedConsensusBlock) : list KeyValueStoreOp :=
  [PutKeyValue (col_key BlockByHeight
                  (to_be_bytes 8 (block_number (execution_payload (message b)))))
               (canonical_root b)].

(** [Hash256::from_slice] panics on a stored value that is not of 32 bytes. *)
Definition get_block_by_height (d : Db) (height : Z) : res Error (option SignedConsensusBlock) :=
  b ← map_err (fun _ => DbReadError) (get_bytes d BlockByHeight (to_be_bytes 8 height));
  match b with
  | Some h => if bool_decide (length h = 32%nat) then get_block d h else Panic
  | None => Ok None
  end.

Definition set_bitcoin_scan_start_height (height : Z) : list KeyValueStoreOp :=
  [PutKeyValue (col_key BitcoinScanStartHeight DEFAULT_KEY) (ssz_u32 height)].

Definition get_bitcoin_scan_start_height (d : Db) : res Error (option Z) :=
  b ← map_err (fun _ => DbReadError) (get_bytes d BitcoinScanStartHeight DEFAULT_KEY);
  match b with
  | None => Ok None
  | Some b => z ← unwrap (ssz_u32_decode b); Ok (Some z)
  end.

(** Fees are 256-bit integers, stored big-endian. *)
Definition set_accumulated_block_fees (root : hash) (fees : Z) : list KeyValueStoreOp :=
  [PutKeyValue (col_key BlockFees root) (to_be_bytes 32 fees)].

Definition get_accumulated_block_fees (d : Db) (root : hash) : res Error (option Z) :=
  b ← map_err (fun _ => DbReadError) (get_bytes d BlockFees root);
  Ok (option_map from_be_bytes b).

(** ** The abstract store *)

(** What the node relies on: maps from roots to blocks and fees, from heights
    to roots, and three cells. *)
Record view := mkView {
  v_blocks : gmap hash SignedConsensusBlock;
  v_by_height : gmap Z hash;
  v_aux_by_height : gmap Z hash;
  v_fees : gmap hash Z;
  v_head : option BlockRef;
  v_pow : option BlockRef;
  v_scan : option Z;
}.

Definition empty_view : view := mkView ∅ ∅ ∅ ∅ None None None.

(** The writes of the node. *)
Inductive write :=
| PutBlock (root : hash) (b : SignedConsensusBlock)
| PutByHeight (b : SignedConsensusBlock)
| SetHead (r : BlockRef)
| SetPow (r : BlockRef)
| SetFees (root : hash) (fees : Z)
| SetScan (height : Z).

Definition ops_of (w : write) : list KeyValueStoreOp :=
  match w with
  | PutBlock root b => put_block root b
  | PutByHeight b => put_block_by_height b
  | SetHead r => set_head r
  | SetPow r => set_latest_pow_block r
  | SetFees root fees => set_accumulated_block_fees root fees
  | SetScan height => set_bitcoin_scan_start_height height
  end.

Definition u64 (z : Z) : Prop := 0 <= z < 2 ^ 64.

(** The ranges of the Rust types: roots are [Hash256]. *)
Definition write_wf (w : write) : Prop :=
  match w with
  | PutBlock root b =>
      length root = 32%nat /\ u64 (block_number (execution_payload (message b))) /\
      (forall h, auxpow_header (message b) = Some h -> u64 (a_height h))
  | PutByHeight b => u64 (block_number (execution_payload (message b)))
  | SetFees _ fees => 0 <= fees < 2 ^ 256
  | SetScan height => 0 <= height < 2 ^ 32
  | _ => True
  end.

Definition view_write (w : write) (v : view) : view :=
  match w with
  | PutBlock root b =>
      mkView (<[root := b]> (v_blocks v))
             (<[block_number (execution_payload (message b)) := root]> (v_by_height v))
             (match auxpow_header (message b) with
              | Some h => <[a_height h := root]> (v_aux_by_height v)
              | None => v_aux_by_height v
              end)
             (v_fees v) (v_head v) (v_pow v) (v_scan v)
  | PutByHeight b =>
      mkView (v_blocks v)
             (<[block_number (execution_payload (message b)) := canonical_root b]> (v_by_height v))
             (v_aux_by_height v) (v_fees v) (v_head v) (v_pow v) (v_scan v)
  | SetHead r =>
      mkView (v_blocks v) (v_by_height v) (v_aux_by_height v) (v_fees v) (Some r) (v_pow v) (v_scan v)
  | SetPow r =>
      mkView (v_blocks v) (v_by_height v) (v_aux_by_height v) (v_fees v) (v_head v) (Some r) (v_scan v)
  | SetFees root fees =>
      mkView (v_blocks v) (v_by_height v) (v_aux_by_height v) (<[root := fees]> (v_fees v))
             (v_head v) (v_pow v) (v_scan v)
  | SetScan height =>
      mkView (v_blocks v) (v_by_height v) (v_aux_by_height v) (v_fees v) (v_head v) (v_pow v)
             (Some height)
  end.

Definition view_get_block_by_height (v : view) (height : Z) : option SignedConsensusBlock :=
  root ← v_by_height v !! height; v_blocks v !! root.

(** A working database represents a view when, column by column, its entries
    are the encodings of the view's. *)
Record represents (d : Db) (v : view) : Prop := {
  rep_read : read_ok d = true;
  rep_write : write_ok d = true;
  rep_blocks root : kv d !! col_key Block root = rmp_signed <$> v_blocks v !! root;
  rep_height k : u64 k -> kv d !! col_key BlockByHeight (to_be_bytes 8 k) = v_by_height v !! k;
  rep_aux k : u64 k -> kv d !! col_key AuxPowBlockHeight (to_be_bytes 8 k) = v_aux_by_height v !! k;
  rep_fees root : kv d !! col_key BlockFees root = to_be_bytes 32 <$> v_fees v !! root;
  rep_head : kv d !! col_key ChainInfo HEAD_KEY = ssz_ref <$> v_head v;
  rep_pow : kv d !! col_key ChainInfo LATEST_POW_BLOCK_KEY = ssz_ref <$> v_pow v;
  rep_scan : kv d !! col_key BitcoinScanStartHeight DEFAULT_KEY = ssz_u32 <$> v_scan v;
  rep_fees_wf root z : v_fees v !! root = Some z -> 0 <= z < 2 ^ 256;
  rep_scan_wf z : v_scan v = Some z -> 0 <= z < 2 ^ 32;
  rep_height_wf k h : v_by_height v !! k = Some h -> length h = 32%nat;
}.

Lemma col_key_inj `{!StoreLaws S} c k c' k' :
  col_key c k = col_key c' k' -> c = c' /\ k = k'.
Proof.
  intros H. apply key_inj in H as [Hc ->]; [|by destruct c, c'].
  split; [by destruct c, c'|done].
Qed.

Lemma be8_inj a b : u64 a -> u64 b -> to_be_bytes 8 a = to_be_bytes 8 b -> a = b.
Proof. intros Ha Hb. apply (to_be_bytes_inj 8); [exact Ha|exact Hb]. Qed.

(** One put, seen through every column. *)
Lemma lookup_put_eq (m : gmap bytes bytes) c k v :
  apply_op m (PutKeyValue (col_key c k) v) !! col_key c k = Some v.
Proof. apply lookup_insert_eq. Qed.

Lemma lookup_put_ne `{!StoreLaws S} (m : gmap bytes bytes) c k v c' k' :
  c <> c' \/ k <> k' ->
  apply_op m (PutKeyValue (col_key c k) v) !! col_key c' k' = m !! col_key c' k'.
Proof. intros H. apply lookup_insert_ne. intros [-> ->]%col_key_inj. naive_solver. Qed.

Ltac other_column :=
  repeat first
    [ rewrite lookup_put_ne by (left; discriminate)
    | rewrite lookup_put_ne by (right; discriminate) ].

(** A put into a column keyed by heights, or by hashes. *)
Lemma put_height `{!StoreLaws S} (m : gmap bytes bytes) (c : DbColumn) (f : gmap Z hash) k0 root :
  u64 k0 -> (forall k, u64 k -> m !! col_key c (to_be_bytes 8 k) = f !! k) ->
  forall k, u64 k -> apply_op m (PutKeyValue (col_key c (to_be_bytes 8 k0)) root)
                     !! col_key c (to_be_bytes 8 k) = <[k0 := root]> f !! k.
Proof.
  intros H0 Hm k Hk. destruct (decide (k0 = k)) as [<-|Hne].
  - by rewrite lookup_put_eq, lookup_insert_eq.
  - rewrite lookup_put_ne, lookup_insert_ne by (done || by right; intros E%be8_inj). by apply Hm.
Qed.

Lemma put_keyed {A : Type} `{!StoreLaws S} (m : gmap bytes bytes) (c : DbColumn) (f : gmap hash A) (e : A -> bytes) k0 a :
  (forall k, m !! col_key c k = e <$> f !! k) ->
  forall k, apply_op m (PutKeyValue (col_key c k0) (e a)) !! col_key c k
            = e <$> <[k0 := a]> f !! k.
Proof.
  intros Hm k. destruct (decide (k0 = k)) as [<-|Hne].
  - by rewrite lookup_put_eq, lookup_insert_eq.
  - rewrite lookup_put_ne, lookup_insert_ne by (done || by right). apply Hm.
Qed.

Ltac columns :=
  split; cbn [kv read_ok write_ok v_blocks v_by_height v_aux_by_height v_fees v_head v_pow
              v_scan app foldl];
  try done; intros; other_column; try (by auto);
  try (apply put_height; [by auto|intros; other_column; by auto|done]);
  try (by rewrite lookup_put_eq).

(** A put into a column leaves the columns it is not about. *)
Lemma represents_write `{!StoreLaws S, !BlockLaws K} w d v :
  write_wf w -> represents d v ->
  represents (mkDb (foldl apply_op (kv d) (ops_of w)) (read_ok d) (write_ok d)) (view_write w v).
Proof.
  intros Hw [Hr1 Hr2 Hb Hh Ha Hf Hhd Hp Hs Hfw Hsw Hhw].
  assert (forall k0 root k h, length root = 32%nat ->
            (<[k0 := root]> (v_by_height v)) !! k = Some h -> length h = 32%nat) as Hput.
  { intros k0 root k h Hl [[_ <-]|[_ H]]%lookup_insert_Some; eauto. }
  destruct w as [root b|b|r|r|root fees|height]; cbn [ops_of view_write write_wf] in *.
  - destruct Hw as (Hl & Hn & Haux). unfold put_block.
    destruct (auxpow_header (message b)) as [h|] eqn:Eh; columns;
      try (by apply (put_keyed (kv d) Block _ rmp_signed)); by eapply Hput.
  - unfold put_block_by_height. columns. by eapply Hput; [apply tree_merkle_root_len|].
  - unfold set_head, set_ref. columns.
  - unfold set_latest_pow_block, set_ref. columns.
  - unfold set_accumulated_block_fees. columns.
    + by apply (put_keyed (kv d) BlockFees _ (to_be_bytes 32)).
    + match goal with H : <[_ := _]> _ !! _ = Some _ |- _ =>
        apply lookup_insert_Some in H as [[_ <-]|[_ H]]; eauto end.
  - unfold set_bitcoin_scan_start_height. columns. by simplify_eq.
Qed.

(** A batch of writes committed at once. *)
Lemma represents_batch `{!StoreLaws S, !BlockLaws K} ws d v :
  Forall write_wf ws -> represents d v ->
  represents (mkDb (foldl apply_op (kv d) (concat (map ops_of ws))) (read_ok d) (write_ok d))
             (foldl (fun v w => view_write w v) v ws).
Proof.
  intros Hw. revert d v. induction Hw as [|w ws Hw _ IH]; intros d v R; cbn.
  - by destruct d.
  - rewrite foldl_app. apply (IH (mkDb _ _ _)), represents_write; done.
Qed.

Lemma represents_empty : represents (mkDb ∅ true true) empty_view.
Proof. split; cbn; intros; rewrite ?lookup_empty in *; done. Qed.

(** The reads, on a database that represents a view. *)
Lemma rep_get d v c k : represents d v -> get_bytes d c k = Ok (kv d !! col_key c k).
Proof. intros R. unfold get_bytes. by rewrite (rep_read d v R). Qed.

Ltac read R E :=
  rewrite (rep_get _ _ _ _ R); unfold mbind, res_bind; cbn [map_err unwrap_res]; rewrite E by done.

Lemma represents_get_block `{!BlockLaws K} d v root :
  represents d v -> get_block d root = Ok (v_blocks v !! root).
Proof.
  intros R. unfold get_block, get_block_with. read R (rep_blocks d v R).
  destruct (v_blocks v !! root); [|done]. cbn. by rewrite rmp_round_trip.
Qed.

Lemma from_to_be_bytes n z : 0 <= z < 256 ^ Z.of_nat n -> from_be_bytes (to_be_bytes n z) = z.
Proof.
  intros. unfold from_be_bytes, to_be_bytes. rewrite reverse_involutive. by apply from_to_le_bytes.
Qed.

Lemma represents_reads `{!StoreLaws S, !BlockLaws K} d v :
  represents d v ->
  (forall root, get_block d root = Ok (v_blocks v !! root)) /\
  (forall k, u64 k -> get_block_by_height d k = Ok (view_get_block_by_height v k)) /\
  get_head d = Ok (v_head v) /\ get_latest_pow_block d = Ok (v_pow v) /\
  (forall root, get_accumulated_block_fees d root = Ok (v_fees v !! root)) /\
  get_bitcoin_scan_start_height d = Ok (v_scan v).
Proof.
  intros R. split_and!.
  - intros root. by apply represents_get_block.
  - intros k Hk. unfold get_block_by_height, view_get_block_by_height.
    read R (rep_height d v R). destruct (v_by_height v !! k) eqn:E; [|done]. cbn.
    rewrite bool_decide_true by (by eapply rep_height_wf). by apply represents_get_block.
  - unfold get_head, get_ref. read R (rep_head d v R).
    destruct (v_head v); cbn; [|done]. by rewrite ssz_ref_round_trip.
  - unfold get_latest_pow_block, get_ref. read R (rep_pow d v R).
    destruct (v_pow v); cbn; [|done]. by rewrite ssz_ref_round_trip.
  - intros root. unfold get_accumulated_block_fees. read R (rep_fees d v R).
    destruct (v_fees v !! root) as [z|] eqn:E; [|done]. cbn [fmap option_fmap option_map].
    rewrite from_to_be_bytes; [done|]. by eapply rep_fees_wf.
  - unfold get_bitcoin_scan_start_height. read R (rep_scan d v R).
    destruct (v_scan v) as [z|] eqn:E; [|done]. cbn [fmap option_fmap option_map].
    rewrite ssz_u32_round_trip; [done|]. by eapply rep_scan_wf.
Qed.

(** A sequence of committed writes. *)
Fixpoint run_writes (ws : list write) (d : Db) : Db :=
  match ws with [] => d | w :: ws' => run_writes ws' (commit_ops (ops_of w) d).2 end.

Lemma run_writes_represents `{!StoreLaws S, !BlockLaws K} ws d v :
  Forall write_wf ws -> represents d v ->
  represents (run_writes ws d) (foldl (fun v w => view_write w v) v ws).
Proof.
  intros Hw. revert d v. induction Hw as [|w ws Hw Hws IH]; intros d v R; [done|].
  cbn. apply IH. pose proof (represents_write w d v Hw R) as R'.
  unfold commit_ops. by rewrite (rep_write d v R) in *.
Qed.

(** ** Properties *)

(** C12: The key-value layout implements the abstract store: after any sequence of
    writes on an empty database, every read (block by hash, block by height,
    head, latest AuxPow block, fees, scan height) returns what the abstract
    store holds after the same writes. No column or key overwrites another. *)
Theorem store_refines_view `{!StoreLaws S, !BlockLaws K} ws :
  Forall write_wf ws ->
  let d := run_writes ws (mkDb ∅ true true) in
  let v := foldl (fun v w => view_write w v) empty_view ws in
  (forall root, get_block d root = Ok (v_blocks v !! root)) /\
  (forall k, u64 k -> get_block_by_height d k = Ok (view_get_block_by_height v k)) /\
  get_head d = Ok (v_head v) /\ get_latest_pow_block d = Ok (v_pow v) /\
  (forall root, get_accumulated_block_fees d root = Ok (v_fees v !! root)) /\
  get_bitcoin_scan_start_height d = Ok (v_scan v).
Proof. intros Hw d v. by apply represents_reads, run_writes_represents, represents_empty. Qed.

(** A failing database surfaces as the sources have it: writes and the
    height, fee and scan lookups report an error, and leave the data as it was,
    while reads of references and blocks abort the process. *)
Theorem store_io_errors d ops root k :
  write_ok d = false -> read_ok d = false ->
  commit_ops ops d = (Err StorageError, d) /\
  get_block_by_height d k = Err DbReadError /\
  get_accumulated_block_fees d root = Err DbReadError /\
  get_bitcoin_scan_start_height d = Err DbReadError /\
  get_head d = Panic /\ get_latest_pow_block d = Panic /\ get_block d root = Panic.
Proof.
  intros Hw Hr. unfold commit_ops, get_block_by_height, get_accumulated_block_fees,
    get_bitcoin_scan_start_height, get_head, get_latest_pow_block, get_block, get_block_with,
    get_ref, get_bytes. by rewrite Hw, Hr.
Qed.

End WithLibs.

Module Witness.
#[local] Existing Instance Signatures.Example.bls.
#[local] Existing Instance ExampleSerial.blocks.
#[local] Existing Instance ExampleSerial.block_laws.

Definition lib : StoreLib := {|
  get_key_for_col c k := c ++ k;
  ssz_ref r := ser r;
  ssz_ref_decode l := fst <$> deser l;
  ssz_u32 z := to_le_bytes 4 z;
  ssz_u32_decode l := Some (from_le_bytes l);
|}.

Lemma lib_laws : StoreLaws lib.
Proof.
  split; cbn [get_key_for_col ssz_ref ssz_ref_decode ssz_u32 ssz_u32_decode lib].
  - intros c k c' k' Hl E. by apply app_inj_1.
  - intros r. pose proof (deser_ser r []) as E. rewrite app_nil_r in E. by rewrite E.
  - intros z Hz. by rewrite from_to_le_bytes.
Qed.

#[local] Existing Instance lib.
#[local] Existing Instance lib_laws.

Definition b0 : SignedConsensusBlock := mkSigned block_default Signatures.new.
Definition root0 : hash := canonical_root b0.
Definition writes : list write :=
  [PutBlock root0 b0; SetHead (block_ref b0); SetFees root0 77; SetScan 5].

Lemma store_refines_view_witness :
  get_block (run_writes writes (mkDb ∅ true true)) root0 = Ok (Some b0).
Proof.
  refine (eq_trans (proj1 (store_refines_view writes _) root0) _); [|vm_compute; reflexivity].
  repeat constructor; cbn; try discriminate; done.
Defined.

Lemma store_io_errors_witness :
  commit_ops (set_head (block_ref b0)) (mkDb ∅ false false) = (Err StorageError, mkDb ∅ false false) /\
  get_head (mkDb ∅ false false) = Panic.
Proof.
  destruct (store_io_errors (mkDb ∅ false false) (set_head (block_ref b0)) HEAD_KEY 0
              eq_refl eq_refl) as (H1 & _ & _ & _ & H2 & _).
  by split.
Defined.

End Witness.

End Store.
