(* ===== verification/Retarget.v ===== *)
(** Difficulty: compact targets and the retargeting rule
    ([app/src/auxpow_miner.rs], lines 112 to 324). *)
From stdpp Require Import base decidable list.
From Stdlib Require Import ZArith Lia.
From S2P Require Import Prelude Bitcoin Errors AuxPow Signatures Block.

(** The decimal library: [ratio2 a b] is [(a / b).round_dp(2)] in hundredths,
    for a positive [b]. *)
Class DecimalLib := { ratio2 : Z -> Z -> Z }.

(** [round_dp] rounds to the nearest value with two digits. *)
Class DecimalLaws (D : DecimalLib) := {
  ratio2_nearest a b : 0 <= a < 2 ^ 32 -> 0 < b < 2 ^ 64 ->
    2 * Z.abs (100 * a - ratio2 a b * b) <= b;
}.

Module Retarget.

Record Params := mkParams {
  pow_limit : Z;
  pow_lower_limit : Z;
  pow_target_timespan : Z;
  pow_target_spacing : Z;
  pow_no_retargeting : bool;
  max_pow_adjustment : Z;
}.

Definition BITCOIN_MAINNET : Params :=
  mkParams 486604799 439495319 (14 * 24 * 60 * 60) (10 * 60) false 20.

(** The ranges of the fields' machine types. *)
Definition params_wf (p : Params) : Prop :=
  0 <= pow_target_timespan p < 2 ^ 64 /\ 0 <= pow_target_spacing p < 2 ^ 64 /\
  0 <= max_pow_adjustment p < 2 ^ 8.

Definition difficulty_adjustment_interval (p : Params) : res Error Z :=
  div_chk (pow_target_timespan p) (pow_target_spacing p).

(** 256-bit [<<] drops the bits above the width. *)
Definition uint256_target_from_compact (bits : Z) : Z :=
  let unshifted_expt := Z.shiftr bits 24 in
  let '(mant, expt) :=
    if unshifted_expt <=? 3
    then (Z.shiftr (Z.land bits (Z.ones 24)) (8 * (3 - unshifted_expt)), 0)
    else (Z.land bits (Z.ones 24), 8 * (unshifted_expt - 3)) in
  if Z.ones 23 <? mant then 0 else wrap 256 (Z.shiftl mant expt).

(** [Uint256::bits]. *)
Definition num_bits (z : Z) : Z := if z =? 0 then 0 else Z.log2 z + 1.

Definition target_to_compact_lossy (target : Z) : Z :=
  let size := (num_bits target + 7) / 8 in
  let compact :=
    if size <=? 3
    then wrap 32 (wrap 64 (Z.shiftl (wrap 64 target) (8 * (3 - size))))
    else wrap 32 (Z.shiftr target (8 * (size - 3))) in
  let '(compact, size) :=
    if negb (Z.land compact (2 ^ 23) =? 0) then (Z.shiftr compact 8, size + 1)
    else (compact, size) in
  Z.lor compact (wrap 32 (Z.shiftl (wrap 32 size) 24)).

Section WithDecimal.
Context `{D : DecimalLib}.

(** The clamped ratio in percent. A ratio below one is cut to the maximum
    adjustment, a ratio above one to the maximum adjustment plus one. *)
Definition clamp_ratio (ratio max_adjustment : Z) : Z :=
  let max_lower_bound := max_adjustment in
  let max_upper_bound := max_lower_bound + 100 in
  if ratio <? 100 then Z.min ratio max_lower_bound
  else if 100 <? ratio then Z.min ratio max_upper_bound
  else ratio.

(** [Decimal] division by zero panics; so does a percentage above [u8::MAX].
    The 256-bit product saturates. *)
Definition calculate_next_work_required (auxpow_height_difference last_bits : Z) (p : Params) :
    res Error Z :=
  let d := if auxpow_height_difference =? 0 then 1 else auxpow_height_difference in
  if pow_target_spacing p =? 0 then Panic
  else
    let ratio := clamp_ratio (ratio2 d (pow_target_spacing p)) (max_pow_adjustment p) in
    adjustment_percentage ← chk 8 ratio;
    let target := uint256_target_from_compact last_bits in
    let single_percentage := target / 100 in
    let adjusted_target := saturating_mul 256 single_percentage adjustment_percentage in
    Ok (target_to_compact_lossy adjusted_target).

Definition is_retarget_height (chain_head_height height_difference : Z) (p : Params) :
    res Error bool :=
  adjustment_interval ← difficulty_adjustment_interval p;
  r ← rem_chk chain_head_height adjustment_interval;
  Ok ((r =? 0) || (wrap 32 adjustment_interval <? height_difference)).

Definition get_next_work_required `{K : BlockLib} (index_last : ConsensusBlock) (p : Params)
    (chain_head_height : Z) : res Error Z :=
  next ← add_chk 64 chain_head_height 1;
  diff ← sub_chk 64 next (bi_height index_last);
  let auxpow_height_difference := wrap 32 diff in
  retarget ← (if pow_no_retargeting p then Ok false
              else is_retarget_height chain_head_height auxpow_height_difference p);
  bits ← bi_bits index_last;
  if negb retarget then Ok bits
  else calculate_next_work_required auxpow_height_difference bits p.

End WithDecimal.

(** ** Compact targets *)

Lemma land_ones_23 x : 0 <= x < 2 ^ 24 -> (Z.land x (2 ^ 23) =? 0) = (x <? 2 ^ 23).
Proof.
  intros Hx. replace (Z.land x (2 ^ 23)) with (if Z.testbit x 23 then 2 ^ 23 else 0).
  - change (2 ^ 23) with 8388608. change (2 ^ 24) with 16777216 in Hx.
    destruct (Z.testbit x 23) eqn:E; rewrite Z.testbit_eqb in E by lia;
      change (2 ^ 23) with 8388608 in E; Z.div_mod_to_equations; lia.
  - apply Z.bits_inj'. intros n Hn. rewrite Z.land_spec, Z.pow2_bits_eqb by lia.
    destruct (Z.eqb_spec 23 n) as [<-|Hne].
    + rewrite andb_true_r. destruct (Z.testbit x 23); [by rewrite Z.pow2_bits_true by lia|].
      by rewrite Z.bits_0.
    + rewrite andb_false_r. destruct (Z.testbit x 23); [by rewrite Z.pow2_bits_false by lia|].
      by rewrite Z.bits_0.
Qed.

(** Disjoint bits: [lor] adds. *)
Lemma land_shiftl_0 a b n : 0 <= n -> 0 <= a < 2 ^ n -> Z.land a (Z.shiftl b n) = 0.
Proof.
  intros Hn Ha. apply Z.bits_inj'. intros k Hk.
  rewrite Z.land_spec, Z.bits_0, Z.shiftl_spec by done.
  destruct (Z.lt_ge_cases k n); [rewrite (Z.testbit_neg_r b) by lia; apply andb_false_r|].
  destruct (Z.eq_dec a 0) as [->|]; [by rewrite Z.bits_0|].
  rewrite (Z.bits_above_log2 a k), andb_false_l; [done|lia|].
  apply Z.lt_le_trans with n; [|done]. apply Z.log2_lt_pow2; lia.
Qed.

Lemma lor_shiftl_add a b n :
  0 <= n -> 0 <= a < 2 ^ n -> Z.lor a (Z.shiftl b n) = a + b * 2 ^ n.
Proof.
  intros Hn Ha. pose proof (land_shiftl_0 a b n Hn Ha) as H.
  by rewrite <-Z.lxor_lor, <-Z.add_nocarry_lxor, Z.shiftl_mul_pow2.
Qed.

(** A compact target with mantissa [m] and exponent [e], in normal form. *)
Definition compact (m e : Z) : Z := m + e * 2 ^ 24.

Lemma compact_fields m e :
  0 <= m < 2 ^ 24 -> 0 <= e ->
  Z.shiftr (compact m e) 24 = e /\ Z.land (compact m e) (Z.ones 24) = m.
Proof.
  intros Hm He. unfold compact. rewrite Z.shiftr_div_pow2, Z.land_ones by lia.
  rewrite Z.div_add, Z.mod_add, Z.div_small, Z.mod_small by lia. lia.
Qed.

Lemma decode_compact m e :
  0 <= m < 2 ^ 23 -> 3 < e -> m * 2 ^ (8 * (e - 3)) < 2 ^ 256 ->
  uint256_target_from_compact (compact m e) = m * 2 ^ (8 * (e - 3)).
Proof.
  intros Hm He Hb. unfold uint256_target_from_compact.
  destruct (compact_fields m e ltac:(lia) ltac:(lia)) as [-> ->].
  replace (e <=? 3) with false by lia. change (Z.ones 23) with (2 ^ 23 - 1).
  replace (2 ^ 23 - 1 <? m) with false by lia.
  rewrite Z.shiftl_mul_pow2, wrap_small by lia. done.
Qed.

Lemma num_bits_bounds t : 0 < t -> 2 ^ (num_bits t - 1) <= t < 2 ^ num_bits t /\ 0 < num_bits t.
Proof.
  intros Ht. unfold num_bits. replace (t =? 0) with false by lia.
  pose proof (Z.log2_spec t Ht) as H. pose proof (Z.log2_nonneg t).
  rewrite <-Z.add_1_r in H. replace (Z.log2 t + 1 - 1) with (Z.log2 t) by lia. lia.
Qed.

(** The byte length of a target above three bytes, from its bit length. *)
Lemma size_bounds t :
  2 ^ 24 <= t < 2 ^ 256 ->
  let s := (num_bits t + 7) / 8 in
  4 <= s <= 32 /\ 2 ^ (8 * (s - 1)) <= t < 2 ^ (8 * s).
Proof.
  intros Ht s. destruct (num_bits_bounds t ltac:(lia)) as [[Hl Hu] Hp].
  assert (25 <= num_bits t <= 256) as Hb.
  { split.
    - apply Z.nlt_ge. intros Hlt. assert (t < 2 ^ 24); [|lia].
      apply Z.lt_le_trans with (2 ^ num_bits t); [done|]. apply Z.pow_le_mono_r; lia.
    - apply Z.nlt_ge. intros Hlt. assert (2 ^ 256 <= t); [|lia].
      apply Z.le_trans with (2 ^ (num_bits t - 1)); [|done]. apply Z.pow_le_mono_r; lia. }
  subst s. split; [Z.div_mod_to_equations; lia|].
  split.
  - apply Z.le_trans with (2 ^ (num_bits t - 1)); [|done].
    apply Z.pow_le_mono_r; [lia|]. Z.div_mod_to_equations; lia.
  - apply Z.lt_le_trans with (2 ^ num_bits t); [done|].
    apply Z.pow_le_mono_r; [lia|]. Z.div_mod_to_equations; lia.
Qed.

(** What the encoder does above three bytes: the top bytes of the target as
    the mantissa, one byte fewer when the sign bit would be set. *)
Lemma encode_large t :
  2 ^ 24 <= t < 2 ^ 256 ->
  let s := (num_bits t + 7) / 8 in
  target_to_compact_lossy t =
  if t / 2 ^ (8 * (s - 3)) <? 2 ^ 23 then compact (t / 2 ^ (8 * (s - 3))) s
  else compact (t / 2 ^ (8 * (s - 2))) (s + 1).
Proof.
  intros Ht s. pose proof (size_bounds t Ht) as [Hs [Hl Hu]]. fold s in Hs, Hl, Hu.
  unfold target_to_compact_lossy. fold s. replace (s <=? 3) with false by lia.
  rewrite Z.shiftr_div_pow2 by lia. set (q := t / 2 ^ (8 * (s - 3))).
  assert (0 <= q < 2 ^ 24) as Hq.
  { subst q. split; [apply Z.div_pos; lia|]. apply Z.div_lt_upper_bound; [lia|].
    rewrite <-Z.pow_add_r by lia. by replace (8 * (s - 3) + 24) with (8 * s) by lia. }
  rewrite (wrap_small 32 q) by lia. rewrite land_ones_23 by done. unfold compact.
  destruct (Z.ltb_spec q (2 ^ 23)); cbn [negb].
  - rewrite (wrap_small 32 s), wrap_small by (rewrite ?Z.shiftl_mul_pow2; lia).
    by rewrite lor_shiftl_add by lia.
  - rewrite (wrap_small 32 (s + 1)), wrap_small by (rewrite ?Z.shiftl_mul_pow2; lia).
    rewrite Z.shiftr_div_pow2 by lia. subst q.
    rewrite Z.div_div by lia. rewrite <-Z.pow_add_r by lia.
    replace (8 * (s - 3) + 8) with (8 * (s - 2)) by lia.
    apply lor_shiftl_add; [lia|]. split; [apply Z.div_pos; lia|].
    apply Z.div_lt_upper_bound; [lia|]. rewrite <-Z.pow_add_r by lia.
    apply Z.lt_le_trans with (2 ^ (8 * s)); [done|]. apply Z.pow_le_mono_r; lia.
Qed.

(** Decoding an encoded large target gives it with its low bytes cleared. *)
Lemma decode_encode_large t :
  2 ^ 24 <= t < 2 ^ 256 ->
  exists k, 8 <= k /\ 2 ^ (k + 15) <= t /\
    uint256_target_from_compact (target_to_compact_lossy t) = t / 2 ^ k * 2 ^ k.
Proof.
  intros Ht. pose proof (size_bounds t Ht) as [Hs [Hl Hu]]. rewrite encode_large by done.
  set (s := (num_bits t + 7) / 8) in *.
  assert (forall k, 0 <= k -> t / 2 ^ k * 2 ^ k <= t) as Hdiv.
  { intros k Hk. rewrite Z.mul_comm. apply Z.mul_div_le. lia. }
  destruct (Z.ltb_spec (t / 2 ^ (8 * (s - 3))) (2 ^ 23)) as [Hq|Hq].
  - exists (8 * (s - 3)). split; [lia|]. split.
    { apply Z.le_trans with (2 ^ (8 * (s - 1))); [apply Z.pow_le_mono_r; lia|done]. }
    rewrite decode_compact; [done| |lia|].
    + split; [apply Z.div_pos; lia|done].
    + specialize (Hdiv (8 * (s - 3)) ltac:(lia)). lia.
  - exists (8 * (s - 2)). split; [lia|]. split.
    { apply Z.le_trans with (2 ^ (8 * (s - 3) + 23)); [apply Z.pow_le_mono_r; lia|].
      rewrite Z.pow_add_r by lia.
      apply Z.le_trans with (2 ^ (8 * (s - 3)) * (t / 2 ^ (8 * (s - 3)))); [nia|].
      apply Z.mul_div_le. lia. }
    rewrite decode_compact; replace (s + 1 - 3) with (s - 2) by lia; [done| |lia|].
    + split; [apply Z.div_pos; lia|]. apply Z.lt_le_trans with (2 ^ 16); [|done].
      apply Z.div_lt_upper_bound; [lia|]. rewrite <-Z.pow_add_r by lia.
      by replace (8 * (s - 2) + 16) with (8 * s) by lia.
    + specialize (Hdiv (8 * (s - 2)) ltac:(lia)). lia.
Qed.

(** The smallest exponent, with a mantissa of sixteen bits. *)
Lemma encode_small m :
  2 ^ 15 <= m < 2 ^ 16 -> target_to_compact_lossy (m * 256) = compact m 4.
Proof.
  intros Hm. unfold target_to_compact_lossy, compact.
  assert (num_bits (m * 256) = 24) as ->.
  { unfold num_bits. replace (m * 256 =? 0) with false by lia.
    assert (Z.log2 (m * 256) = 23); [|lia]. apply Z.log2_unique; lia. }
  change ((24 + 7) / 8) with 3. change (3 <=? 3) with true.
  change (8 * (3 - 3)) with 0. rewrite Z.shiftl_0_r.
  rewrite !(wrap_small 64 (m * 256)), (wrap_small 32 (m * 256)) by lia.
  rewrite land_ones_23 by lia.
  replace (m * 256 <? 2 ^ 23) with false by lia. cbn [negb].
  rewrite Z.shiftr_div_pow2, Z.div_mul by lia.
  change (wrap 32 (Z.shiftl (wrap 32 (3 + 1)) 24)) with (Z.shiftl 4 24).
  by rewrite lor_shiftl_add by lia.
Qed.

(** The size in bytes of a shifted mantissa. *)
Lemma shifted_size m e :
  2 ^ 15 <= m < 2 ^ 23 -> 4 <= e <= 32 ->
  let k := 8 * (e - 3) in let s := (num_bits (m * 2 ^ k) + 7) / 8 in
  2 ^ 24 <= m * 2 ^ k -> s = e \/ s = e - 1 /\ m < 2 ^ 16.
Proof.
  intros Hm He k s Hbig.
  assert (m * 2 ^ k < 2 ^ (8 * e)) as Hub.
  { apply Z.lt_le_trans with (2 ^ 24 * 2 ^ k); [nia|].
    rewrite <-Z.pow_add_r by lia. apply Z.pow_le_mono_r; lia. }
  assert (2 ^ (8 * e) <= 2 ^ 256) by (apply Z.pow_le_mono_r; lia).
  destruct (size_bounds (m * 2 ^ k) ltac:(lia)) as [Hs [Hl Hu]]. fold s in Hs, Hl, Hu.
  assert (8 * (s - 1) < 8 * e) by (apply (Z.pow_lt_mono_r_iff 2); lia).
  assert (2 ^ (k + 15) <= m * 2 ^ k) by (rewrite Z.pow_add_r by lia; nia).
  assert (k + 15 < 8 * s) by (apply (Z.pow_lt_mono_r_iff 2); lia).
  destruct (Z.eq_dec s e); [by left|right]. split; [lia|].
  destruct (Z.lt_ge_cases m (2 ^ 16)) as [|Hge]; [done|]. exfalso.
  assert (2 ^ (8 * (e - 1)) <= m * 2 ^ k).
  { replace (8 * (e - 1)) with (16 + k) by lia. rewrite Z.pow_add_r by lia. nia. }
  assert (8 * (e - 1) < 8 * s) by (apply (Z.pow_lt_mono_r_iff 2); lia). lia.
Qed.

(** ** Properties *)

(** A compact target in normal form is recovered exactly from the target it
    stands for: encoding a target and decoding it again loses nothing. *)
Theorem compact_round_trip m e :
  2 ^ 15 <= m < 2 ^ 23 -> 4 <= e <= 32 ->
  target_to_compact_lossy (uint256_target_from_compact (compact m e)) = compact m e.
Proof.
  intros Hm He. set (k := 8 * (e - 3)).
  assert (2 ^ 8 <= 2 ^ k) as Hk by (apply Z.pow_le_mono_r; lia).
  assert (m * 2 ^ k < 2 ^ 256).
  { apply Z.lt_le_trans with (2 ^ 24 * 2 ^ k); [nia|].
    rewrite <-Z.pow_add_r by lia. apply Z.pow_le_mono_r; lia. }
  rewrite decode_compact by (fold k; lia). fold k.
  assert (2 ^ 24 <= m * 2 ^ k \/ e = 4 /\ m < 2 ^ 16) as [Hbig|[-> Hsmall]];
    [|rewrite encode_large by lia|apply encode_small; lia].
  { destruct (Z.lt_ge_cases m (2 ^ 16)); [|left; nia].
    destruct (Z.eq_dec e 4); [by right|left].
    assert (2 ^ 16 <= 2 ^ k) by (apply Z.pow_le_mono_r; lia). nia. }
  pose proof (shifted_size m e Hm He Hbig) as Hse. fold k in Hse.
  set (s := (num_bits (m * 2 ^ k) + 7) / 8) in *. destruct Hse as [->|[-> Hlt]].
  - fold k. rewrite Z.div_mul by lia. by replace (m <? 2 ^ 23) with true by lia.
  - replace (8 * (e - 1 - 3)) with (k - 8) by lia. replace (8 * (e - 1 - 2)) with k by lia.
    rewrite Z.div_mul by lia.
    replace (m * 2 ^ k) with (m * 256 * 2 ^ (k - 8)).
    2:{ rewrite <-Z.mul_assoc. f_equal. change 256 with (2 ^ 8). rewrite <-Z.pow_add_r by lia.
        f_equal; lia. }
    rewrite Z.div_mul by lia. replace (m * 256 <? 2 ^ 23) with false by lia.
    by replace (e - 1 + 1) with e by lia.
Qed.

(** Compacting a target never raises it and loses less than one part in
    2^15: the accepted work is never easier than the computed target. *)
Theorem compact_loss t :
  2 ^ 24 <= t < 2 ^ 256 ->
  let t' := uint256_target_from_compact (target_to_compact_lossy t) in
  t' <= t /\ (t - t') * 2 ^ 15 < t.
Proof.
  intros Ht t'. destruct (decode_encode_large t Ht) as (k & Hk & Hkt & E).
  subst t'. rewrite E. pose proof (Z.div_mod t (2 ^ k) ltac:(lia)) as Hd.
  pose proof (Z.mod_pos_bound t (2 ^ k) ltac:(lia)) as Hm.
  rewrite Z.pow_add_r in Hkt by lia. nia.
Qed.

Section Props.
Context `{D : DecimalLib, !DecimalLaws D}.

Lemma ratio2_range d p :
  0 < d < 2 ^ 32 -> 0 < pow_target_spacing p < 2 ^ 64 ->
  0 <= ratio2 d (pow_target_spacing p) /\
  (d < pow_target_spacing p -> ratio2 d (pow_target_spacing p) <= 100) /\
  (pow_target_spacing p <= d -> 100 <= ratio2 d (pow_target_spacing p)).
Proof.
  intros Hd Hp. pose proof (ratio2_nearest d _ ltac:(lia) Hp) as H.
  set (b := pow_target_spacing p) in *. set (r := ratio2 d b) in *.
  split_and!; intros; apply Z.nlt_ge; intros Hc.
  - assert (r * b <= -1 * b) by (apply Z.mul_le_mono_nonneg_r; lia). lia.
  - assert (101 * b <= r * b) by (apply Z.mul_le_mono_nonneg_r; lia). lia.
  - assert (r * b <= 99 * b) by (apply Z.mul_le_mono_nonneg_r; lia). lia.
Qed.

(** C14: What a retarget computes, for every nonzero spacing. The ratio [r] of
    the height difference (at least 1) to the spacing, in percent, is rounded to
    a nearest whole percent. Below 100 it is cut to the maximum adjustment, above
    100 to the maximum adjustment more than 100, and 100 is kept. The new target
    is this percentage of the last one, taken of its whole hundredth and cut at
    the largest 256-bit number; a percentage above 255 panics. In particular the
    target is never raised when the difference is below the spacing. *)
Theorem retarget_bounded diff last_bits p :
  params_wf p -> 0 < pow_target_spacing p -> 0 <= diff < 2 ^ 32 ->
  exists r pct,
    2 * Z.abs (100 * Z.max 1 diff - r * pow_target_spacing p) <= pow_target_spacing p /\
    (r < 100 -> pct = Z.min r (max_pow_adjustment p)) /\
    (r = 100 -> pct = 100) /\
    (100 < r -> pct = Z.min r (100 + max_pow_adjustment p)) /\
    (Z.max 1 diff < pow_target_spacing p -> 0 <= pct <= 100) /\
    calculate_next_work_required diff last_bits p =
    (if 255 <? pct then Panic
     else Ok (target_to_compact_lossy
                (Z.min (2 ^ 256 - 1) (uint256_target_from_compact last_bits / 100 * pct)))).
Proof.
  intros (_ & Hs & Hm) Hpos Hd. unfold calculate_next_work_required.
  replace (pow_target_spacing p =? 0) with false by lia.
  set (d := if diff =? 0 then 1 else diff).
  assert (0 < d < 2 ^ 32 /\ d = Z.max 1 diff) as [Hd1 Hd2]
    by (subst d; destruct (Z.eqb_spec diff 0); lia).
  destruct (ratio2_range d p ltac:(lia) ltac:(lia)) as (H0 & H1 & H2).
  pose proof (ratio2_nearest d (pow_target_spacing p) ltac:(lia) ltac:(lia)) as Hr.
  set (r := ratio2 d (pow_target_spacing p)) in *. rewrite <-Hd2. cbv zeta.
  exists r, (clamp_ratio r (max_pow_adjustment p)).
  assert (0 <= clamp_ratio r (max_pow_adjustment p)) as Hc
    by (unfold clamp_ratio; destruct (Z.ltb_spec r 100), (Z.ltb_spec 100 r); lia).
  split_and!; [done|..].
  - intros Hlt. unfold clamp_ratio. by replace (r <? 100) with true by lia.
  - intros ->. done.
  - intros Hlt. unfold clamp_ratio. replace (r <? 100) with false by lia.
    replace (100 <? r) with true by lia. by rewrite (Z.add_comm 100).
  - intros Hlt. split; [done|]. specialize (H1 Hlt). unfold clamp_ratio.
    destruct (Z.ltb_spec r 100), (Z.ltb_spec 100 r); lia.
  - destruct (Z.ltb_spec 255 (clamp_ratio r (max_pow_adjustment p))) as [Hgt|Hle].
    + unfold chk. by replace (in_width 8 _) with false by (unfold in_width; lia).
    + by rewrite chk_ok by lia.
Qed.

(** When blocks come faster than the spacing, by at least half a percent,
    the target is cut to at most the maximum adjustment in percent: with the
    usual 20, one retarget divides the target by five or more, where the
    parameter is described as the maximum range of the adjustment. *)
Theorem retarget_fast_cut diff last_bits p :
  params_wf p -> 0 < diff < 2 ^ 32 -> 1000 * diff < 995 * pow_target_spacing p ->
  exists pct, 0 <= pct <= max_pow_adjustment p /\
    calculate_next_work_required diff last_bits p =
    Ok (target_to_compact_lossy
          (Z.min (2 ^ 256 - 1) (uint256_target_from_compact last_bits / 100 * pct))).
Proof.
  intros (_ & Hs & Hm) Hd Hlt. unfold calculate_next_work_required.
  replace (diff =? 0) with false by lia.
  replace (pow_target_spacing p =? 0) with false by lia.
  destruct (ratio2_range diff p ltac:(lia) ltac:(lia)) as (H0 & _ & _).
  pose proof (ratio2_nearest diff (pow_target_spacing p) ltac:(lia) ltac:(lia)) as Hr.
  set (r := ratio2 diff (pow_target_spacing p)) in *.
  assert (r < 100) as Hr100.
  { apply Z.nle_gt. intros Hc.
    assert (100 * pow_target_spacing p <= r * pow_target_spacing p)
      by (apply Z.mul_le_mono_nonneg_r; lia). lia. }
  exists (clamp_ratio r (max_pow_adjustment p)). unfold clamp_ratio.
  replace (r <? 100) with true by lia. split; [lia|]. by rewrite chk_ok by lia.
Qed.

(** Without retargeting, or between retarget heights, the bits of the last
    AuxPow block carry over unchanged. *)
Theorem no_retarget_keeps_bits `{K : BlockLib} b h p height :
  auxpow_header b = Some h -> 0 <= bi_height b <= height -> height + 1 < 2 ^ 32 ->
  (pow_no_retargeting p = true \/
   is_retarget_height height (height + 1 - bi_height b) p = Ok false) ->
  get_next_work_required b p height = Ok (a_bits h).
Proof.
  intros Hh Hb Hlt Hp. unfold get_next_work_required.
  rewrite add_chk_ok by lia. unfold mbind, res_bind.
  rewrite sub_chk_ok by lia. unfold bi_bits. rewrite Hh. cbn [fmap option_fmap option_map unwrap].
  rewrite wrap_small by lia.
  destruct Hp as [->|Hp]; [done|]. destruct (pow_no_retargeting p); [done|]. by rewrite Hp.
Qed.

End Props.

(** ** An instance of the decimal operation, and witnesses *)

Module Witness.

(** Round to nearest, ties to even. *)
Definition half_even (a b : Z) : Z :=
  let q := 100 * a / b in
  let r := 100 * a mod b in
  if 2 * r <? b then q else if b <? 2 * r then q + 1 else if Z.even q then q else q + 1.

Definition dec : DecimalLib := {| ratio2 := half_even |}.

Lemma dec_laws : DecimalLaws dec.
Proof.
  split. intros a b Ha Hb. change (ratio2 a b) with (half_even a b). unfold half_even. cbv zeta.
  pose proof (Z.div_mod (100 * a) b ltac:(lia)) as E.
  pose proof (Z.mod_pos_bound (100 * a) b ltac:(lia)) as Hm.
  set (q := 100 * a / b) in *. set (r := (100 * a) mod b) in *.
  destruct (Z.ltb_spec (2 * r) b); [lia|]. destruct (Z.ltb_spec b (2 * r)); [lia|].
  destruct (Z.even q); lia.
Qed.

#[local] Existing Instance dec.
#[local] Existing Instance dec_laws.

Definition params : Params := mkParams 553713663 439495319 60 5 false 20.

Lemma compact_round_trip_witness :
  target_to_compact_lossy (uint256_target_from_compact (compact (2 ^ 16) 30)) = compact (2 ^ 16) 30.
Proof. apply compact_round_trip; lia. Defined.

Lemma compact_loss_witness :
  uint256_target_from_compact (target_to_compact_lossy (2 ^ 100 + 1)) <= 2 ^ 100 + 1 /\
  (2 ^ 100 + 1 - uint256_target_from_compact (target_to_compact_lossy (2 ^ 100 + 1))) * 2 ^ 15
  < 2 ^ 100 + 1.
Proof. apply compact_loss. lia. Defined.

Lemma retarget_bounded_witness :
  exists r pct,
    2 * Z.abs (100 * Z.max 1 4 - r * 5) <= 5 /\
    (r < 100 -> pct = Z.min r 20) /\ (r = 100 -> pct = 100) /\
    (100 < r -> pct = Z.min r (100 + 20)) /\ (Z.max 1 4 < 5 -> 0 <= pct <= 100) /\
    calculate_next_work_required 4 505794034 params =
    (if 255 <? pct then Panic
     else Ok (target_to_compact_lossy
                (Z.min (2 ^ 256 - 1) (uint256_target_from_compact 505794034 / 100 * pct)))).
Proof. apply (retarget_bounded 4 505794034 params); unfold params_wf; cbn; lia. Defined.

Lemma retarget_fast_cut_witness :
  exists pct, 0 <= pct <= 20 /\
    calculate_next_work_required 4 505794034 params =
    Ok (target_to_compact_lossy
          (Z.min (2 ^ 256 - 1) (uint256_target_from_compact 505794034 / 100 * pct))).
Proof. apply (retarget_fast_cut 4 505794034 params); unfold params_wf; cbn; lia. Defined.

Definition lib : BlockLib := {|
  rmp_block _ := []; rmp_signed _ := []; rmp_signed_decode _ := None;
  tree_merkle_root _ := zero_hash |}.

Definition genesis_block : ConsensusBlock :=
  mkBlock zero_hash 0 (Some (genesis_header 505794034 1212)) payload_default [] None [].

Lemma no_retarget_keeps_bits_witness :
  get_next_work_required (K:=lib) genesis_block params 7 = Ok 505794034.
Proof.
  apply (no_retarget_keeps_bits (K:=lib) genesis_block (genesis_header 505794034 1212));
    [reflexivity|cbn; lia|lia|right; vm_compute; reflexivity].
Defined.

End Witness.

End Retarget.
