(* ===== verification/AuxMiner.v ===== *)
(** The merged-mining service ([AuxPowMiner] of [app/src/auxpow_miner.rs]): it
    hands out a commitment to the blocks without proof of work, remembers what
    it committed to, and queues the AuxPow a miner submits for it. It talks to
    the chain through the [ChainManager] interface, whose instance the chain
    provides. *)
From stdpp Require Import base decidable list gmap.
From Stdlib Require Import ZArith Lia.
From S2P Require Import Prelude Bitcoin Errors AuxPow Signatures Block Retarget.

(** The trait [ChainManager], over the chain's state [C]. Calls that [unwrap]
    inside the chain may panic. *)
Class ChainManager (C : Type) := {
  cm_is_synced : C -> bool;
  cm_get_last_finalized_block : C -> res Error ConsensusBlock;
  cm_get_aggregate_hashes : C -> res Error (list hash);
  cm_get_block_by_hash : C -> hash -> res Error ConsensusBlock;
  cm_get_head : C -> res Error SignedConsensusBlock;
  cm_get_queued_auxpow : C -> option AuxPowHeader;
  cm_push_auxpow : hash -> hash -> Z -> Z -> Z -> AuxPow.t -> Address -> C -> res Error bool * C;
}.

(** What the miner relies on: in the states [cm_ok] of the chain, a finalized
    block it was given can be fetched again by its hash. *)
Class ChainManagerLaws `{K : BlockLib} (C : Type) (M : ChainManager C) := {
  cm_ok : C -> Prop;
  cm_last_by_hash c b : cm_ok c -> cm_get_last_finalized_block c = Ok b ->
    cm_get_block_by_hash c (bi_block_hash b) = Ok b;
}.

Module AuxMiner.

(** [AuxBlock], without the fields that are constants. *)
Record AuxBlock := mkAuxBlock {
  ab_hash : hash;
  ab_chain_id : Z;
  ab_previous_block_hash : hash;
  ab_bits : Z;
  ab_height : Z;
}.

Record AuxInfo := mkAuxInfo {
  last_hash : hash;
  start_hash : hash;
  end_hash : hash;
  address : Address;
}.

(** The errors of this file: those of the node, and the four messages. *)
Inductive MinerError :=
| NodeError (e : Error)
| UnknownBlock
| LastBlockNotFound
| PowNotValid
| AuxPowNotValid.

Section WithChain.
Context `{B : BitcoinLib, D : DecimalLib, K : BlockLib, M : ChainManager C}.

(** The miner and the chain it drives. *)
Record t := mk {
  state : gmap hash AuxInfo;
  retarget_params : Retarget.Params;
  chain : C;
}.

Definition set_state (s : gmap hash AuxInfo) (m : t) : t := mk s (retarget_params m) (chain m).
Definition set_chain (c : C) (m : t) : t := mk (state m) (retarget_params m) c.

Definition node {A} (r : res Error A) : ST t MinerError A := liftR (map_err NodeError r).

Definition get_next_work_required (index_last : ConsensusBlock) : ST t MinerError Z :=
  m ← getS;
  head ← node (cm_get_head (chain m));
  node (Retarget.get_next_work_required index_last (retarget_params m) (bi_height (message head))).

Definition first_or (l : list hash) (b : BlockErrorBlockTypes) : res Error hash :=
  ok_or (hd_error l) (ChainError (AuxPowMiningError_ (HashRetrievalError b))).
Definition last_or (l : list hash) (b : BlockErrorBlockTypes) : res Error hash :=
  ok_or (last l) (ChainError (AuxPowMiningError_ (HashRetrievalError b))).

Definition create_aux_block (addr : Address) : ST t MinerError AuxBlock :=
  m ← getS;
  if negb (cm_is_synced (chain m)) then throw (NodeError ChainSyncing)
  else
    index_last ← node (cm_get_last_finalized_block (chain m));
    hashes ← node (cm_get_aggregate_hashes (chain m));
    let h := AuxPow.aggregate_hash hashes in
    start ← node (first_or hashes AuxPowFirst);
    end_ ← node (last_or hashes AuxPowLast);
    modifyS (fun m => set_state
      (<[h := mkAuxInfo (bi_block_hash index_last) start end_ addr]> (state m)) m) ;;
    bits ← get_next_work_required index_last;
    chain_id ← node (bi_chain_id index_last);
    height ← node (add_chk 64 (bi_height index_last) 1);
    mret (mkAuxBlock h chain_id (bi_block_hash index_last) bits height).

Definition submit_aux_block (h : hash) (auxpow : AuxPow.t) : ST t MinerError unit :=
  m ← getS;
  match state m !! h with
  | None => throw UnknownBlock
  | Some info =>
      modifyS (fun m => set_state (delete h (state m)) m) ;;
      index_last ← liftR (match cm_get_block_by_hash (chain m) (last_hash info) with
                          | Ok b => Ok b
                          | Err _ => Err LastBlockNotFound
                          | Panic => Panic
                          end);
      bits ← get_next_work_required index_last;
      chain_id ← node (bi_chain_id index_last);
      if negb (AuxPow.check_proof_of_work auxpow bits) then throw PowNotValid
      else
        match AuxPow.check auxpow h chain_id with
        | Err _ => throw AuxPowNotValid
        | Panic => panic
        | Ok _ =>
            height ← node (add_chk 64 (bi_height index_last) 1);
            m ← getS;
            let '(r, c) := cm_push_auxpow (start_hash info) (end_hash info) bits chain_id height
                             auxpow (address info) (chain m) in
            modifyS (set_chain c) ;;
            node r ;;
            mret tt
        end
  end.

Definition get_head (m : t) : res Error SignedConsensusBlock := cm_get_head (chain m).
Definition get_queued_auxpow (m : t) : option AuxPowHeader := cm_get_queued_auxpow (chain m).

(** One turn of the loop of [spawn_background_miner]: create, mine, submit;
    errors of either call are logged and dropped. *)
Definition background_turn : ST t MinerError unit := fun m =>
  match create_aux_block zero_address m with
  | (Ok aux_block, m') =>
      match AuxPow.mine (ab_hash aux_block) (ab_bits aux_block) (ab_chain_id aux_block) with
      | Ok auxpow =>
          match submit_aux_block (ab_hash aux_block) auxpow m' with
          | (Panic, m'') => (Panic, m'')
          | (_, m'') => (Ok tt, m'')
          end
      | _ => (Panic, m')
      end
  | (Err _, m') => (Ok tt, m')
  | (Panic, m') => (Panic, m')
  end.

(** ** Lemmas *)

(** What a successful creation computed and remembered. *)
Lemma create_inv addr m ab m' :
  create_aux_block addr m = (Ok ab, m') ->
  exists last hashes start end_ head,
    cm_is_synced (chain m) = true /\
    cm_get_last_finalized_block (chain m) = Ok last /\
    cm_get_aggregate_hashes (chain m) = Ok hashes /\
    hd_error hashes = Some start /\ list.last hashes = Some end_ /\
    cm_get_head (chain m) = Ok head /\
    Retarget.get_next_work_required last (retarget_params m) (bi_height (message head))
      = Ok (ab_bits ab) /\
    bi_chain_id last = Ok (ab_chain_id ab) /\
    ab_hash ab = AuxPow.aggregate_hash hashes /\
    ab_height ab = bi_height last + 1 /\ 0 <= bi_height last + 1 < 2 ^ 64 /\
    m' = set_state (<[ab_hash ab := mkAuxInfo (bi_block_hash last) start end_ addr]> (state m)) m.
Proof.
  unfold create_aux_block, getS, node, liftR, modifyS, first_or, last_or, ok_or,
    get_next_work_required, mbind, st_bind, mret, st_ret.
  destruct (cm_is_synced (chain m)); [|done]. cbn [negb map_err].
  destruct (cm_get_last_finalized_block (chain m)) as [last| |] eqn:El; cbn; try done.
  destruct (cm_get_aggregate_hashes (chain m)) as [hashes| |] eqn:Eh; cbn; try done.
  destruct (hd_error hashes) as [start|] eqn:Es; cbn; try done.
  destruct (list.last hashes) as [end_|] eqn:Ee; cbn; try done.
  destruct (cm_get_head (chain m)) as [head| |] eqn:Ehd; cbn; try done.
  destruct (Retarget.get_next_work_required _ _ _) as [bits| |] eqn:Eb; cbn; try done.
  destruct (bi_chain_id last) as [cid| |] eqn:Ec; cbn; try done.
  destruct (add_chk 64 (bi_height last) 1) as [height| |] eqn:Ea; cbn; try done.
  intros [= <- <-]. apply chk_inv in Ea as [-> Hr].
  exists last, hashes, start, end_, head. split_and!; (done || lia).
Qed.

(** ** Properties *)

(** A valid AuxPow for a created aux block is queued for exactly the range
    that was committed to: with the chain unchanged since the creation, a
    submission that meets the target and passes the AuxPow check pushes the
    first and last of the aggregated hashes with the bits, chain id and height
    handed out, and forgets the commitment so that it cannot be used twice. *)
Theorem submit_created_pushes `{!ChainManagerLaws C M} addr m ab m' auxpow pushed c' :
  cm_ok (chain m) ->
  create_aux_block addr m = (Ok ab, m') ->
  AuxPow.check_proof_of_work auxpow (ab_bits ab) = true ->
  AuxPow.check auxpow (ab_hash ab) (ab_chain_id ab) = Ok tt ->
  (forall start end_,
     (exists hashes, cm_get_aggregate_hashes (chain m) = Ok hashes /\
        hd_error hashes = Some start /\ list.last hashes = Some end_ /\
        ab_hash ab = AuxPow.aggregate_hash hashes) ->
     cm_push_auxpow start end_ (ab_bits ab) (ab_chain_id ab) (ab_height ab) auxpow addr (chain m)
     = (Ok pushed, c')) ->
  submit_aux_block (ab_hash ab) auxpow m'
  = (Ok tt, set_chain c' (set_state (delete (ab_hash ab) (state m)) m)).
Proof.
  intros Hok (last & hashes & start & end_ & head & Hsy & Hl & Ha & Hst & He & Hh & Hb & Hc & Hab
          & Hht & Hr & ->)%create_inv Hpow Hchk Hpush.
  unfold submit_aux_block, get_next_work_required, getS, node, liftR, modifyS, mbind, st_bind,
    mret, st_ret. cbn [state set_state chain retarget_params]. rewrite lookup_insert_eq.
  cbn [last_hash start_hash end_hash address]. rewrite (cm_last_by_hash _ _ Hok Hl).
  cbn [state set_state chain retarget_params map_err]. rewrite Hh. cbn [map_err].
  rewrite Hb. cbn [map_err]. rewrite Hc. cbn [map_err]. rewrite Hpow, Hchk. cbn [negb].
  rewrite add_chk_ok by done. cbn [map_err chain set_state]. rewrite <-Hht.
  rewrite (Hpush start end_) by eauto 10. cbn [map_err].
  rewrite delete_insert_eq. done.
Qed.

(** A submission for a hash the service did not hand out, or whose
    commitment was already used, is rejected and changes nothing. *)
Theorem submit_unknown h auxpow m :
  state m !! h = None -> submit_aux_block h auxpow m = (Err UnknownBlock, m).
Proof.
  intros H. unfold submit_aux_block, getS, throw, mbind, st_bind. by rewrite H.
Qed.

End WithChain.

(** ** Witnesses *)

Module Witness.
#[local] Existing Instance ExampleLib.lib.
#[local] Existing Instance Retarget.Witness.dec.

Definition blocks : BlockLib := Retarget.Witness.lib.
#[local] Existing Instance blocks.

Definition tip : ConsensusBlock := Retarget.Witness.genesis_block.

(** A chain that holds one AuxPow block, two hashes without work, and the
    queue of pushed headers. *)
Definition chain0 : ChainManager (list AuxPowHeader) := {|
  cm_is_synced _ := true;
  cm_get_last_finalized_block _ := Ok tip;
  cm_get_aggregate_hashes _ := Ok [AuxPow.Witness.h0; AuxPow.Witness.h1];
  cm_get_block_by_hash _ _ := Ok tip;
  cm_get_head _ := Ok (mkSigned tip (Signatures.mkAggregate [] []));
  cm_get_queued_auxpow q := hd_error q;
  cm_push_auxpow s e bits cid height a addr q :=
    (Ok true, [mkAuxPowHeader s e bits cid height (Some a) addr]);
|}.
#[local] Existing Instance chain0.

#[local] Instance chain0_laws : ChainManagerLaws (list AuxPowHeader) chain0.
Proof. refine {| cm_ok _ := True |}. cbn. by intros c b _ [= <-]. Defined.

Definition miner : t (C:=list AuxPowHeader) :=
  mk ∅ (Retarget.mkParams 0 0 60 5 true 20) [].

Definition aux_hash : hash := AuxPow.aggregate_hash [AuxPow.Witness.h0; AuxPow.Witness.h1].
Definition solved : AuxPow.t := AuxPow.mine_candidate aux_hash 5.
Definition created : AuxBlock := mkAuxBlock aux_hash 1212 zero_hash 505794034 1.

Lemma submit_created_pushes_witness :
  submit_aux_block aux_hash solved
    (set_state {[ aux_hash := mkAuxInfo zero_hash AuxPow.Witness.h0 AuxPow.Witness.h1
                                        zero_address ]} miner)
  = (Ok tt, set_chain [mkAuxPowHeader AuxPow.Witness.h0 AuxPow.Witness.h1 505794034 1212 1
                         (Some solved) zero_address]
              (set_state (delete aux_hash (state miner)) miner)).
Proof.
  apply (submit_created_pushes zero_address miner created _ solved true).
  - exact I.
  - vm_compute. reflexivity.
  - vm_compute. reflexivity.
  - vm_compute. reflexivity.
  - intros start end_ (hs & [= <-] & [= <-] & [= <-] & _). reflexivity.
Defined.

Lemma submit_unknown_witness : submit_aux_block zero_hash solved miner = (Err UnknownBlock, miner).
Proof. apply submit_unknown. reflexivity. Defined.

End Witness.

End AuxMiner.
