(* ===== verification/BTree.v ===== *)
(** [BTreeMap] keyed by byte strings, as the sources iterate over it: an
    association list in increasing key order. *)
From stdpp Require Import base decidable list.
From Stdlib Require Import ZArith Lia.
From S2P Require Import Prelude.

(** The order of byte arrays. *)
Fixpoint lex_lt (a b : list Z) : bool :=
  match a, b with
  | [], [] => false
  | [], _ :: _ => true
  | _ :: _, [] => false
  | x :: a', y :: b' => (x <? y) || ((x =? y) && lex_lt a' b')
  end.

Lemma lex_lt_irrefl a : lex_lt a a = false.
Proof. induction a as [|x a IH]; cbn; [done|]. rewrite Z.ltb_irrefl, Z.eqb_refl. done. Qed.

Lemma lex_lt_trans a b c : lex_lt a b = true -> lex_lt b c = true -> lex_lt a c = true.
Proof.
  revert b c. induction a as [|x a IH]; intros [|y b] [|z c]; cbn; try done.
  rewrite !orb_true_iff, !andb_true_iff, !Z.ltb_lt, !Z.eqb_eq.
  intros [?|[-> ?]] [?|[-> ?]]; [left; lia|left; lia|left; lia|right; eauto].
Qed.

Lemma lex_lt_total a b : lex_lt a b = false -> a <> b -> lex_lt b a = true.
Proof.
  revert b. induction a as [|x a IH]; intros [|y b] H Hne; cbn in *; try done.
  apply orb_false_iff in H as [Hlt H]. apply Z.ltb_ge in Hlt. apply orb_true_iff.
  destruct (Z.eqb_spec x y) as [->|]; cbn in *; [|left; lia].
  right. rewrite Z.eqb_refl. cbn. apply IH; [done|]. by intros ->.
Qed.

Module BTree.
Section WithValue.
Context {V : Type}.

Abbreviation t := (list (list Z * V)).

Fixpoint insert (k : list Z) (v : V) (m : t) : t :=
  match m with
  | [] => [(k, v)]
  | (k', v') :: m' =>
      if bool_decide (k = k') then (k, v) :: m'
      else if lex_lt k k' then (k, v) :: m
      else (k', v') :: insert k v m'
  end.

Fixpoint get (k : list Z) (m : t) : option V :=
  match m with
  | [] => None
  | (k', v') :: m' => if bool_decide (k = k') then Some v' else get k m'
  end.

Definition contains_key (k : list Z) (m : t) : bool := bool_decide (is_Some (get k m)).

Fixpoint remove (k : list Z) (m : t) : t :=
  match m with
  | [] => []
  | (k', v') :: m' => if bool_decide (k = k') then m' else (k', v') :: remove k m'
  end.

Definition keys (m : t) : list (list Z) := map fst m.
Definition values (m : t) : list V := map snd m.

(** [into_iter().collect::<BTreeMap<_,_>>()]: later entries replace earlier
    ones. *)
Definition from_list (l : t) : t := foldl (fun m p => insert p.1 p.2 m) [] l.

Fixpoint sorted (m : t) : bool :=
  match m with
  | [] => true
  | (k, _) :: m' => forallb (fun p => lex_lt k p.1) m' && sorted m'
  end.

Lemma get_insert k v m k' :
  get k' (insert k v m) = if bool_decide (k' = k) then Some v else get k' m.
Proof.
  induction m as [|[k0 v0] m IH]; cbn; [done|].
  repeat case_bool_decide; cbn; repeat (case_bool_decide; cbn); subst; try done;
    destruct (lex_lt k k0); cbn; repeat (case_bool_decide; cbn); subst; try done;
    rewrite ?IH; repeat (case_bool_decide; cbn); done.
Qed.

Lemma sorted_cons k v m :
  sorted ((k, v) :: m) = true <-> Forall (fun p => lex_lt k p.1 = true) m /\ sorted m = true.
Proof. cbn. rewrite andb_true_iff, forallb_forall, Forall_forall. by setoid_rewrite list_elem_of_In. Qed.

Lemma sorted_get_head k m : Forall (fun p => lex_lt k p.1 = true) m -> get k m = None.
Proof.
  induction 1 as [|[k' v'] m Hk _ IH]; cbn in *; [done|].
  rewrite bool_decide_false; [done|]. intros ->. by rewrite lex_lt_irrefl in Hk.
Qed.

Lemma Forall_insert (P : list Z -> Prop) k v m :
  P k -> Forall (fun p => P p.1) m -> Forall (fun p => P p.1) (insert k v m).
Proof.
  intros Hk. induction 1 as [|[k' v'] m Hp Hm IH]; cbn; [by constructor|].
  case_bool_decide; [by constructor|]. destruct (lex_lt k k'); repeat constructor; done.
Qed.

Lemma sorted_insert k v m : sorted m = true -> sorted (insert k v m) = true.
Proof.
  induction m as [|[k' v'] m IH]; [done|]. rewrite sorted_cons. intros [Hf Hs]. cbn [insert].
  case_bool_decide as E; [subst; by apply sorted_cons|].
  destruct (lex_lt k k') eqn:El; apply sorted_cons.
  - split; [|by apply sorted_cons]. constructor; [done|].
    eapply Forall_impl; [exact Hf|]. intros p Hp. cbn in *. by eapply lex_lt_trans.
  - split; [|by apply IH]. apply (Forall_insert (fun x => lex_lt k' x = true)); [|done].
    by apply lex_lt_total.
Qed.

Lemma insert_length k v m :
  sorted m = true ->
  length (insert k v m) = if contains_key k m then length m else S (length m).
Proof.
  unfold contains_key. induction m as [|[k' v'] m IH]; [done|]. rewrite sorted_cons.
  intros [Hf Hs]. cbn [insert get].
  destruct (bool_decide_reflect (k = k')) as [->|E]; [by rewrite bool_decide_true by eauto|].
  destruct (lex_lt k k') eqn:El; cbn [length].
  - rewrite sorted_get_head, bool_decide_false; [done|by intros [? ?]|].
    eapply Forall_impl; [exact Hf|]. intros p Hp. cbn in *. by eapply lex_lt_trans.
  - rewrite IH by done. by case_match.
Qed.

Lemma get_remove k m k' :
  sorted m = true -> get k' (remove k m) = if bool_decide (k' = k) then None else get k' m.
Proof.
  induction m as [|[k0 v0] m IH]; cbn [remove get]; [by case_match|].
  rewrite sorted_cons. intros [Hf Hs]. specialize (IH Hs).
  destruct (decide (k = k0)) as [E|E], (decide (k' = k0)) as [E'|E'];
    rewrite ?(bool_decide_true (k = k0)), ?(bool_decide_false (k = k0)),
      ?(bool_decide_true (k' = k0)), ?(bool_decide_false (k' = k0)) by done; cbn [get].
  - rewrite bool_decide_true by congruence. subst. by apply sorted_get_head.
  - by rewrite bool_decide_false by congruence.
  - rewrite bool_decide_true by done. by rewrite bool_decide_false by congruence.
  - by rewrite bool_decide_false.
Qed.

Lemma sorted_remove k m : sorted m = true -> sorted (remove k m) = true.
Proof.
  induction m as [|[k0 v0] m IH]; [done|]. rewrite sorted_cons. intros [Hf Hs]. cbn [remove].
  case_bool_decide; [done|]. apply sorted_cons. split; [|by apply IH].
  clear -Hf. induction Hf as [|[k1 v1] m H Hm IH]; cbn; [constructor|].
  case_bool_decide; [done|by constructor].
Qed.

Lemma get_elem k v m : sorted m = true -> (k, v) ∈ m -> get k m = Some v.
Proof.
  induction m as [|[k0 v0] m IH]; [by intros _ ?%not_elem_of_nil|].
  rewrite sorted_cons. intros [Hf Hs] [[= <- <-]|H]%elem_of_cons; cbn; [by rewrite bool_decide_true|].
  rewrite bool_decide_false; [by apply IH|]. intros ->.
  eapply Forall_forall in Hf; [|done]. cbn in Hf. by rewrite lex_lt_irrefl in Hf.
Qed.

Lemma elem_get k m : k ∈ keys m <-> is_Some (get k m).
Proof.
  induction m as [|[k0 v0] m IH]; cbn; [split; [by intros ?%not_elem_of_nil|by intros [? ?]]|].
  rewrite elem_of_cons, IH. case_bool_decide; naive_solver.
Qed.

Lemma sorted_NoDup m : sorted m = true -> NoDup (keys m).
Proof.
  induction m as [|[k v] m IH]; [constructor|]. rewrite sorted_cons. intros [Hf Hs].
  constructor; [|by apply IH]. fold (keys m). rewrite elem_get, sorted_get_head by done. by intros [? ?].
Qed.

Lemma sublist_remove k m : sublist (values (remove k m)) (values m).
Proof.
  induction m as [|[k0 v0] m IH]; cbn; [constructor|]. case_bool_decide; cbn; by constructor.
Qed.

Lemma get_from_list l m k :
  get k (foldl (fun m p => insert p.1 p.2 m) m l)
  = match get k (reverse l) with Some v => Some v | None => get k m end.
Proof.
  revert m. induction l as [|[k0 v0] l IH]; intros m; cbn [foldl]; [done|]. rewrite IH, get_insert, reverse_cons.
  assert (forall l', get k (l' ++ [(k0, v0)])
            = match get k l' with Some v => Some v | None => if bool_decide (k = k0) then Some v0 else None end) as E.
  { induction l' as [|[k1 v1] l' IHl]; cbn [app get]; [done|].
    rewrite IHl. by destruct (bool_decide (k = k1)). }
  rewrite E. cbn. destruct (get k (reverse l)); [done|]. by case_bool_decide.
Qed.

End WithValue.

Lemma get_map {V V'} (f : V -> V') k m : get k (map (fun p => (p.1, f p.2)) m) = f <$> get k m.
Proof. induction m as [|[k0 v0] m IH]; cbn; [done|]. by case_bool_decide. Qed.

Lemma sorted_map {V V'} (f : V -> V') m : sorted (map (fun p => (p.1, f p.2)) m) = sorted m.
Proof.
  induction m as [|[k v] m IH]; cbn; [done|]. rewrite IH. f_equal.
  clear IH. induction m as [|[k' v'] m IH]; cbn; [done|]. by rewrite IH.
Qed.

End BTree.
