(* ===== verification/Wallet.v ===== *)
(** The federation's Bitcoin wallet
    ([crates/federation/src/bitcoin_signing.rs]): the UTXO set, pegout
    payments and their checks, the taproot federation, and the collection of
    the members' signatures on a payment. *)
From stdpp Require Import base decidable list gmap.
From Stdlib Require Import ZArith Lia.
From S2P Require Import Prelude Bitcoin Errors.

(** Keys, Schnorr signatures and signature messages, as bytes. *)
Abbreviation BtcPublicKey := (list Z).
Abbreviation SchnorrSig := (list Z).
Abbreviation Message := (list Z).

Record LocalUtxo := mkUtxo {
  outpoint : OutPoint;
  txout : TxOut;
  is_spent : bool;
}.

(** The instructions of the redeem script. *)
Inductive Instr :=
| PushXOnlyKey (pk : BtcPublicKey)
| OP_CHECKSIG
| OP_CHECKSIGADD
| PushInt (n : Z)
| OP_GREATERTHANOREQUAL.

(** The result of coin selection: the chosen UTXOs and the change, if any. *)
Record Selection := mkSelection { selected : list LocalUtxo; change : option Z }.

(** The functions of the [bitcoin], [secp256k1] and [bdk] crates the wallet
    calls. [taproot_script] and [control_block] are the address script and the
    serialised control block of a script spent under an internal key;
    [script_sighash] is the taproot script-spend hash of an input;
    [coin_select] is branch and bound over UTXOs with one satisfaction weight.
    A fee rate is given by the fee [fee_wu] of a weight. *)
Class WalletLib := {
  FeeRate : Type;
  fee_wu : FeeRate -> Z -> Z;
  tx_weight : Transaction -> Z;
  segwit_weight : list bytes -> Z;
  script_bytes : list Instr -> bytes;
  taproot_script : BtcPublicKey -> bytes -> bytes;
  control_block : BtcPublicKey -> bytes -> bytes;
  matches_script_pubkey : bytes -> bytes -> bool;
  script_sighash : Transaction -> nat -> list TxOut -> bytes -> option Message;
  schnorr_from_slice : bytes -> option SchnorrSig;
  schnorr_to_vec : SchnorrSig -> bytes;
  verify_schnorr : SchnorrSig -> Message -> BtcPublicKey -> bool;
  BtcSecretKey : Type;
  btc_public_key : BtcSecretKey -> BtcPublicKey;
  sign_schnorr : BtcSecretKey -> Message -> SchnorrSig;
  coin_select : list LocalUtxo -> Z -> FeeRate -> Z -> bytes -> option Selection;
}.

(** A transaction without its witnesses. *)
Definition strip_witness (i : TxIn) : TxIn :=
  mkTxIn (previous_output i) (script_sig i) (sequence i) [].
Definition strip (tx : Transaction) : Transaction :=
  mkTransaction (version tx) (lock_time tx) (map strip_witness (input tx)) (output tx).

(** What is relied on: an address matches its own script only, signature
    hashes do not cover witnesses, signatures serialise to a non-empty string
    that parses back, signing produces valid signatures, and coin selection
    chooses among the UTXOs it is given. *)
Class WalletLaws (W : WalletLib) := {
  matches_iff a s : matches_script_pubkey a s = true <-> a = s;
  sighash_strip tx i ps r : script_sighash tx i ps r = script_sighash (strip tx) i ps r;
  schnorr_round_trip s : schnorr_from_slice (schnorr_to_vec s) = Some s;
  schnorr_nonempty s : schnorr_to_vec s <> [];
  schnorr_sign_valid sk m : verify_schnorr (sign_schnorr sk m) m (btc_public_key sk) = true;
  coin_select_subset us w r t s sel :
    coin_select us w r t s = Some sel -> Forall (fun u => u ∈ us) (selected sel);
}.

(** The answers of Bitcoin Core: a raw transaction, and whether an output is
    unspent ([Err] when the call fails). *)
Record BitcoinCore := mkCore {
  get_raw_transaction : hash -> option Transaction;
  get_tx_out : hash -> Z -> res unit bool;
}.

Module Wallet.
Import Fed.

Abbreviation result A := (res Fed.Error A).

Record Federation := mkFederation {
  taproot_address : bytes;
  internal_key : BtcPublicKey;
  redeem_script : bytes;
  threshold : nat;
  pubkeys : list BtcPublicKey;
  satisfaction_weight : Z;
}.

(** The wallet database: the UTXOs and raw transactions by id, and whether it
    answers. *)
Record t := mk {
  utxos : gmap OutPoint LocalUtxo;
  raw_txs : gmap hash Transaction;
  db_ok : bool;
  federation : Federation;
}.

Definition TRANSACTION_VERSION : Z := 2.
Definition LOCK_TIME : Z := 0.
(** [Sequence::ENABLE_RBF_NO_LOCKTIME]. *)
Definition ENABLE_RBF_NO_LOCKTIME : Z := 4294967293.

Section WithLibs.
Context `{B : BitcoinLib, W : WalletLib}.

(** ** The federation *)

Definition redeem_instrs (pks : list BtcPublicKey) (required_sigs : nat) : list Instr :=
  concat (imap (fun i pk => [PushXOnlyKey pk;
                             if (i =? 0)%nat then OP_CHECKSIG else OP_CHECKSIGADD]) pks)
  ++ [PushInt (Z.of_nat required_sigs); OP_GREATERTHANOREQUAL].

(** More required signatures than keys panics ([pubkeys.len() - required_sigs]
    underflows). *)
Definition new_with_internal_pubkey (internal : BtcPublicKey) (pks : list BtcPublicKey)
    (required_sigs : nat) : result Federation :=
  let redeem := script_bytes (redeem_instrs pks required_sigs) in
  num_omitted_sigs ← sub_chk 64 (Z.of_nat (length pks)) (Z.of_nat required_sigs);
  let non_empty_sigs := map (fun i => replicate 64 (wrap 8 (Z.of_nat i))) (seq 0 required_sigs) in
  let empty_sigs := replicate (Z.to_nat num_omitted_sigs) [] in
  let all_witnesses := non_empty_sigs ++ empty_sigs ++ [control_block internal redeem; redeem] in
  Ok (mkFederation (taproot_script internal redeem) internal redeem required_sigs pks
        (segwit_weight all_witnesses)).

Definition control_block_witness (f : Federation) : bytes :=
  control_block (internal_key f) (redeem_script f).

(** ** The database *)

Definition db {A} (m : ST t Error A) : ST t Error A := fun w =>
  if db_ok w then m w else (Err DbError, w).

Definition set_utxo (u : LocalUtxo) : ST t Error unit :=
  db (modifyS (fun w => mk (<[outpoint u := u]> (utxos w)) (raw_txs w) (db_ok w) (federation w))).

Definition set_raw_tx (tx : Transaction) : ST t Error unit :=
  db (modifyS (fun w => mk (utxos w) (<[txid tx := tx]> (raw_txs w)) (db_ok w) (federation w))).

Definition get_utxo (o : OutPoint) (w : t) : result (option LocalUtxo) :=
  if db_ok w then Ok (utxos w !! o) else Err DbError.

Definition get_tx (h : hash) (w : t) : result (option Transaction) :=
  if db_ok w then Ok (raw_txs w !! h) else Err DbError.

Definition iter_utxos (w : t) : result (list LocalUtxo) :=
  if db_ok w then Ok (map snd (map_to_list (utxos w))) else Err DbError.

(** ** Registering payments *)

(** The outputs to the federation address, with their indices. *)
Definition federation_outputs (w : t) (tx : Transaction) : list LocalUtxo :=
  omap (fun p : nat * TxOut =>
    if matches_script_pubkey (taproot_address (federation w)) (script_pubkey p.2)
    then Some (mkUtxo (mkOutPoint (txid tx) (wrap 32 (Z.of_nat p.1))) p.2 false)
    else None) (imap pair (output tx)).

Definition register_outputs_from (tx : Transaction) : ST t Error unit :=
  w ← getS;
  mapM_ set_utxo (federation_outputs w tx).

Definition register_pegin (tx : Transaction) : ST t Error unit :=
  set_raw_tx tx ;;
  register_outputs_from tx.

Definition mark_spent (i : TxIn) : ST t Error unit :=
  w ← getS;
  u ← liftR (get_utxo (previous_output i) w);
  u ← liftR (ok_or u DbError);
  set_utxo (mkUtxo (outpoint u) (txout u) true).

Definition register_pegout (tx : Transaction) : ST t Error unit :=
  set_raw_tx tx ;;
  mapM_ mark_spent (input tx) ;;
  register_outputs_from tx.

Definition register_utxos (us : list LocalUtxo) : ST t Error unit := mapM_ set_utxo us.

(** ** Checking a proposed payment *)

Definition has_spendable_utxo (o : OutPoint) (w : t) : result bool :=
  u ← get_utxo o w;
  Ok (match u with Some u => negb (is_spent u) | None => false end).

Definition try_fetch_utxo (o : OutPoint) (core : BitcoinCore) (w : t) : result LocalUtxo :=
  tx ← ok_or (get_raw_transaction core (op_txid o)) BitcoinError;
  out ← ok_or (output tx !! Z.to_nat (vout o)) UnknownOrSpentInput;
  if negb (matches_script_pubkey (taproot_address (federation w)) (script_pubkey out))
  then Err UnknownOrSpentInput
  else
    match get_tx_out core (op_txid o) (vout o) with
    | Ok true => Ok (mkUtxo o out false)
    | Ok false => Err UnknownOrSpentInput
    | Err _ =>
        if existsb (fun i => bool_decide (previous_output i = o)) (input tx)
        then Err UnknownOrSpentInput
        else Ok (mkUtxo o out false)
    | Panic => Panic
    end.

(** The loop over the inputs, collecting the UTXOs fetched from Bitcoin. *)
Fixpoint check_inputs (ins : list TxIn) (bridge : option BitcoinCore) (w : t) :
    result (list LocalUtxo) :=
  match ins with
  | [] => Ok []
  | i :: ins' =>
      spendable ← has_spendable_utxo (previous_output i) w;
      if spendable : bool then check_inputs ins' bridge w
      else
        match bridge with
        | Some core =>
            match try_fetch_utxo (previous_output i) core w with
            | Ok u => rest ← check_inputs ins' bridge w; Ok (u :: rest)
            | Err _ => Err UnspendableInput
            | Panic => Panic
            end
        | None => Err UnspendableInput
        end
  end.

(** A required output and the actual one in its place: the same script, and at
    most the required value. *)
Definition output_invalid (p : TxOut * TxOut) : bool :=
  negb (bool_decide (script_pubkey p.1 = script_pubkey p.2)) || (value p.1 <? value p.2).

Definition check_payment_proposal (required_outputs : list TxOut)
    (pegout_proposal : option Transaction) (bridge : option BitcoinCore) (w : t) :
    result (list LocalUtxo) :=
  match pegout_proposal with
  | None => if bool_decide (required_outputs = []) then Ok [] else Err MissingPegoutProposal
  | Some tx =>
      let n := length required_outputs in
      let m := length (output tx) in
      (if (m =? n + 1)%nat then
         lst ← unwrap (last (output tx));
         if negb (bool_decide (script_pubkey lst = taproot_address (federation w)))
         then Err InvalidChangeOutput else Ok tt
       else if negb (m =? n)%nat then Err InvalidPegoutOutputCount
       else Ok tt) ;;
      if existsb output_invalid (zip required_outputs (output tx)) then Err InvalidPegoutOutput
      else
        missing ← check_inputs (input tx) bridge w;
        if negb (lock_time tx =? LOCK_TIME) || negb (version tx =? TRANSACTION_VERSION)
        then Err InvalidTransactionHeader
        else Ok missing
  end.

(** ** Creating a payment *)

Fixpoint sum_chk (l : list Z) (acc : Z) : result Z :=
  match l with
  | [] => Ok acc
  | x :: l' => acc' ← add_chk 64 acc x; sum_chk l' acc'
  end.

(** The fee is taken from the first [n] outputs in equal parts. *)
Fixpoint deduct_fees (n : nat) (fee : Z) (outs : list TxOut) : result (list TxOut) :=
  match n, outs with
  | S n', o :: outs' =>
      if value o <=? fee then Err FeesExceedPegoutValue
      else rest ← deduct_fees n' fee outs';
           Ok (mkTxOut (value o - fee) (script_pubkey o) :: rest)
  | _, _ => Ok outs
  end.

Definition div_ceil (a b : Z) : result Z := if b =? 0 then Panic else Ok ((a + b - 1) / b).

Definition create_payment (outs : list TxOut) (fee_rate : FeeRate) (w : t) : result Transaction :=
  let num_pegouts := length outs in
  all ← iter_utxos w;
  let spendable := filter (fun u => is_spent u = false) all in
  total_out_value ← sum_chk (map value outs) 0;
  sel ← unwrap (coin_select spendable (satisfaction_weight (federation w)) fee_rate
                  total_out_value (taproot_address (federation w)));
  let ins := map (fun u => mkTxIn (outpoint u) [] ENABLE_RBF_NO_LOCKTIME []) (selected sel) in
  let outs' := match change sel with
               | Some amount => outs ++ [mkTxOut amount (taproot_address (federation w))]
               | None => outs
               end in
  let total_fee := fee_wu fee_rate (tx_weight (mkTransaction TRANSACTION_VERSION LOCK_TIME ins outs')) in
  fee_per_output ← div_ceil total_fee (Z.of_nat num_pegouts);
  outs'' ← deduct_fees num_pegouts fee_per_output outs';
  Ok (mkTransaction TRANSACTION_VERSION LOCK_TIME ins outs'').

Definition get_balance (w : t) : result Z :=
  all ← iter_utxos w;
  sum_chk (map (fun u => value (txout u)) (filter (fun u => is_spent u = false) all)) 0.

Definition get_transaction (h : hash) (w : t) : result Transaction :=
  tx ← get_tx h w;
  ok_or tx DbError.

(** ** Signatures *)

Definition get_prevout (w : t) (i : TxIn) : result TxOut :=
  u ← get_utxo (previous_output i) w;
  u ← ok_or u UnknownOrSpentInput;
  Ok (txout u).

Definition get_signing_inputs (tx : Transaction) (w : t) : result (list Message) :=
  prevouts ← collect (get_prevout w) (input tx);
  collect (fun i => unwrap (script_sighash tx i prevouts (redeem_script (federation w))))
          (seq 0 (length (input tx))).

Definition check_witness_sig (msg : Message) (p : bytes * BtcPublicKey) : result unit :=
  sig ← ok_or (schnorr_from_slice p.1) IncorrectSignature;
  if verify_schnorr sig msg p.2 then Ok tt else Err IncorrectSignature.

(** The check of one input's witness stack: a signature or an empty item per
    key in reverse order, exactly [threshold] of them not empty and valid,
    then the script and the control block. *)
Definition check_witnesses (f : Federation) (msg : Message) (witnesses : list bytes) : result unit :=
  let sigs := filter (fun p => p.1 <> []) (zip witnesses (reverse (pubkeys f))) in
  if negb (length witnesses =? length (pubkeys f) + 2)%nat
     || negb (length sigs =? threshold f)%nat
  then Err InvalidWitnessLength
  else
    collect (check_witness_sig msg) sigs ;;
    if bool_decide (drop (length (pubkeys f)) witnesses
                    = [redeem_script f; control_block_witness f])
    then Ok tt else Err InvalidWitnessScript.

Definition check_transaction_signatures (tx : Transaction) (witness_len_override : bool) (w : t) :
    result unit :=
  if witness_len_override then Ok tt
  else
    signing_messages ← get_signing_inputs tx w;
    collect (fun p => check_witnesses (federation w) p.1 (witness p.2))
            (zip signing_messages (input tx)) ;;
    Ok tt.

(** [SingleMemberTransactionSignatures]. *)
Record MemberSignatures := mkMember { member : BtcPublicKey; member_sigs : list SchnorrSig }.

Definition check_input_signatures (tx : Transaction) (s : MemberSignatures) (w : t) : result unit :=
  signing_messages ← get_signing_inputs tx w;
  if negb (length signing_messages =? length (member_sigs s))%nat
  then Err InvalidNumberOfSignatures
  else if forallb (fun p => verify_schnorr p.2 p.1 (member s))
                  (zip signing_messages (member_sigs s))
  then Ok tt else Err IncorrectSignature.

(** [BitcoinSigner::get_input_signatures]. *)
Definition get_input_signatures (sk : BtcSecretKey) (tx : Transaction) (w : t) :
    result MemberSignatures :=
  msgs ← get_signing_inputs tx w;
  Ok (mkMember (btc_public_key sk) (map (sign_schnorr sk) msgs)).

(** ** Partially signed payments *)

Record Psbt := mkPsbt {
  unsigned_transaction : Transaction;
  verified_signatures : gmap BtcPublicKey (list SchnorrSig);
}.

Definition psbt_new (tx : Transaction) : Psbt := mkPsbt tx ∅.

Definition add_verified_signature (pk : BtcPublicKey) (sigs : list SchnorrSig) (p : Psbt) : Psbt :=
  mkPsbt (unsigned_transaction p) (<[pk := sigs]> (verified_signatures p)).

Definition sig_for (p : Psbt) (input_idx : nat) (pk : BtcPublicKey) : result bytes :=
  match verified_signatures p !! pk with
  | None => Ok []
  | Some sigs => s ← ok_or (sigs !! input_idx) MissingSignature; Ok (schnorr_to_vec s)
  end.

Definition get_sigs_for_input (p : Psbt) (input_idx : nat) (pks : list BtcPublicKey) :
    result (list bytes) := collect (sig_for p input_idx) pks.

Definition sign_input (p : Psbt) (f : Federation) (x : nat * TxIn) : result TxIn :=
  sigs ← get_sigs_for_input p x.1 (pubkeys f);
  let witnesses := reverse sigs ++ [redeem_script f; control_block_witness f] in
  Ok (mkTxIn (previous_output x.2) (script_sig x.2) (sequence x.2) witnesses).

Definition finalize_transaction (p : Psbt) (f : Federation) : result Transaction :=
  if negb (size (verified_signatures p) =? threshold f)%nat then Err InvalidNumberOfSignatures
  else
    let tx := unsigned_transaction p in
    signed_inputs ← collect (sign_input p f) (imap pair (input tx));
    Ok (mkTransaction (version tx) (lock_time tx) signed_inputs (output tx)).

(** ** The collector *)

Record Collector := mkCollector {
  transactions : gmap hash Psbt;
  c_federation : Federation;
}.

Definition collector_new (f : Federation) : Collector := mkCollector ∅ f.

Definition set_psbt (h : hash) (p : Psbt) (c : Collector) : Collector :=
  mkCollector (<[h := p]> (transactions c)) (c_federation c).

Definition cleanup_signatures_for (h : hash) (c : Collector) : Collector :=
  mkCollector (delete h (transactions c)) (c_federation c).

(** The entry of a transaction is created before its signatures are checked. *)
Definition add_signature (w : t) (h : hash) (s : MemberSignatures) : ST Collector Error unit :=
  c ← getS;
  psbt ← (match transactions c !! h with
          | None =>
              tx ← liftR (get_transaction h w);
              modifyS (set_psbt h (psbt_new tx)) ;;
              mret (psbt_new tx)
          | Some p => mret p
          end);
  if (threshold (c_federation c) <=? size (verified_signatures psbt))%nat then mret tt
  else
    liftR (check_input_signatures (unsigned_transaction psbt) s w) ;;
    modifyS (set_psbt h (add_verified_signature (member s) (member_sigs s) psbt)).

Definition get_finalized (h : hash) (c : Collector) : result Transaction :=
  psbt ← ok_or (transactions c !! h) TxidNotFound;
  finalize_transaction psbt (c_federation c).

Definition collector_clear (c : Collector) : Collector := mkCollector ∅ (c_federation c).

End WithLibs.

End Wallet.
