(* ===== verification/WalletProofs.v ===== *)
(** Properties of the federation wallet ([Wallet]). *)
From stdpp Require Import base decidable list gmap.
From Stdlib Require Import ZArith Lia.
From S2P Require Import Prelude Bitcoin Errors Wallet.

Module WalletProofs.
Import Fed Wallet.

Section WithLibs.
Context `{B : BitcoinLib, W : WalletLib, !WalletLaws W}.

(** A wallet whose entries are filed under their own outpoints. *)
Definition wf (w : t) : Prop := map_Forall (fun o u => outpoint u = o) (utxos w).

(** ** Payments *)

Lemma deduct_fees_spec n fee outs outs' :
  deduct_fees n fee outs = Ok outs' ->
  length outs' = length outs /\
  Forall2 (fun o o' => script_pubkey o' = script_pubkey o /\ value o' <= Z.max (value o) (value o - fee))
          outs outs' /\
  drop n outs' = drop n outs.
Proof.
  revert outs outs'. induction n as [|n IH]; intros [|o outs] outs' H; cbn in H;
    try (injection H as <-; split_and!; [done| |done]; apply Forall_Forall2_diag;
         apply Forall_forall; intros; split; [done|lia]).
  unfold mbind, res_bind in H. destruct (value o <=? fee); [done|].
  destruct (deduct_fees n fee outs) as [rest| |] eqn:E; try done.
  injection H as <-. apply IH in E as (Hl & Hf & Hd). split_and!; cbn; [lia| |done].
  constructor; [cbn; split; [done|lia]|done].
Qed.

Lemma deduct_fees_le n fee outs outs' :
  0 <= fee -> deduct_fees n fee outs = Ok outs' ->
  Forall2 (fun o o' => script_pubkey o' = script_pubkey o /\ value o' <= value o) outs outs'.
Proof.
  intros Hf (_ & H & _)%deduct_fees_spec. eapply Forall2_impl; [exact H|].
  intros o o' [? ?]. split; [done|lia].
Qed.

Lemma outputs_valid req outs :
  Forall2 (fun o o' => script_pubkey o' = script_pubkey o /\ value o' <= value o)
          req (take (length req) outs) ->
  existsb output_invalid (zip req outs) = false.
Proof.
  revert outs. induction req as [|o req IH]; intros [|o' outs] H; cbn in *; try done.
  inversion H as [|? ? ? ? [Hs Hv] Hr]; subst. rewrite (IH _ Hr), orb_false_r.
  unfold output_invalid; cbn. rewrite bool_decide_true by done. cbn. lia.
Qed.

(** A wallet can use an output when it has it unspent, or when Bitcoin Core
    gives it as an unspent output to the federation. *)
Definition unspent (w : t) (o : OutPoint) : bool :=
  match utxos w !! o with Some u => negb (is_spent u) | None => false end.

Definition fetchable (bridge : option BitcoinCore) (w : t) (o : OutPoint) : Prop :=
  exists core u, bridge = Some core /\ try_fetch_utxo o core w = Ok u.

Lemma try_fetch_outpoint o core w u : try_fetch_utxo o core w = Ok u -> outpoint u = o.
Proof.
  unfold try_fetch_utxo, mbind, res_bind. destruct (ok_or _ _); [|done..].
  destruct (ok_or _ _); [|done..]. destruct (negb _); [done|].
  destruct (get_tx_out _ _ _) as [[]| |]; [by intros [= <-]|done| |done].
  destruct (existsb _ _); [done|]. by intros [= <-].
Qed.

Lemma Forall2_exists {X Y} (R : X -> Y -> Prop) l :
  (exists k, Forall2 R l k) <-> Forall (fun x => exists y, R x y) l.
Proof.
  split.
  - intros [k H]. induction H; constructor; eauto.
  - induction 1 as [|x l [y Hy] _ [k Hk]]; [by exists []|]. exists (y :: k). by constructor.
Qed.

(** The inputs pass exactly when each can be used; those Bitcoin Core had to
    give are returned. *)
Lemma check_inputs_iff ins bridge w missing :
  db_ok w = true ->
  check_inputs ins bridge w = Ok missing <->
  Forall2 (fun o u => outpoint u = o /\ exists core, bridge = Some core /\ try_fetch_utxo o core w = Ok u)
          (filter (fun o => unspent w o = false) (map previous_output ins)) missing.
Proof.
  intros Hdb. revert missing. induction ins as [|i ins IH]; intros missing; cbn [check_inputs map].
  { rewrite filter_nil. split; [by intros [= <-]|by inversion 1]. }
  unfold has_spendable_utxo, get_utxo, mbind, res_bind. rewrite Hdb.
  fold (unspent w (previous_output i)).
  destruct (unspent w (previous_output i)) eqn:Eu.
  { by rewrite filter_cons_False, IH by congruence. }
  rewrite filter_cons_True by done. split.
  - intros H. destruct bridge as [core|]; [|done].
    destruct (try_fetch_utxo _ core w) as [u| |] eqn:Ef; try done.
    destruct (check_inputs ins _ w) as [rest| |]; try done. injection H as <-.
    constructor; [|by apply IH]. split; [by eapply try_fetch_outpoint|]. by exists core.
  - intros H. inversion H as [|? u ? rest [_ (core & -> & Hu)] Hr]; subst.
    rewrite Hu. apply IH in Hr. by rewrite Hr.
Qed.

Lemma elem_of_spendable w u :
  wf w -> db_ok w = true ->
  u ∈ filter (fun u => is_spent u = false) (map snd (map_to_list (utxos w))) ->
  has_spendable_utxo (outpoint u) w = Ok true.
Proof.
  intros Hwf Hdb Hu. apply list_elem_of_filter in Hu as [Hs Hu].
  apply list_elem_of_fmap in Hu as ([o u'] & -> & Hu). cbn in *.
  apply elem_of_map_to_list in Hu. pose proof (Hwf o u' Hu) as Ho. cbn in Ho.
  unfold has_spendable_utxo, get_utxo. rewrite Hdb, Ho. cbn. by rewrite Hu, Hs.
Qed.

(** A created payment spends unspent outputs of its wallet; and of it every
    wallet of the same address only has to check the inputs. *)
Lemma created_payment_shape outs fee_rate w tx :
  wf w -> (forall x, 0 <= fee_wu fee_rate x) -> create_payment outs fee_rate w = Ok tx ->
  db_ok w = true /\ Forall (fun i => unspent w (previous_output i) = true) (input tx) /\
  forall bridge w2, taproot_address (federation w2) = taproot_address (federation w) ->
    check_payment_proposal outs (Some tx) bridge w2 = check_inputs (input tx) bridge w2.
Proof.
  intros Hwf Hfee H. unfold create_payment, iter_utxos, unwrap in H.
  destruct (db_ok w) eqn:Hdb; [|done]. unfold mbind, res_bind in H. cbv zeta in H.
  destruct (sum_chk _ _) as [total| |]; try done.
  destruct (coin_select _ _ _ _ _) as [sel|] eqn:Esel; [|done].
  apply coin_select_subset in Esel.
  set (outs' := match change sel with Some _ => _ | None => _ end) in *.
  set (ins := map _ (selected sel)) in *.
  set (fee := fee_wu _ _) in *. assert (0 <= fee) as Hfee' by apply Hfee.
  unfold div_ceil in H. destruct (Z.eqb_spec (Z.of_nat (length outs)) 0) as [|Hn]; [done|].
  assert (0 <= (fee + Z.of_nat (length outs) - 1) / Z.of_nat (length outs)) as Hfpo
    by (apply Z.div_pos; lia).
  destruct (deduct_fees _ _ outs') as [outs''| |] eqn:Ed; try done. injection H as <-.
  pose proof (deduct_fees_spec _ _ _ _ Ed) as (Hl & _ & Hd).
  pose proof (deduct_fees_le _ _ _ _ Hfpo Ed) as Hf.
  assert (take (length outs) outs' = outs) as Htk.
  { subst outs'. destruct (change sel); [by rewrite take_app_length|by rewrite firstn_all]. }
  split; [done|]. split.
  { subst ins. apply Forall_map. eapply Forall_impl; [exact Esel|]. intros u Hu. cbn.
    apply (elem_of_spendable w u Hwf Hdb) in Hu. unfold has_spendable_utxo, get_utxo in Hu.
    rewrite Hdb in Hu. by injection Hu. }
  intros bridge w2 Ha. unfold check_payment_proposal. cbn [output input lock_time version].
  rewrite outputs_valid.
  2:{ apply (Forall2_take _ _ _ (length outs)) in Hf. by rewrite Htk in Hf. }
  rewrite Hl, Ha. unfold mbind, res_bind. subst outs'. destruct (change sel) as [amt|].
  - rewrite length_app. cbn [length]. rewrite Nat.eqb_refl.
    rewrite drop_app_length in Hd.
    assert (last outs'' = Some (mkTxOut amt (taproot_address (federation w)))) as ->.
    { rewrite <-(take_drop (length outs) outs''), Hd. apply last_snoc. }
    cbn [unwrap script_pubkey]. rewrite bool_decide_true by done. by destruct (check_inputs _ _ _).
  - replace (length outs =? length outs + 1)%nat with false by (symmetry; apply Nat.eqb_neq; lia).
    rewrite Nat.eqb_refl. by destruct (check_inputs _ _ _).
Qed.

(** C9: The payment a wallet creates, checked by any wallet [w2] of the same
    federation address whose database can be read (its own, or another
    validator's). It is accepted exactly when each input that is not an unspent
    output of [w2] can be fetched from Bitcoin Core, and these inputs, in order,
    are what the check returns; nothing else of the payment can be refused. Its
    inputs are all unspent in the wallet that made it, so that wallet, and any
    that has the same unspent outputs, accepts it without fetching. *)
Theorem created_payment_accepted outs fee_rate w tx bridge w2 :
  wf w -> (forall x, 0 <= fee_wu fee_rate x) -> create_payment outs fee_rate w = Ok tx ->
  taproot_address (federation w2) = taproot_address (federation w) -> db_ok w2 = true ->
  Forall (fun i => unspent w (previous_output i) = true) (input tx) /\
  ((exists missing, check_payment_proposal outs (Some tx) bridge w2 = Ok missing) <->
   forall i, i ∈ input tx ->
     unspent w2 (previous_output i) = true \/ fetchable bridge w2 (previous_output i)) /\
  (forall missing, check_payment_proposal outs (Some tx) bridge w2 = Ok missing ->
     map outpoint missing = filter (fun o => unspent w2 o = false) (map previous_output (input tx))) /\
  check_payment_proposal outs (Some tx) bridge w = Ok [].
Proof.
  intros Hwf Hfee H Ha Hdb2. destruct (created_payment_shape _ _ _ _ Hwf Hfee H) as (Hdb & Hin & Hchk).
  rewrite !Hchk by done. split_and!; [done| | |].
  - setoid_rewrite check_inputs_iff; [|done]. rewrite Forall2_exists, Forall_forall. split.
    + intros Hm i Hi. destruct (unspent w2 (previous_output i)) eqn:Eu; [by left|right].
      destruct (Hm (previous_output i)) as (u & _ & core & Hc & Hu); [|by exists core, u].
      apply list_elem_of_filter. split; [done|]. apply list_elem_of_fmap. by exists i.
    + intros Hall o [Hu (i & -> & Hi)%list_elem_of_fmap]%list_elem_of_filter.
      destruct (Hall i Hi) as [?|(core & u & -> & Hf)]; [congruence|].
      exists u. split; [by eapply try_fetch_outpoint|]. by exists core.
  - intros missing Hm%check_inputs_iff; [|done].
    induction Hm as [|o u os us [Ho _] _ IH]; [done|]. cbn. by rewrite Ho, IH.
  - apply check_inputs_iff; [done|]. replace (filter _ _) with (@nil OutPoint); [constructor|].
    symmetry. clear -Hin. induction Hin as [|i ins Hi _ IH]; [done|]. cbn [map].
    rewrite filter_cons_False by congruence. done.
Qed.

(** What the check guarantees of any payment it accepts. *)
Record acceptable (w : t) (req : list TxOut) (tx : Transaction) : Prop := {
  acc_outputs : Forall2 (fun r o => script_pubkey o = script_pubkey r /\ value o <= value r)
                        req (take (length req) (output tx));
  acc_change : output tx = take (length req) (output tx) \/
    exists c, output tx = take (length req) (output tx) ++ [c] /\
              script_pubkey c = taproot_address (federation w);
  acc_header : lock_time tx = LOCK_TIME /\ version tx = TRANSACTION_VERSION;
}.

Lemma outputs_valid_inv req outs :
  (length req <= length outs)%nat ->
  existsb output_invalid (zip req outs) = false ->
  Forall2 (fun r o => script_pubkey o = script_pubkey r /\ value o <= value r)
          req (take (length req) outs).
Proof.
  revert outs. induction req as [|r req IH]; intros [|o outs] Hl H; cbn in *;
    try constructor; try lia.
  - apply orb_false_iff in H as [H _]. unfold output_invalid in H; cbn in H.
    apply orb_false_iff in H as [Hs Hv]. apply negb_false_iff, bool_decide_eq_true in Hs.
    split; [done|lia].
  - apply orb_false_iff in H as [_ H]. apply IH; [lia|done].
Qed.

(** C10: An accepted payment pays the required pegouts, in order, to their
    scripts and no more than their values, sends everything else only to the
    federation's own address, and has the fixed version and lock time. *)
Theorem accepted_payment_pays req tx bridge w missing :
  check_payment_proposal req (Some tx) bridge w = Ok missing -> acceptable w req tx.
Proof.
  unfold check_payment_proposal. intros H. unfold mbind, res_bind in H.
  destruct (Nat.eqb_spec (length (output tx)) (length req + 1)) as [Hn|Hn].
  - destruct (last (output tx)) as [c|] eqn:El; [|done]. cbn [unwrap] in H.
    destruct (bool_decide_reflect (script_pubkey c = taproot_address (federation w))) as [Hc|];
      [|done]. cbn [negb] in H.
    destruct (existsb _ _) eqn:Eo; [done|].
    destruct (check_inputs _ _ _); try done.
    destruct (Z.eqb_spec (lock_time tx) LOCK_TIME), (Z.eqb_spec (version tx) TRANSACTION_VERSION);
      try done. split; [apply outputs_valid_inv; [lia|done]| |done].
    right. exists c. split; [|done]. apply last_Some in El as (l & El). rewrite El in Hn |- *.
    rewrite length_app in Hn. cbn in Hn.
    by rewrite take_app_length' by lia.
  - destruct (Nat.eqb_spec (length (output tx)) (length req)) as [Hm|]; [|done].
    cbn [negb] in H. destruct (existsb _ _) eqn:Eo; [done|].
    destruct (check_inputs _ _ _); try done.
    destruct (Z.eqb_spec (lock_time tx) LOCK_TIME), (Z.eqb_spec (version tx) TRANSACTION_VERSION);
      try done. split; [apply outputs_valid_inv; [lia|done]| |done].
    left. by rewrite <-Hm, firstn_all.
Qed.

(** ** The UTXO set *)

Definition put_utxos (us : list LocalUtxo) (m : gmap OutPoint LocalUtxo) :
    gmap OutPoint LocalUtxo := foldl (fun m u => <[outpoint u := u]> m) m us.

Lemma mapM_set_utxo us w :
  db_ok w = true ->
  mapM_ set_utxo us w =
  (Ok tt, mk (put_utxos us (utxos w)) (raw_txs w) (db_ok w)
             (federation w)).
Proof.
  revert w. induction us as [|u us IH]; intros w Hdb; cbn.
  { by destruct w. }
  unfold mbind, st_bind, set_utxo, db. rewrite Hdb. cbn. unfold set_utxo, db in IH.
  rewrite IH by done. cbn. by rewrite Hdb.
Qed.

Lemma lookup_foldl_ne (us : list LocalUtxo) m o :
  Forall (fun u => outpoint u <> o) us ->
  put_utxos us m !! o = m !! o.
Proof.
  intros H. unfold put_utxos. revert m. induction H as [|u us Hu _ IH]; intros m; cbn; [done|].
  by rewrite IH, lookup_insert_ne.
Qed.

Lemma federation_outputs_outpoint w tx :
  Forall (fun u => op_txid (outpoint u) = txid tx /\ is_spent u = false) (federation_outputs w tx).
Proof.
  apply Forall_forall. intros u Hu. unfold federation_outputs in Hu.
  apply list_elem_of_omap in Hu as ([i o] & _ & Hu). case_match; by simplify_eq/=.
Qed.

(** Marking inputs: each was known, and each ends spent. *)
Lemma mark_spent_all ins w w' :
  db_ok w = true -> wf w -> mapM_ mark_spent ins w = (Ok tt, w') ->
  db_ok w' = true /\ wf w' /\ federation w' = federation w /\
  (forall i, i ∈ ins -> exists u, utxos w' !! previous_output i = Some u /\ is_spent u = true) /\
  (forall o u, utxos w' !! o = Some u -> is_spent u = false -> utxos w !! o = Some u) /\
  (forall o u, utxos w !! o = Some u -> is_spent u = true -> utxos w' !! o = Some u).
Proof.
  revert w. induction ins as [|i ins IH]; intros w Hdb Hwf H; cbn in H.
  { injection H as <-. split_and!; try done. intros i Hi. by apply not_elem_of_nil in Hi. }
  unfold mbind, st_bind in H.
  destruct (mark_spent i w) as [r w1] eqn:E.
  unfold mark_spent, getS, liftR, get_utxo, mbind, st_bind in E. rewrite Hdb in E. cbn in E.
  destruct (utxos w !! previous_output i) as [u|] eqn:Eu; cbn in E; [|by simplify_eq].
  unfold set_utxo, db, modifyS in E. rewrite Hdb in E. injection E as <- <-. cbn in H.
  pose proof (Hwf _ _ Eu) as Ho. cbn in Ho. rewrite Ho in H.
  set (w1 := mk _ _ _ _) in H.
  assert (db_ok w1 = true) as Hdb1 by (by subst w1).
  assert (wf w1) as Hwf1 by (by apply map_Forall_insert_2).
  destruct (IH w1 Hdb1 Hwf1 H) as (Hdb' & Hwf' & Hf' & Hall & Hback & Hfwd).
  split_and!; [done|done|by rewrite Hf'| | |].
  - intros j [->|Hj]%elem_of_cons; [|by apply Hall].
    exists (mkUtxo (previous_output i) (txout u) true). split; [|done].
    apply Hfwd; [|done]. subst w1. cbn. by rewrite lookup_insert_eq.
  - intros o u' Hu' Hs. apply Hback in Hu'; [|done]. subst w1. cbn in Hu'.
    apply lookup_insert_Some in Hu' as [[_ <-]|[_ ?]]; [done|done].
  - intros o u' Hu' Hs. apply Hfwd; [|done]. subst w1. cbn.
    destruct (decide (o = previous_output i)) as [->|]; [|by rewrite lookup_insert_ne].
    rewrite lookup_insert_eq. simplify_eq. f_equal. destruct u as [o' out sp]. cbn in *. by subst.
Qed.

(** Registering a pegout takes its inputs out of circulation: afterwards
    none of them is spendable, and without the Bitcoin fallback every payment
    that spends one of them again is refused. *)
Theorem pegout_inputs_spent tx w w' :
  db_ok w = true -> wf w -> register_pegout tx w = (Ok tt, w') ->
  forall i, i ∈ input tx -> op_txid (previous_output i) <> txid tx ->
    has_spendable_utxo (previous_output i) w' = Ok false /\
    forall tx2 req, i ∈ input tx2 -> forall m, check_payment_proposal req (Some tx2) None w' <> Ok m.
Proof.
  intros Hdb Hwf H i Hi Hne.
  unfold register_pegout, set_raw_tx, db, register_outputs_from, getS, modifyS, mbind, st_bind in H.
  rewrite Hdb in H. set (w0 := mk (utxos w) _ true (federation w)) in H.
  destruct (mapM_ mark_spent (input tx) w0) as [r w1] eqn:E. destruct r as [[]| |]; try done.
  destruct (mark_spent_all _ w0 w1 eq_refl Hwf E) as (Hdb1 & Hwf1 & Hf1 & Hall & _).
  rewrite mapM_set_utxo in H by done. injection H as <-.
  destruct (Hall i Hi) as (u & Hu & Hs).
  set (w2 := mk (put_utxos (federation_outputs w1 tx) (utxos w1))
                (raw_txs w1) (db_ok w1) (federation w1)).
  assert (has_spendable_utxo (previous_output i) w2 = Ok false) as Hno.
  { unfold has_spendable_utxo, get_utxo, w2. cbn [db_ok utxos]. rewrite Hdb1.
    rewrite lookup_foldl_ne.
    - rewrite Hu. cbn. by rewrite Hs.
    - eapply Forall_impl; [apply federation_outputs_outpoint|]. intros v [Hv _] Hv'. congruence. }
  split; [done|]. intros tx2 req Hi2 m Hm.
  unfold check_payment_proposal, mbind, res_bind in Hm.
  destruct (if (_ =? _ + 1)%nat then _ else _); try done.
  destruct (existsb _ _); [done|].
  assert (forall l, check_inputs (input tx2) None w2 <> Ok l) as Hci.
  { clear Hm. induction (input tx2) as [|j ins IH]; intros l Hl; [by apply not_elem_of_nil in Hi2|].
    cbn in Hl. unfold mbind, res_bind in Hl.
    apply elem_of_cons in Hi2 as [<-|Hi2]; [by rewrite Hno in Hl|].
    destruct (has_spendable_utxo (previous_output j) w2) as [[]| |]; try done.
    by apply (IH Hi2 l Hl). }
  destruct (check_inputs (input tx2) None w2) eqn:Ec; try done. by eapply Hci.
Qed.

(** ** Collected signatures *)

Lemma filter_dom_length {V} (m : gmap BtcPublicKey V) pks :
  NoDup pks -> (forall k, is_Some (m !! k) -> k ∈ pks) ->
  length (filter (fun k => is_Some (m !! k)) pks) = size m.
Proof.
  intros Hnd Hsub. rewrite <-size_dom.
  replace (dom m) with (list_to_set (C:=gset BtcPublicKey)
                          (filter (fun k => is_Some (m !! k)) pks)).
  - rewrite size_list_to_set; [done|]. by apply NoDup_filter.
  - apply set_eq. intros k. rewrite elem_of_list_to_set, list_elem_of_filter, elem_of_dom.
    naive_solver.
Qed.

Lemma signing_inputs_strip tx tx' w :
  strip tx' = strip tx -> get_signing_inputs tx' w = get_signing_inputs tx w.
Proof.
  intros H. unfold get_signing_inputs.
  assert (map strip_witness (input tx') = map strip_witness (input tx)) as Hi by (by injection H).
  assert (Forall2 (fun i i' => strip_witness i = strip_witness i') (input tx') (input tx)) as HF.
  { by apply (Forall2_fmap_1 _ _ eq), list_eq_Forall2. }
  assert (length (input tx') = length (input tx)) as Hl by (by eapply Forall2_length).
  rewrite (collect_ext (get_prevout w) (get_prevout w) (input tx') (input tx)), Hl.
  - unfold mbind, res_bind. destruct (collect (get_prevout w) (input tx)); [|done..].
    apply collect_ext, Forall_Forall2_diag, Forall_forall. intros i _.
    by rewrite (sighash_strip tx'), (sighash_strip tx), H.
  - eapply Forall2_impl; [exact HF|]. intros i i' E. unfold get_prevout.
    by injection E as -> _ _.
Qed.

(** A member's entry of the partially signed payment. *)
Definition verified (w : t) (p : Psbt) : Prop :=
  map_Forall (fun pk sigs => check_input_signatures (unsigned_transaction p) (mkMember pk sigs) w
                             = Ok tt) (verified_signatures p).

Lemma verified_sig w p msgs pk sigs idx msg :
  verified w p -> get_signing_inputs (unsigned_transaction p) w = Ok msgs ->
  verified_signatures p !! pk = Some sigs -> msgs !! idx = Some msg ->
  exists s, sigs !! idx = Some s /\ verify_schnorr s msg pk = true.
Proof.
  intros Hv Hm Hp Hi. pose proof (Hv _ _ Hp) as H. cbn in H.
  unfold check_input_signatures, mbind, res_bind in H. rewrite Hm in H. cbn [member member_sigs] in H.
  destruct (Nat.eqb_spec (length msgs) (length sigs)) as [Hl|]; [|done]. cbn [negb] in H.
  destruct (forallb _ _) eqn:Ef; [|done].
  destruct (lookup_lt_is_Some_2 sigs idx) as [s Hs]; [apply lookup_lt_Some in Hi; lia|].
  exists s. split; [done|]. rewrite forallb_forall in Ef. apply (Ef (msg, s)).
  apply list_elem_of_In, list_elem_of_lookup. exists idx. apply lookup_zip_with_Some. eauto.
Qed.

Lemma sig_for_total w p msgs idx msg pk :
  verified w p -> get_signing_inputs (unsigned_transaction p) w = Ok msgs ->
  msgs !! idx = Some msg ->
  exists b, sig_for p idx pk = Ok b /\
    ((verified_signatures p !! pk = None /\ b = []) \/
     (is_Some (verified_signatures p !! pk) /\ b <> [] /\ check_witness_sig msg (b, pk) = Ok tt)).
Proof.
  intros Hv Hm Hi. unfold sig_for.
  destruct (verified_signatures p !! pk) as [sigs|] eqn:E; [|by eauto].
  destruct (verified_sig _ _ _ _ _ _ _ Hv Hm E Hi) as (s & Hs & Hver). rewrite Hs. cbn.
  eexists. split; [done|]. right. split; [done|]. split; [apply schnorr_nonempty|].
  unfold check_witness_sig. cbn [fst snd]. rewrite schnorr_round_trip. cbn. by rewrite Hver.
Qed.

(** The witness stack of one finalized input. *)
Lemma witnesses_ok w p msgs idx msg sigs :
  let f := federation w in
  verified w p -> get_signing_inputs (unsigned_transaction p) w = Ok msgs ->
  msgs !! idx = Some msg -> NoDup (pubkeys f) ->
  (forall k, is_Some (verified_signatures p !! k) -> k ∈ pubkeys f) ->
  size (verified_signatures p) = threshold f ->
  get_sigs_for_input p idx (pubkeys f) = Ok sigs ->
  check_witnesses f msg (reverse sigs ++ [redeem_script f; control_block_witness f]) = Ok tt.
Proof.
  intros f Hv Hm Hi Hnd Hsub Hsz Hs. apply collect_Ok in Hs.
  assert (length sigs = length (pubkeys f)) as Hl by (symmetry; by eapply Forall2_length).
  set (good := filter (fun x : bytes * BtcPublicKey => x.1 <> []) (zip sigs (pubkeys f))).
  assert (length good = threshold f /\ Forall (fun x => check_witness_sig msg x = Ok tt) good)
    as [Hgl Hgood].
  { subst good. rewrite <-Hsz, <-(filter_dom_length _ (pubkeys f) Hnd Hsub).
    clear Hnd Hsub Hsz Hl. induction Hs as [|pk b pks bs Hb _ IH]; [done|].
    destruct (sig_for_total w p msgs idx msg pk Hv Hm Hi) as (b' & Hb' & Hc).
    rewrite Hb in Hb'. injection Hb' as <-. destruct IH as [IHl IHf]. cbn [zip zip_with].
    destruct Hc as [[Hn ->]|(Hsome & Hne & Hck)].
    - rewrite !filter_cons_False; [done|by cbn; rewrite Hn; intros [? ?]|by cbn; intros []].
    - rewrite !filter_cons_True by done. cbn [length]. split; [by rewrite IHl|by constructor]. }
  unfold check_witnesses.
  assert (zip (reverse sigs ++ [redeem_script f; control_block_witness f]) (reverse (pubkeys f))
          = reverse (zip sigs (pubkeys f))) as ->.
  { rewrite zip_with_app_l, length_reverse, Hl, drop_ge, take_ge by (by rewrite length_reverse).
    rewrite zip_with_nil_r, app_nil_r. by rewrite zip_reverse. }
  rewrite filter_reverse, length_reverse. fold good. rewrite Hgl.
  rewrite length_app, length_reverse, Hl. cbn [length]. rewrite !Nat.eqb_refl. cbn [negb orb].
  destruct (collect_total (check_witness_sig msg) (reverse good)) as [ys Hys].
  { apply Forall_reverse. eapply Forall_impl; [exact Hgood|]. intros x Hx. by exists tt. }
  rewrite Hys. unfold mbind, res_bind. rewrite bool_decide_true; [done|].
  by rewrite drop_app_length' by (by rewrite length_reverse).
Qed.

(** A payment finalized from the verified signatures of enough federation
    members passes the wallet's check of its witnesses, and differs from the
    proposed payment in the witnesses only. *)
Theorem finalized_passes_check p w msgs :
  let f := federation w in
  verified w p -> get_signing_inputs (unsigned_transaction p) w = Ok msgs ->
  NoDup (pubkeys f) ->
  (forall k, is_Some (verified_signatures p !! k) -> k ∈ pubkeys f) ->
  size (verified_signatures p) = threshold f ->
  exists tx, finalize_transaction p f = Ok tx /\
    strip tx = strip (unsigned_transaction p) /\
    check_transaction_signatures tx false w = Ok tt.
Proof.
  intros f Hv Hm Hnd Hsub Hsz. unfold finalize_transaction. rewrite Hsz, Nat.eqb_refl. cbn [negb].
  set (tx := unsigned_transaction p) in *.
  assert (length msgs = length (input tx)) as Hml.
  { unfold get_signing_inputs, mbind, res_bind in Hm.
    destruct (collect (get_prevout w) (input tx)); try done.
    apply collect_Ok, Forall2_length in Hm. by rewrite length_seq in Hm. }
  destruct (collect_total (sign_input p f) (imap pair (input tx))) as [ins Hins].
  { apply Forall_lookup. intros i [j x] Hx. rewrite list_lookup_imap in Hx.
    destruct (input tx !! i) as [y|] eqn:Ey; [|done]. cbn in Hx. injection Hx as <- <-.
    destruct (lookup_lt_is_Some_2 msgs i) as [msg Hmsg]; [apply lookup_lt_Some in Ey; lia|].
    destruct (collect_total (sig_for p i) (pubkeys f)) as [sigs Hsigs].
    { apply Forall_forall. intros pk _.
      destruct (sig_for_total w p msgs i msg pk Hv Hm Hmsg) as (b & -> & _). eauto. }
    unfold sign_input, get_sigs_for_input. cbn. rewrite Hsigs. by eexists. }
  rewrite Hins. unfold mbind, res_bind. eexists. split; [done|].
  apply collect_Ok, Forall2_lookup_imap in Hins as [Hil Hins].
  assert (strip (mkTransaction (version tx) (lock_time tx) ins (output tx)) = strip tx) as Hstrip.
  { unfold strip. cbn. f_equal. apply list_eq_same_length with (length (input tx));
      rewrite ?length_map; [done..|]. intros i x y _ Hx Hy.
    apply list_lookup_fmap_Some in Hx as (x' & -> & Hx), Hy as (y' & -> & Hy).
    specialize (Hins _ _ _ Hy Hx). unfold sign_input, mbind, res_bind in Hins.
    destruct (get_sigs_for_input _ _ _); try done. by injection Hins as <-. }
  split; [done|]. unfold check_transaction_signatures.
  rewrite (signing_inputs_strip _ _ _ Hstrip), Hm. unfold mbind, res_bind. cbn [input].
  destruct (collect_total (fun q => check_witnesses (federation w) q.1 (witness q.2))
              (zip msgs ins))
    as [us ->]; [|done].
  apply Forall_lookup. intros i [msg x] Hx.
  apply lookup_zip_with_Some in Hx as (msg' & x' & [= -> ->] & Hmsg & Hx).
  destruct (lookup_lt_is_Some_2 (input tx) i) as [y Hy]; [apply lookup_lt_Some in Hx; lia|].
  specialize (Hins _ _ _ Hy Hx). unfold sign_input, mbind, res_bind in Hins. cbn [fst snd] in Hins.
  destruct (get_sigs_for_input p i (pubkeys f)) as [sigs| |] eqn:Es; try done.
  injection Hins as <-. exists tt. cbn [fst snd witness].
  by apply (witnesses_ok w p msgs i).
Qed.

(** The collector keeps only verified signatures, at most the threshold of
    them, on the transaction of its id. *)
Definition collector_ok (w : t) (c : Collector) : Prop :=
  map_Forall (fun h p => raw_txs w !! h = Some (unsigned_transaction p) /\ verified w p /\
                         (size (verified_signatures p) <= threshold (c_federation c))%nat)
             (transactions c).

(** Whatever signatures arrive, the collector only ever holds signatures it
    verified, for transactions the wallet knows, and never more than the
    threshold for a transaction. *)
Theorem add_signature_keeps_ok w h s c r c' :
  db_ok w = true -> collector_ok w c -> add_signature w h s c = (r, c') -> collector_ok w c'.
Proof.
  intros Hdb Hc H. unfold add_signature, getS, liftR, modifyS, mbind, st_bind, mret, st_ret in H.
  unfold get_transaction, get_tx in H. rewrite Hdb in H. unfold mbind, res_bind in H.
  assert (forall p, raw_txs w !! h = Some (unsigned_transaction p) -> verified w p ->
            (size (verified_signatures p) < threshold (c_federation c))%nat ->
            check_input_signatures (unsigned_transaction p) s w = Ok tt ->
            forall c1, collector_ok w c1 -> c_federation c1 = c_federation c ->
            collector_ok w (set_psbt h (add_verified_signature (member s) (member_sigs s) p) c1))
    as Hadd.
  { intros p Hp Hv Hsz Hck c1 Hc1 Hf. apply map_Forall_insert_2; cbn; [|exact Hc1].
    split_and!; [done| |].
    - apply map_Forall_insert_2; [by destruct s|done].
    - rewrite Hf, map_size_insert. destruct (verified_signatures p !! member s); unfold id; lia. }
  destruct (transactions c !! h) as [p|] eqn:Eh; cbn in H.
  - destruct (Hc _ _ Eh) as (Hraw & Hv & Hsz).
    destruct (Nat.leb_spec (threshold (c_federation c)) (size (verified_signatures p)));
      [by simplify_eq|].
    destruct (check_input_signatures _ _ _) as [[]| |] eqn:Ec; simplify_eq; try done.
    by apply Hadd.
  - destruct (raw_txs w !! h) as [tx|] eqn:Er; cbn in H; [|by simplify_eq].
    assert (collector_ok w (set_psbt h (psbt_new tx) c)) as Hc1.
    { apply map_Forall_insert_2; [|done]. cbn. split_and!; [done|apply map_Forall_empty|].
      rewrite map_size_empty. lia. }
    destruct (threshold (c_federation c)) as [|n] eqn:Et; cbn in H; [by simplify_eq|].
    rewrite map_size_empty in H. cbn in H.
    destruct (check_input_signatures _ _ _) as [[]| |] eqn:Ec; simplify_eq; try done.
    apply Hadd; [done|apply map_Forall_empty|cbn; rewrite map_size_empty; lia|done|done|done].
Qed.

End WithLibs.

(** ** A small instance, witnesses, and two concrete behaviours *)

Module Witness.

Definition lib : WalletLib := {|
  FeeRate := Z;
  fee_wu r _ := Z.max 0 r;
  tx_weight _ := 400;
  segwit_weight l := Z.of_nat (length l);
  script_bytes l := [Z.of_nat (length l)];
  taproot_script _ r := 81 :: r;
  control_block _ r := 192 :: r;
  matches_script_pubkey a s := bool_decide (a = s);
  script_sighash _ i _ _ := Some [Z.of_nat i];
  schnorr_from_slice b := tail <$> (match b with [] => None | _ => Some b end);
  schnorr_to_vec s := 1 :: s;
  verify_schnorr s m pk := bool_decide (s = pk ++ m);
  BtcSecretKey := list Z;
  btc_public_key sk := sk;
  sign_schnorr sk m := sk ++ m;
  coin_select us _ _ target _ :=
    let total := foldr (fun u acc => value (txout u) + acc) 0 us in
    if target <=? total then Some (mkSelection us (Some (total - target))) else None;
|}.

Lemma wallet_laws : WalletLaws lib.
Proof.
  split; cbn; try done.
  - intros. by rewrite bool_decide_eq_true.
  - intros. by apply bool_decide_true.
  - intros us w r t0 s0 sel. case_match; [|done]. intros [= <-]. apply Forall_forall. done.
Qed.

#[local] Existing Instance ExampleLib.lib.
#[local] Existing Instance lib.
#[local] Existing Instance wallet_laws.

Definition fed : Federation := mkFederation [81; 5] [9] [5] 1 [[1]; [2]] 10.
Definition coin : OutPoint := mkOutPoint zero_hash 0.
Definition funded : t :=
  mk {[ coin := mkUtxo coin (mkTxOut 5000000 [81; 5]) false ]} ∅ true fed.
Definition pegouts : list TxOut := [mkTxOut 1000000 [7; 7]].

Definition payment : Transaction :=
  mkTransaction 2 0 [mkTxIn coin [] ENABLE_RBF_NO_LOCKTIME []]
    [mkTxOut 999000 [7; 7]; mkTxOut 4000000 [81; 5]].

Lemma funded_wf : wf funded.
Proof. apply map_Forall_singleton. reflexivity. Qed.

(** Another wallet of the federation, that has not seen the output; Bitcoin
    Core may know it. *)
Definition unaware : t := mk ∅ ∅ true (federation funded).

Lemma created_payment_accepted_witness :
  create_payment (W:=lib) pegouts 1000 funded = Ok payment /\
  check_payment_proposal pegouts (Some payment) None funded = Ok [] /\
  ~ (exists missing, check_payment_proposal (W:=lib) pegouts (Some payment) None unaware = Ok missing).
Proof.
  assert (create_payment (W:=lib) pegouts 1000 funded = Ok payment) as E by (vm_compute; reflexivity).
  split; [exact E|].
  destruct (created_payment_accepted (W:=lib) pegouts 1000 funded payment None unaware funded_wf)
    as (_ & Hiff & _ & Hown); [intros x; cbn; lia|exact E|reflexivity|reflexivity|].
  split; [exact Hown|]. intros Hex. pose proof (proj1 Hiff Hex) as Hm.
  assert (exists i, i ∈ input payment) as [i Hi] by (eexists; by left).
  destruct (Hm i Hi) as [Hu|(core & u & Hc & _)]; [|discriminate Hc].
  unfold unspent in Hu. cbn in Hu. by rewrite lookup_empty in Hu.
Defined.

Lemma accepted_payment_pays_witness : acceptable funded pegouts payment.
Proof. apply (accepted_payment_pays pegouts payment None funded []). vm_compute. reflexivity. Defined.

Definition paid : t := (register_pegout payment funded).2.

Lemma pegout_inputs_spent_witness :
  has_spendable_utxo coin paid = Ok false /\
  forall tx2 req, mkTxIn coin [] ENABLE_RBF_NO_LOCKTIME [] ∈ input tx2 ->
    forall m, check_payment_proposal req (Some tx2) None paid <> Ok m.
Proof.
  assert (register_pegout payment funded = (Ok tt, paid)) as E by (vm_compute; reflexivity).
  apply (pegout_inputs_spent payment funded paid eq_refl funded_wf E
           (mkTxIn coin [] ENABLE_RBF_NO_LOCKTIME [])).
  - apply elem_of_cons. by left.
  - refine (bool_decide_eq_false_1 _ _). vm_compute. reflexivity.
Defined.

Definition signed_by_1 : Psbt := mkPsbt payment {[ [1] := [[1; 0]] ]}.

Lemma finalized_passes_check_witness :
  exists tx, finalize_transaction signed_by_1 fed = Ok tx /\ strip tx = strip payment /\
    check_transaction_signatures tx false funded = Ok tt.
Proof.
  apply (finalized_passes_check signed_by_1 funded [[0]]).
  - apply map_Forall_singleton. vm_compute. reflexivity.
  - vm_compute. reflexivity.
  - repeat constructor; vm_compute; intros H; repeat (inversion H as [|? ? ? H']; clear H; try rename H' into H).
  - intros k [v Hv]. unfold signed_by_1 in Hv. cbn in Hv. apply lookup_singleton_Some in Hv as [<- _].
    apply elem_of_cons; by left.
  - reflexivity.
Defined.

Definition known : t := mk (utxos funded) {[ txid payment := payment ]} true fed.

Lemma add_signature_keeps_ok_witness :
  collector_ok known (add_signature known (txid payment) (mkMember [1] [[1; 0]])
                        (collector_new fed)).2.
Proof.
  apply (add_signature_keeps_ok known (txid payment) (mkMember [1] [[1; 0]]) (collector_new fed)
           (Ok tt)); [reflexivity|apply map_Forall_empty|vm_compute; reflexivity].
Defined.

(** A signature by a key outside the federation counts towards the
    threshold: the collector takes it, ignores the member's signature that
    comes after it, finalizes, and the result fails the wallet's own check. *)
Theorem outsider_fills_threshold :
  let c1 := (add_signature known (txid payment) (mkMember [66] [[66; 0]]) (collector_new fed)).2 in
  let c2 := (add_signature known (txid payment) (mkMember [1] [[1; 0]]) c1).2 in
  bool_decide ([66] ∈ pubkeys fed) = false /\ c2 = c1 /\
  exists tx, get_finalized (txid payment) c2 = Ok tx /\
    check_transaction_signatures tx false known = Err InvalidWitnessLength.
Proof.
  cbv zeta. split; [vm_compute; reflexivity|]. split; [vm_compute; reflexivity|].
  eexists. split; vm_compute; reflexivity.
Qed.

(** Bitcoin Core before the payment is broadcast: its input is still unspent. *)
Definition core : BitcoinCore :=
  mkCore (fun _ => Some (mkTransaction 2 0 [] [mkTxOut 5000000 [81; 5]])) (fun _ _ => Ok true).

(** An input that a registered pegout has spent is accepted again through
    the Bitcoin fallback as long as that pegout is not confirmed: the fallback
    does not tell a missing UTXO from one marked as spent, and registering what
    it fetched makes the input spendable again. *)
Theorem spent_input_accepted_again :
  register_pegout payment funded = (Ok tt, paid) /\
  has_spendable_utxo coin paid = Ok false /\
  exists fetched, check_payment_proposal pegouts (Some payment) (Some core) paid = Ok fetched /\
    has_spendable_utxo coin (register_utxos fetched paid).2 = Ok true.
Proof.
  split; [vm_compute; reflexivity|]. split; [vm_compute; reflexivity|].
  eexists. split; vm_compute; reflexivity.
Qed.

End Witness.

End WalletProofs.
