(* ===== verification/Bridge.v ===== *)
(** The bridge ([crates/federation/src/lib.rs] and [bitcoin_stream.rs]): which
    Bitcoin transactions are peg-ins, which events on the side chain are
    peg-outs, and the stream of confirmed Bitcoin blocks. *)
From stdpp Require Import base decidable list.
From Stdlib Require Import ZArith Lia.
From S2P Require Import Prelude Bitcoin Errors Wallet.

(** A [RequestPegOut] event of the bridge contract. *)
Record RequestPegOut := mkRequest {
  evm_address : list Z;
  bitcoin_address : bytes;
  event_value : Z;
}.

(** Text is a list of character codes. The library functions: script tests
    and their assembly text, hex, UTF-8 and address parsing, and the decoding
    of an event log. *)
Class BridgeLib := {
  Log : Type;
  parse_log : Log -> option RequestPegOut;
  is_provably_unspendable : bytes -> bool;
  is_op_return : bytes -> bool;
  to_asm_string : bytes -> list Z;
  from_hex : list Z -> option bytes;
  from_utf8 : bytes -> option (list Z);
  h160_from_str : list Z -> option (list Z);
  btc_address_from_str : list Z -> option bytes;
}.

(** The parts of a transaction receipt the node reads. *)
Record Receipt `{BridgeLib} := mkReceipt {
  r_to : option (list Z);
  r_logs : list Log;
  r_gas_used : option Z;
}.
Arguments mkReceipt {_} _ _ _.

Record PegInInfo := mkPegIn {
  pi_txid : hash;
  pi_block_hash : hash;
  pi_amount : Z;
  pi_evm_account : list Z;
  pi_block_height : Z;
}.

#[global] Instance PegInInfo_eq_dec : EqDecision PegInInfo.
Proof. solve_decision. Defined.

(** Bitcoin Core's answers about blocks. *)
Inductive HeaderInfo :=
| BlockNotFound
| HeaderRpcError
| HeaderOk (confirmations height : Z).

Record BridgeRpc := mkRpc {
  get_block_header_info : hash -> HeaderInfo;
  get_raw_transaction_in : hash -> hash -> option Transaction;
  send_raw_transaction : Transaction -> bool;
  wallet_core : BitcoinCore;
}.

Module Bridge.

Record t := mk {
  pegin_addresses : list bytes;
  rpc : BridgeRpc;
  required_confirmations : Z;
}.

(** 0xbBbB...bB. *)
Definition BRIDGE_CONTRACT_ADDRESS : list Z := replicate 20 187.

(** [as_u64] panics when the quotient does not fit. *)
Definition wei_to_sats {E} (wei : Z) : res E Z := chk 64 (wei / 10000000000).

(** [str.split(' ')]: at least one part. *)
Fixpoint split_space (s : list Z) : list (list Z) :=
  match s with
  | [] => [[]]
  | c :: s' =>
      if c =? 32 then [] :: split_space s'
      else match split_space s' with
           | [] => [[c]]
           | w :: ws => (c :: w) :: ws
           end
  end.

Section WithLibs.
Context `{B : BitcoinLib, W : WalletLib, G : BridgeLib}.

(** The EVM address in an OP_RETURN output: its last word as hex-encoded text,
    or as the raw hex when the bytes are not text. *)
Definition extract_evm_address (o : TxOut) : option (list Z) :=
  if negb (is_provably_unspendable (script_pubkey o)) || negb (is_op_return (script_pubkey o))
  then None
  else
    word ← last (split_space (to_asm_string (script_pubkey o)));
    data ← from_hex word;
    match from_utf8 data with
    | None => h160_from_str word
    | Some address_str => h160_from_str address_str
    end.

Fixpoint find_map {A C} (f : A -> option C) (l : list A) : option C :=
  match l with
  | [] => None
  | x :: l' => match f x with Some c => Some c | None => find_map f l' end
  end.

Definition pays_federation (b : t) (o : TxOut) : bool :=
  existsb (fun a => matches_script_pubkey a (script_pubkey o)) (pegin_addresses b).

Definition pegin_info (b : t) (tx : Transaction) (block_hash : hash) (block_height : Z) :
    option PegInInfo :=
  o ← find_map (fun o => if pays_federation b o then Some o else None) (output tx);
  evm_account ← find_map extract_evm_address (output tx);
  Some (mkPegIn (txid tx) block_hash (value o) evm_account block_height).

(** The confirmations are signed; the height is cast to [u32]. *)
Definition get_confirmed_pegin_from_txid (b : t) (id block_hash : hash) : res Fed.Error PegInInfo :=
  match get_block_header_info (rpc b) block_hash with
  | BlockNotFound => Err (Fed.BitcoinBlockNotFound block_hash)
  | HeaderRpcError => Err Fed.RpcError
  | HeaderOk confirmations height =>
      if confirmations <? required_confirmations b
      then Err (Fed.InsufficientConfirmations confirmations)
      else
        tx ← ok_or (get_raw_transaction_in (rpc b) id block_hash) Fed.RpcError;
        ok_or (pegin_info b tx block_hash (wrap 32 height)) Fed.NotAPegin
  end.

Definition fetch_transaction (b : t) (id block_hash : hash) : option Transaction :=
  get_raw_transaction_in (rpc b) id block_hash.

Definition broadcast_signed_tx (b : t) (tx : Transaction) : res Fed.Error hash :=
  if send_raw_transaction (rpc b) tx then Ok (txid tx) else Err Fed.BitcoinError.

Definition parse_bitcoin_address (data : bytes) : option bytes :=
  s ← from_utf8 data;
  btc_address_from_str s.

(** The peg-outs of one log: at least 1,000,000 satoshis to an address that
    parses. *)
Definition log_pegouts {E} (l : Log) : res E (list TxOut) :=
  match parse_log l with
  | None => Ok []
  | Some event =>
      event_amount_in_sats ← wei_to_sats (event_value event);
      if 1000000 <=? event_amount_in_sats then
        match parse_bitcoin_address (bitcoin_address event) with
        | Some script => Ok [mkTxOut event_amount_in_sats script]
        | None => Ok []
        end
      else Ok []
  end.

(** A receipt to another address is skipped; one without a receiver is not. *)
Definition receipt_pegouts {E} (r : Receipt) : res E (list TxOut) :=
  match r_to r with
  | Some address =>
      if negb (bool_decide (address = BRIDGE_CONTRACT_ADDRESS)) then Ok []
      else ls ← collect log_pegouts (r_logs r); Ok (concat ls)
  | None => ls ← collect log_pegouts (r_logs r); Ok (concat ls)
  end.

Definition filter_pegouts {E} (receipts : list Receipt) : res E (list TxOut) :=
  ls ← collect receipt_pegouts receipts; Ok (concat ls).

(** ** The stream of Bitcoin blocks *)

(** The error codes of Bitcoin Core, with [From<RpcError>]. *)
Inductive BitcoinRpcError :=
| RpcInvalidRequest | RpcMethodNotFound | RpcInvalidParams | RpcInternalError | RpcParseError
| RpcMiscError | RpcTypeError | RpcInvalidAddressOrKey | RpcOutOfMemory | RpcInvalidParameter
| RpcDatabaseError | RpcDeserializationErrr | RpcVerifyError | RpcVerifyRejected
| RpcVerifyAlreadyInChain | RpcInWarmup | RpcMethodDeprecated | RpcClientNotConnected
| RpcClientInInitialDownload | RpcClientNodeAlreadyAdded | RpcClientNodeNotAdded
| RpcClientNodeNotConnected | RpcClientInvalidIpOrSubnet | RpcClientP2PDisabled
| RpcClientMempoolDisabled | RpcWalletError | RpcWalletInsufficientFunds
| RpcWalletInvalidLabelName | RpcWalletKeypoolRanOut | RpcWalletUnlockNeeded
| RpcWalletPassphraseIncorrect | RpcWalletWrongEncState | RpcWalletEncryptionFailed
| RpcWalletAlreadyUnlocked | RpcWalletNotFound | RpcWalletNotSpecified
| RpcForbiddenBySafeMode | RpcUnknownError.

Definition rpc_error_codes : list (Z * BitcoinRpcError) :=
  [(-32600, RpcInvalidRequest); (-32601, RpcMethodNotFound); (-32602, RpcInvalidParams);
   (-32603, RpcInternalError); (-32700, RpcParseError); (-1, RpcMiscError); (-3, RpcTypeError);
   (-5, RpcInvalidAddressOrKey); (-7, RpcOutOfMemory); (-8, RpcInvalidParameter);
   (-20, RpcDatabaseError); (-22, RpcDeserializationErrr); (-25, RpcVerifyError);
   (-26, RpcVerifyRejected); (-27, RpcVerifyAlreadyInChain); (-28, RpcInWarmup);
   (-32, RpcMethodDeprecated); (-9, RpcClientNotConnected); (-10, RpcClientInInitialDownload);
   (-23, RpcClientNodeAlreadyAdded); (-24, RpcClientNodeNotAdded);
   (-29, RpcClientNodeNotConnected); (-30, RpcClientInvalidIpOrSubnet);
   (-31, RpcClientP2PDisabled); (-33, RpcClientMempoolDisabled); (-4, RpcWalletError);
   (-6, RpcWalletInsufficientFunds); (-11, RpcWalletInvalidLabelName);
   (-12, RpcWalletKeypoolRanOut); (-13, RpcWalletUnlockNeeded);
   (-14, RpcWalletPassphraseIncorrect); (-15, RpcWalletWrongEncState);
   (-16, RpcWalletEncryptionFailed); (-17, RpcWalletAlreadyUnlocked); (-18, RpcWalletNotFound);
   (-19, RpcWalletNotSpecified); (-2, RpcForbiddenBySafeMode); (0, RpcUnknownError)].

Definition rpc_error_from (code : Z) : BitcoinRpcError :=
  default RpcUnknownError (snd <$> find (fun x => x.1 =? code) rpc_error_codes).

(** A failed request: an error of the server with its message, or another. *)
Inductive RpcFailure := ServerFailure (code : Z) (message : list Z) | OtherFailure.

(** [str::contains]. *)
Fixpoint contains_text (needle s : list Z) : bool :=
  bool_decide (take (length needle) s = needle) ||
  match s with [] => false | _ :: s' => contains_text needle s' end.

(** "Block not found" *)
Definition BLOCK_NOT_FOUND : list Z :=
  [66; 108; 111; 99; 107; 32; 110; 111; 116; 32; 102; 111; 117; 110; 100].

(** The failures that mean that the block does not exist yet. *)
Definition not_yet (e : RpcFailure) : bool :=
  match e with
  | ServerFailure code message =>
      match rpc_error_from code with
      | RpcInvalidParameter => true
      | RpcInvalidAddressOrKey => contains_text BLOCK_NOT_FOUND message
      | _ => false
      end
  | OtherFailure => false
  end.

(** The answers of Bitcoin Core to one poll for a height: to the question for
    the hash, and if there is one for the block's confirmations, and if there
    are enough for the block. *)
Inductive Poll :=
| HashFailed (e : RpcFailure)
| InfoFailed
| Found (confirmations : Z) (block : option (list Transaction * hash)).

(** [wait_for_block]: poll until the block has enough confirmations. [None]:
    still waiting when the answers end. *)
Fixpoint wait_for_block (num_confirmations : Z) (polls : list Poll) :
    option (res unit (list Transaction * hash) * list Poll) :=
  match polls with
  | [] => None
  | HashFailed e :: polls' =>
      if not_yet e then wait_for_block num_confirmations polls' else Some (Err tt, polls')
  | InfoFailed :: polls' => Some (Err tt, polls')
  | Found confirmations block :: polls' =>
      if num_confirmations <=? confirmations
      then Some (ok_or block tt, polls')
      else wait_for_block num_confirmations polls'
  end.

(** [stream_blocks]: the next item of the stream and the height it waits for
    after it, which an error leaves as it is. *)
Definition stream_blocks (num_confirmations height : Z) (polls : list Poll) :
    option (res unit (list Transaction * hash * Z) * Z * list Poll) :=
  match wait_for_block num_confirmations polls with
  | None => None
  | Some (Ok block, polls') =>
      match add_chk (E:=unit) 32 height 1 with
      | Ok next_height => Some (Ok (block, height), next_height, polls')
      | _ => Some (Panic, height, polls')
      end
  | Some (_, polls') => Some (Err tt, height, polls')
  end.

(** [stream_blocks_for_pegins]: the batches handed to the callback, one per
    height from [height] on. An error in the stream panics ([x.unwrap()]).
    Every block takes at least one answer, so their number is enough fuel. *)
Fixpoint stream_blocks_for_pegins (fuel : nat) (b : t) (height : Z) (polls : list Poll) :
    res Fed.Error (list (list PegInInfo * Z)) :=
  match fuel with
  | O => Ok []
  | S fuel' =>
      match stream_blocks (required_confirmations b) height polls with
      | None => Ok []
      | Some (Ok (txs, h, height), next_height, polls') =>
          rest ← stream_blocks_for_pegins fuel' b next_height polls';
          Ok ((omap (fun tx => pegin_info b tx h height) txs, height) :: rest)
      | Some (_, _, _) => Panic
      end
  end.

(** ** Lemmas *)

Lemma find_map_Some {A C} (f : A -> option C) l c :
  find_map f l = Some c -> exists x, x ∈ l /\ f x = Some c.
Proof.
  induction l as [|x l IH]; cbn; [done|]. destruct (f x) as [c'|] eqn:E.
  - intros [= <-]. exists x. split; [apply elem_of_cons; by left|done].
  - intros (y & ? & ?)%IH. exists y. split; [apply elem_of_cons; by right|done].
Qed.

Lemma wait_for_block_length n polls r polls' :
  wait_for_block n polls = Some (r, polls') -> (length polls' < length polls)%nat.
Proof.
  induction polls as [|[e| |c block] polls IH]; cbn [wait_for_block length]; try done.
  - case_match; [intros ?%IH; lia|]. intros [= _ <-]. lia.
  - intros [= _ <-]. lia.
  - case_match; [intros [= _ <-]; lia|]. intros ?%IH. lia.
Qed.

(** ** Properties *)

(** C18: A confirmed peg-in is genuine: its block has the required number of
    confirmations, the transaction pays one of the federation's addresses the
    reported amount, and the account to credit is read from one of its
    OP_RETURN outputs. *)
Theorem confirmed_pegin_sound b id block_hash info :
  get_confirmed_pegin_from_txid b id block_hash = Ok info ->
  exists confirmations height tx o oa,
    get_block_header_info (rpc b) block_hash = HeaderOk confirmations height /\
    required_confirmations b <= confirmations /\
    get_raw_transaction_in (rpc b) id block_hash = Some tx /\
    o ∈ output tx /\ pays_federation b o = true /\ pi_amount info = value o /\
    oa ∈ output tx /\ extract_evm_address oa = Some (pi_evm_account info) /\
    pi_txid info = txid tx /\ pi_block_hash info = block_hash.
Proof.
  unfold get_confirmed_pegin_from_txid, ok_or.
  destruct (get_block_header_info (rpc b) block_hash) as [| |conf height] eqn:Eh; try done.
  destruct (Z.ltb_spec conf (required_confirmations b)); [done|]. unfold mbind, res_bind.
  destruct (get_raw_transaction_in _ _ _) as [tx|] eqn:Et; [|done].
  destruct (pegin_info b tx block_hash (wrap 32 height)) as [i|] eqn:Ei; [|done].
  intros [= <-]. unfold pegin_info in Ei.
  apply bind_Some in Ei as (o & Ho & Ei). apply bind_Some in Ei as (acc & Ha & [= <-]).
  apply find_map_Some in Ho as (o' & Ho & Hp), Ha as (oa & Hoa & Ha).
  destruct (pays_federation b o') eqn:Ep; [|done]. injection Hp as ->.
  exists conf, height, tx, o, oa. by split_and!.
Qed.

(** The stream visits the Bitcoin heights one after another from the start
    height, skipping none, and every peg-in it reports carries the height of
    its batch. *)
Theorem stream_heights_consecutive fuel b height polls batches :
  stream_blocks_for_pegins fuel b height polls = Ok batches ->
  forall i ps h, batches !! i = Some (ps, h) ->
    h = height + Z.of_nat i /\ Forall (fun p => pi_block_height p = h) ps.
Proof.
  revert height polls batches.
  induction fuel as [|fuel IH]; intros height polls batches H i ps h Hi; cbn in H.
  { by simplify_eq. }
  unfold stream_blocks in H.
  destruct (wait_for_block _ _) as [[[[txs bh]| |] polls']|] eqn:Ew; try by simplify_eq.
  destruct (add_chk 32 height 1) as [next| |] eqn:En; try done. apply chk_inv in En as [-> _].
  unfold mbind, res_bind in H. destruct (stream_blocks_for_pegins _ _ _ _) as [rest| |] eqn:Er; try done.
  injection H as <-. destruct i as [|i]; cbn in Hi.
  - injection Hi as <- <-. split; [lia|]. apply Forall_forall. intros p Hp.
    apply list_elem_of_omap in Hp as (tx & _ & Hp). unfold pegin_info in Hp.
    apply bind_Some in Hp as (o & _ & Hp). by apply bind_Some in Hp as (a & _ & [= <-]).
  - destruct (IH _ _ _ Er _ _ _ Hi) as [-> ?]. split; [lia|done].
Qed.

(** An answer that does not end the stream. *)
Definition benign (num_confirmations : Z) (p : Poll) : Prop :=
  match p with
  | HashFailed e => not_yet e = true
  | InfoFailed => False
  | Found confirmations block => num_confirmations <= confirmations -> is_Some block
  end.

Lemma wait_benign n polls r polls' :
  Forall (benign n) polls -> wait_for_block n polls = Some (r, polls') ->
  (exists x, r = Ok x) /\ Forall (benign n) polls'.
Proof.
  induction 1 as [|p polls Hp Hf IH]; [done|]. destruct p as [e| |c block]; cbn [wait_for_block benign] in *.
  - rewrite Hp. done.
  - done.
  - destruct (Z.leb_spec n c) as [Hn|Hn]; [|done]. destruct (Hp Hn) as [x ->]. intros [= <- <-].
    split; [by exists x|done].
Qed.

(** The monitor is stopped by nothing but a fatal answer: as long as the
    failures only say that a block is not there yet, the stream does not
    panic, short of Bitcoin heights of 32 bits. *)
Theorem stream_survives fuel b height polls :
  Forall (benign (required_confirmations b)) polls -> 0 <= height -> height + Z.of_nat (length polls) < 2 ^ 32 ->
  exists batches, stream_blocks_for_pegins fuel b height polls = Ok batches.
Proof.
  revert height polls. induction fuel as [|fuel IH]; intros height polls Hb H0 Hh; [by exists []|].
  cbn [stream_blocks_for_pegins]. unfold stream_blocks.
  destruct (wait_for_block (required_confirmations b) polls) as [[r polls']|] eqn:Ew; [|by exists []].
  pose proof (wait_for_block_length _ _ _ _ Ew) as Hl.
  destruct (wait_benign _ _ _ _ Hb Ew) as [[[txs h] ->] Hb']. rewrite add_chk_ok by lia. cbn [mbind res_bind].
  destruct (IH (height + 1) polls') as [rest ->]; [done|lia|lia|]. by eexists.
Qed.

End WithLibs.

Module Witness.
#[local] Existing Instance ExampleLib.lib.

(** A log is the event it stands for; text is not transformed. *)
Definition lib : BridgeLib := {|
  Log := RequestPegOut;
  parse_log l := Some l;
  is_provably_unspendable s := match s with 106 :: _ => true | _ => false end;
  is_op_return s := match s with 106 :: _ => true | _ => false end;
  to_asm_string s := s;
  from_hex s := Some s;
  from_utf8 s := Some s;
  h160_from_str s := Some s;
  btc_address_from_str s := Some s;
|}.
#[local] Existing Instance lib.

Definition wlib : WalletLib := {|
  FeeRate := unit; fee_wu _ _ := 0; tx_weight _ := 0; segwit_weight _ := 0;
  script_bytes _ := []; taproot_script _ s := s; control_block _ s := s;
  matches_script_pubkey a s := bool_decide (a = s);
  script_sighash _ _ _ _ := None; schnorr_from_slice _ := None; schnorr_to_vec s := s;
  verify_schnorr _ _ _ := false; BtcSecretKey := unit; btc_public_key _ := [];
  sign_schnorr _ _ := []; coin_select _ _ _ _ _ := None |}.
#[local] Existing Instance wlib.

Definition deposit : Transaction :=
  mkTransaction 2 0 [] [mkTxOut 0 [106; 32; 5; 5]; mkTxOut 700 [81]].

Definition node : t :=
  mk [[81]] (mkRpc (fun _ => HeaderOk 10 300) (fun _ _ => Some deposit) (fun _ => true)
                   (mkCore (fun _ => None) (fun _ _ => Err tt))) 6.

Lemma confirmed_pegin_sound_witness :
  exists confirmations height tx o oa,
    get_block_header_info (rpc node) zero_hash = HeaderOk confirmations height /\
    6 <= confirmations /\
    get_raw_transaction_in (rpc node) zero_hash zero_hash = Some tx /\
    o ∈ output tx /\ pays_federation node o = true /\ 700 = value o /\
    oa ∈ output tx /\ extract_evm_address oa = Some [5; 5] /\
    txid deposit = txid tx /\ zero_hash = zero_hash.
Proof.
  apply (confirmed_pegin_sound node zero_hash zero_hash
           (mkPegIn (txid deposit) zero_hash 700 [5; 5] 300)).
  vm_compute. reflexivity.
Defined.

Definition polls : list Poll :=
  [HashFailed (ServerFailure (-8) []); Found 2 None; Found 6 (Some ([deposit], zero_hash));
   HashFailed (ServerFailure (-5) (99 :: BLOCK_NOT_FOUND)); Found 9 (Some ([], zero_hash))].

Lemma stream_heights_consecutive_witness :
  301 = 300 + Z.of_nat 1 /\ Forall (fun p => pi_block_height p = 301) [].
Proof.
  apply (stream_heights_consecutive 5 node 300 polls
           [([mkPegIn (txid deposit) zero_hash 700 [5; 5] 300], 300); ([], 301)]);
    [vm_compute; reflexivity|reflexivity].
Defined.

Lemma stream_survives_witness :
  exists batches, stream_blocks_for_pegins 5 node 300 polls = Ok batches.
Proof.
  apply (stream_survives 5 node 300 polls); [|lia|cbn; lia].
  repeat (apply Forall_cons; split); try apply Forall_nil_2;
    cbn [benign required_confirmations node]; intros; first [lia|by eexists|vm_compute; reflexivity].
Defined.

(** A contract creation counts as a call of the bridge: a receipt without a
    receiver is not filtered, and its logs are not tied to the bridge contract,
    so an event emitted by any deployed code becomes a peg-out. *)
Theorem creation_receipt_pegs_out :
  exists e, filter_pegouts (E:=Fed.Error)
              [mkReceipt (None : option (list Z)) [e] (Some 21000)]
            = Ok [mkTxOut 1000000 [7; 7]] /\
            filter_pegouts (E:=Fed.Error)
              [mkReceipt (Some (replicate 20 1)) [e] (Some 21000)] = Ok [].
Proof.
  exists (mkRequest [] [7; 7] (1000000 * 10000000000)). split; vm_compute; reflexivity.
Qed.

End Witness.

End Bridge.
