(* ===== verification/Engine.v ===== *)
(** The execution-layer engine ([app/src/engine.rs]): consensus amounts, and
    the sequences of Engine API calls that build and commit a block. *)
From stdpp Require Import base decidable list.
From Stdlib Require Import ZArith Lia.
From S2P Require Import Prelude Bitcoin Errors AuxPow Signatures Block Wallet Bridge.

Record ForkchoiceState := mkForkchoice {
  head_block_hash : hash;
  safe_block_hash : hash;
  finalized_block_hash : hash;
}.

Record PayloadAttributes := mkAttributes {
  pa_timestamp : Z;
  pa_fee_recipient : Address;
  pa_withdrawals : list Withdrawal;
}.

(** A transaction of an execution block, and the block, with the fields the
    node reads. *)
Record ExecTx := mkExecTx {
  tx_hash : hash;
  gas_price : option Z;
  max_fee_per_gas : option Z;
  max_priority_fee_per_gas : option Z;
}.

Record ExecBlock := mkExecBlock {
  eb_transactions : list ExecTx;
  eb_base_fee_per_gas : option Z;
}.

(** A block with its transactions, as the client serves it; each transaction is
    given by its RLP bytes. *)
Record CapellaBlock := mkCapella {
  cb_parent_hash : hash;
  cb_fee_recipient : Address;
  cb_state_root : hash;
  cb_receipts_root : hash;
  cb_logs_bloom : bytes;
  cb_prev_randao : hash;
  cb_block_number : Z;
  cb_gas_limit : Z;
  cb_gas_used : Z;
  cb_timestamp : Z;
  cb_extra_data : bytes;
  cb_base_fee_per_gas : Z;
  cb_block_hash : hash;
  cb_transactions : list bytes;
  cb_withdrawals : list Withdrawal;
}.

Inductive ExecutionBlockWithTransactions :=
| Capella (b : CapellaBlock)
| OtherFork (transactions : list bytes).

(** The execution client: a state and the calls the node makes on it. A call
    can fail; [api_get_payload] gives [None] for a payload that is not of the
    Capella fork. *)
Class ExecutionApi `{BridgeLib} := {
  EL : Type;
  PayloadId : Type;
  api_forkchoice_updated : ForkchoiceState -> option PayloadAttributes -> EL ->
                           res unit (option PayloadId) * EL;
  api_get_payload : PayloadId -> EL -> res unit (option Payload);
  api_new_payload : Payload -> EL -> res unit (option hash) * EL;
  api_latest_block_hash : EL -> res unit (option hash);
  api_payload_body : hash -> EL -> res unit bool;
  api_block_with_txs : hash -> EL -> res unit (option ExecBlock);
  api_receipt : hash -> EL -> res unit (option Receipt);
  api_block_by_tag : list Z -> EL -> res unit (option hash);
  api_block_with_txns : hash -> EL -> res unit (option ExecutionBlockWithTransactions);
}.

Module Engine.

(** Amounts in Gwei. *)
Definition from_wei {E} (wei : Z) : res E Z := chk 64 (wei / 10 ^ 9).
Definition from_satoshi {E} (sats : Z) : res E Z := mul_chk 64 sats 10.
Definition amount_add {E} (a b : Z) : res E Z := add_chk 64 a b.

(** [AddBalance] as a withdrawal. *)
Definition into_withdrawal (b : Address * Z) : Withdrawal := mkWithdrawal 0 0 b.1 b.2.

(** 0x...dEaD. *)
Definition DEAD_ADDRESS : Address := replicate 18 0 ++ [222; 173].

Section WithApi.
Context `{A : ExecutionApi}.

(** The engine keeps the last finalized payload hash; its API is the client. *)
Record t := mk { finalized : option hash; el : EL }.

Definition set_finalized (h : hash) (e : t) : t := mk (Some h) (el e).
Definition finalized_or_default (e : t) : hash := default zero_hash (finalized e).

Definition call {R} (f : EL -> res unit R * EL) : ST t Error (res unit R) := fun e =>
  let (r, x) := f (el e) in (Ok r, mk (finalized e) x).

(** [build_block]: the failures of the two calls are engine errors; without a
    head to build on, the latest block of the client is used ([unwrap]). The
    result is the Capella payload, if it is one. *)
Definition build_block (timestamp : Z) (payload_head : option hash)
    (add_balances : list (Address * Z)) : ST t Error (option Payload) :=
  let attributes := mkAttributes timestamp DEAD_ADDRESS (map into_withdrawal add_balances) in
  e ← getS;
  head ← liftR (match payload_head with
                | Some head => Ok head
                | None => h ← unwrap_res (api_latest_block_hash (el e)); unwrap h
                end);
  let f := finalized_or_default e in
  response ← call (api_forkchoice_updated (mkForkchoice head f f) (Some attributes));
  payload_id ← liftR (map_err (fun _ => EngineApiError) response);
  payload_id ← liftR (ok_or payload_id PayloadIdUnavailable);
  e ← getS;
  liftR (map_err (fun _ => EngineApiError) (api_get_payload payload_id (el e))).

(** [commit_block]: point the client at the parent, hand it the payload, move
    the head to what it reports as valid. The forkchoice calls are unwrapped. *)
Definition commit_block (p : Payload) : ST t Error hash :=
  e ← getS;
  let f := finalized_or_default e in
  r ← call (api_forkchoice_updated (mkForkchoice (p_parent_hash p) f f) None);
  liftR (unwrap_res r) ;;
  response ← call (api_new_payload p);
  latest ← liftR (map_err (fun _ => EngineApiError) response);
  head ← liftR (ok_or latest InvalidBlockHash);
  r ← call (api_forkchoice_updated (mkForkchoice head f f) None);
  liftR (unwrap_res r) ;;
  mret head.

Definition get_block_with_txs (h : hash) (e : t) : res Error (option ExecBlock) :=
  map_err (fun _ => ExecutionLayerError) (api_block_with_txs h (el e)).

(** [ENGINE_API_QUERY_RETRY_COUNT] is 1: one attempt, then an error. *)
Definition get_transaction_receipt (h : hash) (e : t) : res Error (option Receipt) :=
  match api_receipt h (el e) with
  | Ok r => Ok r
  | Err _ => Err ExecutionLayerError
  | Panic => Panic
  end.

(** [VariableList::new(l).unwrap()]. *)
Definition variable_list {E X} (max : Z) (l : list X) : res E (list X) :=
  if Z.of_nat (length l) <=? max then Ok l else Panic.

Definition block_transactions (b : ExecutionBlockWithTransactions) : list bytes :=
  match b with Capella b => cb_transactions b | OtherFork l => l end.

(** [get_payload_by_tag_from_engine]: everything is unwrapped; a block of
    another fork panics, and so does one beyond the limits of [MainnetEthSpec]
    on the sizes and numbers of transactions and withdrawals. *)
Definition get_payload_by_tag_from_engine (tag : list Z) (e : t) : res Error Payload :=
  execution_block ← unwrap_res (api_block_by_tag tag (el e));
  execution_block ← unwrap execution_block;
  block ← unwrap_res (api_block_with_txns execution_block (el e));
  block ← unwrap block;
  transactions ← collect (variable_list (2 ^ 30)) (block_transactions block);
  transactions ← variable_list (2 ^ 20) transactions;
  match block with
  | Capella b =>
      withdrawals ← variable_list 16 (cb_withdrawals b);
      Ok (mkPayload (cb_parent_hash b) (cb_fee_recipient b) (cb_state_root b) (cb_receipts_root b)
            (cb_logs_bloom b) (cb_prev_randao b) (cb_block_number b) (cb_gas_limit b) (cb_gas_used b)
            (cb_timestamp b) (cb_extra_data b) (cb_base_fee_per_gas b) (cb_block_hash b) transactions
            withdrawals)
  | OtherFork _ => Panic
  end.

(** ** Lemmas *)

Lemma collect_limits {E X} max (l : list (list X)) :
  collect (variable_list (E:=E) max) l
  = if forallb (fun x => Z.of_nat (length x) <=? max) l then Ok l else Panic.
Proof.
  induction l as [|x l IH]; [done|]. cbn [collect forallb]. rewrite IH. unfold variable_list.
  destruct (Z.of_nat (length x) <=? max); [|done]. cbn. by destruct (forallb _ l).
Qed.

(** The limits of a payload. *)
Definition within_limits (b : CapellaBlock) : bool :=
  forallb (fun x => Z.of_nat (length x) <=? 2 ^ 30) (cb_transactions b)
  && (Z.of_nat (length (cb_transactions b)) <=? 2 ^ 20) && (Z.of_nat (length (cb_withdrawals b)) <=? 16).

(** The payload of a block within the limits is the block's, field by field; one
    beyond them aborts the node. *)
Theorem payload_of_capella tag e h b :
  api_block_by_tag tag (el e) = Ok (Some h) -> api_block_with_txns h (el e) = Ok (Some (Capella b)) ->
  get_payload_by_tag_from_engine tag e
  = if within_limits b
    then Ok (mkPayload (cb_parent_hash b) (cb_fee_recipient b) (cb_state_root b) (cb_receipts_root b)
               (cb_logs_bloom b) (cb_prev_randao b) (cb_block_number b) (cb_gas_limit b) (cb_gas_used b)
               (cb_timestamp b) (cb_extra_data b) (cb_base_fee_per_gas b) (cb_block_hash b)
               (cb_transactions b) (cb_withdrawals b))
    else Panic.
Proof.
  intros Ht Hb. unfold get_payload_by_tag_from_engine, within_limits. rewrite Ht. cbn [unwrap_res unwrap mbind res_bind].
  rewrite Hb. cbn [unwrap_res unwrap mbind res_bind block_transactions]. rewrite collect_limits.
  destruct (forallb _ _); [|done]. cbn [mbind res_bind andb]. unfold variable_list.
  destruct (_ <=? 2 ^ 20); [|done]. cbn [mbind res_bind andb]. by destruct (_ <=? 16).
Qed.

Lemma from_satoshi_ok {E} a : 0 <= a -> a * 10 < 2 ^ 64 -> from_satoshi (E:=E) a = Ok (a * 10).
Proof. intros. apply mul_chk_ok. lia. Qed.

Lemma from_wei_ok {E} w : 0 <= w -> w / 10 ^ 9 < 2 ^ 64 -> from_wei (E:=E) w = Ok (w / 10 ^ 9).
Proof. intros. apply chk_ok. split; [apply Z.div_pos; lia|done]. Qed.

(** Committing a block never changes what is finalized, and when the payload
    call succeeds with a valid hash, the client's head is that hash. *)
Lemma commit_block_finalized p e r e' :
  commit_block p e = (r, e') -> finalized e' = finalized e.
Proof.
  unfold commit_block, getS, call, liftR, mbind, st_bind, mret, st_ret.
  destruct (api_forkchoice_updated _ _ (el e)) as [r1 x1]. cbn.
  destruct (unwrap_res r1); cbn; [|by intros [= _ <-]..].
  destruct (api_new_payload p x1) as [r2 x2]. cbn.
  destruct (map_err _ r2) as [latest| |]; cbn; [|by intros [= _ <-]..].
  destruct (ok_or latest InvalidBlockHash) as [h| |]; cbn; [|by intros [= _ <-]..].
  destruct (api_forkchoice_updated _ _ x2) as [r3 x3]. cbn.
  destruct (unwrap_res r3); cbn; by intros [= _ <-].
Qed.

End WithApi.

End Engine.
