(* ===== verification/Payouts.v ===== *)
(** Money on the side chain ([app/src/chain.rs], lines 151 to 435 and 1610 to
    1654): transaction fees, their split between miner and federation, the
    peg-ins a block credits, and the check of a block's withdrawals. *)
From stdpp Require Import base decidable list gmap.
From Stdlib Require Import ZArith Lia.
From S2P Require Import Prelude Bitcoin Errors AuxPow Signatures Block Serial Store BTree.
From S2P Require Import Wallet Bridge Engine.

Module Payouts.

Definition MAINNET_MAX_WITHDRAWALS : nat := 16.

(** ** Fees of a transaction *)

(** The trait [TxFees]; [gas_price] is unwrapped even when it is not needed,
    and 256-bit arithmetic panics on overflow. *)
Definition gas_tip_cap (tx : ExecTx) : res Error Z :=
  gp ← unwrap (gas_price tx);
  Ok (default gp (max_priority_fee_per_gas tx)).

Definition gas_fee_cap (tx : ExecTx) : res Error Z :=
  gp ← unwrap (gas_price tx);
  Ok (default gp (max_fee_per_gas tx)).

Definition effective_gas_tip (tx : ExecTx) (base_fee : Z) : res Error Z :=
  fee_cap ← gas_fee_cap tx;
  tip ← gas_tip_cap tx;
  d ← sub_chk 256 fee_cap base_fee;
  Ok (Z.min tip d).

Section WithLibs.
Context `{B : BitcoinLib, L : BlsLib, K : BlockLib, S : StoreLib, W : WalletLib, G : BridgeLib}.

(** Transactions and receipts are paired by position. *)
Fixpoint total_fees_loop (base_fee : option Z) (l : list (ExecTx * Receipt)) (fees_wei : Z) :
    res Error Z :=
  match l with
  | [] => Ok fees_wei
  | (tx, receipt) :: l' =>
      bf ← unwrap base_fee;
      miner_fee ← effective_gas_tip tx bf;
      gas ← unwrap (r_gas_used receipt);
      x ← mul_chk 256 gas miner_fee;
      fees_wei' ← add_chk 256 fees_wei x;
      total_fees_loop base_fee l' fees_wei'
  end.

Definition total_fees (b : ExecBlock) (receipts : list Receipt) : res Error Z :=
  total_fees_loop (eb_base_fee_per_gas b) (zip (eb_transactions b) receipts) 0.

(** The fees of a block are added to its parent's unless it has an AuxPow. *)
Definition accumulate_fees (d : Store.Db) (b : SignedConsensusBlock) (eb : ExecBlock)
    (receipts : list Receipt) : res Error (list Store.KeyValueStoreOp) :=
  fees ← (match auxpow_header (message b) with
          | Some _ => Ok 0
          | None =>
              acc ← Store.get_accumulated_block_fees d (parent_hash (message b));
              Ok (default 0 acc)
          end);
  block_fees ← total_fees eb receipts;
  fees ← add_chk 256 fees block_fees;
  Ok (Store.set_accumulated_block_fees (canonical_root b) fees).

Definition queued_fees (d : Store.Db) (parent : hash) : res Error Z :=
  f ← Store.get_accumulated_block_fees d parent;
  unwrap f.

(** Eighty percent to the miner, the rest in equal parts to the federation. *)
Definition split_fees (federation : list Address) (fees : Z) (miner_address : Address) :
    res Error (list (Address * Z)) :=
  if fees =? 0 then Ok []
  else
    m ← mul_chk 256 fees 80;
    let miner_fee := m / 100 in
    rest ← sub_chk 256 fees miner_fee;
    federation_fee ← div_chk rest (Z.of_nat (length federation));
    miner_amount ← Engine.from_wei miner_fee;
    members ← collect (fun address => x ← Engine.from_wei federation_fee; Ok (address, x)) federation;
    Ok ((miner_address, miner_amount) :: members).

(** ** Peg-ins of a new block *)

Abbreviation queue := (list (hash * PegInInfo)).

(** Peg-ins the wallet already has are dropped from the queue. *)
Fixpoint drop_processed (w : Wallet.t) (txids : list hash) (q : queue) : res Error queue :=
  match txids with
  | [] => Ok q
  | id :: txids' =>
      known ← unwrap_res (Wallet.get_tx id w);
      drop_processed w txids' (match known with Some _ => BTree.remove id q | None => q end)
  end.

(** The loop over the queue: at most sixteen different accounts. The amounts
    are 64-bit. *)
Fixpoint take_pegins (l : list PegInInfo) (withdrawals : list (Address * Z)) (total : Z) :
    res Error (list (Address * Z) * list (hash * hash)) :=
  match l with
  | [] => Ok (withdrawals, [])
  | p :: l' =>
      if (length withdrawals <? MAINNET_MAX_WITHDRAWALS)%nat
         || BTree.contains_key (pi_evm_account p) withdrawals
      then
        sum ← add_chk 64 (default 0 (BTree.get (pi_evm_account p) withdrawals)) (pi_amount p);
        total' ← add_chk 64 total (pi_amount p);
        '(ws, ps) ← take_pegins l' (BTree.insert (pi_evm_account p) sum withdrawals) total';
        Ok (ws, (pi_txid p, pi_block_hash p) :: ps)
      else take_pegins l' withdrawals total
  end.

(** [fill_pegins]: the balances to add (after those given), the peg-ins of the
    block, and the queue left. *)
Definition fill_pegins (w : Wallet.t) (q : queue) (add_balances : list (Address * Z)) :
    res Error (list (Address * Z) * list (hash * hash) * queue) :=
  q ← drop_processed w (BTree.keys q) q;
  '(withdrawals, processed) ← take_pegins (BTree.values q) [] 0;
  added ← collect (fun p : Address * Z => x ← Engine.from_satoshi p.2; Ok (p.1, x)) withdrawals;
  Ok (add_balances ++ added, processed, q).

(** ** Withdrawals of a received block *)

Fixpoint expect_pegins (w : Wallet.t) (b : Bridge.t) (l : list (hash * hash))
    (expected : list (Address * Z)) : res Error (list (Address * Z)) :=
  match l with
  | [] => Ok expected
  | (id, block_hash) :: l' =>
      known ← map_err FederationError (Wallet.get_tx id w);
      match known with
      | Some _ => Err PegInAlreadyIncluded
      | None =>
          info ← map_err FederationError (Bridge.get_confirmed_pegin_from_txid b id block_hash);
          x ← Engine.from_satoshi (pi_amount info);
          sum ← Engine.amount_add (default 0 (BTree.get (pi_evm_account info) expected)) x;
          expect_pegins w b l' (BTree.insert (pi_evm_account info) sum expected)
      end
  end.

Definition remove_expected (expected : list (Address * Z)) (x : Withdrawal) : list (Address * Z) :=
  match BTree.get (w_address x) expected with
  | Some a => if a =? amount x then BTree.remove (w_address x) expected else expected
  | None => expected
  end.

Definition check_withdrawals (d : Store.Db) (w : Wallet.t) (br : Bridge.t)
    (federation : list Address) (b : SignedConsensusBlock) : res Error unit :=
  expected ← (match auxpow_header (message b) with
              | Some header =>
                  fees ← queued_fees d (parent_hash (message b));
                  l ← split_fees federation fees (a_fee_recipient header);
                  Ok (BTree.from_list l)
              | None => Ok []
              end);
  expected ← expect_pegins w br (pegins (message b)) expected;
  let left := foldl remove_expected expected (withdrawals (execution_payload (message b))) in
  match left with
  | [] => Ok tt
  | _ => Err UnknownWithdrawal
  end.

(** ** Lemmas: the split of fees *)

Definition total (l : list (Address * Z)) : Z := foldr (fun p acc => p.2 + acc) 0 l.

Lemma total_app l l' : total (l ++ l') = total l + total l'.
Proof. unfold total. induction l as [|p l IH]; cbn; lia. Qed.

Lemma total_const (l : list Address) x : total (map (fun a => (a, x)) l) = Z.of_nat (length l) * x.
Proof. unfold total. induction l as [|a l IH]; [done|]. cbn [map foldr snd length]. lia. Qed.

Lemma collect_members {E} x v (l : list Address) :
  Engine.from_wei (E:=E) x = Ok v ->
  collect (E:=E) (fun a => y ← Engine.from_wei x; Ok (a, y)) l = Ok (map (fun a => (a, v)) l).
Proof.
  intros H. apply collect_Ok. induction l as [|a l IH]; constructor; [|done]. by rewrite H.
Qed.

Lemma split_fees_ok federation fees miner :
  0 < fees < 2 ^ 92 -> federation <> [] ->
  split_fees federation fees miner =
  Ok ((miner, fees * 80 / 100 / 10 ^ 9)
      :: map (fun a => (a, (fees - fees * 80 / 100) / Z.of_nat (length federation) / 10 ^ 9))
             federation).
Proof.
  intros Hf Hne. unfold split_fees. replace (fees =? 0) with false by lia.
  assert (2 ^ 92 < 2 ^ 64 * 10 ^ 9) by done.
  assert (0 <= fees * 80 / 100 <= fees) as Hm by (Z.div_mod_to_equations; lia).
  assert (0 < Z.of_nat (length federation)) as Hn by (destruct federation; [done|cbn; lia]).
  set (n := Z.of_nat (length federation)) in *.
  assert (0 <= (fees - fees * 80 / 100) / n <= fees) as Hq.
  { split; [apply Z.div_pos; lia|]. apply Z.le_trans with (fees - fees * 80 / 100); [|lia].
    apply Z.div_le_upper_bound; [lia|]. nia. }
  rewrite mul_chk_ok by lia. unfold mbind, res_bind. rewrite sub_chk_ok by lia.
  unfold div_chk. replace (n =? 0) with false by lia.
  assert (forall x, 0 <= x <= fees -> Engine.from_wei (E:=Error) x = Ok (x / 10 ^ 9)) as Hw.
  { intros x Hx. apply Engine.from_wei_ok; [lia|]. apply Z.div_lt_upper_bound; lia. }
  rewrite Hw by lia. pose proof (collect_members _ _ federation (Hw _ Hq)) as Hc.
  unfold mbind, res_bind in Hc. by rewrite Hc.
Qed.

(** Splitting the collected fees mints no more than was collected, and loses
    less than one Gwei per receiver plus the rounding of the split. *)
Theorem split_fees_conserves federation fees miner :
  0 < fees < 2 ^ 92 -> federation <> [] ->
  exists l, split_fees federation fees miner = Ok l /\
    map fst l = miner :: federation /\
    total l * 10 ^ 9 <= fees < total l * 10 ^ 9 + (Z.of_nat (length federation) + 1) * (10 ^ 9 + 1).
Proof.
  intros Hf Hne. rewrite split_fees_ok by done. eexists. split; [done|].
  split; [cbn; rewrite map_map; cbn; by rewrite map_id|].
  assert (0 < Z.of_nat (length federation)) as Hn by (destruct federation; [done|cbn; lia]).
  match goal with |- context [?p :: map ?f ?l] =>
    change (total (p :: map f l)) with (p.2 + total (map f l)) end.
  rewrite total_const. cbn [snd]. set (n := Z.of_nat (length federation)) in *.
  pose proof (Z.div_mod (fees * 80) 100 ltac:(lia)) as E1.
  pose proof (Z.mod_pos_bound (fees * 80) 100 ltac:(lia)) as B1.
  set (m := fees * 80 / 100) in *.
  pose proof (Z.div_mod m (10 ^ 9) ltac:(lia)) as E2.
  pose proof (Z.mod_pos_bound m (10 ^ 9) ltac:(lia)) as B2.
  pose proof (Z.div_mod (fees - m) n ltac:(lia)) as E3.
  pose proof (Z.mod_pos_bound (fees - m) n ltac:(lia)) as B3.
  set (q := (fees - m) / n) in *.
  pose proof (Z.div_mod q (10 ^ 9) ltac:(lia)) as E4.
  pose proof (Z.mod_pos_bound q (10 ^ 9) ltac:(lia)) as B4.
  set (q' := q / 10 ^ 9) in *. set (m' := m / 10 ^ 9) in *.
  assert (n * q = n * q' * 10 ^ 9 + n * (q mod 10 ^ 9)) as E5 by (rewrite E4 at 1; lia).
  assert (0 <= n * (q mod 10 ^ 9) < n * 10 ^ 9) as B5 by nia.
  change (10 ^ 9) with 1000000000 in *. lia.
Qed.

(** ** Lemmas: peg-ins *)

(** The amount of the peg-ins of an account, and of all. *)
Fixpoint pegged (a : Address) (l : list PegInInfo) : Z :=
  match l with
  | [] => 0
  | p :: l' => (if decide (pi_evm_account p = a) then pi_amount p else 0) + pegged a l'
  end.

Definition amounts (l : list PegInInfo) : Z := foldr (fun p acc => pi_amount p + acc) 0 l.

(** The different accounts in the order of their first peg-in, without those
    seen before. *)
Fixpoint distinct (seen l : list Address) : list Address :=
  match l with
  | [] => []
  | a :: l' => if decide (a ∈ seen) then distinct seen l' else a :: distinct (a :: seen) l'
  end.

(** The accounts a block credits: the first sixteen of the queue. *)
Definition served (l : list PegInInfo) : list Address :=
  take MAINNET_MAX_WITHDRAWALS (distinct [] (map pi_evm_account l)).

Lemma amounts_sublist l l' :
  sublist l l' -> Forall (fun p => 0 <= pi_amount p) l' -> amounts l <= amounts l'.
Proof.
  unfold amounts. induction 1; intros Hf; cbn; [lia|..]; apply Forall_cons in Hf as [? ?];
    [by apply Z.add_le_mono_l; auto|].
  specialize (IHsublist ltac:(done)). lia.
Qed.

Lemma pegged_bounds a l :
  Forall (fun p => 0 <= pi_amount p) l -> 0 <= pegged a l <= amounts l.
Proof. unfold amounts. induction 1; cbn; [lia|]. case_decide; lia. Qed.

Lemma pegged_none a l : a ∉ map pi_evm_account l -> pegged a l = 0.
Proof.
  induction l as [|p l IH]; [done|]. cbn. rewrite elem_of_cons. intros H.
  rewrite decide_False, IH; naive_solver.
Qed.

(** The loop, from balances [ws] of the accounts [seen]. *)
Lemma take_pegins_spec l ws t seen :
  BTree.sorted ws = true -> (length ws <= MAINNET_MAX_WITHDRAWALS)%nat ->
  (forall a, a ∈ seen <-> is_Some (BTree.get a ws)) ->
  (forall a v, BTree.get a ws = Some v -> 0 <= v <= t) -> 0 <= t ->
  Forall (fun p => 0 <= pi_amount p) l -> t + amounts l < 2 ^ 64 ->
  let acc := take (MAINNET_MAX_WITHDRAWALS - length ws) (distinct seen (map pi_evm_account l)) in
  exists ws',
    take_pegins l ws t
    = Ok (ws', map (fun p => (pi_txid p, pi_block_hash p))
                   (filter (fun p => pi_evm_account p ∈ seen \/ pi_evm_account p ∈ acc) l)) /\
    BTree.sorted ws' = true /\
    forall a, BTree.get a ws' = if decide (a ∈ seen \/ a ∈ acc)
                                then Some (default 0 (BTree.get a ws) + pegged a l) else None.
Proof.
  intros Hs Hl Hseen Hv Ht Hf. revert ws t seen Hs Hl Hseen Hv Ht.
  induction Hf as [|p l Hp Hf IH]; intros ws t seen Hs Hl Hseen Hv Ht Hb; cbn [take_pegins map distinct pegged].
  { exists ws. rewrite take_nil. split_and!; [done|done|]. intros a. rewrite Z.add_0_r.
    destruct (decide (a ∈ seen \/ a ∈ [])) as [[H|H%not_elem_of_nil]|H]; [|done|].
    - by apply Hseen in H as [v ->].
    - destruct (BTree.get a ws) eqn:E; [|done]. destruct H. left. apply Hseen. by rewrite E. }
  change (amounts (p :: l)) with (pi_amount p + amounts l) in Hb. cbv zeta.
  assert (0 <= amounts l) as Hpos by (pose proof (pegged_bounds (pi_evm_account p) l Hf); lia).
  set (a0 := pi_evm_account p) in *.
  assert (BTree.contains_key a0 ws = bool_decide (a0 ∈ seen)) as Hck
    by (apply bool_decide_ext; by rewrite Hseen).
  assert (0 <= default 0 (BTree.get a0 ws) <= t) as Hd
    by (destruct (BTree.get a0 ws) eqn:E; cbn; [by eapply Hv|lia]).
  set (sum := default 0 (BTree.get a0 ws) + pi_amount p).
  assert (forall a v, BTree.get a (BTree.insert a0 sum ws) = Some v -> 0 <= v <= t + pi_amount p) as Hv'.
  { intros a v. rewrite BTree.get_insert. destruct (bool_decide (a = a0)); intros E; [|apply Hv in E; lia].
    assert (v = sum) as -> by congruence. lia. }
  destruct ((length ws <? MAINNET_MAX_WITHDRAWALS)%nat || BTree.contains_key a0 ws) eqn:Ec.
  - rewrite add_chk_ok by (fold sum; lia). unfold mbind, res_bind. fold sum.
    rewrite add_chk_ok by lia. change (default 0 (BTree.get a0 ws) + pi_amount p) with sum.
    assert (exists seen', (forall a, a ∈ seen' <-> a ∈ seen \/ a = a0) /\
      forall a, (a ∈ seen' \/ a ∈ take (MAINNET_MAX_WITHDRAWALS - length (BTree.insert a0 sum ws))
                                   (distinct seen' (map pi_evm_account l))) <->
       (a ∈ seen \/ a ∈ take (MAINNET_MAX_WITHDRAWALS - length ws)
          (if decide (a0 ∈ seen) then distinct seen (map pi_evm_account l)
           else a0 :: distinct (a0 :: seen) (map pi_evm_account l)))) as (seen' & Hs' & Hacc).
    { rewrite BTree.insert_length, Hck by done. destruct (decide (a0 ∈ seen)) as [Hin|Hin].
      - exists seen. split; [naive_solver|]. intros a. by rewrite bool_decide_true.
      - exists (a0 :: seen). split; [set_solver|]. intros a. rewrite bool_decide_false by done.
        rewrite Hck, bool_decide_false, orb_false_r, Nat.ltb_lt in Ec by done.
        replace (MAINNET_MAX_WITHDRAWALS - length ws)%nat
          with (Datatypes.S (MAINNET_MAX_WITHDRAWALS - Datatypes.S (length ws)))%nat by lia.
        cbn [take]. rewrite !elem_of_cons. naive_solver. }
    destruct (IH (BTree.insert a0 sum ws) (t + pi_amount p) seen') as (ws' & -> & Hsw & Hget);
      [by apply BTree.sorted_insert| | |done|lia|lia|].
    { rewrite BTree.insert_length by done. destruct (BTree.contains_key a0 ws); [done|].
      rewrite orb_false_r, Nat.ltb_lt in Ec. lia. }
    { intros a. rewrite Hs', Hseen, BTree.get_insert. destruct (decide (a = a0)) as [E|E].
      - rewrite bool_decide_true by done. split; [by eexists|by right].
      - rewrite bool_decide_false by done. split; [by intros [?|?]|by left]. }
    exists ws'. split; [|split; [done|]].
    + rewrite filter_cons_True by (fold a0; apply Hacc; left; apply Hs'; by right).
      cbn [map]. do 4 f_equal. apply list_filter_iff. intros x. apply Hacc.
    + intros a. rewrite Hget, BTree.get_insert.
      rewrite (decide_ext _ _ _ _ (Hacc a)).
      match goal with |- (if ?x then _ else _) = _ => destruct x end; [|done].
      f_equal. destruct (decide (a0 = a)) as [<-|E].
      * rewrite bool_decide_true by done. cbn. subst sum. lia.
      * rewrite bool_decide_false by congruence. lia.
  - apply orb_false_iff in Ec as [Ec1 Ec2]. rewrite Hck in Ec2. apply bool_decide_eq_false in Ec2.
    apply Nat.ltb_ge in Ec1. replace (MAINNET_MAX_WITHDRAWALS - length ws)%nat with 0%nat in * by lia.
    cbn [take]. destruct (IH ws t seen) as (ws' & -> & Hsw & Hget); [done..|lia|].
    replace (MAINNET_MAX_WITHDRAWALS - length ws)%nat with 0%nat in Hget by lia. cbn [take] in Hget.
    exists ws'. split; [|split; [done|]].
    + rewrite filter_cons_False by (fold a0; set_solver). do 3 f_equal. apply list_filter_iff. intros x.
      by replace (MAINNET_MAX_WITHDRAWALS - length ws)%nat with 0%nat by lia.
    + intros a. rewrite Hget. destruct (decide _) as [H|H]; [|done].
      rewrite decide_False; [done|]. intros <-. set_solver.
Qed.

Lemma collect_satoshi (ws : list (Address * Z)) :
  (forall a v, (a, v) ∈ ws -> 0 <= v * 10 < 2 ^ 64) ->
  collect (fun p : Address * Z => x ← Engine.from_satoshi p.2; Ok (p.1, x)) ws
  = Ok (E:=Error) (map (fun p => (p.1, p.2 * 10)) ws).
Proof.
  intros H. apply collect_Ok. induction ws as [|[a v] ws IH]; constructor.
  - cbn. unfold Engine.from_satoshi. rewrite mul_chk_ok; [done|]. apply (H a). by left.
  - apply IH. intros a' v' Hin. apply (H a'). by right.
Qed.

(** Every queued peg-in the wallet already knows is dropped, the rest stay. *)
Lemma drop_processed_spec w ids q q' :
  BTree.sorted q = true -> drop_processed w ids q = Ok q' ->
  BTree.sorted q' = true /\
  forall k, BTree.get k q' = if bool_decide (k ∈ ids) && bool_decide (is_Some (Wallet.raw_txs w !! k))
                             then None else BTree.get k q.
Proof.
  revert q. induction ids as [|id ids IH]; intros q Hs H; cbn in H.
  { injection H as <-. split; [done|]. intros k.
    by rewrite (bool_decide_false (k ∈ [])) by apply not_elem_of_nil. }
  unfold mbind, res_bind in H.
  destruct (unwrap_res (Wallet.get_tx id w)) as [known| |] eqn:Ek; try done.
  assert (known = Wallet.raw_txs w !! id) as ->.
  { unfold Wallet.get_tx in Ek. destruct (Wallet.db_ok w); by simplify_eq/=. }
  apply IH in H as [Hs' Hg]; [|by case_match; [apply BTree.sorted_remove|]].
  split; [done|]. intros k. rewrite Hg. destruct (decide (k = id)) as [->|Hne].
  - rewrite (bool_decide_true (id ∈ id :: ids)) by (apply elem_of_cons; by left). cbn [andb].
    destruct (Wallet.raw_txs w !! id) as [x|] eqn:Ex.
    + rewrite (bool_decide_true (is_Some (Some x))) by done. rewrite andb_true_r.
      rewrite BTree.get_remove, (bool_decide_true (id = id)) by done.
      by destruct (bool_decide (id ∈ ids)).
    + rewrite (bool_decide_false (is_Some None)) by (by intros [? ?]). by rewrite andb_false_r.
  - assert (bool_decide (k ∈ id :: ids) = bool_decide (k ∈ ids)) as ->.
    { apply bool_decide_ext. rewrite elem_of_cons. naive_solver. }
    destruct (bool_decide (k ∈ ids) && _); [done|].
    destruct (Wallet.raw_txs w !! id); [|done]. by rewrite BTree.get_remove, bool_decide_false.
Qed.

Lemma drop_processed_ok w ids q :
  Wallet.db_ok w = true ->
  exists q', drop_processed w ids q = Ok q' /\ sublist (BTree.values q') (BTree.values q).
Proof.
  intros Hw. revert q. induction ids as [|id ids IH]; intros q; cbn; [by exists q|].
  unfold Wallet.get_tx. rewrite Hw. cbn. destruct (Wallet.raw_txs w !! id).
  - destruct (IH (BTree.remove id q)) as (q' & -> & Hq). exists q'. split; [done|].
    etrans; [exact Hq|]. apply BTree.sublist_remove.
  - apply IH.
Qed.

(** C16: What a new block credits. With a wallet database that can be read, a
    queue in the order of its keys and amounts that fit, [fill_pegins] succeeds.
    It drops the peg-ins the wallet already has and no others. Of those left it
    serves the first sixteen different accounts: it lists exactly their peg-ins,
    in the order of the queue, and adds, for each of these accounts and no other,
    one balance of ten Gwei for every satoshi of all the account's peg-ins. *)
Theorem fill_pegins_exact w q balances :
  Wallet.db_ok w = true -> BTree.sorted q = true ->
  Forall (fun p => 0 <= pi_amount p) (BTree.values q) -> amounts (BTree.values q) * 10 < 2 ^ 64 ->
  exists added left,
    fill_pegins w q balances
    = Ok (balances ++ added,
          map (fun p => (pi_txid p, pi_block_hash p))
              (filter (fun p => pi_evm_account p ∈ served (BTree.values left)) (BTree.values left)),
          left) /\
    (forall id, BTree.get id left = match Wallet.raw_txs w !! id with
                                    | Some _ => None
                                    | None => BTree.get id q
                                    end) /\
    BTree.sorted added = true /\ (length added <= MAINNET_MAX_WITHDRAWALS)%nat /\
    (forall a, BTree.get a added = if decide (a ∈ served (BTree.values left))
                                   then Some (10 * pegged a (BTree.values left)) else None).
Proof.
  intros Hw Hq Hpos Hsum. unfold fill_pegins, mbind, res_bind.
  destruct (drop_processed_ok w (BTree.keys q) q Hw) as (q' & Hd & Hsub). rewrite Hd.
  apply drop_processed_spec in Hd as [Hq' Hget]; [|done].
  assert (Forall (fun p => 0 <= pi_amount p) (BTree.values q')) as Hpos'.
  { apply Forall_forall. intros p Hp. eapply Forall_forall in Hpos; [exact Hpos|]. by eapply elem_of_sublist. }
  pose proof (amounts_sublist _ _ Hsub Hpos) as Hle.
  destruct (take_pegins_spec (BTree.values q') [] 0 []) as (ws & -> & Hs & Hws);
    [done|cbn; lia| |done|lia|done|lia|].
  { intros a. split; [by intros ?%not_elem_of_nil|by intros [? ?]]. }
  rewrite collect_satoshi.
  2:{ intros a v Hin%BTree.get_elem; [|done]. rewrite Hws in Hin. case_decide; [|done].
      injection Hin as <-. cbn. pose proof (pegged_bounds a _ Hpos'). lia. }
  assert (forall a, a ∈ [] \/ a ∈ served (BTree.values q') <-> a ∈ served (BTree.values q')) as Hor
    by (intros a; rewrite elem_of_nil; naive_solver).
  exists (map (fun p => (p.1, p.2 * 10)) ws), q'. split_and!.
  - do 4 f_equal. apply list_filter_iff. intros p. apply Hor.
  - intros id. rewrite Hget. destruct (Wallet.raw_txs w !! id) as [x|] eqn:Ex.
    + rewrite (bool_decide_true (is_Some _)), andb_true_r by done.
      case_bool_decide as Hin; [done|]. rewrite BTree.elem_get in Hin.
      destruct (BTree.get id q); [by destruct Hin|done].
    + rewrite (bool_decide_false (is_Some _)), andb_false_r by (by intros [? ?]). done.
  - by rewrite (BTree.sorted_map (fun v => v * 10)).
  - rewrite length_map. replace (length ws) with (length (BTree.keys ws)) by apply length_map.
    etrans; [|apply (firstn_le_length MAINNET_MAX_WITHDRAWALS (distinct [] (map pi_evm_account (BTree.values q'))))].
    apply submseteq_length, NoDup_submseteq; [by apply BTree.sorted_NoDup|].
    intros a Ha%BTree.elem_get. rewrite Hws in Ha. case_decide as H; [by apply Hor|by destruct Ha].
  - intros a. rewrite (BTree.get_map (fun v => v * 10)), Hws. destruct (decide (a ∈ served _)) as [H|H].
    + rewrite decide_True by (by right). cbn. f_equal. lia.
    + rewrite decide_False; [done|]. by rewrite Hor.
Qed.

(** ** Lemmas: withdrawals *)

Lemma remove_expected_get e x k v :
  BTree.sorted e = true -> BTree.get k e = Some v ->
  BTree.get k (remove_expected e x) = Some v \/ (w_address x = k /\ amount x = v).
Proof.
  intros Hs Hg. unfold remove_expected. destruct (BTree.get (w_address x) e) as [a|] eqn:E; [|by left].
  destruct (Z.eqb_spec a (amount x)) as [->|]; [|by left].
  rewrite BTree.get_remove by done. case_bool_decide as Hk; [right; by subst; simplify_eq|by left].
Qed.

Lemma sorted_remove_expected e x :
  BTree.sorted e = true -> BTree.sorted (remove_expected e x) = true.
Proof.
  intros Hs. unfold remove_expected. case_match; [|done]. case_match; [|done].
  by apply BTree.sorted_remove.
Qed.

Lemma removed_all_paid ws e k v :
  BTree.sorted e = true -> foldl remove_expected e ws = [] -> BTree.get k e = Some v ->
  exists x, x ∈ ws /\ w_address x = k /\ amount x = v.
Proof.
  revert e. induction ws as [|x ws IH]; intros e Hs H Hg; cbn in H; [by subst|].
  destruct (remove_expected_get e x k v Hs Hg) as [Hg'|[? ?]].
  - destruct (IH _ (sorted_remove_expected e x Hs) H Hg') as (y & ? & ? & ?).
    exists y. split_and!; [apply elem_of_cons; by right|done|done].
  - exists x. split_and!; [apply elem_of_cons; by left|done|done].
Qed.

(** The peg-ins of a block are new and confirmed, and are merged per account. *)
Lemma expect_pegins_inv w br l e e' :
  BTree.sorted e = true -> expect_pegins w br l e = Ok e' ->
  BTree.sorted e' = true /\
  exists infos,
    Forall2 (fun p info => Wallet.raw_txs w !! p.1 = None /\
               Bridge.get_confirmed_pegin_from_txid br p.1 p.2 = Ok info) l infos /\
    forall a, BTree.get a e' = if decide (a ∈ map pi_evm_account infos)
                               then Some (default 0 (BTree.get a e) + 10 * pegged a infos)
                               else BTree.get a e.
Proof.
  revert e. induction l as [|[id bh] l IH]; intros e Hs H; cbn in H.
  { injection H as <-. split; [done|]. exists []. split; [constructor|]. done. }
  unfold mbind, res_bind in H. destruct (map_err _ (Wallet.get_tx _ _)) as [[]| |] eqn:Ew; try done.
  destruct (map_err _ (Bridge.get_confirmed_pegin_from_txid _ _ _)) as [info| |] eqn:Ei; try done.
  destruct (Engine.from_satoshi _) as [x| |] eqn:Ex; try done. apply chk_inv in Ex as [-> _].
  destruct (Engine.amount_add _ _) as [s| |] eqn:Es; try done. apply chk_inv in Es as [-> _].
  apply IH in H as (Hs' & infos & Hf & Hget); [|by apply BTree.sorted_insert].
  split; [done|]. exists (info :: infos). split.
  - constructor; [|done]. cbn. split.
    + unfold Wallet.get_tx in Ew. destruct (Wallet.db_ok w); [|done]. by injection Ew.
    + by destruct (Bridge.get_confirmed_pegin_from_txid _ _ _) as [i| |]; cbn in Ei; simplify_eq.
  - intros a. rewrite Hget, BTree.get_insert. cbn [map pegged].
    destruct (decide (a ∈ pi_evm_account info :: _)) as [H|H]; rewrite elem_of_cons in H.
    + case_bool_decide as E; [subst a; rewrite (decide_True (P:=_ = _)) by done|].
      * case_decide; cbn; f_equal; [lia|].
        rewrite pegged_none by done. lia.
      * rewrite decide_True by naive_solver. rewrite (decide_False (P:=_ = _)) by congruence. cbn. f_equal; lia.
    + rewrite decide_False by naive_solver. rewrite bool_decide_false by naive_solver. done.
Qed.

Lemma sorted_from_list (l : list (Address * Z)) : BTree.sorted (BTree.from_list l) = true.
Proof.
  unfold BTree.from_list. assert (BTree.sorted (V:=Z) [] = true) as H by done.
  revert H. generalize (@nil (list Z * Z)). induction l as [|p l IH]; intros m Hm; cbn; [done|].
  apply IH. by apply BTree.sorted_insert.
Qed.

(** What the check expects of the fees of an AuxPow block, in Gwei: a member of
    the federation gets an equal part of what is left after eighty percent, and
    the miner the eighty percent, unless it is a member: then it only gets a
    member's part. *)
Definition fee_share (federation : list Address) (fees : Z) (header : option AuxPowHeader)
    (a : Address) : option Z :=
  match header with
  | Some h =>
      if decide (fees = 0) then None
      else if decide (a ∈ federation)
      then Some ((fees - fees * 80 / 100) / Z.of_nat (length federation) / 10 ^ 9)
      else if decide (a = a_fee_recipient h) then Some (fees * 80 / 100 / 10 ^ 9) else None
  | None => None
  end.

Lemma split_fees_inv federation fees miner l :
  split_fees federation fees miner = Ok l -> fees <> 0 ->
  l = (miner, fees * 80 / 100 / 10 ^ 9)
      :: map (fun a => (a, (fees - fees * 80 / 100) / Z.of_nat (length federation) / 10 ^ 9)) federation.
Proof.
  unfold split_fees. intros H Hne. replace (fees =? 0) with false in H by lia.
  unfold mbind, res_bind in H. destruct (mul_chk 256 fees 80) as [m| |] eqn:Em; try done.
  apply chk_inv in Em as [-> _]. destruct (sub_chk 256 fees _) as [rest| |] eqn:Er; try done.
  apply chk_inv in Er as [-> _]. destruct (div_chk _ _) as [q| |] eqn:Eq; try done.
  unfold div_chk in Eq. destruct (_ =? 0) eqn:En; [done|]. injection Eq as <-.
  destruct (Engine.from_wei (fees * 80 / 100)) as [x| |] eqn:Ex; try done.
  apply chk_inv in Ex as [-> _].
  destruct (collect _ federation) as [members| |] eqn:Ec; try done. injection H as <-. f_equal.
  apply collect_Ok in Ec. clear En. revert Ec. generalize (Z.of_nat (length federation)) as n. intros n.
  induction 1 as [|a p fed ms Hp Hps IH]; [done|]. cbn [map]. f_equal; [|done].
  destruct (Engine.from_wei _) as [y| |] eqn:Ey; [|done..]. injection Hp as <-.
  by apply chk_inv in Ey as [-> _].
Qed.

Lemma get_members (fed : list Address) (x : Z) a :
  BTree.get a (map (fun a => (a, x)) fed) = if decide (a ∈ fed) then Some x else None.
Proof.
  induction fed as [|b fed IH]; [done|]. cbn [map BTree.get]. rewrite IH.
  case_bool_decide; repeat case_decide; set_solver.
Qed.

(** The map that is collected from the split is the share of every account. *)
Lemma split_fees_share federation fees h l a :
  split_fees federation fees (a_fee_recipient h) = Ok l ->
  BTree.get a (BTree.from_list l) = fee_share federation fees (Some h) a.
Proof.
  intros H. unfold fee_share, BTree.from_list. destruct (decide (fees = 0)) as [->|Hne].
  { injection H as <-. done. }
  rewrite (split_fees_inv _ _ _ _ H Hne). cbn [foldl]. rewrite BTree.get_from_list, BTree.get_insert.
  change (map ?f federation) with (f <$> federation). rewrite <-fmap_reverse.
  change (?f <$> reverse federation) with (map f (reverse federation)). rewrite get_members. cbn.
  destruct (decide (a ∈ reverse federation)) as [Hin|Hin]; rewrite elem_of_reverse in Hin.
  - by rewrite decide_True.
  - rewrite decide_False by done. case_bool_decide; case_decide; done.
Qed.

(** C17: A block that passes the check pays everything it owes. When it carries
    work, the fees collected up to its parent are stored. Its peg-ins are all
    confirmed on Bitcoin and not yet in the wallet. And for every account with a
    share of the fees or a peg-in there is a withdrawal of exactly its share and
    ten Gwei for every satoshi of its peg-ins. *)
Theorem checked_withdrawals_pay d w br federation b :
  check_withdrawals d w br federation b = Ok tt ->
  exists fees infos,
    (is_Some (auxpow_header (message b)) ->
     Store.get_accumulated_block_fees d (parent_hash (message b)) = Ok (Some fees)) /\
    Forall2 (fun p info => Wallet.raw_txs w !! p.1 = None /\
               Bridge.get_confirmed_pegin_from_txid br p.1 p.2 = Ok info) (pegins (message b)) infos /\
    forall a, is_Some (fee_share federation fees (auxpow_header (message b)) a) \/
              a ∈ map pi_evm_account infos ->
      exists x, x ∈ withdrawals (execution_payload (message b)) /\ w_address x = a /\
        amount x = default 0 (fee_share federation fees (auxpow_header (message b)) a)
                   + 10 * pegged a infos.
Proof.
  unfold check_withdrawals, mbind, res_bind. intros H.
  destruct (match auxpow_header (message b) with Some _ => _ | None => _ end) as [e0| |] eqn:E0;
    try done.
  assert (exists fees, (is_Some (auxpow_header (message b)) ->
             Store.get_accumulated_block_fees d (parent_hash (message b)) = Ok (Some fees)) /\
           BTree.sorted e0 = true /\
           forall a, BTree.get a e0 = fee_share federation fees (auxpow_header (message b)) a)
    as (fees & Hfees & Hs0 & He0).
  { destruct (auxpow_header (message b)) as [h|];
      [|injection E0 as <-; exists 0; by split_and!; [intros [? ?]|..]].
    destruct (queued_fees _ _) as [fees| |] eqn:Eq; try done.
    destruct (split_fees _ _ _) as [l| |] eqn:El; try done. injection E0 as <-. exists fees. split_and!.
    - intros _. unfold queued_fees, mbind, res_bind in Eq.
      destruct (Store.get_accumulated_block_fees _ _) as [[f|]| |]; try done. by injection Eq as <-.
    - apply sorted_from_list.
    - intros a. by apply split_fees_share. }
  destruct (expect_pegins _ _ _ _) as [e| |] eqn:Ee; try done.
  destruct (expect_pegins_inv _ _ _ _ _ Hs0 Ee) as (Hs & infos & Hf & Hget).
  exists fees, infos. split_and!; [done..|]. intros a Ha.
  destruct (foldl remove_expected e _) eqn:El; [|done].
  apply (removed_all_paid _ e); [done|done|]. rewrite Hget, !He0.
  destruct (decide (a ∈ map pi_evm_account infos)) as [|Hn]; [done|].
  destruct Ha as [[x Hx]|]; [|done]. rewrite Hx. cbn. f_equal.
  rewrite pegged_none by done. lia.
Qed.

(** Withdrawals nobody owes are not rejected: a block without AuxPow and
    without peg-ins passes the check whatever it withdraws, to whichever
    accounts. *)
Theorem unexpected_withdrawals_accepted d w br federation b :
  auxpow_header (message b) = None -> pegins (message b) = [] ->
  check_withdrawals d w br federation b = Ok tt.
Proof.
  intros Ha Hp. unfold check_withdrawals. rewrite Ha, Hp. cbn.
  assert (forall ws, foldl remove_expected [] ws = []) as ->; [|done].
  induction ws as [|x ws IH]; [done|]. apply IH.
Qed.

End WithLibs.

Module Witness.
#[local] Existing Instance ExampleLib.lib.
#[local] Existing Instance Signatures.Example.bls.
#[local] Existing Instance ExampleSerial.blocks.
#[local] Existing Instance Store.Witness.lib.
#[local] Existing Instance Bridge.Witness.wlib.
#[local] Existing Instance Bridge.Witness.lib.

Lemma split_fees_conserves_witness :
  exists l, split_fees [[1]; [2]] (10 ^ 18) [3] = Ok l /\ map fst l = [[3]; [1]; [2]] /\
    total l * 10 ^ 9 <= 10 ^ 18 < total l * 10 ^ 9 + (2 + 1) * (10 ^ 9 + 1).
Proof. apply (split_fees_conserves [[1]; [2]] (10 ^ 18) [3]); [lia|discriminate]. Defined.

Definition wallet : Wallet.t :=
  Wallet.mk ∅ ∅ true (Wallet.mkFederation [81] [] [] 1 [] 0).
Definition deposit_info : PegInInfo :=
  mkPegIn (txid Bridge.Witness.deposit) zero_hash 700 [5; 5] 300.
Definition waiting : list (hash * PegInInfo) := [(txid Bridge.Witness.deposit, deposit_info)].

Lemma fill_pegins_exact_witness :
  exists added left,
    fill_pegins wallet waiting [([3], 7)]
    = Ok ([([3], 7)] ++ added,
          map (fun p => (pi_txid p, pi_block_hash p))
              (filter (fun p => pi_evm_account p ∈ served (BTree.values left)) (BTree.values left)),
          left) /\
    BTree.get [5; 5] added = if decide ([5; 5] ∈ served (BTree.values left))
                             then Some (10 * pegged [5; 5] (BTree.values left)) else None.
Proof.
  destruct (fill_pegins_exact wallet waiting [([3], 7)]) as (added & left & H & _ & _ & _ & Ha).
  - reflexivity.
  - reflexivity.
  - repeat constructor; discriminate.
  - reflexivity.
  - exists added, left. split; [exact H|apply Ha].
Defined.

(** The fees of the parent block, and a block over it with given contents. *)
Definition db : Store.Db := Store.run_writes [Store.SetFees zero_hash (10 ^ 12)] (Store.mkDb ∅ true true).
Definition block (header : option AuxPowHeader) (pegins : list (hash * hash))
    (ws : list (Address * Z)) : SignedConsensusBlock :=
  mkSigned (mkBlock zero_hash 1 header
    (mkPayload zero_hash [] zero_hash zero_hash [] zero_hash 1 0 0 0 [] 0 zero_hash []
               (map Engine.into_withdrawal ws)) pegins None [])
    Signatures.new.

Definition header : AuxPowHeader := mkAuxPowHeader zero_hash zero_hash 0 0 1 None [3].
Definition paying : SignedConsensusBlock := block (Some header) [] [([3], 800); ([1], 200)].

Lemma checked_withdrawals_pay_witness :
  exists x, x ∈ withdrawals (execution_payload (message paying)) /\ w_address x = [3] /\ amount x = 800.
Proof.
  destruct (checked_withdrawals_pay db wallet Bridge.Witness.node [[1]] paying)
    as (fees & infos & Hf & Hi & Hp); [vm_compute; reflexivity|].
  assert (fees = 10 ^ 12) as ->.
  { specialize (Hf (ex_intro _ header eq_refl)). vm_compute in Hf. by injection Hf as <-. }
  assert (infos = []) as -> by (by inversion Hi).
  destruct (Hp [3]) as (x & Hx & Ha & Hv); [left; vm_compute; by eexists|].
  exists x. split; [exact Hx|]. split; [exact Ha|]. rewrite Hv. vm_compute. reflexivity.
Defined.

Lemma unexpected_withdrawals_accepted_witness :
  check_withdrawals db wallet Bridge.Witness.node [[1]] (block None [] [([66], 10 ^ 18)]) = Ok tt.
Proof. apply unexpected_withdrawals_accepted; reflexivity. Defined.

(** Producer and check disagree when a receiver of fees also pegs in: the
    producer lists the fee and the peg-in as two withdrawals, the check expects
    one of their sum, so the block the node itself builds is rejected. *)
Theorem fee_receiver_pegin_rejected :
  exists fees added ps q,
    split_fees [[5; 5]] (10 ^ 12) [3] = Ok fees /\
    fill_pegins wallet waiting fees = Ok (added, ps, q) /\
    check_withdrawals db wallet Bridge.Witness.node [[5; 5]] (block (Some header) ps added)
    = Err UnknownWithdrawal.
Proof.
  exists [([3], 800); ([5; 5], 200)], [([3], 800); ([5; 5], 200); ([5; 5], 7000)],
    [(txid Bridge.Witness.deposit, zero_hash)], waiting.
  split; [vm_compute; reflexivity|]. split; vm_compute; reflexivity.
Qed.

End Witness.

End Payouts.
