(* ===== verification/ChainRange.v ===== *)
(** Walks along parent links of the stored chain ([app/src/chain.rs]): the
    hashes of a range, the payment proposals of a range, the AuxPow block to
    roll back to, the last finalized block, and the blocks served to peers.

    The loops of the sources end when they meet the block they look for. Their
    models carry fuel, one more than the number of database entries: a walk
    that does not end by then visits a block twice and would go on forever, and
    counts as not returning ([Panic]). *)
From stdpp Require Import base decidable list gmap.
From Stdlib Require Import ZArith Lia.
From S2P Require Import Prelude Bitcoin Errors AuxPow Signatures Block Serial Store.

Module ChainRange.
Import Store.

Section WithLibs.
Context `{L : BlsLib, K : BlockLib, S : StoreLib}.

Abbreviation number b := (block_number (execution_payload (message b))).

Definition walk_fuel (d : Db) : nat := Datatypes.S (size (kv d)).

(** [Error::GenericError(Report::from(e))] for a failing lookup. *)
Definition lookup_block {E} (d : Db) (h : hash) (missing generic : E) :
    res E SignedConsensusBlock :=
  match get_block d h with
  | Ok (Some b) => Ok b
  | Ok None => Err missing
  | Err _ => Err generic
  | Panic => Panic
  end.

Definition get_parent (d : Db) (b : SignedConsensusBlock) : res Error SignedConsensusBlock :=
  o ← map_err (fun _ => MissingParent) (get_block d (parent_hash (message b)));
  ok_or o MissingParent.

(** The loop of [get_hashes], newest first. *)
Fixpoint hashes_back (fuel : nat) (d : Db) (from current : hash) : res Error (list hash) :=
  match fuel with
  | O => Panic
  | Datatypes.S fuel' =>
      if bool_decide (current = from) then Ok []
      else
        b ← lookup_block d current InvalidBlockRange GenericError;
        rest ← hashes_back fuel' d from (parent_hash (message b));
        Ok (current :: rest)
  end.

Definition get_hashes (d : Db) (from to : hash) : res Error (list hash) :=
  from_block ← get_block d from;
  from_block ← ok_or from_block MissingBlock;
  to_block ← get_block d to;
  to_block ← ok_or to_block MissingBlock;
  if number to_block <=? number from_block then Ok [from]
  else
    hashes ← hashes_back (walk_fuel d) d from to;
    Ok (reverse hashes).

(** The loop of [get_bitcoin_payment_proposals_in_range], newest first; the
    range includes its start. *)
Fixpoint proposals_back (fuel : nat) (d : Db) (from current : hash) :
    res Error (list Transaction) :=
  match fuel with
  | O => Panic
  | Datatypes.S fuel' =>
      b ← lookup_block d current InvalidBlockRange GenericError;
      let here := match pegout_payment_proposal (message b) with Some p => [p] | None => [] end in
      if bool_decide (current = from) then Ok here
      else
        rest ← proposals_back fuel' d from (parent_hash (message b));
        Ok (here ++ rest)
  end.

Definition get_bitcoin_payment_proposals_in_range (d : Db) (from to : hash) :
    res Error (list Transaction) :=
  ret ← proposals_back (walk_fuel d) d from to;
  Ok (reverse ret).

(** The loop of [find_pow_block_for_rollback]. *)
Fixpoint pow_back (fuel : nat) (d : Db) (current : SignedConsensusBlock) :
    res Error (option SignedConsensusBlock) :=
  match fuel with
  | O => Panic
  | Datatypes.S fuel' =>
      match auxpow_header (message current) with
      | Some _ => Ok (Some current)
      | None =>
          if is_zero (parent_hash (message current)) then Ok None
          else
            parent ← get_block d (parent_hash (message current));
            parent ← ok_or parent MissingParent;
            pow_back fuel' d parent
      end
  end.

Definition find_pow_block_for_rollback (d : Db) (target_height : Z) :
    res Error (option SignedConsensusBlock) :=
  target_block ← get_block_by_height d target_height;
  target_block ← ok_or target_block MissingBlock;
  pow_back (walk_fuel d) d target_block.

(** The end of the range the latest AuxPow covers; the genesis is its own. *)
Definition get_latest_finalized_block_ref (d : Db) : res Error (option BlockRef) :=
  latest ← get_latest_pow_block d;
  match latest with
  | None => Ok None
  | Some blockref =>
      pow_block ← lookup_block d (ref_hash blockref) InvalidBlockRange GenericError;
      pow ← ok_or (auxpow_header (message pow_block)) InvalidBlockRange;
      if negb (a_height pow =? 0) then
        b ← lookup_block d (range_end pow) InvalidBlockRange GenericError;
        Ok (Some (block_ref b))
      else Ok (Some blockref)
  end.

(** ** Blocks for peers *)

(** The fallback: walk back from the head while the height is at least
    [start_height], writing the height index on the way; oldest first. *)
Fixpoint blocks_from_head (fuel : nat) (d : Db) (start_height : Z) (current : hash) :
    res Error (list SignedConsensusBlock * list SignedConsensusBlock) :=
  match fuel with
  | O => Panic
  | Datatypes.S fuel' =>
      b ← unwrap_res (get_block d current);
      match b with
      | None => Ok ([], [])
      | Some b =>
          if number b <? start_height then Ok ([], [])
          else if is_zero (parent_hash (message b)) then Ok ([b], [b])
          else
            '(bs, puts) ← blocks_from_head fuel' d start_height (parent_hash (message b));
            Ok (bs ++ [b], b :: puts)
      end
  end.

(** The main loop over [i in 0..requested_count]; the second component are the
    blocks whose height entry is rewritten. *)
Fixpoint blocks_loop (n : nat) (d : Db) (head : BlockRef) (start i : Z) :
    res Error (list SignedConsensusBlock * list SignedConsensusBlock) :=
  match n with
  | O => Ok ([], [])
  | Datatypes.S n' =>
      if ref_height head <? i then Ok ([], [])
      else
        current_height ← add_chk 64 start i;
        b ← get_block_by_height d current_height;
        match b with
        | None => blocks_from_head (walk_fuel d) d current_height (ref_hash head)
        | Some b =>
            '(bs, puts) ← blocks_loop n' d head start (i + 1);
            Ok (b :: bs, puts)
        end
  end.

Definition get_blocks (head : option BlockRef) (start_height requested_count : Z) :
    ST Db Error (list SignedConsensusBlock) :=
  d ← getS;
  head_ref ← liftR (ok_or head (ChainError (BlockRetrievalError Head)));
  '(bs, puts) ← liftR (blocks_loop (Z.to_nat requested_count) d head_ref start_height 0);
  modifyS (fun d => foldl (fun d b => (commit_ops (put_block_by_height b) d).2) d puts) ;;
  mret bs.

(** ** The chain between two blocks *)

(** [path d from to l]: following parents from [to] reaches [from], and [l] are
    the hashes passed, oldest first, without [from]. *)
Inductive path (d : Db) (from : hash) : hash -> list hash -> Prop :=
| path_here : path d from from []
| path_step h b l :
    h <> from -> get_block d h = Ok (Some b) -> path d from (parent_hash (message b)) l ->
    path d from h (l ++ [h]).

Lemma hashes_back_sound fuel d from to l :
  hashes_back fuel d from to = Ok l -> path d from to (reverse l).
Proof.
  revert to l. induction fuel as [|fuel IH]; intros to l H; cbn in H; [done|].
  case_bool_decide as E; [injection H as <-; subst; constructor|].
  unfold lookup_block, mbind, res_bind in H.
  destruct (get_block d to) as [[b|]| |] eqn:Eb; try done.
  destruct (hashes_back fuel d from (parent_hash (message b))) as [rest| |] eqn:Er; try done.
  injection H as <-. rewrite reverse_cons. econstructor; [done|done|]. by apply IH.
Qed.

Lemma hashes_back_complete d from to l :
  path d from to l -> forall fuel, (length l < fuel)%nat ->
  hashes_back fuel d from to = Ok (reverse l).
Proof.
  induction 1 as [|h b l Hne Hb Hp IH]; intros [|fuel] Hf; try lia; cbn.
  - by rewrite bool_decide_true.
  - rewrite bool_decide_false by done. unfold lookup_block. rewrite Hb. cbn.
    rewrite length_app in Hf. cbn in Hf. rewrite IH by lia. by rewrite reverse_snoc.
Qed.

(** The hashes of a path are stored, and different when heights decrease. *)
Lemma path_stored d from to l :
  path d from to l -> Forall (fun h => exists b, get_block d h = Ok (Some b)) l.
Proof.
  induction 1 as [|h b l Hne Hb Hp IH]; [constructor|].
  apply Forall_app. split; [done|]. constructor; [eauto|constructor].
Qed.

(** More blocks keep the paths; a later start cuts them. *)
Lemma path_mono d d' from to l :
  (forall h b, get_block d h = Ok (Some b) -> get_block d' h = Ok (Some b)) ->
  path d from to l -> path d' from to l.
Proof. intros Hm. induction 1; [constructor|econstructor; eauto]. Qed.

Lemma path_suffix d from to pre x post :
  path d from to (pre ++ x :: post) -> x ∉ post -> path d x to post.
Proof.
  intros Hp. remember (pre ++ x :: post) as l eqn:El. revert post El.
  induction Hp as [|h b l Hne Hb Hp IH]; intros post El Hx.
  { by destruct pre. }
  destruct (decide (post = [])) as [->|Hpost].
  - apply app_inj_tail in El as [_ ->]. constructor.
  - destruct (exists_last Hpost) as (post' & y & ->). rewrite app_comm_cons, app_assoc in El.
    apply app_inj_tail in El as [-> ->]. econstructor; [|done|].
    + intros ->. apply Hx, elem_of_app. right. by apply list_elem_of_singleton.
    + apply IH; [done|]. intros Hin. apply Hx, elem_of_app. by left.
Qed.

(** Stored blocks are above their parents. *)
Definition heights_decrease (d : Db) : Prop :=
  forall h b p, get_block d h = Ok (Some b) ->
    get_block d (parent_hash (message b)) = Ok (Some p) -> number p < number b.

Lemma path_lower d from to l bt :
  heights_decrease d -> path d from to l -> get_block d to = Ok (Some bt) ->
  forall h, h ∈ l -> exists b, get_block d h = Ok (Some b) /\ number b <= number bt.
Proof.
  intros Hd Hp. revert bt. induction Hp as [|h b l Hne Hb Hp IH]; intros bt Ht x Hx.
  { by apply not_elem_of_nil in Hx. }
  rewrite Hb in Ht. injection Ht as <-. apply elem_of_app in Hx as [Hx|Hx].
  - inversion Hp as [|? b' ? ? Hb' ?]; subst; [by apply not_elem_of_nil in Hx|].
    destruct (IH b' Hb' x Hx) as (bx & Hbx & Hle). exists bx. split; [done|].
    specialize (Hd _ _ _ Hb Hb'). lia.
  - apply list_elem_of_singleton in Hx as ->. eauto with lia.
Qed.

Lemma path_NoDup d from to l : heights_decrease d -> path d from to l -> NoDup l.
Proof.
  intros Hd. induction 1 as [|h b l Hne Hb Hp IH]; [constructor|].
  apply NoDup_app. split; [done|]. split; [|apply NoDup_singleton].
  intros x Hx Hin. apply list_elem_of_singleton in Hin as ->.
  inversion Hp as [|? b' ? ? Hb' ?]; subst; [by apply not_elem_of_nil in Hx|].
  destruct (path_lower d from _ _ b' Hd Hp Hb' h Hx) as (bx & Hbx & Hle).
  specialize (Hd _ _ _ Hb Hb'). rewrite Hb in Hbx. injection Hbx as <-. lia.
Qed.

(** Different stored hashes are different database entries, so a path is
    shorter than the fuel. *)
Lemma stored_bound `{!StoreLaws S} d (l : list hash) :
  read_ok d = true -> NoDup l ->
  Forall (fun h => exists b, get_block d h = Ok (Some b)) l -> (length l <= size (kv d))%nat.
Proof.
  intros Hr Hnd Hl.
  assert (NoDup (map (col_key Block) l)) as Hnd'.
  { apply NoDup_fmap_2; [|done]. intros x y H. by apply col_key_inj in H as [_ ?]. }
  rewrite <-(length_map (col_key Block) l), <-(size_list_to_set (C:=gset bytes) _ Hnd'), <-size_dom.
  apply subseteq_size. intros k Hk. apply elem_of_list_to_set, list_elem_of_fmap in Hk as (h & -> & Hh).
  eapply Forall_forall in Hl as [b Hb]; [|done]. apply elem_of_dom.
  unfold get_block, get_block_with, get_bytes, mbind, res_bind in Hb. rewrite Hr in Hb. cbn in Hb.
  destruct (kv d !! col_key Block h) eqn:E; [eauto|done].
Qed.

Lemma path_fuel `{!StoreLaws S} d from to l :
  read_ok d = true -> heights_decrease d -> path d from to l -> (length l < walk_fuel d)%nat.
Proof.
  intros Hr Hd Hp. unfold walk_fuel.
  pose proof (stored_bound d l Hr (path_NoDup _ _ _ _ Hd Hp) (path_stored _ _ _ _ Hp)). lia.
Qed.

(** The proposals along a path. *)
Definition proposal_of (d : Db) (h : hash) : list Transaction :=
  match get_block d h with
  | Ok (Some b) => match pegout_payment_proposal (message b) with Some p => [p] | None => [] end
  | _ => []
  end.

Lemma proposals_back_complete d from to l bf :
  get_block d from = Ok (Some bf) -> path d from to l ->
  forall fuel, (length l < fuel)%nat ->
  proposals_back fuel d from to = Ok (reverse (concat (map (proposal_of d) (from :: l)))).
Proof.
  intros Hbf. induction 1 as [|h b l Hne Hb Hp IH]; intros [|fuel] Hf; try lia;
    cbn [proposals_back]; unfold lookup_block.
  - rewrite Hbf. unfold mbind, res_bind. rewrite bool_decide_true by done.
    cbn. unfold proposal_of. rewrite Hbf, app_nil_r. by destruct (pegout_payment_proposal _).
  - rewrite Hb. unfold mbind, res_bind. rewrite bool_decide_false by done.
    rewrite length_app in Hf. cbn in Hf. rewrite IH by lia.
    rewrite app_comm_cons, map_app, concat_app, reverse_app. cbn [map concat]. rewrite app_nil_r.
    assert (proposal_of d h = match pegout_payment_proposal (message b) with
                              | Some p => [p] | None => [] end) as ->
      by (unfold proposal_of; by rewrite Hb).
    by destruct (pegout_payment_proposal (message b)).
Qed.

(** Below the end of a path; its first hash is a child of its start. *)
Lemma path_above d from to l bf bt :
  heights_decrease d -> path d from to l -> l <> [] ->
  get_block d from = Ok (Some bf) -> get_block d to = Ok (Some bt) -> number bf < number bt.
Proof.
  intros Hd Hp. revert bt. induction Hp as [|h b l Hne Hb Hp IH]; intros bt Hl Hf Ht; [done|].
  rewrite Hb in Ht. injection Ht as <-. inversion Hp as [|? b' l' ? Hb' Hp']; subst.
  - by eapply Hd.
  - specialize (IH b' ltac:(by destruct l') Hf Hb'). specialize (Hd _ _ _ Hb Hb'). lia.
Qed.

Lemma path_first d from to x l :
  path d from to (x :: l) ->
  exists b, get_block d x = Ok (Some b) /\ parent_hash (message b) = from.
Proof.
  intros Hp. remember (x :: l) as k eqn:Ek. revert l Ek.
  induction Hp as [|h b k Hne Hb Hp IH]; intros l Ek; [done|].
  destruct k as [|y k]; [|injection Ek as -> _; by eapply IH].
  injection Ek as -> <-. inversion Hp as [E|? ? l' ? ? ? E]; subst; [eauto|by destruct l'].
Qed.

Lemma path_last d from to l x : path d from to l -> last l = Some x -> x = to.
Proof. destruct 1; [done|]. rewrite last_snoc. by intros [= <-]. Qed.

Lemma get_hashes_path `{!StoreLaws S} d from to bf bt :
  read_ok d = true -> heights_decrease d ->
  get_block d from = Ok (Some bf) -> get_block d to = Ok (Some bt) -> number bf < number bt ->
  (forall l, get_hashes d from to = Ok l <-> path d from to l).
Proof.
  intros Hr Hd Hf Ht Hlt l. unfold get_hashes, mbind, res_bind, ok_or. rewrite Hf, Ht.
  replace (number bt <=? number bf) with false by lia. split.
  - destruct (hashes_back _ _ _ _) as [hs| |] eqn:E; [|done..].
    intros [= <-]. by eapply hashes_back_sound.
  - intros Hp. rewrite (hashes_back_complete _ _ _ _ Hp) by (by eapply path_fuel).
    by rewrite reverse_involutive.
Qed.

(** A walk that uses up its fuel has passed that many different blocks. *)
Lemma hashes_back_long d from to fuel :
  heights_decrease d -> (forall h, get_block d h <> Panic) -> hashes_back fuel d from to = Panic ->
  exists l, length l = fuel /\ NoDup l /\
    forall h, h ∈ l -> exists b, get_block d h = Ok (Some b) /\
      forall bt, get_block d to = Ok (Some bt) -> number b <= number bt.
Proof.
  intros Hd Hok. revert to. induction fuel as [|fuel IH]; intros to H; cbn in H.
  { exists []. split_and!; [done|constructor|]. by intros h Hh%not_elem_of_nil. }
  case_bool_decide; [done|]. unfold lookup_block, mbind, res_bind in H.
  destruct (get_block d to) as [[b|]| |] eqn:Eb; [|done|done|by destruct (Hok to)].
  destruct (hashes_back fuel d from _) as [?| |] eqn:Er; try done.
  destruct (IH _ Er) as (l & Hl & Hnd & Hst).
  assert (forall h, h ∈ l -> exists x, get_block d h = Ok (Some x) /\ number x < number b) as Hlow.
  { intros h Hh. destruct (Hst h Hh) as (x & Hx & Hle). exists x. split; [done|].
    destruct fuel; [destruct l; [by apply not_elem_of_nil in Hh|done]|].
    cbn in Er. case_bool_decide; [done|]. unfold lookup_block, mbind, res_bind in Er.
    destruct (get_block d (parent_hash (message b))) as [[p|]| |] eqn:Ep; try done; [|by destruct (Hok _ Ep)].
    specialize (Hle p eq_refl). specialize (Hd _ _ _ Eb Ep). lia. }
  exists (to :: l). split_and!; [cbn; lia| |].
  - constructor; [|done]. intros Hin. destruct (Hlow to Hin) as (x & Hx & Hlt).
    rewrite Eb in Hx. injection Hx as <-. lia.
  - intros h [->|Hh]%elem_of_cons.
    + exists b. split; [done|]. intros bt [= <-]. lia.
    + destruct (Hlow h Hh) as (x & Hx & Hlt). exists x. split; [done|].
      intros bt [= <-]. lia.
Qed.

Lemma hashes_back_ends `{!StoreLaws S} d from to :
  read_ok d = true -> heights_decrease d -> (forall h, get_block d h <> Panic) ->
  hashes_back (walk_fuel d) d from to <> Panic.
Proof.
  intros Hr Hd Hok H. destruct (hashes_back_long _ _ _ _ Hd Hok H) as (l & Hl & Hnd & Hst).
  assert (length l <= size (kv d))%nat; [|unfold walk_fuel in Hl; lia].
  apply stored_bound; [done|done|]. apply Forall_forall. intros h Hh.
  destruct (Hst h Hh) as (b & Hb & _). by exists b.
Qed.

(** A range that starts where it ends is its own start. *)
Lemma get_hashes_self d h b : get_block d h = Ok (Some b) -> get_hashes d h h = Ok [h].
Proof.
  intros Hb. unfold get_hashes, mbind, res_bind, ok_or. rewrite Hb.
  by rewrite Z.leb_refl.
Qed.

(** Walking back to an AuxPow block. *)
Inductive pow_ancestor (d : Db) : SignedConsensusBlock -> option SignedConsensusBlock -> Prop :=
| pow_here b h : auxpow_header (message b) = Some h -> pow_ancestor d b (Some b)
| pow_genesis b : auxpow_header (message b) = None -> is_zero (parent_hash (message b)) = true ->
    pow_ancestor d b None
| pow_parent b p r : auxpow_header (message b) = None -> is_zero (parent_hash (message b)) = false ->
    get_block d (parent_hash (message b)) = Ok (Some p) -> pow_ancestor d p r -> pow_ancestor d b r.

Lemma pow_back_sound fuel d b r : pow_back fuel d b = Ok r -> pow_ancestor d b r.
Proof.
  revert b. induction fuel as [|fuel IH]; intros b H; cbn in H; [done|].
  destruct (auxpow_header (message b)) as [h|] eqn:Eh; [injection H as <-; by econstructor|].
  destruct (is_zero (parent_hash (message b))) eqn:Ez; [injection H as <-; by constructor|].
  unfold mbind, res_bind in H. destruct (get_block d (parent_hash (message b))) as [[p|]| |] eqn:Ep;
    try done. eapply pow_parent; eauto.
Qed.

(** ** Properties *)

(** C15: What [get_hashes] returns, on a store that can be read and whose blocks
    are above their parents. It ends. It succeeds only when both blocks are
    stored, and then: when the end is not above the start, the result is the
    start alone; when it is above, the result are the hashes after [from] up to
    and including [to], oldest first, and only when [from] is an ancestor of
    [to]. *)
Theorem get_hashes_spec `{!StoreLaws S} d from to :
  read_ok d = true -> heights_decrease d -> (forall h, get_block d h <> Panic) ->
  get_hashes d from to <> Panic /\
  (forall l, get_hashes d from to = Ok l <->
     exists bf bt, get_block d from = Ok (Some bf) /\ get_block d to = Ok (Some bt) /\
       (number bt <= number bf /\ l = [from] \/ number bf < number bt /\ path d from to l)).
Proof.
  intros Hr Hd Hok. split.
  - unfold get_hashes, mbind, res_bind, ok_or.
    destruct (get_block d from) as [[bf|]| |] eqn:Ef; [|done|done|by destruct (Hok from)].
    destruct (get_block d to) as [[bt|]| |] eqn:Et; [|done|done|by destruct (Hok to)].
    destruct (_ <=? _); [done|]. pose proof (hashes_back_ends d from to Hr Hd Hok).
    by destruct (hashes_back _ _ _ _).
  - intros l. split.
    + intros H. destruct (get_block d from) as [[bf|]| |] eqn:Ef;
        destruct (get_block d to) as [[bt|]| |] eqn:Et;
        try (unfold get_hashes, mbind, res_bind, ok_or in H; rewrite ?Ef, ?Et in H; done).
      exists bf, bt. split_and!; [done..|]. destruct (Z.le_gt_cases (number bt) (number bf)) as [Hle|Hgt].
      * left. split; [done|]. unfold get_hashes, mbind, res_bind, ok_or in H. rewrite Ef, Et in H.
        replace (number bt <=? number bf) with true in H by lia. by injection H as <-.
      * right. split; [done|]. by apply (get_hashes_path d from to bf bt).
    + intros (bf & bt & Ef & Et & [[Hle ->]|[Hlt Hp]]); [|by apply (get_hashes_path d from to bf bt)].
      unfold get_hashes, mbind, res_bind, ok_or. rewrite Ef, Et.
      by replace (number bt <=? number bf) with true by lia.
Qed.

(** The payment proposals of a range are those of its blocks, both ends
    included, in chronological order. *)
Theorem proposals_in_range_spec `{!StoreLaws S} d from to bf l :
  read_ok d = true -> heights_decrease d ->
  get_block d from = Ok (Some bf) -> path d from to l ->
  get_bitcoin_payment_proposals_in_range d from to
  = Ok (concat (map (proposal_of d) (from :: l))).
Proof.
  intros Hr Hd Hf Hp. unfold get_bitcoin_payment_proposals_in_range, mbind, res_bind.
  rewrite (proposals_back_complete _ _ _ _ _ Hf Hp) by (by eapply path_fuel).
  by rewrite reverse_involutive.
Qed.

(** The AuxPow block found for a rollback is the target block or its nearest
    ancestor that carries an AuxPow. *)
Theorem rollback_pow_sound d height r :
  find_pow_block_for_rollback d height = Ok r ->
  exists b, get_block_by_height d height = Ok (Some b) /\ pow_ancestor d b r /\
    (forall p, r = Some p -> is_Some (auxpow_header (message p))).
Proof.
  unfold find_pow_block_for_rollback, mbind, res_bind, ok_or. intros H.
  destruct (get_block_by_height d height) as [[b|]| |]; try done.
  exists b. split; [done|]. apply pow_back_sound in H. split; [done|].
  intros p ->. remember (Some p) as r eqn:Er. revert Er.
  induction H as [? ? Hh| |]; intros; simplify_eq; eauto.
Qed.

End WithLibs.

(** ** Witnesses *)

Module Witness.
#[local] Existing Instance Signatures.Example.bls.
#[local] Existing Instance ExampleSerial.blocks.
#[local] Existing Instance ExampleSerial.block_laws.
#[local] Existing Instance Store.Witness.lib.
#[local] Existing Instance Store.Witness.lib_laws.

Definition block_at (parent : hash) (n : Z) (header : option AuxPowHeader)
    (proposal : option Transaction) : SignedConsensusBlock :=
  mkSigned (mkBlock parent n header
    (mkPayload zero_hash [] zero_hash zero_hash [] zero_hash n 0 0 0 [] 0 zero_hash [] [])
    [] proposal []) Signatures.new.

Definition h0 : hash := replicate 32 10.
Definition h1 : hash := replicate 32 11.
Definition h2 : hash := replicate 32 12.
Definition tx1 : Transaction := mkTransaction 2 0 [] [].
Definition b0 : SignedConsensusBlock := block_at zero_hash 0 (Some (genesis_header 0 7)) None.
Definition b1 : SignedConsensusBlock := block_at h0 1 None (Some tx1).
Definition b2 : SignedConsensusBlock := block_at h1 2 None None.

(** Three blocks, filed under simple roots. *)
Definition writes : list write := [PutBlock h0 b0; PutBlock h1 b1; PutBlock h2 b2].
Definition d3 : Db := run_writes writes (mkDb ∅ true true).
Definition v3 : view := foldl (fun v w => view_write w v) empty_view writes.

Lemma put_wf h p n hd pr :
  0 <= n < 2 ^ 64 -> (forall x, hd = Some x -> a_height x = 0) ->
  length h = 32%nat -> write_wf (PutBlock h (block_at p n hd pr)).
Proof. intros Hn Hh Hl. split; [done|]. split; [done|]. intros x Hx. rewrite (Hh x Hx). unfold u64. lia. Qed.

Lemma d3_represents : represents d3 v3.
Proof.
  apply (run_writes_represents writes (mkDb ∅ true true) empty_view); [|apply represents_empty].
  repeat (apply Forall_cons; split; [apply put_wf; [lia|by intros x [= <-]|done]|]). apply Forall_nil_2.
Qed.

Lemma d3_blocks h : get_block d3 h = Ok (v_blocks v3 !! h).
Proof. apply represents_get_block, d3_represents. Qed.

Lemma d3_stored h b : get_block d3 h = Ok (Some b) ->
  (h = h0 /\ b = b0) \/ (h = h1 /\ b = b1) \/ (h = h2 /\ b = b2).
Proof.
  rewrite d3_blocks. intros [= H]. unfold v3 in H. cbn in H.
  repeat (apply lookup_insert_Some in H as [[<- <-]|[_ H]]; [by eauto|]).
  by rewrite lookup_empty in H.
Qed.

Lemma d3_decrease : heights_decrease d3.
Proof.
  intros h b p Hb Hp.
  destruct (d3_stored _ _ Hb) as [[-> ->]|[[-> ->]|[-> ->]]];
    destruct (d3_stored _ _ Hp) as [[E ->]|[[E ->]|[E ->]]]; cbn in *; try lia; try discriminate E.
Qed.

Lemma d3_path : path d3 h0 h2 [h1; h2].
Proof.
  change [h1; h2] with ([h1] ++ [h2]). eapply (path_step _ _ _ b2); [discriminate| |].
  { rewrite d3_blocks. reflexivity. }
  change (parent_hash (message b2)) with h1. change [h1] with ([] ++ [h1]).
  eapply (path_step _ _ _ b1); [discriminate| |constructor].
  rewrite d3_blocks. reflexivity.
Qed.

Lemma get_hashes_spec_witness : get_hashes d3 h0 h2 = Ok [h1; h2].
Proof.
  apply (get_hashes_spec d3 h0 h2); [reflexivity|apply d3_decrease|intros h; by rewrite d3_blocks|].
  exists b0, b2. split; [by rewrite d3_blocks|]. split; [by rewrite d3_blocks|].
  right. split; [done|apply d3_path].
Defined.

Lemma proposals_in_range_spec_witness :
  get_bitcoin_payment_proposals_in_range d3 h0 h2
  = Ok (concat (map (proposal_of d3) [h0; h1; h2])).
Proof.
  apply (proposals_in_range_spec d3 h0 h2 b0 [h1; h2]);
    [reflexivity|apply d3_decrease|rewrite d3_blocks; reflexivity|apply d3_path].
Defined.

Lemma rollback_pow_sound_witness :
  exists b, get_block_by_height d3 2 = Ok (Some b) /\ pow_ancestor d3 b (Some b0) /\
    (forall p, Some b0 = Some p -> is_Some (auxpow_header (message p))).
Proof. apply rollback_pow_sound. vm_compute. reflexivity. Defined.

End Witness.

End ChainRange.
