(* ===== verification/RpcRetry.v ===== *)
(** Requests for ranges of blocks ([app/src/chain.rs], lines 55 to 113 and 2067
    to 2180): the circuit breaker, the retries with exponential backoff and
    the fallback over peers. Times are milliseconds. *)
From stdpp Require Import base decidable list.
From Stdlib Require Import ZArith Lia.
From S2P Require Import Prelude Errors.

Module RpcRetry.

Record Breaker := mkBreaker {
  failure_count : Z;
  last_failure_time : option Z;
  is_open : bool;
  failure_threshold : Z;
  reset_timeout : Z;
}.

Definition new (threshold timeout : Z) : Breaker := mkBreaker 0 None false threshold timeout.

(** [failure_count] is a [u32]. *)
Definition record_failure (now : Z) (b : Breaker) : res Error Breaker :=
  n ← add_chk 32 (failure_count b) 1;
  Ok (mkBreaker n (Some now) (is_open b || (failure_threshold b <=? n))
                (failure_threshold b) (reset_timeout b)).

Definition record_success (b : Breaker) : Breaker :=
  mkBreaker 0 None false (failure_threshold b) (reset_timeout b).

Definition can_attempt (now : Z) (b : Breaker) : bool * Breaker :=
  if negb (is_open b) then (true, b)
  else
    match last_failure_time b with
    | Some last_failure =>
        if reset_timeout b <=? now - last_failure
        then (true, mkBreaker 0 (last_failure_time b) false (failure_threshold b) (reset_timeout b))
        else (false, b)
    | None => (false, b)
    end.

(** ** Requests *)

Section WithNetwork.
Context {Peer Stream : Type}.

(** The state a request runs in: the breaker, the clock and the number of
    requests sent so far, which selects the network's next answer. *)
Record State := mkState { breaker : Breaker; now : Z; sent : nat }.

Variable send_rpc : Peer -> nat -> option Stream.

Definition MAX_BACKOFF : Z := 30000.

(** The loop of [send_blocks_by_range_with_retry] with [k] attempts left. *)
Fixpoint attempts (k : nat) (peer : Peer) (backoff : Z) : ST State Error Stream :=
  match k with
  | O => throw MaxRetriesExceeded
  | S k' =>
      s ← getS;
      modifyS (fun s => mkState (breaker s) (now s) (S (sent s))) ;;
      match send_rpc peer (sent s) with
      | Some stream =>
          modifyS (fun s => mkState (record_success (breaker s)) (now s) (sent s)) ;;
          mret stream
      | None =>
          match k' with
          | O =>
              s ← getS;
              b ← liftR (record_failure (now s) (breaker s));
              modifyS (fun s => mkState b (now s) (sent s)) ;;
              throw MaxRetriesExceeded
          | S _ =>
              modifyS (fun s => mkState (breaker s) (now s + backoff) (sent s)) ;;
              attempts k' peer (Z.min (backoff * 2) MAX_BACKOFF)
          end
      end
  end.

Definition send_blocks_by_range_with_retry (peer : Peer) (max_retries : nat) :
    ST State Error Stream :=
  s ← getS;
  let (ok, b) := can_attempt (now s) (breaker s) in
  modifyS (fun s => mkState b (now s) (sent s)) ;;
  if negb ok then throw RpcRequestFailed
  else attempts max_retries peer 1000.

(** The loop over the peers; the last failure ends it. *)
Fixpoint peer_fallback (peers : list Peer) (max_retries : nat) : ST State Error Stream :=
  match peers with
  | [] => throw RpcRequestFailed
  | p :: peers' => fun s =>
      match send_blocks_by_range_with_retry p max_retries s with
      | (Ok stream, s') => (Ok stream, s')
      | (Err RpcRequestFailed, s') => (Err RpcRequestFailed, s')
      | (Err _, s') => peer_fallback peers' max_retries s'
      | (Panic, s') => (Panic, s')
      end
  end.

(** ** Lemmas *)

(** What the breaker keeps: when open, it has counted the threshold and knows
    when it last failed; when it was last reset it counts from zero. *)
Definition breaker_ok (b : Breaker) : Prop :=
  0 <= failure_count b /\
  (is_open b = true -> failure_threshold b <= failure_count b /\ is_Some (last_failure_time b)) /\
  (is_open b = false -> failure_count b < failure_threshold b \/ failure_count b = 0).

Lemma record_failure_ok t b b' : breaker_ok b -> record_failure t b = Ok b' -> breaker_ok b'.
Proof.
  unfold record_failure, mbind, res_bind. intros (Hc & Ho & Hn) H.
  destruct (add_chk 32 _ 1) as [n| |] eqn:E; try done. apply chk_inv in E as [-> ?].
  injection H as <-. split; [cbn; lia|]. split; cbn.
  - intros H. split; [|done]. apply orb_true_iff in H as [H|H]; [destruct (Ho H); lia|lia].
  - intros H. apply orb_false_iff in H as [_ H]. left. lia.
Qed.

Lemma can_attempt_ok t b : breaker_ok b -> breaker_ok (can_attempt t b).2.
Proof.
  intros H. unfold can_attempt. destruct (is_open b) eqn:Eo; cbn [negb]; [|done].
  destruct (last_failure_time b); [|done]. destruct (_ <=? _); [|done].
  split; [done|]. split; [done|]. by right.
Qed.

Lemma attempts_sent k peer bo s r s' :
  attempts k peer bo s = (r, s') -> (sent s <= sent s' <= sent s + k)%nat.
Proof.
  revert bo s r s'. induction k as [|k IH]; intros bo s r s' H; cbn in H.
  { injection H as _ <-. lia. }
  unfold mbind, st_bind, getS, modifyS, liftR, throw, mret, st_ret in H. cbn in H.
  destruct (send_rpc peer (sent s)); cbn in H; [injection H as _ <-; cbn; lia|].
  destruct k as [|k]; cbn [breaker now sent] in H.
  - destruct (record_failure _ _); cbn in H; injection H as _ <-; cbn; lia.
  - apply IH in H. cbn in H. lia.
Qed.

Lemma attempts_breaker k peer bo s r s' :
  breaker_ok (breaker s) -> attempts k peer bo s = (r, s') -> breaker_ok (breaker s').
Proof.
  revert bo s r s'. induction k as [|k IH]; intros bo s r s' Hb H; cbn in H.
  { by injection H as _ <-. }
  unfold mbind, st_bind, getS, modifyS, liftR, throw, mret, st_ret in H. cbn in H.
  destruct (send_rpc peer (sent s)); cbn in H.
  { injection H as _ <-. cbn. split; [done|]. split; [done|]. by right. }
  destruct k as [|k]; cbn [breaker now sent] in H.
  - destruct (record_failure _ _) eqn:E; cbn in H; injection H as _ <-; cbn; try done.
    by eapply record_failure_ok.
  - eapply IH; [|exact H]. done.
Qed.

(** A stream that is returned is an answer of a peer. *)
Lemma attempts_stream k peer bo s stream s' :
  attempts k peer bo s = (Ok stream, s') -> exists i, send_rpc peer i = Some stream.
Proof.
  revert bo s. induction k as [|k IH]; intros bo s H; cbn in H; [done|].
  unfold mbind, st_bind, getS, modifyS, liftR, throw, mret, st_ret in H. cbn in H.
  destruct (send_rpc peer (sent s)) eqn:E; cbn in H; [injection H as <- _; eauto|].
  destruct k as [|k]; cbn [breaker now sent] in H; [by destruct (record_failure _ _)|].
  by eapply IH.
Qed.

Lemma peer_fallback_stream peers k s stream s' :
  peer_fallback peers k s = (Ok stream, s') -> exists p i, send_rpc p i = Some stream.
Proof.
  revert s. induction peers as [|p peers IH]; intros s H; cbn in H; [done|].
  destruct (send_blocks_by_range_with_retry p k s) as [[x|e|] s1] eqn:E; [|destruct e; eauto; done|done].
  injection H as -> _. unfold send_blocks_by_range_with_retry, getS, modifyS, throw, mbind, st_bind in E.
  destruct (can_attempt _ _) as [[] b]; cbn in E; [|done]. apply attempts_stream in E as [i Hi]. eauto.
Qed.

(** Attempts that all fail leave one more failure, recorded now. *)
Lemma attempts_all_fail k peer bo s :
  (forall i, send_rpc peer i = None) -> (0 < k)%nat ->
  0 <= failure_count (breaker s) < 2 ^ 32 - 1 ->
  exists t, let s' := (attempts k peer bo s).2 in
    (attempts k peer bo s).1 = Err MaxRetriesExceeded /\
    failure_count (breaker s') = failure_count (breaker s) + 1 /\
    last_failure_time (breaker s') = Some t /\ now s' = t /\
    is_open (breaker s') = is_open (breaker s)
      || (failure_threshold (breaker s) <=? failure_count (breaker s) + 1) /\
    failure_threshold (breaker s') = failure_threshold (breaker s) /\
    reset_timeout (breaker s') = reset_timeout (breaker s).
Proof.
  intros Hfail. revert bo s. induction k as [|k IH]; intros bo s Hk Hc; [lia|].
  cbn [attempts]. unfold mbind, st_bind, getS, modifyS, liftR, throw, mret, st_ret. cbn [sent breaker now].
  rewrite Hfail. destruct k as [|k].
  - cbn [breaker now sent]. unfold record_failure. rewrite add_chk_ok by lia. cbn.
    exists (now s). by split_and!.
  - apply (IH (Z.min (bo * 2) MAX_BACKOFF)
              (mkState (breaker s) (now s + bo) (S (sent s)))); [lia|done].
Qed.

(** ** Properties *)

(** An open breaker stops requests for the reset time after the last failure
    and lets them through afterwards: within it a request fails at once without
    anything being sent, and from then on the next request is sent. *)
Theorem breaker_blocks_then_recovers peer k s t :
  is_open (breaker s) = true -> last_failure_time (breaker s) = Some t ->
  (now s - t < reset_timeout (breaker s) ->
   send_blocks_by_range_with_retry peer k s = (Err RpcRequestFailed, s)) /\
  (reset_timeout (breaker s) <= now s - t -> (0 < k)%nat ->
   (sent s < sent (send_blocks_by_range_with_retry peer k s).2)%nat).
Proof.
  intros Ho Ht. unfold send_blocks_by_range_with_retry, getS, modifyS, mbind, st_bind.
  unfold can_attempt. rewrite Ho, Ht. cbn [negb]. split.
  - intros Hlt. replace (reset_timeout (breaker s) <=? now s - t) with false by lia.
    cbn. by destruct s.
  - intros Hle Hk. replace (reset_timeout (breaker s) <=? now s - t) with true by lia.
    cbn [negb]. destruct k as [|k]; [lia|]. cbn [attempts].
    unfold mbind, st_bind, getS, modifyS. cbn [sent breaker now].
    destruct (send_rpc peer (sent s)); cbn [sent]; [cbn; lia|].
    destruct k as [|k].
    + unfold liftR. cbn. destruct (record_failure _ _); cbn; lia.
    + match goal with |- context [attempts ?a ?b ?c ?d] =>
        destruct (attempts a b c d) as [r s'] eqn:E end.
      apply attempts_sent in E. cbn in *. lia.
Qed.

(** Retries are bounded: one request to a peer sends at most [max_retries]
    messages, and whatever happens the breaker stays consistent (open only with
    a recorded failure, so that it can always recover). *)
Theorem retry_bounded peer k s r s' :
  breaker_ok (breaker s) -> send_blocks_by_range_with_retry peer k s = (r, s') ->
  (sent s <= sent s' <= sent s + k)%nat /\ breaker_ok (breaker s').
Proof.
  unfold send_blocks_by_range_with_retry, getS, modifyS, throw, mbind, st_bind. intros Hb H.
  pose proof (can_attempt_ok (now s) _ Hb) as Hb'.
  destruct (can_attempt (now s) (breaker s)) as [ok b]. cbn in Hb', H.
  destruct ok; cbn in H; [|injection H as _ <-; cbn; split; [lia|done]].
  split; [by apply attempts_sent in H|]. eapply attempts_breaker; [|exact H]. done.
Qed.

(** With peers that never answer, a closed breaker of threshold three opens
    after exactly three requests: the third failing peer opens it, and the
    fallback stops there instead of trying the remaining peers. *)
Theorem three_failures_open p1 p2 p3 peers k s :
  (forall p i, send_rpc p i = None) -> (0 < k)%nat ->
  failure_threshold (breaker s) = 3 -> failure_count (breaker s) = 0 ->
  is_open (breaker s) = false -> 0 < reset_timeout (breaker s) -> peers <> [] ->
  let s' := (peer_fallback (p1 :: p2 :: p3 :: peers) k s).2 in
  (peer_fallback (p1 :: p2 :: p3 :: peers) k s).1 = Err RpcRequestFailed /\
  is_open (breaker s') = true /\ failure_count (breaker s') = 3.
Proof.
  intros Hfail Hk Hth Hc Ho Hrt Hne.
  assert (forall p s, is_open (breaker s) = false -> 0 <= failure_count (breaker s) < 2 ^ 32 - 1 ->
    exists t s', send_blocks_by_range_with_retry p k s = (Err MaxRetriesExceeded, s') /\
      failure_count (breaker s') = failure_count (breaker s) + 1 /\
      last_failure_time (breaker s') = Some t /\ now s' = t /\
      is_open (breaker s') = (failure_threshold (breaker s) <=? failure_count (breaker s) + 1) /\
      failure_threshold (breaker s') = failure_threshold (breaker s) /\
      reset_timeout (breaker s') = reset_timeout (breaker s)) as Hone.
  { intros p s0 Ho0 Hc0. unfold send_blocks_by_range_with_retry, getS, modifyS, mbind, st_bind.
    unfold can_attempt. rewrite Ho0. cbn [negb].
    destruct (attempts_all_fail k p 1000 (mkState (breaker s0) (now s0) (sent s0))
                (Hfail p) Hk Hc0) as (t & H1 & H2 & H3 & H4 & H5 & H6 & H7).
    destruct (attempts k p 1000 _) as [r s'] eqn:E. cbn in *. subst r. exists t, s'.
    rewrite Ho0 in H5. by split_and!. }
  cbn [peer_fallback].
  destruct (Hone p1 s Ho ltac:(lia)) as (t1 & s1 & -> & C1 & _ & _ & O1 & T1 & R1).
  rewrite Hth, Hc in O1. cbn in O1.
  destruct (Hone p2 s1 O1 ltac:(lia)) as (t2 & s2 & -> & C2 & _ & _ & O2 & T2 & R2).
  rewrite T1, Hth, C1, Hc in O2. cbn in O2.
  destruct (Hone p3 s2 O2 ltac:(lia)) as (t3 & s3 & -> & C3 & L3 & N3 & O3 & T3 & R3).
  rewrite T2, T1, Hth, C2, C1, Hc in O3. cbn in O3.
  destruct peers as [|p4 peers]; [done|]. cbn [peer_fallback].
  unfold send_blocks_by_range_with_retry, getS, modifyS, throw, mbind, st_bind, can_attempt.
  rewrite O3, L3. cbn [negb].
  replace (reset_timeout (breaker s3) <=? now s3 - t3) with false
    by (symmetry; apply Z.leb_gt; rewrite N3, R3, R2, R1; lia). cbn.
  split_and!; [done|done|]. change (failure_count (breaker s3) = 3). lia.
Qed.

End WithNetwork.

Module Witness.

Definition silent (_ : Z) (_ : nat) : option unit := None.
Definition closed : State := mkState (new 3 60000) 500 0.
Definition opened : State := mkState (mkBreaker 3 (Some 500) true 3 60000) 2000 9.

Lemma breaker_blocks_then_recovers_witness :
  send_blocks_by_range_with_retry silent 7 3 opened = (Err RpcRequestFailed, opened).
Proof.
  apply (breaker_blocks_then_recovers silent 7 3 opened 500 eq_refl eq_refl). reflexivity.
Defined.

Lemma retry_bounded_witness :
  let s' := (send_blocks_by_range_with_retry silent 7 3 closed).2 in
  (0 <= sent s' <= 0 + 3)%nat /\ breaker_ok (breaker s').
Proof.
  apply (retry_bounded silent 7 3 closed (Err MaxRetriesExceeded)).
  - split; [done|]. split; [done|]. by right.
  - vm_compute. reflexivity.
Defined.

Lemma three_failures_open_witness :
  (peer_fallback silent [1; 2; 3; 4] 3 closed).1 = Err RpcRequestFailed /\
  is_open (breaker (peer_fallback silent [1; 2; 3; 4] 3 closed).2) = true /\
  failure_count (breaker (peer_fallback silent [1; 2; 3; 4] 3 closed).2) = 3.
Proof.
  apply (three_failures_open silent 1 2 3 [4] 3 closed); try done. lia.
Defined.

End Witness.

End RpcRetry.
