(* ===== verification/RpcTypes.v ===== *)
(** The messages of the network's request/response protocol
    ([app/src/network/rpc/methods.rs], the protocols, limits and errors of
    [protocol.rs], the requests of [outbound.rs], and the events between
    behaviour and handler of [rpc/mod.rs] and [handler.rs]). A text is a
    string, the text of an error response its bytes. *)
From stdpp Require Import base decidable list gmap strings pretty.
From Stdlib Require Import ZArith Lia Ascii.
From S2P Require Import Prelude Bitcoin Block.

Module RpcTypes.
Local Open Scope Z_scope.

(** The UTF-8 bytes of a text. *)
Definition bytes_of_string (s : string) : list Z :=
  map (fun c => Z.of_N (N_of_ascii c)) (String.list_ascii_of_string s).

(** ** Protocols *)

Inductive Protocol := Status | Goodbye | BlocksByRange | Ping | MetaData.

#[global] Instance Protocol_eq_dec : EqDecision Protocol.
Proof. solve_decision. Defined.
#[global] Instance Protocol_countable : Countable Protocol.
Proof.
  refine (inj_countable'
    (fun p => match p with Status => 0 | Goodbye => 1 | BlocksByRange => 2 | Ping => 3 | MetaData => 4 end)
    (fun n => match n with 0 => Status | 1 => Goodbye | 2 => BlocksByRange | 3 => Ping | _ => MetaData end)
    _). by intros [].
Defined.

Inductive Encoding := SSZSnappy.

Inductive SupportedProtocol := StatusV1 | GoodbyeV1 | BlocksByRangeV1 | PingV1 | MetaDataV1.

#[global] Instance SupportedProtocol_eq_dec : EqDecision SupportedProtocol.
Proof. solve_decision. Defined.

Definition version_string (s : SupportedProtocol) : string :=
  match s with
  | StatusV1 => "1" | GoodbyeV1 => "1" | BlocksByRangeV1 => "1" | PingV1 => "1" | MetaDataV1 => "1"
  end.

Definition protocol (s : SupportedProtocol) : Protocol :=
  match s with
  | StatusV1 => Status
  | GoodbyeV1 => Goodbye
  | BlocksByRangeV1 => BlocksByRange
  | PingV1 => Ping
  | MetaDataV1 => MetaData
  end.

(** The names given by the serialisation attributes of [Protocol] and the
    text of [Encoding]. *)
Definition protocol_name (p : Protocol) : string :=
  match p with
  | Status => "status"
  | Goodbye => "goodbye"
  | BlocksByRange => "blocks_by_range"
  | Ping => "ping"
  | MetaData => "metadata"
  end.

Definition encoding_name (e : Encoding) : string := match e with SSZSnappy => "ssz_snappy" end.

Definition PROTOCOL_PREFIX : string := "/eth2/chain/req".

Record ProtocolId := mkProtocolId {
  versioned_protocol : SupportedProtocol;
  encoding : Encoding;
  protocol_id : string;
}.

Definition protocol_id_new (v : SupportedProtocol) (e : Encoding) : ProtocolId :=
  mkProtocolId v e
    (PROTOCOL_PREFIX +:+ "/" +:+ protocol_name (protocol v) +:+ "/" +:+ version_string v
     +:+ "/" +:+ encoding_name e).

Definition currently_supported : list ProtocolId :=
  [ protocol_id_new StatusV1 SSZSnappy;
    protocol_id_new GoodbyeV1 SSZSnappy;
    protocol_id_new BlocksByRangeV1 SSZSnappy;
    protocol_id_new PingV1 SSZSnappy;
    protocol_id_new MetaDataV1 SSZSnappy ].

(** ** Requests *)

Definition MAX_REQUEST_BLOCKS : Z := 1024.

Record StatusMessage := mkStatus { finalized_hash : hash; head_hash : hash }.

Record PingMessage := mkPing { data : Z }.

Record BlocksByRangeRequest := mkRange { start_height : Z; count : Z }.

(** The bit fields have the lengths the specification parameter gives them. *)
Record MetaDataMessage := mkMetaData { seq_number : Z; attnets : list bool; syncnets : list bool }.

Inductive GoodbyeReason :=
| ClientShutdown | IrrelevantNetwork | Fault | UnableToVerifyNetwork | TooManyPeers
| BadScore | Banned | BannedIP | UnknownReason.

#[global] Instance GoodbyeReason_eq_dec : EqDecision GoodbyeReason.
Proof. solve_decision. Defined.

Definition reason_from_u64 (id : Z) : GoodbyeReason :=
  if id =? 1 then ClientShutdown
  else if id =? 2 then IrrelevantNetwork
  else if id =? 3 then Fault
  else if id =? 128 then UnableToVerifyNetwork
  else if id =? 129 then TooManyPeers
  else if id =? 250 then BadScore
  else if id =? 251 then Banned
  else if id =? 252 then BannedIP
  else UnknownReason.

Definition reason_to_u64 (r : GoodbyeReason) : Z :=
  match r with
  | ClientShutdown => 1
  | IrrelevantNetwork => 2
  | Fault => 3
  | UnableToVerifyNetwork => 128
  | TooManyPeers => 129
  | BadScore => 250
  | Banned => 251
  | BannedIP => 252
  | UnknownReason => 0
  end.

(** [InboundRequest] and [OutboundRequest] have the same constructors. *)
Inductive Request :=
| StatusReq (m : StatusMessage)
| GoodbyeReq (reason : GoodbyeReason)
| BlocksByRangeReq (r : BlocksByRangeRequest)
| PingReq (p : PingMessage)
| MetaDataReq.

Definition expected_responses (r : Request) : Z :=
  match r with
  | StatusReq _ => 1
  | GoodbyeReq _ => 0
  | BlocksByRangeReq req => count req
  | PingReq _ => 1
  | MetaDataReq => 1
  end.

Definition request_protocol (r : Request) : SupportedProtocol :=
  match r with
  | StatusReq _ => StatusV1
  | GoodbyeReq _ => GoodbyeV1
  | BlocksByRangeReq _ => BlocksByRangeV1
  | PingReq _ => PingV1
  | MetaDataReq => MetaDataV1
  end.

Definition supported_protocols (r : Request) : list ProtocolId :=
  match r with
  | StatusReq _ => [protocol_id_new StatusV1 SSZSnappy]
  | GoodbyeReq _ => [protocol_id_new GoodbyeV1 SSZSnappy]
  | BlocksByRangeReq _ => [protocol_id_new BlocksByRangeV1 SSZSnappy]
  | PingReq _ => [protocol_id_new PingV1 SSZSnappy]
  | MetaDataReq => [protocol_id_new MetaDataV1 SSZSnappy]
  end.

(** ** Responses *)

Inductive RPCResponse :=
| StatusResp (m : StatusMessage)
| BlocksByRangeResp (b : SignedConsensusBlock)
| Pong (p : PingMessage)
| MetaDataResp (m : MetaDataMessage).

Inductive ResponseTermination := BlocksByRangeTermination.

(** The end of the stream that belongs to a request; only streams of several
    responses have one. *)
Definition stream_termination {E} (r : Request) : res E ResponseTermination :=
  match r with
  | BlocksByRangeReq _ => Ok BlocksByRangeTermination
  | _ => Panic
  end.

Inductive RPCResponseErrorCode :=
  RateLimited | InvalidRequest | ServerError | ResourceUnavailable | Unknown.

#[global] Instance RPCResponseErrorCode_eq_dec : EqDecision RPCResponseErrorCode.
Proof. solve_decision. Defined.

Definition MAX_ERROR_LEN : Z := 256.

(** [ErrorType] is a list of at most [MAX_ERROR_LEN] bytes, which [From] cuts
    off. *)
Abbreviation ErrorType := (list Z).
Definition error_type (s : string) : ErrorType :=
  take (Z.to_nat MAX_ERROR_LEN) (bytes_of_string s).

Inductive RPCCodedResponse :=
| Success (r : RPCResponse)
| ErrorResponse (code : RPCResponseErrorCode) (err : ErrorType)
| StreamTermination (t : ResponseTermination).

Definition code_as_u8 (c : RPCResponseErrorCode) : Z :=
  match c with
  | InvalidRequest => 1
  | ServerError => 2
  | ResourceUnavailable => 3
  | Unknown => 255
  | RateLimited => 139
  end.

Definition as_u8 (r : RPCCodedResponse) : option Z :=
  match r with
  | Success _ => Some 0
  | ErrorResponse code _ => Some (code_as_u8 code)
  | StreamTermination _ => None
  end.

Definition is_response (response_code : Z) : bool := response_code =? 0.

Definition from_error (response_code : Z) (err : ErrorType) : RPCCodedResponse :=
  let code :=
    if response_code =? 1 then InvalidRequest
    else if response_code =? 2 then ServerError
    else if response_code =? 3 then ResourceUnavailable
    else if response_code =? 139 then RateLimited
    else Unknown in
  ErrorResponse code err.

Definition multiple_responses (r : RPCCodedResponse) : bool :=
  match r with
  | Success (StatusResp _) => false
  | Success (BlocksByRangeResp _) => true
  | Success (Pong _) => false
  | Success (MetaDataResp _) => false
  | ErrorResponse _ _ => true
  | StreamTermination _ => true
  end.

Definition close_after (r : RPCCodedResponse) : bool :=
  match r with Success _ => false | _ => true end.

Definition response_protocol (r : RPCResponse) : Protocol :=
  match r with
  | StatusResp _ => Status
  | BlocksByRangeResp _ => BlocksByRange
  | Pong _ => Ping
  | MetaDataResp _ => MetaData
  end.

(** ** Errors *)

(** The texts of the errors of libraries are theirs. *)
Inductive RPCError :=
| SSZDecodeError (e : string)
| CodecError
| IoError (e : string)
| ErrorResponseError (code : RPCResponseErrorCode) (reason : string)
| StreamTimeout
| UnsupportedProtocol
| IncompleteStream
| InvalidData (e : string)
| InternalError (e : string)
| NegotiationTimeout
| HandlerRejected
| Disconnected.

#[global] Instance RPCError_eq_dec : EqDecision RPCError.
Proof. solve_decision. Defined.

Definition code_static_str (c : RPCResponseErrorCode) : string :=
  match c with
  | RateLimited => "rate_limited"
  | InvalidRequest => "invalid_request"
  | ServerError => "server_error"
  | ResourceUnavailable => "resource_unavailable"
  | Unknown => "unknown"
  end.

Definition as_static_str (e : RPCError) : string :=
  match e with
  | SSZDecodeError _ => "decode_error"
  | CodecError => "codec_error"
  | IoError _ => "io_error"
  | ErrorResponseError code _ => code_static_str code
  | StreamTimeout => "stream_timeout"
  | UnsupportedProtocol => "unsupported_protocol"
  | IncompleteStream => "incomplete_stream"
  | InvalidData _ => "invalid_data"
  | InternalError _ => "internal_error"
  | NegotiationTimeout => "negotiation_timeout"
  | HandlerRejected => "handler_rejected"
  | Disconnected => "disconnected"
  end.

(** ** Limits *)

Record RpcLimits := mkLimits { limit_min : Z; limit_max : Z }.

Definition is_out_of_bounds (l : RpcLimits) (length max_rpc_size : Z) : bool :=
  (Z.min (limit_max l) max_rpc_size <? length) || (length <? limit_min l).

Definition max_rpc_size (max_chunk_size : Z) : Z := max_chunk_size.

Definition SIGNED_CONSENSUS_BLOCK_BASE_MIN : Z := 1.
Definition SIGNED_CONSENSUS_BLOCK_CAPELLA_MAX : Z := 1024 * 1024.
Definition ERROR_TYPE_MIN : Z := 0.
Definition ERROR_TYPE_MAX : Z := MAX_ERROR_LEN.

(** ** Events between behaviour and handler *)

Section Events.
Context {Id SubstreamId : Type}.

Inductive RPCSend :=
| SendRequest (id : Id) (req : Request)
| SendResponse (id : SubstreamId) (res : RPCCodedResponse)
| SendShutdown (id : Id) (reason : GoodbyeReason).

Inductive RPCReceived :=
| ReceivedRequest (id : SubstreamId) (req : Request)
| ReceivedResponse (id : Id) (res : RPCResponse)
| EndOfStream (id : Id) (t : ResponseTermination).

Inductive HandlerErr :=
| Inbound (id : SubstreamId) (proto : Protocol) (error : RPCError)
| Outbound (id : Id) (proto : Protocol) (error : RPCError).

(** [HandlerEvent]: a result, as a value. *)
Inductive HandlerEvent := Received (r : RPCReceived) | Failed (e : HandlerErr).

End Events.
Arguments RPCSend : clear implicits.
Arguments RPCReceived : clear implicits.
Arguments HandlerErr : clear implicits.
Arguments HandlerEvent : clear implicits.

(** ** Codes *)

(** A known reason survives the conversion both ways, and only the codes of
    the known reasons do. *)
Lemma reason_round_trip r : reason_from_u64 (reason_to_u64 r) = r.
Proof. by destruct r. Qed.

Lemma code_round_trip c err :
  from_error (code_as_u8 c) err = ErrorResponse c err /\ is_response (code_as_u8 c) = false.
Proof. by destruct c. Qed.

(** The names of the protocols are distinct, so that a peer that agrees on a
    name agrees on the protocol. *)
Lemma protocol_id_injective v w e f :
  protocol_id (protocol_id_new v e) = protocol_id (protocol_id_new w f) -> v = w /\ e = f.
Proof. destruct v, w, e, f; by vm_compute. Qed.

Lemma request_supported r :
  supported_protocols r = [protocol_id_new (request_protocol r) SSZSnappy] /\
  protocol_id_new (request_protocol r) SSZSnappy ∈ currently_supported.
Proof. split; [by destruct r|]. unfold currently_supported. destruct r; cbn; set_solver. Qed.

End RpcTypes.
