(* ===== verification/RateLimiter.v ===== *)
(** Rate limits of the network's requests
    ([app/src/network/rpc/rate_limiter.rs] and the quotas of [config.rs]): a
    token bucket per peer and protocol, kept as the theoretical arrival time of the generic cell rate
    algorithm. Times are nanoseconds. *)
From stdpp Require Import base decidable list gmap sorting.
From Stdlib Require Import ZArith Lia.
From S2P Require Import Prelude Bitcoin RpcTypes.

Module RateLimiter.
Import RpcTypes.

(** ** Quotas *)

Record Quota := mkQuota { replenish_all_every : Z; max_tokens : Z }.

Definition secs (s : Z) : Z := s * 10 ^ 9.
Definition one_every (seconds : Z) : Quota := mkQuota (secs seconds) 1.
Definition n_every (n seconds : Z) : Quota := mkQuota (secs seconds) n.

Record RateLimiterConfig := mkConfig {
  ping_quota : Quota;
  meta_data_quota : Quota;
  status_quota : Quota;
  goodbye_quota : Quota;
  blocks_by_range_quota : Quota;
}.

Definition config_default : RateLimiterConfig :=
  mkConfig (n_every 2 10) (n_every 2 5) (n_every 5 15) (one_every 10)
           (n_every MAX_REQUEST_BLOCKS 10).

(** The messages of the builder's errors. *)
Inductive BuildError :=
| QuotaNotSpecified (p : Protocol) | MaxTokensZero | ReplenishTimeZero | ReplenishTimeTooLong.

Inductive RateLimitedErr := TooLarge | TooSoon (wait_time : Z).

(** ** One limiter *)

Section Limiter.
Context {Key : Type} `{Countable Key}.

Record Limiter := mkLimiter {
  tau : Z;
  t : Z;
  tat_per_key : gmap Key Z;
}.

Definition set_tat (k : Key) (x : Z) (l : Limiter) : Limiter :=
  mkLimiter (tau l) (t l) (<[k := x]> (tat_per_key l)).

(** [u128] to [u64]. *)
Definition try_u64 (z : Z) : res BuildError Z :=
  if z <? 2 ^ 64 then Ok z else Err ReplenishTimeTooLong.

Definition from_quota (q : Quota) : res BuildError Limiter :=
  if max_tokens q =? 0 then Err MaxTokensZero
  else if replenish_all_every q =? 0 then Err ReplenishTimeZero
  else
    t ← try_u64 (replenish_all_every q / max_tokens q);
    tau ← try_u64 (replenish_all_every q);
    Ok (mkLimiter tau t ∅).

(** A new key gets a full bucket; the entry stays when the request is too
    soon. *)
Definition allows (time_since_start : Z) (key : Key) (tokens : Z) :
    ST Limiter RateLimitedErr unit :=
  let now := wrap 64 time_since_start in
  l ← getS;
  additional_time ← liftR (mul_chk 64 (t l) tokens);
  if tau l <? additional_time then throw TooLarge
  else
    let tat := default now (tat_per_key l !! key) in
    modifyS (set_tat key tat) ;;
    sum ← liftR (add_chk 64 tat additional_time);
    let earliest_time := saturating_sub sum (tau l) in
    if now <? earliest_time then throw (TooSoon (earliest_time - now))
    else
      tat' ← liftR (add_chk 64 (Z.max now tat) additional_time);
      modifyS (set_tat key tat').

Definition prune (time_limit : Z) (l : Limiter) : Limiter :=
  let lim := wrap 64 time_limit in
  mkLimiter (tau l) (t l) (filter (fun p : Key * Z => lim <= p.2) (tat_per_key l)).

End Limiter.
Arguments Limiter Key {_ _}.

(** ** The limiter of a node *)

Section Node.
Context {PeerId : Type} `{Countable PeerId}.

Record RPCRateLimiter := mkRateLimiter {
  goodbye_rl : Limiter PeerId;
  ping_rl : Limiter PeerId;
  metadata_rl : Limiter PeerId;
  status_rl : Limiter PeerId;
  bbrange_rl : Limiter PeerId;
}.

(** [RPCRateLimiterBuilder]. *)
Definition Builder := Protocol -> option Quota.

Definition builder : Builder := fun _ => None.

Definition set_quota (p : Protocol) (q : Quota) (b : Builder) : Builder :=
  fun p' => if decide (p' = p) then Some q else b p'.

Definition build (b : Builder) : res BuildError RPCRateLimiter :=
  ping_quota ← ok_or (b Ping) (QuotaNotSpecified Ping);
  metadata_quota ← ok_or (b MetaData) (QuotaNotSpecified MetaData);
  status_quota ← ok_or (b Status) (QuotaNotSpecified Status);
  goodbye_quota ← ok_or (b Goodbye) (QuotaNotSpecified Goodbye);
  bbrange_quota ← ok_or (b BlocksByRange) (QuotaNotSpecified BlocksByRange);
  ping_rl ← from_quota ping_quota;
  metadata_rl ← from_quota metadata_quota;
  status_rl ← from_quota status_quota;
  goodbye_rl ← from_quota goodbye_quota;
  bbrange_rl ← from_quota bbrange_quota;
  Ok (mkRateLimiter goodbye_rl ping_rl metadata_rl status_rl bbrange_rl).

Definition new_with_config (c : RateLimiterConfig) : res BuildError RPCRateLimiter :=
  build (set_quota BlocksByRange (blocks_by_range_quota c)
        (set_quota Goodbye (goodbye_quota c)
        (set_quota Status (status_quota c)
        (set_quota MetaData (meta_data_quota c)
        (set_quota Ping (ping_quota c) builder))))).

Definition limiter_of (p : Protocol) (r : RPCRateLimiter) : Limiter PeerId :=
  match p with
  | Ping => ping_rl r
  | Status => status_rl r
  | MetaData => metadata_rl r
  | Goodbye => goodbye_rl r
  | BlocksByRange => bbrange_rl r
  end.

Definition set_limiter (p : Protocol) (x : Limiter PeerId) (r : RPCRateLimiter) : RPCRateLimiter :=
  match p with
  | Ping => mkRateLimiter (goodbye_rl r) x (metadata_rl r) (status_rl r) (bbrange_rl r)
  | Status => mkRateLimiter (goodbye_rl r) (ping_rl r) (metadata_rl r) x (bbrange_rl r)
  | MetaData => mkRateLimiter (goodbye_rl r) (ping_rl r) x (status_rl r) (bbrange_rl r)
  | Goodbye => mkRateLimiter x (ping_rl r) (metadata_rl r) (status_rl r) (bbrange_rl r)
  | BlocksByRange => mkRateLimiter (goodbye_rl r) (ping_rl r) (metadata_rl r) (status_rl r) x
  end.

(** [RPCRateLimiter::allows] at a time since the limiter was built: a request
    costs the number of its expected responses, at least one. *)
Definition allows_request (time_since_start : Z) (peer_id : PeerId) (request : Request) :
    ST RPCRateLimiter RateLimitedErr unit := fun r =>
  let tokens := Z.max (expected_responses request) 1 in
  let (o, x) := allows time_since_start peer_id tokens (limiter_of (protocol (request_protocol request)) r) in
  (o, set_limiter (protocol (request_protocol request)) x r).

Definition prune_all (time_since_start : Z) (r : RPCRateLimiter) : RPCRateLimiter :=
  let f := prune time_since_start in
  mkRateLimiter (f (goodbye_rl r)) (f (ping_rl r)) (f (metadata_rl r)) (f (status_rl r))
                (f (bbrange_rl r)).

(** [Future for RPCRateLimiter]: the limiter prunes for each tick of its interval
    that is due. *)
Definition limiter_poll (now : Z) (ticks : nat) (r : RPCRateLimiter) : RPCRateLimiter :=
  Nat.iter ticks (prune_all now) r.

End Node.
Arguments RPCRateLimiter PeerId {_ _}.

(** ** Runs of one limiter *)

Section Runs.
Context {Key : Type} `{Countable Key}.
Abbreviation limiter := (Limiter Key).

(** What happens to a limiter, with its time. *)
Inductive event := Ask (key : Key) (tokens : Z) | Prune.

(** Events in order between two times, asking for natural numbers of tokens. *)
Fixpoint ordered (from : Z) (evs : list (Z * event)) (to : Z) : Prop :=
  match evs with
  | [] => from <= to
  | (now, e) :: evs' =>
      from <= now /\ match e with Ask _ n => 0 <= n | Prune => True end /\ ordered now evs' to
  end.

(** The state after the events; a panic ends the run. *)
Fixpoint after (evs : list (Z * event)) (l : limiter) : limiter :=
  match evs with
  | [] => l
  | (now, Ask k n) :: evs' =>
      match allows now k n l with
      | (Panic, l') => l'
      | (_, l') => after evs' l'
      end
  | (now, Prune) :: evs' => after evs' (prune now l)
  end.

(** The tokens granted to a key. *)
Fixpoint granted (key : Key) (evs : list (Z * event)) (l : limiter) : Z :=
  match evs with
  | [] => 0
  | (now, Ask k n) :: evs' =>
      match allows now k n l with
      | (Ok _, l') => (if decide (k = key) then n else 0) + granted key evs' l'
      | (Err _, l') => granted key evs' l'
      | (Panic, _) => 0
      end
  | (now, Prune) :: evs' => granted key evs' (prune now l)
  end.

(** The answers to the requests. *)
Fixpoint answers (evs : list (Z * event)) (l : limiter) : list (res RateLimitedErr unit) :=
  match evs with
  | [] => []
  | (now, Ask k n) :: evs' =>
      let (r, l') := allows now k n l in
      r :: match r with Panic => [] | _ => answers evs' l' end
  | (now, Prune) :: evs' => answers evs' (prune now l)
  end.

Lemma ordered_le from evs to : ordered from evs to -> from <= to.
Proof.
  revert from. induction evs as [|[now e] evs IH]; intros from; cbn; [done|].
  intros (? & _ & ?%IH). lia.
Qed.

(** What a request does at a 64-bit time. *)
Lemma allows_eq now k n (l : limiter) :
  0 <= now < 2 ^ 64 -> 0 <= t l * n ->
  let add := t l * n in let tat := default now (tat_per_key l !! k) in
  allows now k n l =
  if in_width 64 add then
    if tau l <? add then (Err TooLarge, l)
    else if in_width 64 (tat + add) then
      if now <? saturating_sub (tat + add) (tau l)
      then (Err (TooSoon (saturating_sub (tat + add) (tau l) - now)), set_tat k tat l)
      else if in_width 64 (Z.max now tat + add)
           then (Ok tt, set_tat k (Z.max now tat + add) (set_tat k tat l))
           else (Panic, set_tat k tat l)
    else (Panic, set_tat k tat l)
  else (Panic, l).
Proof.
  intros Hn Ha add tat. unfold allows. rewrite wrap_small by done.
  unfold getS, modifyS, liftR, throw, mul_chk, add_chk, chk, mbind, st_bind. fold add.
  destruct (in_width 64 add); [|done]. destruct (tau l <? add); [done|]. fold tat.
  destruct (in_width 64 (tat + add)); [|done]. destruct (now <? _); [done|].
  by destruct (in_width 64 (Z.max now tat + add)).
Qed.

(** What is left of it for an invariant. *)
Lemma allows_inv now k n (l l' : limiter) r :
  0 <= now < 2 ^ 64 -> 0 <= t l * n -> allows now k n l = (r, l') ->
  tau l' = tau l /\ t l' = t l /\
  (forall k', k' <> k -> tat_per_key l' !! k' = tat_per_key l !! k') /\
  let tat := default now (tat_per_key l !! k) in
  match r with
  | Ok _ => t l * n <= tau l /\ tat + t l * n <= now + tau l /\
            tat_per_key l' !! k = Some (Z.max now tat + t l * n)
  | _ => tat_per_key l' !! k = tat_per_key l !! k \/ tat_per_key l' !! k = Some tat
  end.
Proof.
  intros Hn Ha. rewrite allows_eq by done. cbv zeta.
  set (tat := default now (tat_per_key l !! k)).
  assert (forall x k', k' <> k -> <[k := x]> (tat_per_key l) !! k' = tat_per_key l !! k') as Hne
    by (intros; by apply lookup_insert_ne).
  assert (forall x, <[k := x]> (tat_per_key l) !! k = Some x) as Heq by (intros; apply lookup_insert_eq).
  destruct (in_width 64 (t l * n)); [destruct (Z.ltb_spec (tau l) (t l * n)) as [|Hle];
    [|destruct (in_width 64 (tat + t l * n));
      [destruct (Z.ltb_spec now (saturating_sub (tat + t l * n) (tau l))) as [|Hge];
        [|destruct (in_width 64 (Z.max now tat + t l * n))]|]]|];
    intros [= <- <-]; cbn [tau t tat_per_key set_tat]; rewrite ?insert_insert_eq; split_and!; auto.
  unfold saturating_sub in Hge. lia.
Qed.

(** ** The bound *)

(** No bucket is filled later than [tau] from now. *)
Definition filled_by (now : Z) (l : limiter) : Prop :=
  forall k x, tat_per_key l !! k = Some x -> x <= now + tau l.

(** How far the bucket of [key] has been used up since [a]. *)
Definition level (a now : Z) (key : Key) (l : limiter) : Z :=
  match tat_per_key l !! key with Some x => Z.max x a | None => now end.

Lemma prune_lookup now k (l : limiter) :
  0 <= now < 2 ^ 64 ->
  tat_per_key (prune now l) !! k =
  match tat_per_key l !! k with
  | Some x => if decide (now <= x) then Some x else None
  | None => None
  end.
Proof.
  intros Hn. unfold prune. cbn [tat_per_key]. rewrite wrap_small by done.
  destruct (tat_per_key l !! k) as [x|] eqn:E.
  - case_decide as Hx.
    + apply map_lookup_filter_Some. by split.
    + apply map_lookup_filter_None. right. intros y Hy. simplify_eq. done.
  - apply map_lookup_filter_None. by left.
Qed.

Lemma prune_filled from now (l : limiter) :
  0 <= from <= now -> now < 2 ^ 64 -> filled_by from l -> filled_by now (prune now l).
Proof.
  intros Hf Hn Hl k x. rewrite prune_lookup by lia.
  destruct (tat_per_key l !! k) as [y|] eqn:E; [|done]. case_decide; [|done]. intros [= <-].
  specialize (Hl _ _ E). cbn. lia.
Qed.

Lemma prune_level a from now key (l : limiter) :
  0 <= from <= now -> now < 2 ^ 64 -> a <= from -> level a from key l <= level a now key (prune now l).
Proof.
  intros Hf Hn Ha. unfold level. rewrite prune_lookup by lia.
  destruct (tat_per_key l !! key) as [y|]; [case_decide|]; lia.
Qed.

Lemma allows_filled from now k n (l l' : limiter) r :
  0 <= from <= now -> now < 2 ^ 64 -> 0 <= t l * n -> 0 <= tau l ->
  filled_by from l -> allows now k n l = (r, l') -> filled_by now l'.
Proof.
  intros Hf Hn Ha Ht Hl Hr. apply allows_inv in Hr as (Et & _ & Hne & Hk); [|lia|done].
  intros k' x Hx. rewrite Et. destruct (decide (k' = k)) as [->|Hk'].
  - destruct (tat_per_key l !! k) as [y|] eqn:Ey; cbn in Hk; [specialize (Hl _ _ Ey)|];
      destruct r; [destruct Hk as (? & ? & Hk)|destruct Hk as [Hk|Hk]|destruct Hk as [Hk|Hk]
                  |destruct Hk as (? & ? & Hk)|destruct Hk as [Hk|Hk]|destruct Hk as [Hk|Hk]];
      rewrite Hk in Hx; simplify_eq; lia.
  - rewrite Hne in Hx by done. specialize (Hl _ _ Hx). lia.
Qed.

(** A grant of [n] tokens raises the level by the time they take. *)
Lemma allows_level a from now k n key (l l' : limiter) r :
  0 <= from <= now -> now < 2 ^ 64 -> a <= from -> 0 <= t l * n ->
  allows now k n l = (r, l') ->
  match r with Ok _ => (if decide (k = key) then n else 0) * t l | _ => 0 end
    + level a from key l <= level a now key l'.
Proof.
  intros Hf Hn Ha Hp Hr. apply allows_inv in Hr as (_ & _ & Hne & Hk); [|lia|done]. unfold level.
  destruct (decide (k = key)) as [->|Hkey].
  - destruct (tat_per_key l !! key) as [y|] eqn:Ey; cbn in Hk;
      destruct r; [destruct Hk as (? & ? & Hk)|destruct Hk as [Hk|Hk]|destruct Hk as [Hk|Hk]
                  |destruct Hk as (? & ? & Hk)|destruct Hk as [Hk|Hk]|destruct Hk as [Hk|Hk]];
      rewrite Hk; lia.
  - rewrite Hne by done. destruct r, (tat_per_key l !! key); lia.
Qed.

Lemma granted_level key a from evs to (l : limiter) :
  0 <= a <= from -> to < 2 ^ 64 -> 0 <= t l -> 0 <= tau l ->
  ordered from evs to -> filled_by from l ->
  granted key evs l * t l + level a from key l <= to + tau l.
Proof.
  intros Ha Hto. revert from l Ha. induction evs as [|[now e] evs IH]; intros from l Ha Ht Htau Ho Hl.
  - cbn in *. unfold level. destruct (tat_per_key l !! key) as [x|] eqn:E; [specialize (Hl _ _ E)|]; lia.
  - cbn [ordered] in Ho. destruct Ho as (Hnow & He & Ho). pose proof (ordered_le _ _ _ Ho).
    destruct e as [k n|]; cbn [granted].
    + assert (0 <= t l * n) as Hp by nia.
      destruct (allows now k n l) as [r l'] eqn:Er.
      pose proof (allows_filled from now k n l l' r ltac:(lia) ltac:(lia) Hp Htau Hl Er) as Hl'.
      pose proof (allows_level a from now k n key l l' r ltac:(lia) ltac:(lia) ltac:(lia) Hp Er) as Hv.
      destruct (allows_inv now k n l l' r ltac:(lia) Hp Er) as (Et & Ett & _).
      specialize (IH now l' ltac:(lia) ltac:(lia) ltac:(lia) Ho Hl'). rewrite Et, Ett in IH.
      destruct r; [lia|lia|]. unfold level in *.
      destruct (tat_per_key l' !! key) as [x|] eqn:Ex; [specialize (Hl' _ _ Ex)|]; lia.
    + pose proof (prune_filled from now l ltac:(lia) ltac:(lia) Hl) as Hl'.
      pose proof (prune_level a from now key l ltac:(lia) ltac:(lia) ltac:(lia)).
      specialize (IH now (prune now l) ltac:(lia) Ht Htau Ho Hl'). cbn [tau t prune] in *. lia.
Qed.

Lemma after_filled from evs to (l : limiter) :
  0 <= from -> to < 2 ^ 64 -> 0 <= t l -> 0 <= tau l ->
  ordered from evs to -> filled_by from l ->
  filled_by to (after evs l) /\ tau (after evs l) = tau l /\ t (after evs l) = t l.
Proof.
  intros Hf Hto. revert from l Hf. induction evs as [|[now e] evs IH]; intros from l Hf Ht Htau Ho Hl.
  - cbn in *. split_and!; [|done..]. intros k x Hx%Hl. lia.
  - cbn [ordered] in Ho. destruct Ho as (Hnow & He & Ho). pose proof (ordered_le _ _ _ Ho).
    destruct e as [k n|]; cbn [after].
    + assert (0 <= t l * n) as Hp by nia.
      destruct (allows now k n l) as [r l'] eqn:Er.
      pose proof (allows_filled from now k n l l' r ltac:(lia) ltac:(lia) Hp Htau Hl Er) as Hl'.
      destruct (allows_inv now k n l l' r ltac:(lia) Hp Er) as (Et & Ett & _).
      rewrite <-Et, <-Ett.
      destruct r; [apply (IH now); [lia..|done|done]|apply (IH now); [lia..|done|done]|].
      split_and!; [|done..]. intros k' x Hx%Hl'. lia.
    + apply (IH now (prune now l)); [lia|done|done|done|]. apply (prune_filled from); [lia|lia|done].
Qed.

(** ** Pruning *)

(** A bucket that is full at [now]. *)
Definition full (now : Z) (o : option Z) : Prop :=
  match o with Some x => 0 <= x <= now | None => True end.

(** Two limiters that differ in full buckets only. *)
Record similar (now : Z) (l1 l2 : limiter) : Prop := {
  sim_tau : tau l1 = tau l2;
  sim_t : t l1 = t l2;
  sim_pos k x : tat_per_key l1 !! k = Some x -> 0 <= x;
  sim_key k : tat_per_key l1 !! k = tat_per_key l2 !! k \/
              full now (tat_per_key l1 !! k) /\ full now (tat_per_key l2 !! k);
}.

Lemma full_mono now now' o : now <= now' -> full now o -> full now' o.
Proof. destruct o; cbn; lia. Qed.

(** A full bucket grants whatever fits into it. *)
Lemma allows_full now k n (l : limiter) :
  0 <= now < 2 ^ 64 -> 0 <= t l * n -> full now (tat_per_key l !! k) ->
  allows now k n l =
  if in_width 64 (t l * n) then
    if tau l <? t l * n then (Err TooLarge, l)
    else if in_width 64 (now + t l * n)
         then (Ok tt, set_tat k (now + t l * n) (set_tat k (default now (tat_per_key l !! k)) l))
         else (Panic, set_tat k (default now (tat_per_key l !! k)) l)
  else (Panic, l).
Proof.
  intros Hn Ha Hf. rewrite allows_eq by done. cbv zeta.
  set (tat := default now (tat_per_key l !! k)).
  assert (0 <= tat <= now) as Ht by (unfold tat; destruct (tat_per_key l !! k); cbn in *; lia).
  destruct (in_width 64 (t l * n)); [|done]. destruct (Z.ltb_spec (tau l) (t l * n)); [done|].
  replace (Z.max now tat) with now by lia.
  replace (now <? saturating_sub (tat + t l * n) (tau l)) with false
    by (unfold saturating_sub; lia).
  destruct (in_width 64 (tat + t l * n)) eqn:E1; [done|].
  replace (in_width 64 (now + t l * n)) with false; [done|]. unfold in_width in *. lia.
Qed.

(** Similar limiters answer alike and stay similar. *)
Lemma allows_similar from now k n (l1 l2 : limiter) :
  0 <= from <= now -> now < 2 ^ 64 -> 0 <= t l1 * n -> similar from l1 l2 ->
  (allows now k n l1).1 = (allows now k n l2).1 /\
  similar now (allows now k n l1).2 (allows now k n l2).2.
Proof.
  intros Hf Hn Ha [Et Ett Hp Hk].
  assert (forall k', tat_per_key l1 !! k' = tat_per_key l2 !! k' \/
            full now (tat_per_key l1 !! k') /\ full now (tat_per_key l2 !! k')) as Hk'.
  { intros k'. destruct (Hk k') as [?|[H1 H2]]; [by left|right].
    split; (eapply full_mono; [|done]; lia). }
  assert (forall x y, 0 <= x -> (x = y \/ full now (Some x) /\ full now (Some y)) ->
    similar now (set_tat k x l1) (set_tat k y l2)) as Hset.
  { intros x y Hx Hxy. split; cbn; [done|done| |].
    - intros k' z [[_ <-]|[_ Hz]]%lookup_insert_Some; [done|by eapply Hp].
    - intros k'. destruct (decide (k' = k)) as [->|Hne].
      + rewrite !lookup_insert_eq. destruct Hxy as [->|?]; [by left|by right].
      + by rewrite !lookup_insert_ne. }
  assert (similar now l1 l2) as Hsim by (split; auto).
  destruct (Hk' k) as [E|[F1 F2]].
  - rewrite !allows_eq by (lia || by rewrite <-Ett). rewrite <-E, <-Et, <-Ett. cbv zeta.
    set (tat := default now (tat_per_key l1 !! k)).
    assert (0 <= tat) as Htat.
    { unfold tat. destruct (tat_per_key l1 !! k) eqn:Ek; cbn; [by eapply Hp|lia]. }
    pose proof (Hset tat tat Htat (or_introl eq_refl)).
    repeat case_match; cbn [fst snd]; split; try done.
    unfold set_tat. cbn [tau t tat_per_key]. rewrite !insert_insert_eq.
    apply (Hset _ _); [lia|by left].
  - rewrite !allows_full by (lia || done || by rewrite <-Ett). rewrite <-Et, <-Ett.
    set (x := default now (tat_per_key l1 !! k)). set (y := default now (tat_per_key l2 !! k)).
    assert (full now (Some x) /\ full now (Some y)) as [Fx Fy].
    { unfold x, y. destruct (tat_per_key l1 !! k), (tat_per_key l2 !! k); cbn in *; lia. }
    pose proof (Hset x y (proj1 Fx) (or_intror (conj Fx Fy))).
    repeat case_match; cbn [fst snd]; split; try done.
    unfold set_tat. cbn [tau t tat_per_key]. rewrite !insert_insert_eq.
    apply (Hset _ _); [lia|by left].
Qed.

Lemma prune_similar from now (l1 l2 : limiter) :
  0 <= from <= now -> now < 2 ^ 64 -> similar from l1 l2 -> similar now (prune now l1) l2.
Proof.
  intros Hf Hn [Et Ett Hp Hk]. split; [done|done| |].
  - intros k x. rewrite prune_lookup by lia. destruct (tat_per_key l1 !! k) eqn:E; [|done].
    case_decide; [|done]. intros [= <-]. by eapply Hp.
  - intros k. rewrite prune_lookup by lia.
    destruct (Hk k) as [<-|[F1 F2]]; destruct (tat_per_key l1 !! k) as [x|] eqn:E.
    + case_decide; [by left|right]. cbn. specialize (Hp _ _ E). lia.
    + by left.
    + right. split; [case_decide; cbn in *; [lia|done]|eapply full_mono; [|done]; lia].
    + right. split; [done|eapply full_mono; [|done]; lia].
Qed.

(** The requests of a run. *)
Definition asks : list (Z * event) -> list (Z * event) :=
  List.filter (fun e : Z * event => match e.2 with Ask _ _ => true | Prune => false end).

Lemma answers_similar from evs to (l1 l2 : limiter) :
  0 <= from -> to < 2 ^ 64 -> 0 <= t l1 -> ordered from evs to -> similar from l1 l2 ->
  answers evs l1 = answers (asks evs) l2.
Proof.
  intros Hf Hto. revert from l1 l2 Hf. induction evs as [|[now e] evs IH];
    intros from l1 l2 Hf Ht Ho Hs; [done|].
  cbn [ordered] in Ho. destruct Ho as (Hnow & He & Ho). pose proof (ordered_le _ _ _ Ho).
  destruct e as [k n|]; cbn [asks List.filter snd]; cbn [answers].
  - assert (0 <= t l1 * n) as Hp by nia.
    destruct (allows_similar from now k n l1 l2 ltac:(lia) ltac:(lia) Hp Hs) as [E Hs'].
    destruct (allows now k n l1) as [r l1'] eqn:E1, (allows now k n l2) as [r2 l2']. cbn in E, Hs'.
    subst r2. destruct (allows_inv now k n l1 l1' r ltac:(lia) Hp E1) as (_ & Ett & _).
    f_equal. destruct r; [|..|done]; (eapply (IH now); [lia|lia|done|done]).
  - eapply (IH now); [lia|done|done|]. by apply (prune_similar from); [lia|lia|].
Qed.

(** ** Properties *)

(** What a well-formed quota gives. *)
Lemma from_quota_inv q (l : limiter) :
  0 <= replenish_all_every q -> 0 <= max_tokens q -> from_quota q = Ok l ->
  l = mkLimiter (replenish_all_every q) (replenish_all_every q / max_tokens q) ∅ /\
  0 < tau l < 2 ^ 64 /\ 0 <= t l /\ 0 < max_tokens q.
Proof.
  intros Hr Hm. unfold from_quota, try_u64, mbind, res_bind.
  destruct (Z.eqb_spec (max_tokens q) 0); [done|].
  destruct (Z.eqb_spec (replenish_all_every q) 0); [done|].
  destruct (_ <? 2 ^ 64); [|done]. destruct (Z.ltb_spec (replenish_all_every q) (2 ^ 64)); [|done].
  intros [= <-]. cbn. split_and!; [done|lia|lia| |lia]. apply Z.div_pos; lia.
Qed.

(** C31: The rate limit holds over every window of time: whatever requests and
    prunings came before, a limiter built from a quota grants a peer, between
    two times, at most the tokens of a full bucket and those replenished in
    between, one every [t] nanoseconds. *)
Theorem window_bounded q (l0 : limiter) key pre evs a b :
  0 <= replenish_all_every q -> 0 <= max_tokens q -> from_quota q = Ok l0 ->
  ordered 0 pre a -> ordered a evs b -> b < 2 ^ 64 ->
  granted key evs (after pre l0) * t l0 <= tau l0 + (b - a).
Proof.
  intros Hr Hm Hq Hpre Hevs Hb.
  destruct (from_quota_inv q l0 Hr Hm Hq) as (-> & Htau & Ht & _).
  set (l := mkLimiter _ _ ∅) in *.
  pose proof (ordered_le _ _ _ Hpre). pose proof (ordered_le _ _ _ Hevs).
  destruct (after_filled 0 pre a l) as (Hf & E1 & E2); [lia..|done|by intros k x Hx|].
  pose proof (granted_level key a a evs b (after pre l) ltac:(lia) Hb ltac:(lia) ltac:(lia) Hevs Hf) as Hg.
  rewrite E1, E2 in Hg.
  assert (a <= level a a key (after pre l)); [|lia].
  unfold level. destruct (_ !! key); lia.
Qed.

(** The time a peer is told to wait is exact: repeating the request earlier is
    refused with the rest of the time, and after that time it is granted. *)
Theorem wait_time_exact now key n (l l' : limiter) w :
  0 <= now < 2 ^ 64 -> 0 <= t l * n -> 0 <= tau l < 2 ^ 64 ->
  (forall x, tat_per_key l !! key = Some x -> 0 <= x) ->
  allows now key n l = (Err (TooSoon w), l') ->
  (forall d, 0 <= d < w -> (allows (now + d) key n l').1 = Err (TooSoon (w - d))) /\
  (allows (now + w) key n l').1 = Ok tt.
Proof.
  intros Hn Ha Ht Hpos. rewrite allows_eq by done. cbv zeta.
  set (tat := default now (tat_per_key l !! key)).
  destruct (in_width 64 (t l * n)) eqn:W1; [|done]. destruct (Z.ltb_spec (tau l) (t l * n)); [done|].
  destruct (in_width 64 (tat + t l * n)) eqn:W2; [|done].
  destruct (Z.ltb_spec now (saturating_sub (tat + t l * n) (tau l))) as [Hlt|];
    [|by destruct (in_width 64 (Z.max now tat + t l * n))].
  intros [= <- <-]. unfold saturating_sub in *. apply in_width_spec in W1, W2.
  assert (forall d, 0 <= d <= Z.max 0 (tat + t l * n - tau l) - now ->
    (allows (now + d) key n (set_tat key tat l)).1 =
    if now + d <? Z.max 0 (tat + t l * n - tau l)
    then Err (TooSoon (Z.max 0 (tat + t l * n - tau l) - (now + d))) else Ok tt) as Hd.
  { intros d Hd. rewrite allows_eq by (cbn; lia). cbv zeta. cbn [tau t tat_per_key set_tat].
    rewrite lookup_insert_eq. change (default (now + d) (Some tat)) with tat. unfold saturating_sub.
    rewrite (proj2 (in_width_spec 64 (t l * n))) by lia.
    replace (tau l <? t l * n) with false by lia.
    rewrite (proj2 (in_width_spec 64 (tat + t l * n))) by lia.
    destruct (now + d <? _); [done|].
    by rewrite (proj2 (in_width_spec 64 (Z.max (now + d) tat + t l * n))) by lia. }
  split.
  - intros d Hdw. rewrite Hd by lia.
    replace (now + d <? Z.max 0 (tat + t l * n - tau l)) with true by lia. do 2 f_equal. lia.
  - rewrite Hd by lia. by replace (now + _ <? _) with false by lia.
Qed.

(** Pruning is not observable: dropping full buckets changes no answer, now
    or later. *)
Theorem prune_unobservable q (l0 : limiter) evs to :
  0 <= replenish_all_every q -> 0 <= max_tokens q -> from_quota q = Ok l0 ->
  ordered 0 evs to -> to < 2 ^ 64 ->
  answers evs l0 = answers (asks evs) l0.
Proof.
  intros Hr Hm Hq Ho Hto. destruct (from_quota_inv q l0 Hr Hm Hq) as (-> & _ & Ht & _).
  apply (answers_similar 0 evs to); [done|done|done|done|]. split; [done|done| |by left].
  intros k x Hx. cbn in Hx. by rewrite lookup_empty in Hx.
Qed.

End Runs.

Section Defaults.
Context {PeerId : Type} `{Countable PeerId}.

(** The first request for blocks of a peer, with the default quotas: up to
    1024 blocks are granted, more are refused as too large, and a count that
    overflows the product with the replenishing time, which a peer may send,
    panics. *)
Theorem range_request_outcomes (r : RPCRateLimiter PeerId) now peer start count :
  new_with_config config_default = Ok r -> 0 <= now < 2 ^ 63 -> 0 <= count < 2 ^ 64 ->
  (allows_request now peer (BlocksByRangeReq (mkRange start count)) r).1 =
  if count <=? MAX_REQUEST_BLOCKS then Ok tt
  else if count <=? (2 ^ 64 - 1) / 9765625 then Err TooLarge else Panic.
Proof.
  intros [= <-] Hn Hc. unfold allows_request. cbn [protocol request_protocol expected_responses RpcTypes.count limiter_of bbrange_rl].
  set (n := Z.max count 1). set (l := mkLimiter _ _ _).
  change (t l) with 9765625 in *. change (tau l) with 10000000000 in *.
  assert (0 <= t l * n) as Hp by (change (t l) with 9765625; lia).
  assert (full now (tat_per_key l !! peer)) as Hf by (cbn; by rewrite lookup_empty).
  pose proof (allows_full now peer n l ltac:(lia) Hp Hf) as E.
  change (t l) with 9765625 in E. change (tau l) with 10000000000 in E.
  destruct (allows now peer n l) as [o x]. cbn [fst].
  change ((2 ^ 64 - 1) / 9765625) with 1888946593147. unfold MAX_REQUEST_BLOCKS, in_width in *.
  destruct (Z.leb_spec count 1024), (Z.leb_spec count 1888946593147); try lia.
  - replace ((0 <=? 9765625 * n) && (9765625 * n <? 2 ^ 64)) with true in E by lia.
    replace (10000000000 <? 9765625 * n) with false in E by lia.
    replace ((0 <=? now + 9765625 * n) && (now + 9765625 * n <? 2 ^ 64)) with true in E by lia.
    by injection E as -> _.
  - replace ((0 <=? 9765625 * n) && (9765625 * n <? 2 ^ 64)) with true in E by lia.
    replace (10000000000 <? 9765625 * n) with true in E by lia. by injection E as -> _.
  - replace ((0 <=? 9765625 * n) && (9765625 * n <? 2 ^ 64)) with false in E by lia.
    by injection E as -> _.
Qed.
End Defaults.

(** ** Witnesses *)

Module Witness.

Definition quota : Quota := n_every 4 2.
Definition l0 : Limiter Z := mkLimiter 2000000000 500000000 ∅.

(** A burst, two requests that are too soon, one that fits, and a pruning. *)
Definition events : list (Z * event (Key:=Z)) :=
  [(10, Ask 7 4); (20, Ask 7 1); (30, Ask 8 2); (40, Prune); (500000010, Ask 7 1);
   (500000020, Ask 7 1); (3000000000, Prune); (3000000001, Ask 7 4)].

Lemma events_granted : granted 7 events l0 = 9.
Proof. vm_compute. reflexivity. Qed.

Lemma window_bounded_witness : granted 7 events (after [] l0) * 500000000 <= 2000000000 + 3000000001.
Proof.
  apply (window_bounded quota l0 7 [] events 0 3000000001).
  - vm_compute. discriminate.
  - vm_compute. discriminate.
  - reflexivity.
  - cbn. lia.
  - cbn. lia.
  - lia.
Defined.

Lemma wait_time_exact_witness :
  (allows 20 7 1 (after [(10, Ask 7 4)] l0)).1 = Err (TooSoon 499999990) /\
  (allows 500000010 7 1 (after [(10, Ask 7 4); (20, Ask 7 1)] l0)).1 = Ok tt.
Proof.
  assert (allows 20 7 1 (after [(10, Ask 7 4)] l0)
          = (Err (TooSoon 499999990), after [(10, Ask 7 4); (20, Ask 7 1)] l0)) as E
    by (vm_compute; reflexivity).
  split; [by rewrite E|].
  apply (wait_time_exact 20 7 1 (after [(10, Ask 7 4)] l0) _ 499999990).
  - lia.
  - vm_compute. discriminate.
  - vm_compute. split; [discriminate|reflexivity].
  - intros x. vm_compute. intros [= <-]. discriminate.
  - exact E.
Defined.

Lemma prune_unobservable_witness : answers events l0 = answers (asks events) l0.
Proof.
  apply (prune_unobservable quota l0 events 3000000001).
  - vm_compute. discriminate.
  - vm_compute. discriminate.
  - reflexivity.
  - cbn. lia.
  - lia.
Defined.

Definition limiter0 : RPCRateLimiter Z :=
  match new_with_config config_default with
  | Ok r => r
  | _ => mkRateLimiter l0 l0 l0 l0 l0
  end.

Lemma range_request_outcomes_witness :
  (allows_request 5 1 (BlocksByRangeReq (mkRange 0 1024)) limiter0).1 = Ok tt /\
  (allows_request 5 1 (BlocksByRangeReq (mkRange 0 (2 ^ 63))) limiter0).1 = Panic.
Proof.
  split; (rewrite (range_request_outcomes limiter0); [reflexivity|reflexivity|lia|lia]).
Defined.

End Witness.

End RateLimiter.
