(* ===== verification/Text.v ===== *)
(** Texts of the configuration and of requests: decimal numbers as
    [u64::from_str] and [Display] have them, splitting at a character, and that
    reading inverts writing. *)
From stdpp Require Import base decidable list gmap sets.
From Stdlib Require Import ZArith Lia Ascii.
From S2P Require Import Prelude.

Module Text.
Local Open Scope Z_scope.

Abbreviation text := (list ascii).
Definition chars (s : String.string) : text := String.list_ascii_of_string s.

(** ** Numbers *)

Inductive ParseIntError := Empty | InvalidDigit | PosOverflow.

(** The digits of a base up to sixteen, in lower case. *)
Definition digit (d : Z) : ascii :=
  ascii_of_nat (Z.to_nat (if d <? 10 then 48 + d else 87 + d)).

(** [char::to_digit]: letters of both cases. *)
Definition digit_value (base : Z) (c : ascii) : option Z :=
  let n := Z.of_nat (nat_of_ascii c) in
  let d := if (48 <=? n) && (n <=? 57) then n - 48
           else if (97 <=? n) && (n <=? 122) then n - 87
           else if (65 <=? n) && (n <=? 90) then n - 55
           else base in
  if d <? base then Some d else None.

(** The digits one by one; the product and the sum are checked. *)
Fixpoint parse_digits (base w acc : Z) (l : text) : res ParseIntError Z :=
  match l with
  | [] => Ok acc
  | c :: l =>
      match digit_value base c with
      | None => Err InvalidDigit
      | Some d =>
          if in_width w (acc * base) && in_width w (acc * base + d)
          then parse_digits base w (acc * base + d) l
          else Err PosOverflow
      end
  end.

(** [from_str_radix] of an unsigned type: a plus sign may come first. *)
Definition from_str_radix (base w : Z) (l : text) : res ParseIntError Z :=
  match l with
  | [] => Err Empty
  | c :: rest =>
      if decide (c = "+"%char)
      then match rest with [] => Err InvalidDigit | _ => parse_digits base w 0 rest end
      else parse_digits base w 0 l
  end.

(** [str::parse::<u64>] *)
Definition parse_u64 (l : text) : res ParseIntError Z := from_str_radix 10 64 l.

(** A number in a base, without leading zeros. *)
Fixpoint digits (base : Z) (fuel : nat) (n : Z) : text :=
  match fuel with
  | O => [digit n]
  | S fuel => if n <? base then [digit n] else digits base fuel (n / base) ++ [digit (n mod base)]
  end.

(** [Display] of a [u64], which has at most twenty digits, and the format
    [{:x}] of a [u32], which has at most eight. *)
Definition print_u64 (n : Z) : text := digits 10 20 n.
Definition print_hex_u32 (n : Z) : text := digits 16 8 n.

Section Base.
Context (base : Z) (Hbase : 2 <= base <= 16).

Lemma digit_value_digit d : 0 <= d < base -> digit_value base (digit d) = Some d.
Proof.
  intros Hd. unfold digit_value, digit. destruct (Z.ltb_spec d 10).
  - rewrite nat_ascii_embedding by lia. rewrite Z2Nat.id by lia.
    rewrite (proj2 (Z.leb_le 48 (48 + d))), (proj2 (Z.leb_le (48 + d) 57)) by lia. cbn [andb].
    replace (48 + d - 48) with d by lia. by rewrite (proj2 (Z.ltb_lt d base)) by lia.
  - rewrite nat_ascii_embedding by lia. rewrite Z2Nat.id by lia.
    rewrite (proj2 (Z.leb_gt (87 + d) 57)), andb_false_r by lia.
    rewrite (proj2 (Z.leb_le 97 (87 + d))), (proj2 (Z.leb_le (87 + d) 122)) by lia. cbn [andb].
    replace (87 + d - 87) with d by lia. by rewrite (proj2 (Z.ltb_lt d base)) by lia.
Qed.

Lemma parse_digits_digits w f n rest :
  0 <= n < base ^ Z.of_nat (S f) -> n < 2 ^ w ->
  parse_digits base w 0 (digits base f n ++ rest) = parse_digits base w n rest.
Proof.
  assert (forall m d, 0 <= m -> 0 <= d < base -> m * base + d < 2 ^ w ->
    forall l, parse_digits base w m (digit d :: l) = parse_digits base w (m * base + d) l) as Hstep.
  { intros m d Hm Hd Hw l. cbn [parse_digits]. rewrite digit_value_digit by done.
    by rewrite !(proj2 (in_width_spec w _)) by nia. }
  revert n rest. induction f as [|f IH]; intros n rest Hn Hw; cbn [digits].
  - change (Z.of_nat 1) with 1 in Hn. rewrite Z.pow_1_r in Hn. cbn [app].
    rewrite Hstep by lia. by rewrite Z.mul_0_l.
  - destruct (Z.ltb_spec n base); [cbn [app]; rewrite Hstep by lia; by rewrite Z.mul_0_l|].
    rewrite Nat2Z.inj_succ, Z.pow_succ_r in Hn by lia.
    pose proof (Z.mod_pos_bound n base ltac:(lia)). pose proof (Z.div_mod n base ltac:(lia)).
    assert (0 <= n / base) by (apply Z.div_pos; lia).
    rewrite <-app_assoc, IH.
    + cbn [app]. rewrite Hstep; [|done|done|lia]. f_equal. lia.
    + split; [done|]. apply Z.div_lt_upper_bound; lia.
    + nia.
Qed.

Lemma digits_head f n :
  0 <= n < base ^ Z.of_nat (S f) -> exists d l, digits base f n = digit d :: l /\ 0 <= d < base.
Proof.
  revert n. induction f as [|f IH]; intros n Hn; cbn [digits].
  - exists n, []. change (Z.of_nat 1) with 1 in Hn. rewrite Z.pow_1_r in Hn. done.
  - destruct (Z.ltb_spec n base); [exists n, []; split; [done|lia]|].
    rewrite Nat2Z.inj_succ, Z.pow_succ_r in Hn by lia.
    destruct (IH (n / base)) as (d & l & -> & Hd).
    { split; [apply Z.div_pos; lia|apply Z.div_lt_upper_bound; lia]. }
    by exists d, (l ++ [digit (n mod base)]).
Qed.

Lemma digit_plain d : 0 <= d < base -> digit d <> "+"%char.
Proof.
  intros Hd E. apply (f_equal (digit_value base)) in E. rewrite digit_value_digit in E by done.
  unfold digit_value in E. cbn -[Z.ltb] in E. by rewrite Z.ltb_irrefl in E.
Qed.

(** Reading inverts writing. *)
Lemma radix_round_trip w f n :
  0 <= n < base ^ Z.of_nat (S f) -> n < 2 ^ w -> from_str_radix base w (digits base f n) = Ok n.
Proof.
  intros Hn Hw. pose proof (parse_digits_digits w f n [] Hn Hw) as E. rewrite app_nil_r in E.
  destruct (digits_head f n Hn) as (d & l & El & Hd0). rewrite El in *. unfold from_str_radix.
  by rewrite decide_False by (by apply digit_plain).
Qed.

(** A number is written with digits only. *)
Lemma digits_plain f n c :
  0 <= n < base ^ Z.of_nat (S f) -> digit_value base c = None -> c ∉ digits base f n.
Proof.
  intros Hn Hc. assert (forall d, 0 <= d < base -> c <> digit d) as Hd.
  { intros d Hd ->. rewrite digit_value_digit in Hc by done. done. }
  revert n Hn. induction f as [|f IH]; intros n Hn; cbn [digits].
  - change (Z.of_nat 1) with 1 in Hn. rewrite Z.pow_1_r in Hn.
    intros ->%list_elem_of_singleton. by apply (Hd n).
  - destruct (Z.ltb_spec n base).
    + intros ->%list_elem_of_singleton. apply (Hd n); [lia|done].
    + rewrite Nat2Z.inj_succ, Z.pow_succ_r in Hn by lia.
      pose proof (Z.mod_pos_bound n base ltac:(lia)).
      intros [Hin|Hin%list_elem_of_singleton]%elem_of_app; [|by apply (Hd (n mod base))].
      revert Hin. apply IH. split; [apply Z.div_pos; lia|apply Z.div_lt_upper_bound; lia].
Qed.

End Base.

Lemma u64_digits n : 0 <= n < 2 ^ 64 -> 0 <= n < 10 ^ Z.of_nat 21.
Proof. change (10 ^ Z.of_nat 21) with 1000000000000000000000. lia. Qed.

Lemma parse_print_u64 n : 0 <= n < 2 ^ 64 -> parse_u64 (print_u64 n) = Ok n.
Proof. intros Hn. apply radix_round_trip; [lia|by apply u64_digits|lia]. Qed.

Lemma parse_print_hex n : 0 <= n < 2 ^ 32 -> from_str_radix 16 32 (print_hex_u32 n) = Ok n.
Proof.
  intros Hn. apply radix_round_trip; [lia| |lia]. change (16 ^ Z.of_nat 9) with 68719476736. lia.
Qed.

Lemma print_u64_plain n c : 0 <= n < 2 ^ 64 -> digit_value 10 c = None -> c ∉ print_u64 n.
Proof. intros Hn. apply digits_plain; [lia|by apply u64_digits]. Qed.

(** ** Splitting *)

Section Splitting.
Context {A : Type} `{EqDecision A}.
Implicit Types (c : A) (p a b l : list A).

(** [str::split_once]: at the first occurrence. *)
Fixpoint split_once (c : A) (l : list A) : option (list A * list A) :=
  match l with
  | [] => None
  | x :: l =>
      if decide (x = c) then Some ([], l)
      else match split_once c l with Some (a, b) => Some (x :: a, b) | None => None end
  end.

(** [str::split]: there is always a first piece. *)
Fixpoint split (c : A) (l : list A) : list (list A) :=
  match l with
  | [] => [[]]
  | x :: l =>
      if decide (x = c) then [] :: split c l
      else match split c l with p :: ps => (x :: p) :: ps | [] => [[x]] end
  end.

Fixpoint join (c : A) (ps : list (list A)) : list A :=
  match ps with
  | [] => []
  | [p] => p
  | p :: ps => p ++ c :: join c ps
  end.

Lemma split_once_app c a b : c ∉ a -> split_once c (a ++ c :: b) = Some (a, b).
Proof.
  induction a as [|x a IH]; intros Ha; cbn.
  - by rewrite decide_True.
  - rewrite decide_False by set_solver. by rewrite IH by set_solver.
Qed.

Lemma split_plain c p : c ∉ p -> split c p = [p].
Proof.
  induction p as [|x p IH]; intros Hp; cbn; [done|].
  rewrite decide_False by set_solver. by rewrite IH by set_solver.
Qed.

Lemma split_app c p l : c ∉ p -> split c (p ++ c :: l) = p :: split c l.
Proof.
  induction p as [|x p IH]; intros Hp; cbn.
  - by rewrite decide_True.
  - rewrite decide_False by set_solver. by rewrite IH by set_solver.
Qed.

Lemma split_join c ps : ps <> [] -> Forall (fun p => c ∉ p) ps -> split c (join c ps) = ps.
Proof.
  intros Hne Hf. induction Hf as [|p ps Hp Hf IH]; [done|]. destruct ps as [|q ps].
  - by apply split_plain.
  - cbn [join]. rewrite split_app by done. f_equal. by apply IH.
Qed.

End Splitting.

End Text.
