(* ===== verification/QuotaConfig.v ===== *)
(** The quotas of the rate limiters as texts
    ([app/src/network/rpc/config.rs]): [protocol:tokens/seconds], separated by
    semicolons; protocols that are not named have the default quota. *)
From stdpp Require Import base decidable list gmap sets strings.
From Stdlib Require Import ZArith Lia Ascii.
From S2P Require Import Prelude Bitcoin RpcTypes RateLimiter Text.

Module QuotaConfig.
Import RpcTypes RateLimiter Text.
Local Open Scope Z_scope.

Record ProtocolQuota := mkProtocolQuota { q_protocol : Protocol; q_quota : Quota }.

Inductive QuotaError := MissingColon | WrongProtocol | MissingSlash | BadTokens | BadSeconds.

Definition as_secs (nanos : Z) : Z := nanos / 10 ^ 9.

(** [Display] *)
Definition display (p : ProtocolQuota) : text :=
  chars (protocol_name (q_protocol p)) ++ ":"%char :: print_u64 (max_tokens (q_quota p))
  ++ "/"%char :: print_u64 (as_secs (replenish_all_every (q_quota p))).

(** [Protocol::from_str], by the names of the variants. *)
Definition protocol_of_name (l : text) : option Protocol :=
  find (fun p => bool_decide (chars (protocol_name p) = l)) [Status; Goodbye; BlocksByRange; Ping; MetaData].

(** [FromStr] *)
Definition quota_from_str (s : text) : res QuotaError ProtocolQuota :=
  '(protocol_str, quota_str) ← ok_or (split_once ":"%char s) MissingColon;
  protocol ← ok_or (protocol_of_name protocol_str) WrongProtocol;
  '(tokens_str, time_str) ← ok_or (split_once "/"%char quota_str) MissingSlash;
  tokens ← map_err (fun _ => BadTokens) (parse_u64 tokens_str);
  seconds ← map_err (fun _ => BadSeconds) (parse_u64 time_str);
  Ok (mkProtocolQuota protocol (mkQuota (secs seconds) tokens)).

(** The quotas given so far; the first of a protocol counts. *)
Definition or_quota (p : ProtocolQuota) (given : Protocol -> option Quota) : Protocol -> option Quota :=
  fun x =>
    if decide (x = q_protocol p) then
      match given x with Some q => Some q | None => Some (q_quota p) end
    else given x.

Fixpoint read_defs (defs : list text) (given : Protocol -> option Quota) :
    res QuotaError (Protocol -> option Quota) :=
  match defs with
  | [] => Ok given
  | proto_def :: defs =>
      p ← quota_from_str proto_def;
      read_defs defs (or_quota p given)
  end.

Definition config_from_str (s : text) : res QuotaError RateLimiterConfig :=
  given ← read_defs (split ";"%char s) (fun _ => None);
  Ok (mkConfig (default (ping_quota config_default) (given Ping))
               (default (meta_data_quota config_default) (given MetaData))
               (default (status_quota config_default) (given Status))
               (default (goodbye_quota config_default) (given Goodbye))
               (default (blocks_by_range_quota config_default) (given BlocksByRange))).

(** ** Reading what was written *)

(** Whole seconds and tokens of 64 bits. *)
Definition quota_valid (p : ProtocolQuota) : Prop :=
  0 <= max_tokens (q_quota p) < 2 ^ 64 /\
  exists s, 0 <= s < 2 ^ 64 /\ replenish_all_every (q_quota p) = secs s.

Lemma name_plain p c : c ∈ [":"%char; "/"%char; ";"%char] -> c ∉ chars (protocol_name p).
Proof. intros Hc. destruct p; cbn; set_solver. Qed.

Lemma protocol_of_name_name p : protocol_of_name (chars (protocol_name p)) = Some p.
Proof. by destruct p. Qed.

Lemma as_secs_secs s : as_secs (secs s) = s.
Proof. unfold as_secs, secs. by rewrite Z.div_mul. Qed.

Lemma quota_round_trip p : quota_valid p -> quota_from_str (display p) = Ok p.
Proof.
  destruct p as [x [every tokens]]. intros [Ht (s & Hs & E)]. cbn in Ht, E. subst every.
  unfold quota_from_str, display. cbn [q_protocol q_quota max_tokens replenish_all_every].
  rewrite as_secs_secs, split_once_app by (apply name_plain; set_solver). cbn [ok_or mbind res_bind].
  rewrite protocol_of_name_name. cbn [ok_or mbind res_bind].
  rewrite split_once_app by (by apply print_u64_plain). cbn [ok_or mbind res_bind].
  by rewrite !parse_print_u64.
Qed.

Lemma display_plain p : quota_valid p -> ";"%char ∉ display p.
Proof.
  intros [Ht (s & Hs & E)]. unfold display. rewrite E, as_secs_secs.
  pose proof (name_plain (q_protocol p) ";"%char ltac:(set_solver)).
  pose proof (print_u64_plain _ ";"%char Ht eq_refl). pose proof (print_u64_plain _ ";"%char Hs eq_refl).
  set_solver.
Qed.

(** The first quota a list of definitions gives a protocol. *)
Definition first_quota (x : Protocol) (ps : list ProtocolQuota) : option Quota :=
  q_quota <$> find (fun p => bool_decide (q_protocol p = x)) ps.

Lemma read_defs_display ps given :
  Forall quota_valid ps ->
  exists g, read_defs (map display ps) given = Ok g /\
    forall x, g x = match given x with Some q => Some q | None => first_quota x ps end.
Proof.
  intros Hf. revert given. induction Hf as [|p ps Hp Hf IH]; intros given; cbn [read_defs map].
  - exists given. split; [done|]. intros x. by destruct (given x).
  - rewrite quota_round_trip by done. cbn [mbind res_bind].
    destruct (IH (or_quota p given)) as (g & -> & Hg). exists g. split; [done|]. intros x. rewrite Hg.
    unfold or_quota, first_quota. cbn [find]. case_decide as Hx.
    + subst x. rewrite bool_decide_true by done. by destruct (given (q_protocol p)).
    + by rewrite bool_decide_false.
Qed.

(** The configuration read from written quotas gives each protocol the first
    quota written for it, and the default one when there is none. *)
Theorem config_round_trip ps :
  ps <> [] -> Forall quota_valid ps ->
  config_from_str (join ";"%char (map display ps)) =
  Ok (mkConfig (default (ping_quota config_default) (first_quota Ping ps))
               (default (meta_data_quota config_default) (first_quota MetaData ps))
               (default (status_quota config_default) (first_quota Status ps))
               (default (goodbye_quota config_default) (first_quota Goodbye ps))
               (default (blocks_by_range_quota config_default) (first_quota BlocksByRange ps))).
Proof.
  intros Hne Hf. unfold config_from_str. rewrite split_join.
  - destruct (read_defs_display ps (fun _ => None) Hf) as (g & -> & Hg). cbn. by rewrite !Hg.
  - by destruct ps.
  - apply Forall_map. eapply Forall_impl; [exact Hf|]. apply display_plain.
Qed.

Module Witness.

Definition quotas : list ProtocolQuota :=
  [mkProtocolQuota Ping (n_every 7 30); mkProtocolQuota BlocksByRange (n_every 64 1);
   mkProtocolQuota Ping (n_every 9 2)].

Lemma config_round_trip_witness :
  config_from_str (chars "ping:7/30;blocks_by_range:64/1;ping:9/2"%string)
  = Ok (mkConfig (n_every 7 30) (n_every 2 5) (n_every 5 15) (one_every 10) (n_every 64 1)).
Proof.
  pose proof (config_round_trip quotas ltac:(done)) as E. apply E.
  repeat constructor; cbn; try lia; eexists; (split; [|done]; lia).
Defined.

End Witness.

End QuotaConfig.
