(* ===== verification/RpcBehaviour.v ===== *)
(** The network behaviour for requests ([RPC] of
    [app/src/network/rpc/mod.rs]) and the limiter of the node's own requests
    ([app/src/network/rpc/self_limiter.rs]): requests over the quota of a peer
    and protocol are queued, a timer wakes each queue. Logging is left out;
    times are nanoseconds since the limiters were built. *)
From stdpp Require Import base decidable list gmap strings.
From Stdlib Require Import ZArith Lia.
From S2P Require Import Prelude Bitcoin RpcTypes RateLimiter.

Module RpcBehaviour.
Local Open Scope Z_scope.
Import RpcTypes RateLimiter.

Section WithTypes.
Context {PeerId : Type} `{Countable PeerId}.
Context {Id ConnectionId SubstreamId : Type}.

Inductive Handler := AnyHandler | OneHandler (c : ConnectionId).

(** [ToSwarm]. *)
Inductive BehaviourAction :=
| NotifyHandler (peer_id : PeerId) (handler : Handler) (event : RPCSend Id SubstreamId)
| GenerateEvent (peer_id : PeerId) (conn_id : ConnectionId) (event : HandlerEvent Id SubstreamId).

(** ** The limiter of own requests *)

Record QueuedRequest := mkQueued { req : Request; request_id : Id }.

Abbreviation key := (PeerId * Protocol)%type.

(** [next_peer_request] holds the timers, with the time they are due. *)
Record SelfRateLimiter := mkSelf {
  delayed_requests : gmap key (list QueuedRequest);
  next_peer_request : list (key * Z);
  limiter : RPCRateLimiter PeerId;
  ready_requests : list BehaviourAction;
}.

Inductive SelfError := PendingRequests | RequestRateLimited.

Definition self_new (c : RateLimiterConfig) : res BuildError SelfRateLimiter :=
  l ← new_with_config c;
  Ok (mkSelf ∅ [] l []).

Definition request_action (peer_id : PeerId) (id : Id) (r : Request) : BehaviourAction :=
  NotifyHandler peer_id AnyHandler (SendRequest id r).

(** A batch that never fits is sent anyway. *)
Definition try_send_request (now : Z) (peer_id : PeerId) (q : QueuedRequest) :
    ST (RPCRateLimiter PeerId) (QueuedRequest * Z) BehaviourAction := fun l =>
  match allows_request now peer_id (req q) l with
  | (Ok _, l') => (Ok (request_action peer_id (request_id q) (req q)), l')
  | (Err TooLarge, l') => (Ok (request_action peer_id (request_id q) (req q)), l')
  | (Err (TooSoon wait_time), l') => (Err (q, wait_time), l')
  | (Panic, l') => (Panic, l')
  end.

Definition self_allows (now : Z) (peer_id : PeerId) (id : Id) (r : Request) :
    ST SelfRateLimiter SelfError BehaviourAction := fun s =>
  let k := (peer_id, protocol (request_protocol r)) in
  match delayed_requests s !! k with
  | Some queued =>
      (Err PendingRequests,
       mkSelf (<[k := queued ++ [mkQueued r id]]> (delayed_requests s)) (next_peer_request s)
              (limiter s) (ready_requests s))
  | None =>
      match try_send_request now peer_id (mkQueued r id) (limiter s) with
      | (Ok event, l) =>
          (Ok event, mkSelf (delayed_requests s) (next_peer_request s) l (ready_requests s))
      | (Err (limited, wait_time), l) =>
          (Err RequestRateLimited,
           mkSelf (<[k := [limited]]> (delayed_requests s))
                  (next_peer_request s ++ [(k, now + wait_time)]) l (ready_requests s))
      | (Panic, l) =>
          (Panic, mkSelf (delayed_requests s) (next_peer_request s) l (ready_requests s))
      end
  end.

(** The loop over a queue: the requests sent, and the queue left with the time
    to wait, [None] when it is empty. The request that was refused goes to the
    back. *)
Fixpoint drain (now : Z) (peer_id : PeerId) (queue : list QueuedRequest)
    (ready : list BehaviourAction) (l : RPCRateLimiter PeerId) :
    res unit (option (list QueuedRequest * Z)) * list BehaviourAction * RPCRateLimiter PeerId :=
  match queue with
  | [] => (Ok None, ready, l)
  | q :: queue' =>
      match try_send_request now peer_id q l with
      | (Ok event, l') => drain now peer_id queue' (ready ++ [event]) l'
      | (Err (limited, wait_time), l') => (Ok (Some (queue' ++ [limited], wait_time)), ready, l')
      | (Panic, l') => (Panic, ready, l')
      end
  end.

Definition next_peer_request_ready (now : Z) (k : key) : ST SelfRateLimiter unit unit := fun s =>
  match delayed_requests s !! k with
  | None => (Ok tt, s)
  | Some queued =>
      match drain now k.1 queued (ready_requests s) (limiter s) with
      | (Ok None, ready, l) =>
          (Ok tt, mkSelf (delete k (delayed_requests s)) (next_peer_request s) l ready)
      | (Ok (Some (rest, wait_time)), ready, l) =>
          (Ok tt, mkSelf (<[k := rest]> (delayed_requests s))
                         (next_peer_request s ++ [(k, now + wait_time)]) l ready)
      | (_, ready, l) => (Panic, mkSelf (delayed_requests s) (next_peer_request s) l ready)
      end
  end.

(** [poll_ready]; [expired] is the position of the timer the delay queue yields,
    if one is due, and [ticks] how many ticks of the pruning interval are. *)
Definition wake (now : Z) (expired : option nat) : ST SelfRateLimiter unit unit := fun s =>
  match expired ≫= fun i => next_peer_request s !! i with
  | Some (k, _) =>
      next_peer_request_ready now k
        (mkSelf (delayed_requests s)
                (match expired with
                 | Some i => delete i (next_peer_request s)
                 | None => next_peer_request s
                 end)
                (limiter s) (ready_requests s))
  | None => (Ok tt, s)
  end.

Definition take_ready : ST SelfRateLimiter unit (option BehaviourAction) := fun s =>
  match ready_requests s with
  | [] => (Ok None, s)
  | e :: es =>
      (Ok (Some e), mkSelf (delayed_requests s) (next_peer_request s) (limiter s) es)
  end.

Definition poll_ready (now : Z) (expired : option nat) (ticks : nat) :
    ST SelfRateLimiter unit (option BehaviourAction) :=
  wake now expired ;;
  modifyS (fun s => mkSelf (delayed_requests s) (next_peer_request s)
                           (limiter_poll now ticks (limiter s)) (ready_requests s)) ;;
  take_ready.

(** ** The behaviour *)

Record RPC := mkRPC {
  inbound_limiter : option (RPCRateLimiter PeerId);
  self_limiter : option SelfRateLimiter;
  events : list BehaviourAction;
}.

(** [RPC::new]: quotas that cannot be built panic. *)
Definition new (inbound outbound : option RateLimiterConfig) : res unit RPC :=
  l ← (match inbound with Some c => Some <$> unwrap_res (new_with_config c) | None => Ok None end);
  s ← (match outbound with Some c => Some <$> unwrap_res (self_new c) | None => Ok None end);
  Ok (mkRPC l s []).

Definition push (e : BehaviourAction) (r : RPC) : RPC :=
  mkRPC (inbound_limiter r) (self_limiter r) (events r ++ [e]).

Definition send_response (peer_id : PeerId) (conn : ConnectionId) (substream : SubstreamId)
    (event : RPCCodedResponse) (r : RPC) : RPC :=
  push (NotifyHandler peer_id (OneHandler conn) (SendResponse substream event)) r.

Definition send_request (now : Z) (peer_id : PeerId) (id : Id) (x : Request) : ST RPC unit unit :=
  fun r =>
  match self_limiter r with
  | Some s =>
      match self_allows now peer_id id x s with
      | (Ok event, s') => (Ok tt, push event (mkRPC (inbound_limiter r) (Some s') (events r)))
      | (Err _, s') => (Ok tt, mkRPC (inbound_limiter r) (Some s') (events r))
      | (Panic, s') => (Panic, mkRPC (inbound_limiter r) (Some s') (events r))
      end
  | None => (Ok tt, push (request_action peer_id id x) r)
  end.

Definition shutdown (peer_id : PeerId) (id : Id) (reason : GoodbyeReason) (r : RPC) : RPC :=
  push (NotifyHandler peer_id AnyHandler (SendShutdown id reason)) r.

(** The text of a refusal; [debug] prints a duration. *)
Definition refusal (debug : Z -> string) (e : RateLimitedErr) : ErrorType :=
  match e with
  | TooLarge => error_type "Rate limited. Request too large"
  | TooSoon wait_time => error_type ("Wait " +:+ debug wait_time)
  end.

Definition on_connection_handler_event (debug : Z -> string) (now : Z) (peer_id : PeerId)
    (conn : ConnectionId) (event : HandlerEvent Id SubstreamId) : ST RPC unit unit := fun r =>
  let deliver r := push (GenerateEvent peer_id conn event) r in
  match event, inbound_limiter r with
  | Received (ReceivedRequest id x), Some l =>
      let (o, l') := allows_request now peer_id x l in
      let r' := mkRPC (Some l') (self_limiter r) (events r) in
      match o with
      | Ok _ => (Ok tt, deliver r')
      | Err e => (Ok tt, send_response peer_id conn id (ErrorResponse RateLimited (refusal debug e)) r')
      | Panic => (Panic, r')
      end
  | _, _ => (Ok tt, deliver r)
  end.

(** The two limiters have their own pruning intervals. *)
Definition poll (now : Z) (expired : option nat) (ticks_inbound ticks : nat) :
    ST RPC unit (option BehaviourAction) := fun r =>
  let inbound := limiter_poll now ticks_inbound <$> inbound_limiter r in
  let pop s evs := match evs with
                   | [] => (Ok None, mkRPC inbound s [])
                   | e :: evs' => (Ok (Some e), mkRPC inbound s evs')
                   end in
  match self_limiter r with
  | None => pop None (events r)
  | Some s =>
      match poll_ready now expired ticks s with
      | (Ok (Some e), s') => pop (Some s') (events r ++ [e])
      | (Ok None, s') => pop (Some s') (events r)
      | (_, s') => (Panic, mkRPC inbound (Some s') (events r))
      end
  end.

(** ** Nothing is lost *)

(** A request to a peer. *)
Definition entry : Type := PeerId * Id * Request.

Definition of_queued (p : PeerId) (q : QueuedRequest) : entry := (p, request_id q, req q).

Definition of_action (a : BehaviourAction) : option entry :=
  match a with NotifyHandler p _ (SendRequest id r) => Some (p, id, r) | _ => None end.

Definition queued_of (x : key * list QueuedRequest) : list entry := map (of_queued x.1.1) x.2.

(** The requests that wait, in queues and ready to be sent. *)
Definition waiting (s : SelfRateLimiter) : list entry :=
  mjoin (map queued_of (map_to_list (delayed_requests s))) ++ omap of_action (ready_requests s).

(** Every queue has a request and a timer. *)
Definition awake (s : SelfRateLimiter) : Prop :=
  forall k q, delayed_requests s !! k = Some q -> q <> [] /\ k ∈ map fst (next_peer_request s).

Lemma queues_insert (k : key) (q : list QueuedRequest) (m : gmap key (list QueuedRequest)) :
  mjoin (map queued_of (map_to_list (<[k := q]> m)))
  ≡ₚ map (of_queued k.1) q ++ mjoin (map queued_of (map_to_list (delete k m))).
Proof.
  rewrite <-(insert_delete_eq m k q), map_to_list_insert by apply lookup_delete_eq. done.
Qed.

Lemma queues_delete (k : key) (q : list QueuedRequest) (m : gmap key (list QueuedRequest)) :
  m !! k = Some q ->
  mjoin (map queued_of (map_to_list m))
  ≡ₚ map (of_queued k.1) q ++ mjoin (map queued_of (map_to_list (delete k m))).
Proof. intros E. by rewrite <-(queues_insert k q m), insert_id. Qed.

Lemma try_send_inv now p q l r l' :
  try_send_request now p q l = (r, l') ->
  match r with
  | Ok e => of_action e = Some (of_queued p q)
  | Err (q', _) => q' = q
  | Panic => True
  end.
Proof.
  unfold try_send_request.
  destruct (allows_request now p (req q) l) as [[|[]|]]; by intros [= <- <-].
Qed.

Lemma drain_inv now p queue ready l r ready' l' :
  drain now p queue ready l = (r, ready', l') ->
  match r with
  | Ok o =>
      let left := match o with Some (rest, _) => rest | None => [] end in
      map (of_queued p) queue ++ omap of_action ready
      ≡ₚ map (of_queued p) left ++ omap of_action ready' /\
      match o with Some (rest, _) => rest <> [] | None => True end
  | _ => True
  end.
Proof.
  revert ready l. induction queue as [|q queue IH]; intros ready l Hd; cbn [drain] in Hd.
  - injection Hd as <- <- _. done.
  - destruct (try_send_request now p q l) as [o l1] eqn:Es. apply try_send_inv in Es.
    destruct o as [e|[q' w]|].
    + apply IH in Hd. destruct r as [o| |]; [|done..]. destruct Hd as [Hp Hn]. split; [|done].
      rewrite <-Hp, omap_app. cbn [omap list_omap map]. rewrite Es. cbn. by rewrite app_assoc, <-Permutation_cons_append.
    + subst q'. injection Hd as <- <- _. split; [|by destruct queue].
      rewrite map_app. cbn. by rewrite <-Permutation_cons_append.
    + by injection Hd as <- _ _.
Qed.

Lemma self_allows_inv now p id x s r s' :
  self_allows now p id x s = (r, s') -> awake s ->
  match r with
  | Ok e => of_action e = Some (p, id, x) /\ waiting s' ≡ₚ waiting s /\ awake s'
  | Err _ => waiting s' ≡ₚ (p, id, x) :: waiting s /\ awake s'
  | Panic => True
  end.
Proof.
  unfold self_allows. intros Hr Ha. set (k := (p, protocol (request_protocol x))) in *.
  destruct (delayed_requests s !! k) as [queued|] eqn:Ek.
  - injection Hr as <- <-. unfold waiting. cbn [delayed_requests ready_requests]. split.
    + rewrite queues_insert, (queues_delete k queued _ Ek), map_app. cbn.
      rewrite <-!app_assoc. cbn [app]. by rewrite <-Permutation_middle.
    + unfold awake. cbn [delayed_requests next_peer_request]. intros k' q [[<- <-]|[_ Hq]]%lookup_insert_Some; [|by apply Ha].
      split; [by destruct queued|]. by destruct (Ha _ _ Ek).
  - destruct (try_send_request now p (mkQueued x id) (limiter s)) as [o l] eqn:Es.
    apply try_send_inv in Es. destruct o as [e|[q w]|]; injection Hr as <- <-; [done| |done].
    subst q. unfold waiting. cbn [delayed_requests ready_requests]. split.
    + rewrite queues_insert, delete_id by done. cbn. done.
    + unfold awake. cbn [delayed_requests next_peer_request]. intros k' q [[<- <-]|[_ Hq]]%lookup_insert_Some; rewrite map_app.
      * split; [done|]. apply elem_of_app. right. by apply list_elem_of_singleton.
      * destruct (Ha _ _ Hq). split; [done|]. apply elem_of_app. by left.
Qed.

(** Waking a queue whose timer has been taken off. *)
Lemma next_ready_inv now k s s' :
  next_peer_request_ready now k s = (Ok tt, s') ->
  (forall k' q, delayed_requests s !! k' = Some q ->
     q <> [] /\ (k' <> k -> k' ∈ map fst (next_peer_request s))) ->
  waiting s' ≡ₚ waiting s /\ awake s'.
Proof.
  unfold next_peer_request_ready. intros Hr Ha.
  destruct (delayed_requests s !! k) as [queued|] eqn:Ek.
  2:{ injection Hr as <-. split; [done|]. intros k' q Hq. destruct (Ha _ _ Hq) as [? Ht].
      split; [done|]. apply Ht. by intros ->; simplify_eq. }
  destruct (drain now k.1 queued (ready_requests s) (limiter s)) as [[o ready] l] eqn:Ed.
  apply drain_inv in Ed. destruct o as [[[rest w]|]| |]; [..|done|done];
    destruct Ed as [Hp Hn]; injection Hr as <-; unfold waiting; cbn [delayed_requests ready_requests].
  - split.
    + rewrite queues_insert, (queues_delete k queued _ Ek), <-!app_assoc.
      rewrite !(Permutation_app_comm (mjoin _)), !app_assoc. by rewrite Hp.
    + unfold awake. cbn [delayed_requests next_peer_request]. intros k' q [[<- <-]|[Hne Hq]]%lookup_insert_Some; rewrite map_app.
      * split; [done|]. apply elem_of_app. right. by apply list_elem_of_singleton.
      * destruct (Ha _ _ Hq) as [? Ht]. split; [done|]. apply elem_of_app. left. by apply Ht.
  - split.
    + rewrite (queues_delete k queued _ Ek), <-!app_assoc.
      rewrite !(Permutation_app_comm (mjoin _)), !app_assoc. by rewrite Hp.
    + unfold awake. cbn [delayed_requests next_peer_request]. intros k' q [Hne Hq]%lookup_delete_Some. destruct (Ha _ _ Hq) as [? Ht].
      split; [done|]. by apply Ht.
Qed.

Lemma wake_inv now expired s s' :
  wake now expired s = (Ok tt, s') -> awake s -> waiting s' ≡ₚ waiting s /\ awake s'.
Proof.
  unfold wake. intros Hr Ha.
  destruct expired as [i|]; cbn in Hr; [|by injection Hr as <-].
  destruct (next_peer_request s !! i) as [[k due]|] eqn:Ei; cbn in Hr; [|by injection Hr as <-].
  apply next_ready_inv in Hr; [done|]. cbn [delayed_requests next_peer_request].
  intros k' q Hq. destruct (Ha _ _ Hq) as [Hn Ht]. split; [done|]. intros Hne.
  apply list_elem_of_fmap in Ht as ([k2 d2] & -> & Hin). cbn in *.
  apply list_elem_of_fmap. exists (k2, d2). split; [done|].
  apply list_elem_of_lookup in Hin as [j Hj].
  destruct (decide (j = i)) as [->|Hji]; [congruence|].
  apply list_elem_of_lookup. destruct (decide (j < i)%nat).
  - exists j. by rewrite list_lookup_delete_lt.
  - exists (pred j). rewrite list_lookup_delete_ge by lia. by replace (S (pred j)) with j by lia.
Qed.

Lemma poll_ready_inv now expired ticks s r s' :
  poll_ready now expired ticks s = (Ok r, s') -> awake s ->
  waiting s ≡ₚ omap of_action (option_list r) ++ waiting s' /\ awake s'.
Proof.
  unfold poll_ready. intros Hr Ha.
  apply st_bind_Ok in Hr as ([] & s1 & H1 & Hr). apply wake_inv in H1 as [Hp Ha1]; [|done].
  apply st_bind_Ok in Hr as ([] & s2 & H2 & Hr).
  assert (delayed_requests s2 = delayed_requests s1 /\ next_peer_request s2 = next_peer_request s1 /\
          ready_requests s2 = ready_requests s1) as (E1 & E2 & E3)
    by (injection H2 as <-; done).
  rewrite <-Hp. unfold waiting, awake in *. rewrite <-E1, <-E2, <-E3 in *.
  unfold take_ready in Hr. destruct (ready_requests s2) as [|e es] eqn:Ees; injection Hr as <- <-.
  - cbn. rewrite Ees. done.
  - cbn [delayed_requests ready_requests next_peer_request option_list]. split; [|done].
    cbn [omap list_omap]. destruct (of_action e) eqn:Eo; cbn; rewrite ?Eo; [|done]. by rewrite <-Permutation_middle.
Qed.

(** The runs of a limiter: what was submitted, and the actions handed on. *)
Inductive run : list entry -> list BehaviourAction -> SelfRateLimiter -> Prop :=
| run_new c s : self_new c = Ok s -> run [] [] s
| run_sent now p id x submitted sent s e s' :
    run submitted sent s -> self_allows now p id x s = (Ok e, s') ->
    run ((p, id, x) :: submitted) (e :: sent) s'
| run_delayed now p id x submitted sent s err s' :
    run submitted sent s -> self_allows now p id x s = (Err err, s') ->
    run ((p, id, x) :: submitted) sent s'
| run_poll now expired ticks submitted sent s o s' :
    run submitted sent s -> poll_ready now expired ticks s = (Ok o, s') ->
    run submitted (option_list o ++ sent) s'.

(** C32: The limiter of the node's own requests, where one is configured, loses and
    duplicates nothing: after any sequence of submissions and polls that did not
    panic, at any times and with any order of the timers, the requests submitted
    are, up to order, those handed on for sending together with those that wait,
    in the queue of their peer and protocol or ready to be handed on; and every
    queue that waits has a request and a timer that will wake it. *)
Theorem requests_conserved submitted sent s :
  run submitted sent s ->
  submitted ≡ₚ omap of_action sent ++ waiting s /\
  (forall k q, delayed_requests s !! k = Some q -> q <> [] /\ k ∈ map fst (next_peer_request s)).
Proof.
  change (forall k q, _) with (awake s).
  induction 1 as [c s Hs|now p id x submitted sent s e s' _ [Hp Ha] Hr
                 |now p id x submitted sent s err s' _ [Hp Ha] Hr
                 |now expired ticks submitted sent s o s' _ [Hp Ha] Hr].
  - unfold self_new in Hs. destruct (new_with_config c); [|done..]. injection Hs as <-.
    unfold waiting. cbn. rewrite map_to_list_empty. split; [done|]. intros k q. cbn [delayed_requests]. by rewrite lookup_empty.
  - apply self_allows_inv in Hr as (He & Hw & Ha'); [|done]. split; [|done].
    cbn [omap list_omap]. rewrite He, Hw, Hp. done.
  - apply self_allows_inv in Hr as (Hw & Ha'); [|done]. split; [|done].
    rewrite Hw, Hp. by rewrite <-Permutation_middle.
  - apply poll_ready_inv in Hr as (Hw & Ha'); [|done]. split; [|done].
    rewrite omap_app, Hp, Hw. by rewrite !app_assoc, (Permutation_app_comm (omap _ sent)).
Qed.

End WithTypes.

(** ** Witnesses *)

Module Witness.

Abbreviation limiter := (SelfRateLimiter (PeerId:=Z) (Id:=Z) (ConnectionId:=unit)
  (SubstreamId:=unit)).
Abbreviation action := (BehaviourAction (PeerId:=Z) (Id:=Z) (ConnectionId:=unit)
  (SubstreamId:=unit)).

Definition s0 : limiter := mkSelf ∅ [] RateLimiter.Witness.limiter0 [].

(** Four goodbyes to a peer at once, with a quota of one every ten seconds. *)
Definition submit (id : Z) (s : limiter) : limiter := (self_allows 0 7 id (GoodbyeReq ClientShutdown) s).2.
Definition s1 : limiter := submit 1 s0.
Definition s4 : limiter := submit 4 (submit 3 (submit 2 s1)).

Definition sent_id (a : option action) : list Z :=
  match a with Some (NotifyHandler _ _ (SendRequest id _)) => [id] | _ => [] end.

Definition wake_at (now : Z) (s : limiter) : list Z * limiter :=
  match poll_ready now (Some 0%nat) 0 s with
  | (Ok a, s') => (sent_id a, s')
  | (_, s') => ([], s')
  end.

(** The request that is refused when a queue is woken goes behind those that
    were submitted after it: the third is sent after the fourth. *)
Lemma delayed_requests_reordered :
  let (a, sa) := wake_at (secs 10) s4 in
  let (b, sb) := wake_at (secs 20) sa in
  let (c, sc) := wake_at (secs 30) sb in
  a ++ b ++ c = [2; 4; 3] /\ delayed_requests sc = ∅.
Proof. vm_compute. done. Qed.

Lemma requests_conserved_witness :
  [(7, 2, GoodbyeReq ClientShutdown); (7, 1, GoodbyeReq ClientShutdown)]
  ≡ₚ omap of_action [request_action 7 1 (GoodbyeReq ClientShutdown) : action] ++ waiting (submit 2 s1).
Proof.
  apply (requests_conserved [(7, 2, GoodbyeReq ClientShutdown); (7, 1, GoodbyeReq ClientShutdown)]
           [request_action 7 1 (GoodbyeReq ClientShutdown)] (submit 2 s1)).
  apply (run_delayed 0 7 2 (GoodbyeReq ClientShutdown) [(7, 1, GoodbyeReq ClientShutdown)] _ s1 RequestRateLimited);
    [|vm_compute; reflexivity].
  apply (run_sent 0 7 1 (GoodbyeReq ClientShutdown) [] [] s0); [|vm_compute; reflexivity].
  apply (run_new config_default). vm_compute. reflexivity.
Defined.

End Witness.

End RpcBehaviour.
