(* ===== verification/Multiaddr.v ===== *)
(** The addresses of the nodes to dial first ([parse_multiple_multiaddrs] of
    [app/src/network/mod.rs]): separated by commas, by white space, or written
    one after the other. A text is a list of code points; the source slices it
    at byte offsets of slashes, which are the same places. Reading and writing
    one multiaddress is libp2p's. *)
From stdpp Require Import base decidable list gmap sets strings.
From Stdlib Require Import ZArith Lia.
From S2P Require Import Prelude Bitcoin Block RpcTypes Text.

(** [Multiaddr] with [from_str] and [to_string]. *)
Class MultiaddrLib := {
  Multiaddr : Type;
  MultiaddrErr : Type;
  InvalidMultiaddr : MultiaddrErr;
  from_str : list Z -> MultiaddrErr + Multiaddr;
  to_string : Multiaddr -> list Z;
}.

(** An address is a sequence of protocols, written one after the other; it is
    read as it was written. *)
Class MultiaddrLaws `{MultiaddrLib} := {
  from_str_to_string a : from_str (to_string a) = inr a;
  join_addresses l : exists a, to_string a = mjoin (map to_string l);
}.

Module Multiaddr.
Local Open Scope Z_scope.

Abbreviation str := (list Z).
Definition lit (s : string) : str := RpcTypes.bytes_of_string s.

Definition SLASH : Z := 47.
Definition COMMA : Z := 44.
Definition SPACE : Z := 32.

Definition SUPPORTED_MULTIADDR_PROTOCOLS : list str :=
  map lit ["ip4"; "ip6"; "dns"; "dns4"; "dns6"; "unix"; "p2p"; "p2p-webrtc-star";
           "p2p-websocket-star"]%string.

(** ** Texts *)

(** [char::is_whitespace]: the code points with the property White_Space. *)
Definition is_whitespace (c : Z) : bool :=
  ((9 <=? c) && (c <=? 13)) || (c =? 32) || (c =? 133) || (c =? 160) || (c =? 5760)
  || ((8192 <=? c) && (c <=? 8202)) || (c =? 8232) || (c =? 8233) || (c =? 8239)
  || (c =? 8287) || (c =? 12288).

Fixpoint trim_start (l : str) : str :=
  match l with
  | [] => []
  | c :: l' => if is_whitespace c then trim_start l' else l
  end.

Definition trim (l : str) : str := reverse (trim_start (reverse (trim_start l))).

(** The pieces between white space, the empty ones left out. *)
Fixpoint split_at_whitespace (l : str) : list str :=
  match l with
  | [] => [[]]
  | x :: l =>
      if is_whitespace x then [] :: split_at_whitespace l
      else match split_at_whitespace l with p :: ps => (x :: p) :: ps | [] => [[x]] end
  end.

Definition not_empty (l : str) : bool := match l with [] => false | _ => true end.

Definition split_whitespace (l : str) : list str :=
  List.filter not_empty (split_at_whitespace l).

Definition find_slash (l : str) : option nat := position (Z.eqb SLASH) l.

Definition contains (c : Z) (l : str) : bool := existsb (Z.eqb c) l.

Section WithLib.
Context `{MultiaddrLib}.

Inductive ParseError := MultiaddrError (e : MultiaddrErr).

(** [Multiaddr::from_str(s)?] *)
Definition read_addr (s : str) : res ParseError Multiaddr :=
  match from_str s with inr a => Ok a | inl e => Err (MultiaddrError e) end.

(** The pieces of a separated list: white space around them and empty ones do
    not count. *)
Fixpoint read_pieces (pieces : list str) (addresses : list Multiaddr) :
    res ParseError (list Multiaddr) :=
  match pieces with
  | [] => Ok addresses
  | addr_str :: pieces =>
      let addr_str := trim addr_str in
      if not_empty addr_str then
        addr ← read_addr addr_str;
        read_pieces pieces (addresses ++ [addr])
      else read_pieces pieces addresses
  end.

(** Whether an address starts at the slash before [protocol_start]: a known
    protocol, closed by another slash, and the rest of the input is readable. *)
Definition starts_address (input : str) (protocol_start : nat) : bool :=
  if (protocol_start <? length input)%nat then
    match find_slash (drop protocol_start input) with
    | Some protocol_end =>
        let protocol := slice protocol_start (protocol_start + protocol_end) input in
        if bool_decide (protocol ∈ SUPPORTED_MULTIADDR_PROTOCOLS) then
          match from_str (drop (protocol_start - 1) input) with inr _ => true | inl _ => false end
        else false
    | None => false
    end
  else false.

(** The inner loop; running out of fuel stands for not ending. *)
Fixpoint find_end (fuel : nat) (input : str) (search_pos : nat) : res ParseError nat :=
  match fuel with
  | O => Panic
  | S fuel =>
      if (search_pos <? length input)%nat then
        match find_slash (drop search_pos input) with
        | Some next_slash =>
            let protocol_start := (search_pos + next_slash + 1)%nat in
            if starts_address input protocol_start then Ok (protocol_start - 1)%nat
            else find_end fuel input protocol_start
        | None => Ok (length input)
        end
      else Ok (length input)
  end.

(** The outer loop. *)
Fixpoint concatenated (fuel : nat) (input : str) (current_pos : nat) (addresses : list Multiaddr) :
    res ParseError (list Multiaddr) :=
  match fuel with
  | O => Panic
  | S fuel' =>
      if (current_pos <? length input)%nat then
        match find_slash (drop current_pos input) with
        | Some slash_pos =>
            let start_pos := (current_pos + slash_pos)%nat in
            end_pos ← find_end (S (length input)) input (start_pos + 1);
            addr ← read_addr (slice start_pos end_pos input);
            concatenated fuel' input end_pos (addresses ++ [addr])
        | None => Ok addresses
        end
      else Ok addresses
  end.

Definition parse_multiple_multiaddrs (input : str) : res ParseError (list Multiaddr) :=
  if contains COMMA input then read_pieces (Text.split COMMA input) []
  else if contains SPACE input then read_pieces (split_whitespace input) []
  else
    addresses ← concatenated (S (length input)) input 0 [];
    match addresses with
    | [] => Err (MultiaddrError InvalidMultiaddr)
    | _ => Ok addresses
    end.

(** ** Cutting a text into addresses *)

(** An address starts with this rest of the text. *)
Definition new_address (rest : str) : bool :=
  match rest with
  | [] => false
  | c :: r =>
      (c =? SLASH) &&
      match find_slash r with
      | Some n =>
          if bool_decide (take n r ∈ SUPPORTED_MULTIADDR_PROTOCOLS) then
            match from_str rest with inr _ => true | inl _ => false end
          else false
      | None => false
      end
  end.

(** The text cut before every such rest. *)
Fixpoint cut (l : str) : list str :=
  match l with
  | [] => [[]]
  | c :: r =>
      match cut r with
      | p :: ps => if new_address r then [c] :: p :: ps else (c :: p) :: ps
      | [] => [[c]]
      end
  end.

(** The number of characters before the next cut. *)
Fixpoint next_cut (r : str) : nat :=
  match r with
  | [] => O
  | _ :: r' => if new_address r then O else S (next_cut r')
  end.

Lemma next_cut_le r : (next_cut r <= length r)%nat.
Proof. induction r as [|c r IH]; cbn [next_cut length]; [lia|]. case_match; lia. Qed.

Lemma next_cut_stop r : drop (next_cut r) r = [] \/ new_address (drop (next_cut r) r) = true.
Proof.
  induction r as [|c r IH]; [by left|]. cbn [next_cut].
  destruct (new_address (c :: r)) eqn:E; [by right|done].
Qed.

Lemma cut_cons c r :
  cut (c :: r) =
  (c :: take (next_cut r) r) ::
    match drop (next_cut r) r with [] => [] | rest => cut rest end.
Proof.
  revert c. induction r as [|d r IH]; intros c; [done|].
  change (cut (c :: d :: r)) with
    (match cut (d :: r) with
     | p :: ps => if new_address (d :: r) then [c] :: p :: ps else (c :: p) :: ps
     | [] => [[c]]
     end).
  cbn [next_cut]. destruct (new_address (d :: r)) eqn:E.
  - cbn [take drop]. rewrite (IH d). done.
  - rewrite IH. done.
Qed.

Lemma new_address_slash l : new_address l = true -> exists r, l = SLASH :: r.
Proof.
  destruct l as [|c r]; [done|]. cbn. intros [E _]%andb_true_iff. apply Z.eqb_eq in E. subst. by exists r.
Qed.

(** Before the next slash no address starts. *)
Lemma next_cut_find_slash l n :
  find_slash l = Some n -> next_cut l = (n + next_cut (drop n l))%nat.
Proof.
  revert n. induction l as [|c l IH]; intros n E; [done|]. unfold find_slash in E. cbn [position] in E.
  destruct (Z.eqb_spec SLASH c) as [<-|Hc]; [by injection E as <-|].
  destruct (position _ l) as [k|] eqn:Ek; [|done]. injection E as <-. cbn [drop].
  cbn [next_cut]. destruct (new_address (c :: l)) eqn:En.
  - apply new_address_slash in En as [? ?]. congruence.
  - by rewrite (IH k).
Qed.

Lemma next_cut_no_slash l : find_slash l = None -> next_cut l = length l.
Proof.
  induction l as [|c l IH]; intros E; [done|]. unfold find_slash in E. cbn [position] in E.
  destruct (Z.eqb_spec SLASH c) as [<-|Hc]; [done|]. destruct (position _ l) eqn:Ek; [done|].
  cbn [next_cut length]. destruct (new_address (c :: l)) eqn:En.
  - apply new_address_slash in En as [? ?]. congruence.
  - by rewrite IH.
Qed.

Lemma find_slash_Some l n : find_slash l = Some n -> drop n l = SLASH :: drop (S n) l.
Proof.
  intros [(x & Hx & E) _]%position_Some. apply Z.eqb_eq in E. subst x. by apply drop_S.
Qed.

Lemma starts_address_spec input p r :
  drop (p - 1) input = SLASH :: r -> (0 < p)%nat -> starts_address input p = new_address (SLASH :: r).
Proof.
  intros E Hp. assert (drop p input = r) as Er.
  { replace p with (p - 1 + 1)%nat at 1 by lia. rewrite <-drop_drop, E. done. }
  unfold starts_address, new_address. rewrite Er, Z.eqb_refl. cbn [andb].
  destruct (Nat.ltb_spec p (length input)) as [Hl|Hl].
  - destruct (find_slash r) as [n|]; [|done]. unfold slice. rewrite Er, E.
    by replace (p + n - p)%nat with n by lia.
  - assert (r = []) as -> by (rewrite <-Er; by apply drop_ge). done.
Qed.

Lemma find_end_spec fuel input pos :
  (pos <= length input)%nat -> (length input - pos < fuel)%nat ->
  find_end fuel input pos = Ok (pos + next_cut (drop pos input))%nat.
Proof.
  revert pos. induction fuel as [|fuel IH]; intros pos Hpos Hfuel; [lia|]. cbn [find_end].
  destruct (Nat.ltb_spec pos (length input)) as [Hl|Hl].
  2: { rewrite drop_ge by lia. cbn. f_equal. lia. }
  destruct (find_slash (drop pos input)) as [n|] eqn:En.
  2: { rewrite next_cut_no_slash by done. rewrite length_drop. f_equal. lia. }
  rewrite (next_cut_find_slash _ _ En). pose proof (find_slash_Some _ _ En) as Ed.
  rewrite !drop_drop in *. assert (pos + n < length input)%nat as Hn.
  { destruct (Nat.lt_ge_cases (pos + n) (length input)) as [|Hge]; [done|].
    by rewrite (drop_ge input) in Ed by lia. }
  rewrite (starts_address_spec _ _ (drop (pos + S n) input)) by
    first [lia | by replace (pos + n + 1 - 1)%nat with (pos + n)%nat by lia].
  rewrite Ed. cbn [next_cut]. destruct (new_address _); [f_equal; lia|].
  rewrite IH by lia. replace (pos + S n)%nat with (pos + n + 1)%nat by lia. f_equal. lia.
Qed.

Lemma concatenated_spec fuel input pos acc r :
  drop pos input = SLASH :: r -> (length input - pos < fuel)%nat ->
  concatenated fuel input pos acc = (ys ← collect read_addr (cut (SLASH :: r)); Ok (acc ++ ys)).
Proof.
  revert pos acc r. induction fuel as [|fuel IH]; intros pos acc r E Hfuel; [lia|].
  assert (pos < length input)%nat as Hl.
  { destruct (Nat.lt_ge_cases pos (length input)) as [|Hge]; [done|]. by rewrite drop_ge in E. }
  assert (drop (pos + 1) input = r) as Er by (rewrite <-drop_drop, E; done).
  cbn [concatenated]. rewrite (proj2 (Nat.ltb_lt _ _) Hl), E.
  change (find_slash (SLASH :: r)) with (Some O). cbn beta iota zeta. rewrite Nat.add_0_r.
  rewrite find_end_spec by lia. rewrite Er. cbn [mbind res_bind]. rewrite cut_cons.
  set (k := next_cut r). unfold slice. replace (pos + 1 + k - pos)%nat with (S k) by lia.
  rewrite E. cbn [take collect]. destruct (read_addr (SLASH :: take k r)) as [a|e|]; [|done|done].
  cbn [mbind res_bind]. assert (drop (pos + 1 + k) input = drop k r) as Ek by (by rewrite <-drop_drop, Er).
  pose proof (next_cut_stop r) as Hstop. fold k in Hstop. destruct (drop k r) as [|d rest] eqn:Ed.
  - assert (length input <= pos + 1 + k)%nat as Hge.
    { destruct (Nat.lt_ge_cases (pos + 1 + k) (length input)) as [Hlt|]; [|done].
      apply (f_equal length) in Ek. rewrite length_drop in Ek. cbn in Ek. lia. }
    destruct fuel as [|fuel]; [lia|]. cbn [concatenated]. by rewrite (proj2 (Nat.ltb_ge _ _) Hge).
  - destruct Hstop as [|Hnew]; [done|]. apply new_address_slash in Hnew as [r' [= -> ->]].
    rewrite (IH _ _ r') by first [lia | done].
    destruct (collect read_addr (cut (SLASH :: r'))); cbn; [|done..]. by rewrite <-app_assoc.
Qed.

Lemma cut_not_nil l : cut l <> [].
Proof. destruct l as [|c r]; [done|]. by rewrite cut_cons. Qed.

(** C40: Where the text is not a separated list, the two loops end and read the
    pieces of the text from its first slash on, cut wherever an address
    starts; the first piece that cannot be read is the error. *)
Theorem concatenated_is_cut input :
  contains COMMA input = false -> contains SPACE input = false ->
  parse_multiple_multiaddrs input =
  match find_slash input with
  | Some n => collect read_addr (cut (drop n input))
  | None => Err (MultiaddrError InvalidMultiaddr)
  end.
Proof.
  intros Hc Hs. unfold parse_multiple_multiaddrs. rewrite Hc, Hs.
  destruct (find_slash input) as [n|] eqn:En.
  - pose proof (find_slash_Some _ _ En) as Ed. pose proof (f_equal length Ed) as El.
    rewrite length_drop in El. cbn in El.
    assert (concatenated (S (length input)) input 0 [] = concatenated (S (length input)) input n []) as ->.
    { cbn [concatenated]. rewrite !(proj2 (Nat.ltb_lt _ _)) by lia. rewrite drop_0, En, Ed.
      change (find_slash (SLASH :: drop (S n) input)) with (Some O). cbn beta iota zeta.
      by rewrite Nat.add_0_r. }
    rewrite (concatenated_spec _ _ _ _ (drop (S n) input)) by first [lia | done]. rewrite Ed.
    pose proof (cut_not_nil (SLASH :: drop (S n) input)) as Hne.
    destruct (collect read_addr _) as [ys|e|] eqn:Ey; cbn; [|done..].
    destruct ys; [|done]. apply collect_Ok, Forall2_nil_inv_r in Ey. done.
  - unfold concatenated. rewrite drop_0, En. by destruct (0 <? length input)%nat.
Qed.

(** Parsing always returns. *)
Lemma read_addr_not_panic s : read_addr s <> Panic.
Proof. unfold read_addr. by destruct (from_str s). Qed.

Lemma read_pieces_not_panic ps acc : read_pieces ps acc <> Panic.
Proof.
  revert acc. induction ps as [|p ps IH]; intros acc; cbn; [done|].
  destruct (not_empty (trim p)); [|apply IH]. pose proof (read_addr_not_panic (trim p)).
  destruct (read_addr (trim p)); [apply IH|done|done].
Qed.

Lemma collect_not_panic ps : collect read_addr ps <> Panic.
Proof.
  induction ps as [|p ps IH]; cbn; [done|]. pose proof (read_addr_not_panic p).
  destruct (read_addr p); [|done..]. by destruct (collect read_addr ps).
Qed.

(** Whatever the text, its loops end and nothing panics: no slice is out of
    range. *)
Theorem parse_returns input : parse_multiple_multiaddrs input <> Panic.
Proof.
  destruct (contains COMMA input) eqn:Hc.
  { unfold parse_multiple_multiaddrs. rewrite Hc. apply read_pieces_not_panic. }
  destruct (contains SPACE input) eqn:Hs.
  { unfold parse_multiple_multiaddrs. rewrite Hc, Hs. apply read_pieces_not_panic. }
  rewrite concatenated_is_cut by done. destruct (find_slash input); [apply collect_not_panic|done].
Qed.

(** ** Addresses written one after the other *)

Definition slashed (ps : list str) : str := mjoin (map (cons SLASH) ps).

(** A component without slashes, commas and white space. *)
Definition plain (p : str) : Prop :=
  (SLASH ∉ p) /\ (COMMA ∉ p) /\ Forall (fun c => is_whitespace c = false) p.

#[global] Instance plain_dec p : Decision (plain p).
Proof. unfold plain. apply _. Defined.

(** An address that starts with a supported protocol, has more components, and
    none of those is the name of a supported protocol. *)
Definition simple_address (a : Multiaddr) : Prop :=
  exists p q ps,
    to_string a = slashed (p :: q :: ps) /\ Forall plain (p :: q :: ps) /\
    p ∈ SUPPORTED_MULTIADDR_PROTOCOLS /\
    Forall (fun x => x ∉ SUPPORTED_MULTIADDR_PROTOCOLS) (q :: ps).

Lemma find_slash_plain p r : SLASH ∉ p -> find_slash (p ++ SLASH :: r) = Some (length p).
Proof.
  induction p as [|c p IH]; intros Hp; [done|]. unfold find_slash in *. cbn [app position length].
  destruct (Z.eqb_spec SLASH c); [set_solver|]. rewrite IH by set_solver. done.
Qed.

Lemma find_slash_none p : SLASH ∉ p -> find_slash p = None.
Proof.
  intros Hp. apply position_None, Forall_forall. intros c Hc. apply Z.eqb_neq. intros <-. done.
Qed.

(** The text of an address has no cut inside, whatever address follows. *)
Lemma next_cut_component p rest :
  SLASH ∉ p -> next_cut (p ++ rest) = (length p + next_cut rest)%nat.
Proof.
  induction p as [|c p IH]; intros Hp; [done|]. cbn [app next_cut length].
  destruct (new_address (c :: p ++ rest)) eqn:E.
  - apply new_address_slash in E as [r [= -> _]]. set_solver.
  - rewrite IH by set_solver. done.
Qed.

Definition slash_or_end (rest : str) : Prop := rest = [] \/ exists r, rest = SLASH :: r.

Lemma new_address_component p rest :
  SLASH ∉ p -> slash_or_end rest -> p ∉ SUPPORTED_MULTIADDR_PROTOCOLS ->
  new_address (SLASH :: p ++ rest) = false.
Proof.
  intros Hp Hrest Hs. cbn [new_address]. rewrite Z.eqb_refl. cbn [andb].
  destruct Hrest as [->|[r ->]].
  - by rewrite app_nil_r, find_slash_none.
  - rewrite find_slash_plain by done. rewrite take_app_length. by rewrite bool_decide_false.
Qed.

Lemma slashed_cons p ps : slashed (p :: ps) = SLASH :: p ++ slashed ps.
Proof. done. Qed.

Lemma slash_or_end_slashed ps rest : slash_or_end rest -> slash_or_end (slashed ps ++ rest).
Proof. destruct ps as [|p ps]; [done|]. rewrite slashed_cons. right. by eexists. Qed.

Lemma next_cut_slashed ps rest :
  Forall plain ps -> Forall (fun x => x ∉ SUPPORTED_MULTIADDR_PROTOCOLS) ps -> slash_or_end rest ->
  next_cut (slashed ps ++ rest) = (length (slashed ps) + next_cut rest)%nat.
Proof.
  intros Hp Hs Hrest. induction ps as [|p ps IH]; [done|]. inversion Hp as [|?? [Hp1 _] Hp2]; subst.
  inversion Hs as [|?? Hs1 Hs2]; subst. rewrite slashed_cons, <-app_comm_cons, <-app_assoc.
  cbn [next_cut]. rewrite new_address_component by (done || by apply slash_or_end_slashed).
  rewrite next_cut_component, IH by done. cbn [length]. rewrite length_app. lia.
Qed.

Context `{!MultiaddrLaws}.

Lemma simple_text a rest :
  simple_address a -> slash_or_end rest -> (rest = [] \/ new_address rest = true) ->
  cut (to_string a ++ rest) = to_string a :: match rest with [] => [] | _ => cut rest end.
Proof.
  intros (p & q & ps & Ea & Hp & Hs & Hns) Hrest Hend. rewrite Ea.
  inversion Hp as [|?? [Hp1 _] Hp2]; subst. rewrite slashed_cons, <-app_comm_cons, cut_cons.
  assert (next_cut ((p ++ slashed (q :: ps)) ++ rest) = length (p ++ slashed (q :: ps))) as ->.
  { rewrite <-app_assoc, next_cut_component, next_cut_slashed, length_app by done.
    assert (next_cut rest = 0)%nat as ->; [|lia].
    destruct Hend as [->|Hend]; [done|]. destruct rest; [done|]. cbn [next_cut]. by rewrite Hend. }
  rewrite take_app_length, drop_app_length. by destruct rest.
Qed.

Lemma simple_starts a l : simple_address a -> new_address (mjoin (map to_string (a :: l))) = true.
Proof.
  intros (p & q & ps & Ea & Hp & Hs & _). destruct (join_addresses (a :: l)) as [b Eb].
  pose proof (from_str_to_string b) as Hb. rewrite Eb in Hb. revert Hb. cbn [map mjoin list_join].
  rewrite Ea, !slashed_cons. inversion Hp as [|?? [Hp1 _] Hp2]; subst.
  rewrite <-!app_comm_cons, <-!app_assoc, <-app_comm_cons. intros Hb. cbn [new_address].
  rewrite Z.eqb_refl, find_slash_plain, take_app_length, bool_decide_true, Hb by done. done.
Qed.

Lemma cut_addresses l :
  l <> [] -> Forall simple_address l -> cut (mjoin (map to_string l)) = map to_string l.
Proof.
  intros Hne Hl. induction Hl as [|a l Ha Hl IH]; [done|].
  change (mjoin (map to_string (a :: l))) with (to_string a ++ mjoin (map to_string l)).
  destruct l as [|b l].
  - rewrite simple_text; [done|done|by left|by left].
  - inversion Hl as [|?? Hb _]; subst. pose proof (simple_starts b l Hb) as Hnew.
    pose proof (new_address_slash _ Hnew) as [r Er].
    rewrite simple_text; [|done|right; by exists r|by right].
    specialize (IH ltac:(done)). rewrite Er in IH |- *. by rewrite IH.
Qed.

Lemma read_addr_to_string a : read_addr (to_string a) = Ok a.
Proof. unfold read_addr. by rewrite from_str_to_string. Qed.

Lemma read_addresses l : collect read_addr (map to_string l) = Ok l.
Proof. induction l as [|a l IH]; cbn; [done|]. by rewrite read_addr_to_string, IH. Qed.

(** No separator is in the text of such an address. *)
Lemma simple_no_separator a c :
  simple_address a -> c = COMMA \/ is_whitespace c = true -> c ∉ to_string a.
Proof.
  intros (p & q & ps & -> & Hp & _) Hc. unfold slashed.
  assert (c <> SLASH) as Hslash by (intros ->; by destruct Hc).
  induction Hp as [|x xs (_ & H1 & H2) _ IH]; cbn; [set_solver|].
  assert (c ∉ x); [|set_solver]. destruct Hc as [->|Hc]; [done|]. intros Hin.
  rewrite Forall_forall in H2. rewrite H2 in Hc by done. done.
Qed.

Lemma contains_false c l : c ∉ l -> contains c l = false.
Proof.
  intros Hc. unfold contains. destruct (existsb _ l) eqn:E; [|done].
  apply existsb_exists in E as (x & Hx & <-%Z.eqb_eq). by apply list_elem_of_In in Hx.
Qed.

Lemma contains_true c l : c ∈ l -> contains c l = true.
Proof.
  intros Hc. apply existsb_exists. exists c. split; [by apply list_elem_of_In|apply Z.eqb_refl].
Qed.

(** Addresses written one after the other are read as such: an address ends
    where a supported protocol starts the next. *)
Theorem concatenated_addresses l :
  l <> [] -> Forall simple_address l ->
  parse_multiple_multiaddrs (mjoin (map to_string l)) = Ok l.
Proof.
  intros Hne Hl. assert (forall c, c = COMMA \/ is_whitespace c = true ->
    contains c (mjoin (map to_string l)) = false) as Hsep.
  { intros c Hc. apply contains_false. intros (t & Ht & (a & -> & Ha)%list_elem_of_fmap)%list_elem_of_join.
    rewrite Forall_forall in Hl. by apply (simple_no_separator a c) in Ht; auto. }
  rewrite concatenated_is_cut by (apply Hsep; auto). destruct l as [|a l]; [done|].
  inversion Hl as [|?? Ha _]; subst. destruct (new_address_slash _ (simple_starts a l Ha)) as [r Er].
  rewrite Er. change (find_slash (SLASH :: r)) with (Some O). cbn beta iota. rewrite drop_0, <-Er.
  rewrite cut_addresses by done. apply read_addresses.
Qed.

(** ** Addresses in a list *)

Lemma trim_start_plain l : Forall (fun c => is_whitespace c = false) l -> trim_start l = l.
Proof. intros [|c l' Hc _]; [done|]. cbn. by rewrite Hc. Qed.

Lemma trim_plain l : Forall (fun c => is_whitespace c = false) l -> trim l = l.
Proof.
  intros Hl. unfold trim. rewrite (trim_start_plain l) by done.
  rewrite trim_start_plain by (by apply Forall_reverse). apply reverse_involutive.
Qed.

Lemma simple_not_empty a : simple_address a -> not_empty (to_string a) = true.
Proof. by intros (p & q & ps & -> & _). Qed.

Lemma simple_no_space a :
  simple_address a -> Forall (fun c => is_whitespace c = false) (to_string a).
Proof.
  intros Ha. apply Forall_forall. intros c Hc. destruct (is_whitespace c) eqn:E; [|done].
  exfalso. by apply (simple_no_separator a c Ha); auto.
Qed.

Lemma read_pieces_addresses l acc :
  Forall simple_address l -> read_pieces (map to_string l) acc = Ok (acc ++ l).
Proof.
  intros Hl. revert acc. induction Hl as [|a l Ha Hl IH]; intros acc; cbn; [by rewrite app_nil_r|].
  rewrite trim_plain, simple_not_empty by (done || by apply simple_no_space).
  rewrite read_addr_to_string. cbn. by rewrite IH, <-app_assoc.
Qed.

Lemma split_at_whitespace_join ps :
  ps <> [] -> Forall (Forall (fun c => is_whitespace c = false)) ps ->
  split_at_whitespace (Text.join SPACE ps) = ps.
Proof.
  assert (forall p rest, Forall (fun c => is_whitespace c = false) p ->
    split_at_whitespace (p ++ SPACE :: rest) = p :: split_at_whitespace rest) as Happ.
  { intros p rest Hp. induction Hp as [|c p Hc Hp IH]; [done|]. cbn. by rewrite Hc, IH. }
  intros Hne Hps. induction Hps as [|p ps Hp Hps IH]; [done|]. destruct ps as [|q ps].
  - cbn [Text.join]. clear -Hp. induction Hp as [|c p Hc Hp IH]; [done|]. cbn. by rewrite Hc, IH.
  - cbn [Text.join]. rewrite Happ by done. f_equal. by apply IH.
Qed.

Lemma filter_addresses l :
  Forall simple_address l -> List.filter not_empty (map to_string l) = map to_string l.
Proof. induction 1 as [|a l Ha _ IH]; cbn; [done|]. by rewrite simple_not_empty, IH by done. Qed.

Lemma join_contains (c : Z) p q ps : c ∈ Text.join c (p :: q :: ps).
Proof. cbn. set_solver. Qed.

Lemma join_elem (c x : Z) ps : x ∈ Text.join c ps -> x = c \/ exists p, p ∈ ps /\ x ∈ p.
Proof.
  induction ps as [|p [|q ps] IH]; [set_solver| |].
  - cbn. set_solver.
  - change (Text.join c (p :: q :: ps)) with (p ++ c :: Text.join c (q :: ps)). set_solver.
Qed.

(** Two or more addresses separated by commas or by spaces are read as such. *)
Theorem separated_addresses c a b l :
  c = COMMA \/ c = SPACE -> Forall simple_address (a :: b :: l) ->
  parse_multiple_multiaddrs (Text.join c (map to_string (a :: b :: l))) = Ok (a :: b :: l).
Proof.
  intros Hc Hl. unfold parse_multiple_multiaddrs. set (l' := a :: b :: l) in *.
  assert (forall x, x = COMMA \/ is_whitespace x = true -> Forall (fun p => x ∉ p) (map to_string l')) as Hno.
  { intros x Hx. apply Forall_fmap. eapply Forall_impl; [done|]. intros y Hy. by apply simple_no_separator. }
  pose proof (join_contains c (to_string a) (to_string b) (map to_string l)) as Hin.
  destruct Hc as [->| ->].
  - rewrite contains_true by done. rewrite Text.split_join by (done || apply Hno; by left).
    by apply read_pieces_addresses.
  - rewrite contains_false.
    2: { intros [|(p & Hp & Hx)]%join_elem; [done|]. specialize (Hno COMMA (or_introl eq_refl)).
         rewrite Forall_forall in Hno. by apply (Hno p). }
    rewrite contains_true by done. unfold split_whitespace.
    rewrite split_at_whitespace_join; [|done|].
    + rewrite filter_addresses by done. by apply read_pieces_addresses.
    + apply Forall_fmap. eapply Forall_impl; [done|]. intros y Hy. by apply simple_no_space.
Qed.

End WithLib.

(** ** Witnesses *)

(** Addresses as their components; any component will do. *)
Module Witness.
Local Open Scope string_scope.

#[local] Instance lib : MultiaddrLib := {|
  Multiaddr := dsig (fun ps : list str => Forall (fun p => SLASH ∉ p) ps);
  MultiaddrErr := unit;
  InvalidMultiaddr := tt;
  from_str s :=
    match Text.split SLASH s with
    | [] :: ps =>
        match decide (Forall (fun p => SLASH ∉ p) ps) with
        | left H => inr (dexist ps H)
        | right _ => inl tt
        end
    | _ => inl tt
    end;
  to_string a := slashed (proj1_sig a);
|}.

Lemma split_slashed ps : Forall (fun p => SLASH ∉ p) ps -> Text.split SLASH (slashed ps) = [] :: ps.
Proof.
  induction 1 as [|p ps Hp Hps IH]; [done|]. rewrite slashed_cons. cbn [Text.split].
  rewrite decide_True by done. f_equal. destruct ps as [|q ps].
  - change (slashed []) with (@nil Z). rewrite app_nil_r. by apply Text.split_plain.
  - rewrite slashed_cons in *. rewrite Text.split_app by done.
    cbn [Text.split] in IH. rewrite decide_True in IH by done. injection IH as ->. done.
Qed.

#[local] Instance laws : MultiaddrLaws.
Proof.
  split.
  - intros [ps Hps]. cbn [from_str to_string lib proj1_sig]. pose proof (bool_decide_unpack _ Hps) as H.
    rewrite split_slashed by done. destruct (decide _); [|done]. f_equal. by apply dsig_eq.
  - intros l. assert (Forall (fun p => SLASH ∉ p) (mjoin (map proj1_sig l))) as H.
    { induction l as [|[ps Hps] l IH]; cbn; [done|]. apply Forall_app.
      split; [exact (bool_decide_unpack _ Hps)|done]. }
    exists (dexist _ H). cbn. clear H. unfold slashed. induction l as [|a l IH]; [done|].
    cbn. rewrite map_app, join_app. f_equal. exact IH.
Qed.

Definition input : string := "/ip4/10.38.1.103/tcp/55444/ip4/10.38.1.105/tcp/55444".
Definition comma_input : string := "/ip4/10.38.1.103/tcp/55444, /ip4/10.38.1.105/tcp/55444".

Definition shown (r : res ParseError (list Multiaddr)) : res ParseError (list str) :=
  map to_string <$> r.

Example two_addresses :
  shown (parse_multiple_multiaddrs (lit input))
  = Ok (map lit ["/ip4/10.38.1.103/tcp/55444"; "/ip4/10.38.1.105/tcp/55444"]).
Proof. vm_compute. done. Qed.

Example commas :
  shown (parse_multiple_multiaddrs (lit comma_input))
  = Ok (map lit ["/ip4/10.38.1.103/tcp/55444"; "/ip4/10.38.1.105/tcp/55444"]).
Proof. vm_compute. done. Qed.

(** An address that ends with the identity of the node, the usual form of a
    bootstrap address, is taken for two: the identity is cut off. *)
Example identity_cut_off :
  shown (parse_multiple_multiaddrs (lit "/ip4/10.38.1.103/tcp/55444/p2p/QmNode"))
  = Ok (map lit ["/ip4/10.38.1.103/tcp/55444"; "/p2p/QmNode"]).
Proof. vm_compute. done. Qed.

(** A list of nothing but commas is no error. *)
Example no_addresses : parse_multiple_multiaddrs (lit ",") = Ok [].
Proof. vm_compute. done. Qed.

Lemma concatenated_is_cut_witness :
  shown (parse_multiple_multiaddrs (lit "/ip4/1/tcp/2/dns/a/tcp/3"))
  = Ok (map lit ["/ip4/1/tcp/2"; "/dns/a/tcp/3"]).
Proof. rewrite (concatenated_is_cut (lit "/ip4/1/tcp/2/dns/a/tcp/3")); vm_compute; done. Defined.

Definition addr (ps : list string) : Multiaddr (MultiaddrLib:=lib) :=
  match decide (Forall (fun p => SLASH ∉ p) (map lit ps)) with
  | left H => dexist _ H
  | right _ => dexist [] (@Forall_nil_2 _ _)
  end.

Definition node (n : string) : Multiaddr := addr ["ip4"; n; "tcp"; "55444"].

Lemma simple_node : simple_address (node "10.38.1.103") /\ simple_address (node "10.38.1.105").
Proof.
  split.
  - exists (lit "ip4"), (lit "10.38.1.103"), (map lit ["tcp"; "55444"]).
    split; [vm_compute; done|]. apply (bool_decide_unpack _). vm_compute. done.
  - exists (lit "ip4"), (lit "10.38.1.105"), (map lit ["tcp"; "55444"]).
    split; [vm_compute; done|]. apply (bool_decide_unpack _). vm_compute. done.
Defined.

Lemma concatenated_addresses_witness :
  parse_multiple_multiaddrs (lit input) = Ok [node "10.38.1.103"; node "10.38.1.105"].
Proof.
  apply (concatenated_addresses [node "10.38.1.103"; node "10.38.1.105"]); [done|].
  destruct simple_node. by repeat constructor.
Defined.

Lemma separated_addresses_witness :
  parse_multiple_multiaddrs (lit "/ip4/10.38.1.103/tcp/55444,/ip4/10.38.1.105/tcp/55444")
  = Ok [node "10.38.1.103"; node "10.38.1.105"].
Proof.
  apply (separated_addresses COMMA (node "10.38.1.103") (node "10.38.1.105") []); [by left|].
  destruct simple_node. by repeat constructor.
Defined.

End Witness.
End Multiaddr.
