(* ===== verification/Network.v ===== *)
(** The network backend and its client ([NetworkBackend], [Client] and
    [spawn_network_handler] of [app/src/network/mod.rs]): the loop that takes
    the node's commands, the events of the swarm and the ticks of the
    reconnection timer, one at a time. The swarm's answers, the clock and the
    order of hash maps are inputs; what the loop does to the swarm is recorded
    in [swarm_calls], what it sends to broadcast channels in a log each. Times
    are nanoseconds, one reading per turn. Logging is left out. *)
From stdpp Require Import base decidable list gmap sets strings.
From Stdlib Require Import ZArith Lia.
From S2P Require Import Prelude Bitcoin Block RpcTypes RateLimiter Text RpcBehaviour Multiaddr.

(** Gossip topics. *)
Inductive GossipKind := KConsensusBlock | KApproveBlock | KQueuePow | KPegoutSignatures.

(** The gossip messages with their kinds, and their encoding by MessagePack. *)
Class GossipLib (Msg : Type) := {
  kind : Msg -> GossipKind;
  to_vec : Msg -> option (list Z);
  from_slice : list Z -> option Msg;
}.

Class GossipLaws (Msg : Type) `{GossipLib Msg} := {
  from_slice_to_vec m d : to_vec m = Some d -> from_slice d = Some m;
}.

(** The order in which the keys of a hash map by peers come. *)
Class PeerOrder (PeerId : Type) `{Countable PeerId} := {
  peers_of {V : Type} : gmap PeerId V -> list PeerId;
  peers_of_perm {V : Type} (m : gmap PeerId V) : peers_of m ≡ₚ (map_to_list m).*1;
}.

Module Network.
Import RpcTypes RateLimiter RpcBehaviour.
Local Open Scope Z_scope.

Definition RECONNECT_INTERVAL_SECS : Z := 5.
Definition RECONNECT_MAX_ATTEMPTS : Z := 12.
Definition CHANNEL_CAPACITY : nat := 1024.
Definition EVENTS_CAPACITY : nat := 32.
Definition RPC_EVENTS_CAPACITY : nat := 64.
Definition PEERS_CAPACITY : nat := 32.

(** [GossipKind::topic]: the variant in snake case. *)
Definition topic (k : GossipKind) : string :=
  match k with
  | KConsensusBlock => "consensus_block"
  | KApproveBlock => "approve_block"
  | KQueuePow => "queue_pow"
  | KPegoutSignatures => "pegout_signatures"
  end.

(** A broadcast channel is the log of what was sent; a receiver has a position
    in it. One that falls behind by more than the capacity misses messages and
    is told so. *)
Inductive RecvError := Lagged (missed : nat).

Definition broadcast_recv {A} (capacity : nat) (log : list A) (rx : nat) :
    res RecvError (option A) * nat :=
  if (capacity <? length log - rx)%nat
  then (Err (Lagged (length log - capacity - rx)), (length log - capacity)%nat)
  else match log !! rx with
       | Some a => (Ok (Some a), S rx)
       | None => (Ok None, rx)
       end.

Section WithTypes.
Context {PeerId : Type} `{PeerOrder PeerId}.
Context {ConnectionId : Type} {Msg : Type} `{!GossipLib Msg} `{MultiaddrLib}.

Abbreviation RequestId := Z.
Abbreviation SubstreamId := Z.
Abbreviation RPC := (RPC (PeerId:=PeerId) (Id:=RequestId) (ConnectionId:=ConnectionId)
                         (SubstreamId:=SubstreamId)).

(** [network::error::Error], without the errors of the libraries. *)
Inductive Error :=
| ChannelSendError | OneshotRecvError | Libp2pNoiseError | Libp2pSubscriptionError
| BehaviorError | MultiaddrParseError (e : Multiaddr.ParseError) | Libp2pTransportError
| Libp2pDialError | Libp2pPublishError.

Record RPCMessage := mkMessage {
  m_peer_id : PeerId;
  m_conn_id : ConnectionId;
  m_event : HandlerEvent RequestId SubstreamId;
}.

(** ** Reconnection *)

Record PeerReconnectInfo := mkInfo {
  address : Multiaddr;
  last_attempt : option Z;
  attempt_count : Z;
}.

Definition info_new (a : Multiaddr) : PeerReconnectInfo := mkInfo a None 0.

Definition backoff (count : Z) : Z := secs (2 ^ Z.min count 12).

Definition should_reconnect (now : Z) (i : PeerReconnectInfo) : bool :=
  match last_attempt i with
  | None => true
  | Some last => backoff (attempt_count i) <=? saturating_sub now last
  end.

Definition mark_attempt {E} (now : Z) (i : PeerReconnectInfo) : res E PeerReconnectInfo :=
  n ← add_chk 32 (attempt_count i) 1;
  Ok (mkInfo (address i) (Some now) n).

Definition reset_attempts (i : PeerReconnectInfo) : PeerReconnectInfo := mkInfo (address i) None 0.

(** ** State *)

(** A channel of responses: what is buffered, what the receiver has taken, and
    whether there still is a receiver. *)
Record Channel := mkChannel {
  taken : list RPCResponse;
  buffer : list RPCResponse;
  receiver : bool;
}.

Inductive SwarmCall :=
| SubscribeTopic (t : string)
| ListenOn (a : Multiaddr)
| PublishData (t : string) (data : list Z)
| DialAddress (a : Multiaddr)
| AddExplicitPeer (p : PeerId)
| RemoveExplicitPeer (p : PeerId).

(** The fields of the backend and the variables of its loop. A sender in
    [rpc_response_channels] refers to a channel of [channels], where all the
    channels made are. *)
Record t := mk {
  eth2_rpc : RPC;
  peer_addresses : gmap PeerId Multiaddr;
  reconnect_info : gmap PeerId PeerReconnectInfo;
  peers : gset PeerId;
  rpc_response_channels : gmap RequestId nat;
  next_id : RequestId;
  channels : list Channel;
  network_events : list Msg;
  network_rpc_events : list RPCMessage;
  peers_connected : list (gset PeerId);
  swarm_calls : list SwarmCall;
}.

Definition init (r : RPC) : t := mk r ∅ ∅ ∅ ∅ 0 [] [] [] [] [].

Definition set_rpc (x : RPC) (s : t) : t :=
  mk x (peer_addresses s) (reconnect_info s) (peers s) (rpc_response_channels s) (next_id s)
     (channels s) (network_events s) (network_rpc_events s) (peers_connected s) (swarm_calls s).
Definition set_addresses (x : gmap PeerId Multiaddr) (s : t) : t :=
  mk (eth2_rpc s) x (reconnect_info s) (peers s) (rpc_response_channels s) (next_id s)
     (channels s) (network_events s) (network_rpc_events s) (peers_connected s) (swarm_calls s).
Definition set_reconnect (x : gmap PeerId PeerReconnectInfo) (s : t) : t :=
  mk (eth2_rpc s) (peer_addresses s) x (peers s) (rpc_response_channels s) (next_id s)
     (channels s) (network_events s) (network_rpc_events s) (peers_connected s) (swarm_calls s).
Definition set_peers (x : gset PeerId) (s : t) : t :=
  mk (eth2_rpc s) (peer_addresses s) (reconnect_info s) x (rpc_response_channels s) (next_id s)
     (channels s) (network_events s) (network_rpc_events s) (peers_connected s) (swarm_calls s).
Definition set_senders (x : gmap RequestId nat) (n : RequestId) (cs : list Channel) (s : t) : t :=
  mk (eth2_rpc s) (peer_addresses s) (reconnect_info s) (peers s) x n
     cs (network_events s) (network_rpc_events s) (peers_connected s) (swarm_calls s).
Definition set_channels (cs : list Channel) (s : t) : t :=
  set_senders (rpc_response_channels s) (next_id s) cs s.
Definition send_event (m : Msg) (s : t) : t :=
  mk (eth2_rpc s) (peer_addresses s) (reconnect_info s) (peers s) (rpc_response_channels s) (next_id s)
     (channels s) (network_events s ++ [m]) (network_rpc_events s) (peers_connected s) (swarm_calls s).
Definition send_rpc_event (m : RPCMessage) (s : t) : t :=
  mk (eth2_rpc s) (peer_addresses s) (reconnect_info s) (peers s) (rpc_response_channels s) (next_id s)
     (channels s) (network_events s) (network_rpc_events s ++ [m]) (peers_connected s) (swarm_calls s).
(** [peers_connected_tx.send(peers.clone())] *)
Definition send_peers (s : t) : t :=
  mk (eth2_rpc s) (peer_addresses s) (reconnect_info s) (peers s) (rpc_response_channels s) (next_id s)
     (channels s) (network_events s) (network_rpc_events s) (peers_connected s ++ [peers s])
     (swarm_calls s).
Definition call (c : SwarmCall) (s : t) : t :=
  mk (eth2_rpc s) (peer_addresses s) (reconnect_info s) (peers s) (rpc_response_channels s) (next_id s)
     (channels s) (network_events s) (network_rpc_events s) (peers_connected s) (swarm_calls s ++ [c]).

(** ** The reconnection timer *)

(** The first loop: the peers that are due, each marked. *)
Fixpoint due {E} (now : Z) (keys : list PeerId) : ST t E (list (PeerId * Multiaddr)) :=
  match keys with
  | [] => mret []
  | p :: keys =>
      s ← getS;
      match reconnect_info s !! p with
      | Some info =>
          if should_reconnect now info then
            info' ← liftR (mark_attempt now info);
            modifyS (set_reconnect (<[p := info']> (reconnect_info s))) ;;
            rest ← due now keys;
            mret ((p, address info) :: rest)
          else due now keys
      | None => due now keys
      end
  end.

(** A dial the swarm refuses: after many attempts the peer is given up. *)
Definition abandon (p : PeerId) (s : t) : t :=
  match reconnect_info s !! p with
  | Some info =>
      if RECONNECT_MAX_ATTEMPTS <? attempt_count info
      then set_addresses (delete p (peer_addresses s)) (set_reconnect (delete p (reconnect_info s)) s)
      else s
  | None => s
  end.

Fixpoint redial (dial_ok : PeerId -> bool) (l : list (PeerId * Multiaddr)) (s : t) : t :=
  match l with
  | [] => s
  | (p, a) :: l =>
      let s := call (DialAddress a) s in
      redial dial_ok l (if dial_ok p then s else abandon p s)
  end.

Definition attempt_reconnections {E} (now : Z) (dial_ok : PeerId -> bool) : ST t E unit :=
  s ← getS;
  to_reconnect ← due now (peers_of (reconnect_info s));
  modifyS (redial dial_ok to_reconnect).

(** ** Commands *)

(** A command, by the type of what its one-shot channel carries back; a channel
    of responses is given by its reference, a broadcast receiver by its
    position. *)
Inductive FrontToBackCommand : Type -> Type :=
| Publish (m : Msg) : FrontToBackCommand (res Error unit)
| SendRpc (p : PeerId) (r : Request) : FrontToBackCommand nat
| RespondRpc (p : PeerId) (c : ConnectionId) (id : SubstreamId) (payload : RPCCodedResponse) :
    FrontToBackCommand (res Error unit)
| Dial (a : Multiaddr) : FrontToBackCommand (res Error unit)
| SubscribeEvents : FrontToBackCommand nat
| SubscribeRpcEvents : FrontToBackCommand nat
| SubscribePeers : FrontToBackCommand nat.

Definition publish {E} (ok : bool) (m : Msg) : ST t E (res Error unit) :=
  data ← liftR (unwrap (to_vec m));
  modifyS (call (PublishData (topic (kind m)) data)) ;;
  mret (if ok then Ok tt else Err Libp2pPublishError).

Definition dial_command {E} (ok : bool) (a : Multiaddr) : ST t E (res Error unit) :=
  modifyS (call (DialAddress a)) ;;
  mret (if ok then Ok tt else Err Libp2pDialError).

(** The behaviour's part of sending a request. *)
Definition rpc_send_request {E} (now : Z) (p : PeerId) (id : RequestId) (r : Request) : ST t E unit :=
  fun s =>
  match RpcBehaviour.send_request now p id r (eth2_rpc s) with
  | (Panic, x) => (Panic, set_rpc x s)
  | (_, x) => (Ok tt, set_rpc x s)
  end.

(** The client must still wait for its receiver. *)
Definition on_send_rpc {E} (now : Z) (waiting : bool) (p : PeerId) (r : Request) : ST t E nat :=
  s ← getS;
  rpc_send_request now p (next_id s) r ;;
  let rx := length (channels s) in
  modifyS (fun s => set_senders (<[next_id s := rx]> (rpc_response_channels s)) (next_id s)
                                (channels s ++ [mkChannel [] [] true]) s) ;;
  (if waiting then mret tt else panic) ;;
  n ← liftR (add_chk 32 (next_id s) 1);
  modifyS (fun s => set_senders (rpc_response_channels s) n (channels s) s) ;;
  mret rx.

Definition on_respond_rpc (p : PeerId) (c : ConnectionId) (id : SubstreamId)
    (payload : RPCCodedResponse) (s : t) : t :=
  set_rpc (RpcBehaviour.send_response p c id payload (eth2_rpc s)) s.

(** What a command does and answers; [None] when its channel is dropped
    without an answer. *)
Definition handle_command {E} (now : Z) (ok waiting : bool) {R} (c : FrontToBackCommand R) :
    ST t E (option R) :=
  match c in FrontToBackCommand R return ST t E (option R) with
  | Publish m => r ← publish ok m; mret (Some r)
  | Dial a => r ← dial_command ok a; mret (Some r)
  | SubscribeEvents => s ← getS; mret (Some (length (network_events s)))
  | SubscribeRpcEvents => s ← getS; mret (Some (length (network_rpc_events s)))
  | SubscribePeers =>
      s ← getS;
      modifyS send_peers ;;
      mret (Some (length (peers_connected s)))
  | SendRpc p r => rx ← on_send_rpc now waiting p r; mret (Some rx)
  | RespondRpc p c id payload => modifyS (on_respond_rpc p c id payload) ;; mret None
  end.

(** ** Events of the swarm *)

Inductive SwarmEvent :=
| GossipMessage (data : list Z)
| MdnsDiscovered (l : list (PeerId * Multiaddr))
| MdnsExpired (l : list (PeerId * Multiaddr))
| NewListenAddr (a : Multiaddr)
| Eth2Rpc (x : RPCMessage)
| ConnectionEstablished (p : PeerId) (remote : Multiaddr)
| ConnectionClosed (p : PeerId) (num_established : Z) (keep_alive_timeout : bool)
| OtherEvent.

(** The backend waits for room in a channel, and does nothing else meanwhile. *)
Inductive Wait := ChannelFull (rx : nat).

Definition on_gossip {E} (data : list Z) : ST t E unit :=
  m ← liftR (unwrap (from_slice data));
  modifyS (send_event m).

Definition on_discovered (l : list (PeerId * Multiaddr)) (s : t) : t :=
  foldl (fun s x => send_peers (set_peers ({[x.1]} ∪ peers s) (call (AddExplicitPeer x.1) s))) s l.

Definition on_expired (l : list (PeerId * Multiaddr)) (s : t) : t :=
  foldl (fun s x => send_peers (call (RemoveExplicitPeer x.1) s)) s l.

(** [mpsc::Sender::send]: an error without a receiver, which is ignored. *)
Definition channel_send (rx : nat) (r : RPCResponse) : ST t Wait unit :=
  s ← getS;
  match channels s !! rx with
  | Some c =>
      if receiver c then
        if (length (buffer c) <? CHANNEL_CAPACITY)%nat
        then modifyS (set_channels (<[rx := mkChannel (taken c) (buffer c ++ [r]) true]> (channels s)))
        else throw (ChannelFull rx)
      else mret tt
  | None => mret tt
  end.

Definition on_rpc (x : RPCMessage) : ST t Wait unit :=
  match m_event x with
  | Received (ReceivedRequest _ _) => modifyS (send_rpc_event x)
  | Received (ReceivedResponse request_id received_response) =>
      s ← getS;
      rx ← liftR (unwrap (rpc_response_channels s !! request_id));
      channel_send rx received_response
  | Received (EndOfStream request_id _) =>
      modifyS (fun s => set_senders (delete request_id (rpc_response_channels s)) (next_id s)
                                    (channels s) s)
  | Failed (Inbound _ _ _) => mret tt
  | Failed (Outbound _ _ _) => mret tt
  end.

Definition on_established (p : PeerId) (remote : Multiaddr) (s : t) : t :=
  let s := set_peers ({[p]} ∪ peers s) s in
  let s := set_addresses (<[p := remote]> (peer_addresses s)) s in
  let s := match reconnect_info s !! p with
           | Some info => set_reconnect (<[p := reset_attempts info]> (reconnect_info s)) s
           | None => s
           end in
  send_peers s.

Definition on_closed (p : PeerId) (num_established : Z) (keep_alive_timeout : bool) (s : t) : t :=
  if num_established =? 0 then
    let s := set_peers (peers s ∖ {[p]}) s in
    let s := match peer_addresses s !! p with
             | Some a =>
                 if negb keep_alive_timeout
                 then set_reconnect (<[p := info_new a]> (reconnect_info s)) s
                 else s
             | None => s
             end in
    send_peers s
  else s.

Definition handle_event (e : SwarmEvent) : ST t Wait unit :=
  match e with
  | GossipMessage data => on_gossip data
  | MdnsDiscovered l => modifyS (on_discovered l)
  | MdnsExpired l => modifyS (on_expired l)
  | NewListenAddr _ => mret tt
  | Eth2Rpc x => on_rpc x
  | ConnectionEstablished p remote => modifyS (on_established p remote)
  | ConnectionClosed p n timeout => modifyS (on_closed p n timeout)
  | OtherEvent => mret tt
  end.

(** ** The loop *)

(** A turn of the loop, or of a client with a receiver of responses: it takes
    one, or drops the receiver. *)
Inductive Input :=
| Tick (now : Z) (dial_ok : PeerId -> bool)
| Command (now : Z) (ok waiting : bool) {R : Type} (c : FrontToBackCommand R)
| NoCommand
| FromSwarm (e : SwarmEvent)
| ClientTakes (rx : nat)
| ClientDrops (rx : nat).

Definition client_takes (rx : nat) (s : t) : t :=
  match channels s !! rx with
  | Some c =>
      match buffer c with
      | r :: rest => set_channels (<[rx := mkChannel (taken c ++ [r]) rest (receiver c)]> (channels s)) s
      | [] => s
      end
  | None => s
  end.

Definition client_drops (rx : nat) (s : t) : t :=
  match channels s !! rx with
  | Some c => set_channels (<[rx := mkChannel (taken c) (buffer c) false]> (channels s)) s
  | None => s
  end.

Definition step (i : Input) : ST t Wait unit :=
  match i with
  | Tick now dial_ok => attempt_reconnections now dial_ok
  | Command now ok waiting c => handle_command now ok waiting c ;; mret tt
  | NoCommand => mret tt
  | FromSwarm e => handle_event e
  | ClientTakes rx => modifyS (client_takes rx)
  | ClientDrops rx => modifyS (client_drops rx)
  end.

(** The turns, in order. *)
Definition run (turns : list Input) : ST t Wait unit := mapM_ step turns.

(** ** The client *)

(** A command sent to the backend and the wait for its answer; [alive] says
    whether the backend still takes commands. *)
Definition request {R} (alive : bool) (now : Z) (ok : bool) (c : FrontToBackCommand R) :
    ST t Error R := fun s =>
  if negb alive then (Err ChannelSendError, s)
  else match handle_command now ok true c s with
       | (Ok (Some r), s') => (Ok r, s')
       | (Ok None, s') => (Err OneshotRecvError, s')
       | (Err e, s') => (Err e, s')
       | (Panic, s') => (Panic, s')
       end.

Definition client_send (alive : bool) (now : Z) (ok : bool) (m : Msg) : ST t Error unit :=
  r ← request alive now ok (Publish m); liftR r.

Definition client_send_rpc (alive : bool) (now : Z) (p : PeerId) (r : Request) : ST t Error nat :=
  request alive now true (SendRpc p r).

Definition respond_rpc (alive : bool) (now : Z) (p : PeerId) (c : ConnectionId) (id : SubstreamId)
    (payload : RPCCodedResponse) : ST t Error unit :=
  r ← request alive now true (RespondRpc p c id payload); liftR r.

Definition client_dial (alive : bool) (now : Z) (ok : bool) (a : Multiaddr) : ST t Error unit :=
  r ← request alive now ok (Dial a); liftR r.

Definition subscribe_events (alive : bool) (now : Z) : ST t Error nat :=
  request alive now true SubscribeEvents.

Definition subscribe_peers (alive : bool) (now : Z) : ST t Error nat :=
  request alive now true SubscribePeers.

Definition subscribe_rpc_events (alive : bool) (now : Z) : ST t Error nat :=
  request alive now true SubscribeRpcEvents.

(** ** Starting *)

(** What the swarm answers while it is set up. *)
Record Setup := mkSetup {
  create_swarm : res Error unit;
  subscribe_ok : GossipKind -> bool;
  listen_ok : Multiaddr -> bool;
  dial_ok : Multiaddr -> bool;
}.

Definition subscribe (w : Setup) (k : GossipKind) : ST t Error unit :=
  modifyS (call (SubscribeTopic (topic k))) ;;
  if subscribe_ok w k then mret tt else throw Libp2pSubscriptionError.

Definition decimal (n : Z) : list Z :=
  map (fun c => Z.of_N (Ascii.N_of_ascii c)) (Text.print_u64 n).

Definition read_address (s : list Z) : ST t Error Multiaddr :=
  liftR (map_err MultiaddrParseError (Multiaddr.read_addr s)).

Definition listen_on (w : Setup) (s : list Z) : ST t Error unit :=
  a ← read_address s;
  modifyS (call (ListenOn a)) ;;
  if listen_ok w a then mret tt else throw Libp2pTransportError.

(** The first nodes are dialled through the client; a failure is logged. *)
Fixpoint dial_all (w : Setup) (l : list Multiaddr) : ST t Error unit :=
  match l with
  | [] => mret tt
  | a :: l => fun s =>
      match client_dial true 0 (dial_ok w a) a s with
      | (Panic, s') => (Panic, s')
      | (_, s') => dial_all w l s'
      end
  end.

Definition spawn_network_handler (w : Setup) (addr : list Z) (port : Z)
    (remote_bootnode : option (list Z)) : ST t Error unit :=
  liftR (create_swarm w) ;;
  subscribe w KApproveBlock ;;
  subscribe w KConsensusBlock ;;
  subscribe w KQueuePow ;;
  subscribe w KPegoutSignatures ;;
  listen_on w (Multiaddr.lit "/ip4/" ++ addr ++ Multiaddr.lit "/udp/" ++ decimal port
               ++ Multiaddr.lit "/quic-v1") ;;
  listen_on w (Multiaddr.lit "/ip4/" ++ addr ++ Multiaddr.lit "/tcp/" ++ decimal port) ;;
  match remote_bootnode with
  | Some bootnode =>
      addresses ← liftR (map_err MultiaddrParseError (Multiaddr.parse_multiple_multiaddrs bootnode));
      dial_all w addresses
  | None => mret tt
  end.

End WithTypes.
End Network.
