(* ===== verification/NetworkProofs.v ===== *)
(** Theorems about the network backend: responses reach the channel of their
    request and no other, when the loop panics or waits, reconnection, the
    peers that subscribers see, and what a client's calls return. *)
From stdpp Require Import base decidable list gmap sets strings.
From Stdlib Require Import ZArith Lia.
From S2P Require Import Prelude Bitcoin Block RpcTypes RateLimiter Text RpcBehaviour Multiaddr Network.

Module NetworkProofs.
Import RpcTypes RateLimiter RpcBehaviour Network.
Local Open Scope Z_scope.

Section WithTypes.
Context {PeerId : Type} `{HO : PeerOrder PeerId}.
Context {ConnectionId : Type} {Msg : Type} `{!GossipLib Msg} `{ML : MultiaddrLib}.

Abbreviation t := (Network.t (PeerId:=PeerId) (ConnectionId:=ConnectionId) (Msg:=Msg)).
Abbreviation Input := (Network.Input (PeerId:=PeerId) (ConnectionId:=ConnectionId) (Msg:=Msg)).
Abbreviation RequestId := Z.
Implicit Types (s : t) (i : Input) (turns : list Input).

(** ** Runs *)

Lemma run_app turns1 turns2 s :
  run (turns1 ++ turns2) s =
  match run turns1 s with
  | (Ok _, s1) => run turns2 s1
  | (Err w, s1) => (Err w, s1)
  | (Panic, s1) => (Panic, s1)
  end.
Proof.
  revert s. induction turns1 as [|i turns1 IH]; intros s; cbn; [done|].
  unfold run in *. unfold mbind, st_bind. destruct (step i s) as [[[]|w|] s1]; [apply IH|done|done].
Qed.

Lemma run_snoc turns i s s' :
  run (turns ++ [i]) s = (Ok tt, s') <->
  exists s1, run turns s = (Ok tt, s1) /\ step i s1 = (Ok tt, s').
Proof.
  rewrite run_app. destruct (run turns s) as [[[]|w|] s1].
  2, 3: split; [done|intros (? & [=] & _)].
  transitivity (step i s1 = (Ok tt, s')).
  - unfold run. cbn. unfold mbind, st_bind. destruct (step i s1) as [[[]|w|] s2]; done.
  - split; [by exists s1|]. by intros (? & [= <-] & ?).
Qed.

(** Induction over the turns of a run. *)
Lemma run_invariant (P : list Input -> t -> Prop) s0 :
  P [] s0 ->
  (forall turns i s s', P turns s -> step i s = (Ok tt, s') -> P (turns ++ [i]) s') ->
  forall turns s, run turns s0 = (Ok tt, s) -> P turns s.
Proof.
  intros H0 Hstep turns. induction turns as [|i turns IH] using rev_ind; intros s Hrun.
  - by injection Hrun as <-.
  - apply run_snoc in Hrun as (s1 & Hrun & Hi). eauto.
Qed.

(** A run that does not end well stops at some turn. *)
Lemma run_stops turns s r s' :
  run turns s = (r, s') -> r <> Ok tt ->
  exists before i after s1, turns = before ++ i :: after /\ run before s = (Ok tt, s1) /\
    step i s1 = (r, s').
Proof.
  revert s. induction turns as [|i turns IH]; intros s Hrun Hr; [by injection Hrun as <- <-|].
  cbn in Hrun. unfold mbind, st_bind in Hrun. destruct (step i s) as [[[]|w|] s1] eqn:E.
  - destruct (IH _ Hrun Hr) as (before & j & after & s2 & -> & Hb & Hj).
    exists (i :: before), j, after, s2. split; [done|]. split; [|done].
    cbn. unfold mbind, st_bind. by rewrite E.
  - injection Hrun as <- <-. by exists [], i, turns, s.
  - injection Hrun as <- <-. by exists [], i, turns, s.
Qed.

(** ** Turns *)

(** A request that is sent. *)
Lemma send_rpc_spec {E} now waiting p r s :
  match on_send_rpc (E:=E) now waiting p r s with
  | (Ok rx, s') =>
      waiting = true /\ in_width 32 (next_id s + 1) = true /\ rx = length (channels s) /\
      exists x, s' = set_senders (<[next_id s := rx]> (rpc_response_channels s)) (next_id s + 1)
                                 (channels s ++ [mkChannel [] [] true]) (set_rpc x s)
  | (Err _, _) => False
  | (Panic, _) =>
      self_limiter (eth2_rpc s) = None -> waiting = false \/ in_width 32 (next_id s + 1) = false
  end.
Proof.
  unfold on_send_rpc, mbind, st_bind, getS, rpc_send_request, liftR, modifyS, mret, st_ret, panic.
  destruct (RpcBehaviour.send_request _ _ _ _ _) as [[[]|e|] x] eqn:E0.
  3: { intros Hl. revert E0. unfold RpcBehaviour.send_request. by rewrite Hl. }
  all: destruct waiting; [|by left]; unfold add_chk, chk;
    destruct (in_width 32 (next_id s + 1)) eqn:Ew; [|by right]; repeat split; by exists x.
Qed.

(** A response that came. *)
Lemma response_spec x k r s :
  m_event x = Received (ReceivedResponse k r) ->
  on_rpc x s =
  match rpc_response_channels s !! k with
  | None => (Panic, s)
  | Some n =>
      match channels s !! n with
      | None => (Ok tt, s)
      | Some c =>
          if receiver c then
            if (length (buffer c) <? CHANNEL_CAPACITY)%nat
            then (Ok tt, set_channels (<[n := mkChannel (taken c) (buffer c ++ [r]) true]> (channels s)) s)
            else (Err (ChannelFull n), s)
          else (Ok tt, s)
      end
  end.
Proof.
  intros E. unfold on_rpc, mbind, st_bind, getS, liftR, unwrap, channel_send. rewrite E.
  destruct (rpc_response_channels s !! k) as [n|]; [|done]. unfold mbind, st_bind, getS.
  destruct (channels s !! n) as [c|]; [|done]. destruct (receiver c); [|done]. by destruct (_ <? _)%nat.
Qed.

(** ** Reconnection *)

(** What a tick leaves of the other fields. *)
Definition only_redials s s' : Prop :=
  eth2_rpc s' = eth2_rpc s /\ peers s' = peers s /\
  rpc_response_channels s' = rpc_response_channels s /\ next_id s' = next_id s /\
  channels s' = channels s /\ network_events s' = network_events s /\
  network_rpc_events s' = network_rpc_events s /\ peers_connected s' = peers_connected s.

#[local] Instance only_redials_pre : PreOrder only_redials.
Proof.
  split; [by repeat split|]. intros s1 s2 s3 (?&?&?&?&?&?&?&?) (?&?&?&?&?&?&?&?).
  repeat split; congruence.
Qed.

Lemma due_tracks {E} now keys : tracks only_redials (due (E:=E) now keys).
Proof.
  induction keys as [|p keys IH]; cbn [due]; [apply tracks_ret; apply _|].
  apply tracks_bind; [apply _|apply tracks_getS; apply _|]. intros s.
  destruct (reconnect_info s !! p) as [info|]; [|done]. destruct (should_reconnect now info); [|done].
  repeat (apply tracks_bind; [apply _| |intros ?]); [apply tracks_liftR; apply _| |done|apply tracks_ret; apply _].
  apply tracks_modifyS. by repeat split.
Qed.

Lemma abandon_frame p s : only_redials s (abandon p s) /\ swarm_calls (abandon p s) = swarm_calls s.
Proof. unfold abandon. repeat case_match; by repeat split. Qed.

Lemma redial_frame ok l s :
  only_redials s (redial ok l s) /\
  swarm_calls (redial ok l s) = swarm_calls s ++ map (fun x => DialAddress x.2) l.
Proof.
  revert s. induction l as [|[p a] l IH]; intros s; cbn [redial map].
  { rewrite app_nil_r. by repeat split. }
  set (s1 := if ok p then _ else _).
  assert (only_redials s s1 /\ swarm_calls s1 = swarm_calls s ++ [DialAddress a]) as [H1 H2].
  { unfold s1. destruct (ok p); [by repeat split|].
    destruct (abandon_frame p (call (DialAddress a) s)) as [? ->]. done. }
  destruct (IH s1) as [H3 ->]. split; [by etrans|]. by rewrite H2, <-app_assoc.
Qed.

Lemma tick_frame {E} now ok s : only_redials s (attempt_reconnections (E:=E) now ok s).2.
Proof.
  revert s. change (tracks only_redials (attempt_reconnections (E:=E) now ok)).
  apply tracks_bind; [apply _|apply tracks_getS; apply _|]. intros s1.
  apply tracks_bind; [apply _|apply due_tracks|]. intros l. apply tracks_modifyS. intros s2. apply redial_frame.
Qed.

(** The peers due at [now], in the order of the map, and the information left. *)
Definition due_entry (now : Z) (m : gmap PeerId PeerReconnectInfo) (p : PeerId) :
    option (PeerId * Multiaddr) :=
  match m !! p with
  | Some info => if should_reconnect now info then Some (p, address info) else None
  | None => None
  end.

Definition marked (now : Z) (info : PeerReconnectInfo) : PeerReconnectInfo :=
  if should_reconnect now info then mkInfo (address info) (Some now) (attempt_count info + 1) else info.

Definition overflows (now : Z) (info : PeerReconnectInfo) : Prop :=
  should_reconnect now info = true /\ in_width 32 (attempt_count info + 1) = false.

Lemma due_cons {E} now p keys s :
  due (E:=E) now (p :: keys) s =
  match reconnect_info s !! p with
  | Some info =>
      if should_reconnect now info then
        if in_width 32 (attempt_count info + 1) then
          match due now keys (set_reconnect (<[p := marked now info]> (reconnect_info s)) s) with
          | (Ok rest, s') => (Ok ((p, address info) :: rest), s')
          | (Err e, s') => (Err e, s')
          | (Panic, s') => (Panic, s')
          end
        else (Panic, s)
      else due now keys s
  | None => due now keys s
  end.
Proof.
  cbn [due]. unfold mbind at 1, st_bind at 1, getS.
  destruct (reconnect_info s !! p) as [info|]; [|done].
  unfold marked. destruct (should_reconnect now info); [|done].
  unfold liftR, mark_attempt, add_chk, chk, mbind, st_bind, res_bind.
  destruct (in_width 32 (attempt_count info + 1)); [|done].
  unfold modifyS. by destruct (due now keys _) as [[]].
Qed.

Lemma omap_first {A B} (f : A -> option B) x l :
  omap f (x :: l) = match f x with Some y => y :: omap f l | None => omap f l end.
Proof. done. Qed.

Lemma due_further (P : PeerId -> PeerReconnectInfo -> Prop) p keys :
  (exists q info, q ∈ keys /\ P q info) -> exists q info, q ∈ p :: keys /\ P q info.
Proof. intros (q & info & Hq & HP). exists q, info. split; [by right|done]. Qed.

Lemma due_spec {E} now keys s :
  NoDup keys ->
  match due (E:=E) now keys s with
  | (Ok l, s') =>
      l = omap (due_entry now (reconnect_info s)) keys /\
      peer_addresses s' = peer_addresses s /\ swarm_calls s' = swarm_calls s /\
      (forall p, p ∈ keys -> reconnect_info s' !! p = marked now <$> reconnect_info s !! p) /\
      (forall p, p ∉ keys -> reconnect_info s' !! p = reconnect_info s !! p)
  | (Err _, _) => False
  | (Panic, _) => exists p info, p ∈ keys /\ reconnect_info s !! p = Some info /\ overflows now info
  end.
Proof.
  intros Hnd. revert s. induction Hnd as [|p keys Hp Hnd IH]; intros s.
  { cbn. repeat split; set_solver. }
  rewrite due_cons. destruct (reconnect_info s !! p) as [info|] eqn:Ei.
  2: { specialize (IH s). destruct (due now keys s) as [[l|e|] s']; [|done|by apply due_further].
       destruct IH as (-> & H1 & H2 & H3 & H4). rewrite omap_first. unfold due_entry at 2.
       rewrite Ei. repeat split; try done; [|set_solver].
       intros q [->|Hq]%elem_of_cons; [|by apply H3]. by rewrite H4, Ei. }
  destruct (should_reconnect now info) eqn:Es.
  2: { specialize (IH s). destruct (due now keys s) as [[l|e|] s']; [|done|by apply due_further].
       destruct IH as (-> & H1 & H2 & H3 & H4). rewrite omap_first. unfold due_entry at 2.
       rewrite Ei, Es. repeat split; try done; [|set_solver].
       intros q [->|Hq]%elem_of_cons; [|by apply H3]. rewrite H4, Ei by done. cbn. unfold marked.
       by rewrite Es. }
  destruct (in_width 32 (attempt_count info + 1)) eqn:Ew.
  2: { cbn. exists p, info. split; [by left|done]. }
  set (s1 := set_reconnect _ s). specialize (IH s1).
  assert (forall q, q ∈ keys -> reconnect_info s1 !! q = reconnect_info s !! q) as Hsame.
  { intros q Hq. apply lookup_insert_ne. by intros ->. }
  destruct (due now keys s1) as [[l|e|] s']; [|done|].
  - destruct IH as (-> & H1 & H2 & H3 & H4). split.
    { rewrite omap_first. unfold due_entry at 2. rewrite Ei, Es. f_equal.
      apply list_omap_ext, Forall_Forall2_diag, Forall_forall. intros q Hq.
      unfold due_entry. by rewrite Hsame. }
    split; [done|]. split; [done|]. split.
    + intros q [->|Hq]%elem_of_cons.
      * rewrite H4, Ei by done. apply lookup_insert_eq.
      * by rewrite H3, Hsame.
    + intros q Hq. rewrite H4 by set_solver. apply lookup_insert_ne. set_solver.
  - destruct IH as (q & info2 & Hq & Hi & Ho). exists q, info2. rewrite Hsame in Hi by done.
    split; [by right|done].
Qed.

Lemma peers_of_spec {V} (m : gmap PeerId V) : NoDup (peers_of m) /\ (forall p, p ∈ peers_of m <-> is_Some (m !! p)).
Proof.
  split; [rewrite peers_of_perm; apply NoDup_fst_map_to_list|]. intros p.
  rewrite peers_of_perm, list_elem_of_fmap. split.
  - intros ([q v] & -> & Hv%elem_of_map_to_list). by exists v.
  - intros [v Hv%elem_of_map_to_list]. by exists (p, v).
Qed.

(** What a tick dials and leaves, and when it overflows. *)
Lemma tick_spec {E} now ok s :
  match attempt_reconnections (E:=E) now ok s with
  | (Ok _, s') =>
      swarm_calls s' = swarm_calls s ++
        map (fun x => DialAddress x.2) (omap (due_entry now (reconnect_info s)) (peers_of (reconnect_info s))) /\
      (forall p info', reconnect_info s' !! p = Some info' ->
         exists info, reconnect_info s !! p = Some info /\ info' = marked now info) /\
      (forall p info, reconnect_info s !! p = Some info -> ok p = true ->
         reconnect_info s' !! p = Some (marked now info))
  | (Err _, _) => False
  | (Panic, _) => exists p info, reconnect_info s !! p = Some info /\ overflows now info
  end.
Proof.
  unfold attempt_reconnections. unfold mbind, st_bind, getS.
  destruct (peers_of_spec (reconnect_info s)) as [Hnd Hin].
  pose proof (due_spec (E:=E) now _ s Hnd) as Hdue.
  destruct (due now (peers_of (reconnect_info s)) s) as [[l|e|] s1]; [|done|naive_solver].
  destruct Hdue as (-> & H1 & H2 & H3 & H4). cbn [modifyS].
  set (l := omap _ _). destruct (redial_frame ok l s1) as [_ Hc]. split; [by rewrite Hc, H2|].
  assert (forall p, reconnect_info s1 !! p = marked now <$> reconnect_info s !! p) as Hm.
  { intros p. destruct (decide (p ∈ peers_of (reconnect_info s))) as [Hp|Hp]; [by apply H3|].
    rewrite H4 by done. rewrite Hin in Hp. destruct (reconnect_info s !! p); [|done]. destruct Hp. by eexists. }
  assert (forall s p, (forall info', reconnect_info (redial ok l s) !! p = Some info' ->
                        reconnect_info s !! p = Some info') /\
                      (ok p = true -> reconnect_info (redial ok l s) !! p = reconnect_info s !! p)) as Hr.
  { generalize l. clear. intros l. induction l as [|[q a] l IH]; intros s p; [done|]. cbn [redial].
    set (s1 := if ok q then _ else _). destruct (IH s1 p) as [IH1 IH2].
    assert ((forall info', reconnect_info s1 !! p = Some info' -> reconnect_info s !! p = Some info') /\
            (ok p = true -> reconnect_info s1 !! p = reconnect_info s !! p)) as [K1 K2].
    { unfold s1. destruct (ok q) eqn:Eq; [done|]. unfold abandon.
      repeat case_match; try done. cbn. split.
      - intros info' [_ ?]%lookup_delete_Some. done.
      - intros Hp. apply lookup_delete_ne. congruence. }
    split; [eauto|]. intros Hp. by rewrite IH2, K2. }
  split.
  - intros p info' Hi. apply Hr in Hi. rewrite Hm in Hi. apply fmap_Some in Hi. naive_solver.
  - intros p info Hi Hok. rewrite (proj2 (Hr s1 p) Hok), Hm, Hi. done.
Qed.

(** ** Routing of responses *)

(** The senders, the next request id and the channels. *)
Definition routing s : gmap RequestId nat * RequestId * list Channel :=
  (rpc_response_channels s, next_id s, channels s).

Definition with_channel (rx : nat) (f : Channel -> Channel) (cs : list Channel) : list Channel :=
  alter f rx cs.

Definition deliver (r : RPCResponse) (c : Channel) : Channel :=
  if receiver c then mkChannel (taken c) (buffer c ++ [r]) true else c.

Definition take_one (c : Channel) : Channel :=
  match buffer c with
  | r :: rest => mkChannel (taken c ++ [r]) rest (receiver c)
  | [] => c
  end.

Definition drop_receiver (c : Channel) : Channel := mkChannel (taken c) (buffer c) false.

(** What a turn does to the routing, when it ends well. *)
Definition route i (v : gmap RequestId nat * RequestId * list Channel) :
    gmap RequestId nat * RequestId * list Channel :=
  let '(senders, id, cs) := v in
  match i with
  | Command _ _ _ c =>
      match c with
      | SendRpc _ _ => (<[id := length cs]> senders, id + 1, cs ++ [mkChannel [] [] true])
      | _ => v
      end
  | FromSwarm (Eth2Rpc x) =>
      match m_event x with
      | Received (ReceivedResponse request_id r) =>
          (senders, id,
           match senders !! request_id with Some rx => with_channel rx (deliver r) cs | None => cs end)
      | Received (EndOfStream request_id _) => (delete request_id senders, id, cs)
      | _ => v
      end
  | ClientTakes rx => (senders, id, with_channel rx take_one cs)
  | ClientDrops rx => (senders, id, with_channel rx drop_receiver cs)
  | _ => v
  end.

Lemma routing_fold {A} (f : t -> A -> t) (l : list A) s :
  (forall s x, routing (f s x) = routing s) -> routing (foldl f s l) = routing s.
Proof. intros Hf. revert s. induction l as [|x l IH]; intros s; cbn; [done|]. by rewrite IH, Hf. Qed.

Lemma with_channel_insert rx f cs c :
  cs !! rx = Some c -> with_channel rx f cs = <[rx := f c]> cs.
Proof.
  intros Hc. unfold with_channel. apply list_eq. intros j.
  destruct (decide (j = rx)) as [->|Hj].
  - rewrite list_lookup_alter_eq, Hc, list_lookup_insert_eq by (by apply lookup_lt_Some in Hc). done.
  - by rewrite list_lookup_alter_ne, list_lookup_insert_ne.
Qed.

Lemma with_channel_id rx f cs :
  (forall c, cs !! rx = Some c -> f c = c) -> with_channel rx f cs = cs.
Proof.
  intros Hf. destruct (cs !! rx) as [c|] eqn:Hc.
  - rewrite (with_channel_insert _ _ _ _ Hc), Hf by done. by apply list_insert_id.
  - unfold with_channel. apply list_eq. intros j. destruct (decide (j = rx)) as [->|Hj].
    + by rewrite list_lookup_alter_eq, Hc.
    + by rewrite list_lookup_alter_ne.
Qed.

Lemma step_route i s s' : step i s = (Ok tt, s') -> routing s' = route i (routing s).
Proof.
  destruct i as [now ok|now ok waiting R c| |e|rx|rx]; cbn [step].
  - intros E. pose proof (tick_frame (E:=Wait) now ok s) as F. rewrite E in F.
    destruct F as (_ & _ & H1 & H2 & H3 & _). unfold routing. cbn in *. by rewrite H1, H2, H3.
  - unfold mbind, st_bind. destruct c; cbn; unfold mbind, st_bind; try (by intros [= <-]).
    + unfold publish, mbind, st_bind, liftR, unwrap. destruct (to_vec m); [|done]. by intros [= <-].
    + pose proof (send_rpc_spec (E:=Wait) now waiting p r s) as F.
      destruct (on_send_rpc now waiting p r s) as [[rx|e|] s1]; [|done..]. intros [= <-].
      by destruct F as (_ & _ & -> & x & ->).
  - by intros [= <-].
  - destruct e as [d|l|l|a|x|p a|p n k|]; cbn [handle_event]; try (by intros [= <-]).
    + unfold on_gossip, mbind, st_bind, liftR, unwrap. destruct (from_slice d); [|done]. by intros [= <-].
    + intros [= <-]. by apply routing_fold.
    + intros [= <-]. by apply routing_fold.
    + destruct (m_event x) as [[id req|id r|id tm]|[|]] eqn:Ex;
        cbn; rewrite Ex; try (unfold on_rpc; rewrite Ex; by intros [= <-]).
      rewrite (response_spec _ _ _ _ Ex). destruct (rpc_response_channels s !! id) as [n|]; [|done].
      destruct (channels s !! n) as [c|] eqn:Hc.
      2: { intros [= <-]. by rewrite with_channel_id by congruence. }
      rewrite (with_channel_insert _ _ _ _ Hc). unfold deliver. destruct (receiver c).
      * destruct (_ <? _)%nat; [|done]. by intros [= <-].
      * intros [= <-]. by rewrite list_insert_id.
    + intros [= <-]. unfold on_established. cbn. by case_match.
    + intros [= <-]. unfold on_closed. cbn. by repeat case_match.
  - intros [= <-]. unfold client_takes. cbn. destruct (channels s !! rx) as [c|] eqn:Hc.
    + rewrite (with_channel_insert _ _ _ _ Hc). unfold take_one.
      destruct (buffer c) as [|r rest]; [by rewrite list_insert_id|done].
    + by rewrite with_channel_id by congruence.
  - intros [= <-]. unfold client_drops. cbn. destruct (channels s !! rx) as [c|] eqn:Hc.
    + by rewrite (with_channel_insert _ _ _ _ Hc).
    + by rewrite with_channel_id by congruence.
Qed.

(** The responses with an id among the events of the turns. *)
Definition response_of (id : RequestId) i : option RPCResponse :=
  match i with
  | FromSwarm (Eth2Rpc x) =>
      match m_event x with
      | Received (ReceivedResponse id' r) => if decide (id' = id) then Some r else None
      | _ => None
      end
  | _ => None
  end.

Definition responses_for (id : RequestId) turns : list RPCResponse := omap (response_of id) turns.

Definition ends (id : RequestId) i : bool :=
  match i with
  | FromSwarm (Eth2Rpc x) =>
      match m_event x with
      | Received (EndOfStream id' _) => bool_decide (id' = id)
      | _ => false
      end
  | _ => false
  end.

Lemma responses_for_snoc id turns i :
  responses_for id (turns ++ [i]) =
  responses_for id turns ++ match response_of id i with Some r => [r] | None => [] end.
Proof. unfold responses_for. rewrite omap_app. cbn. by destruct (response_of id i). Qed.

(** A channel has what came for its id, as long as it has a receiver. *)
Definition holds (c : Channel) (rs : list RPCResponse) : Prop :=
  (taken c ++ buffer c) `prefix_of` rs /\ (receiver c = true -> taken c ++ buffer c = rs).

Lemma holds_take_one c rs : holds c rs -> holds (take_one c) rs.
Proof.
  unfold holds, take_one. destruct (buffer c) as [|r rest] eqn:Eb; [by rewrite Eb|].
  cbn. by rewrite <-app_assoc.
Qed.

Lemma holds_drop_receiver c rs : holds c rs -> holds (drop_receiver c) rs.
Proof. by intros [Hp _]. Qed.

Lemma holds_deliver c rs r : holds c rs -> holds (deliver r c) (rs ++ [r]).
Proof.
  intros [Hp He]. unfold holds, deliver. destruct (receiver c) eqn:Er; cbn.
  - rewrite app_assoc, He by done. done.
  - split; [by apply prefix_app_r|congruence].
Qed.

Record routed turns (v : gmap RequestId nat * RequestId * list Channel) : Prop := {
  routed_length : v.1.2 = Z.of_nat (length v.2);
  routed_senders k rx : v.1.1 !! k = Some rx -> 0 <= k < v.1.2 /\ rx = Z.to_nat k;
  routed_open k :
    0 <= k < v.1.2 -> Forall (fun i => ends k i = false) turns -> v.1.1 !! k = Some (Z.to_nat k);
  routed_channels n c : v.2 !! n = Some c -> holds c (responses_for (Z.of_nat n) turns);
  routed_later k : v.1.2 <= k -> responses_for k turns = [];
}.

(** A turn that is no response leaves what came for each id. *)
Lemma routed_quiet turns i v :
  (forall k, response_of k i = None) -> routed turns v -> routed (turns ++ [i]) v.
Proof.
  intros Hi [H1 H2 H3 H4 H5]. split; try done.
  - intros k Hk [Hf _]%Forall_app. by apply H3.
  - intros n c Hc. rewrite responses_for_snoc, Hi, app_nil_r. by apply H4.
  - intros k Hk. rewrite responses_for_snoc, Hi, app_nil_r. by apply H5.
Qed.

Lemma routed_with_channel turns senders id cs rx f :
  (forall c rs, holds c rs -> holds (f c) rs) ->
  routed turns (senders, id, cs) -> routed turns (senders, id, with_channel rx f cs).
Proof.
  intros Hf [H1 H2 H3 H4 H5]. split; cbn in *; try done.
  - unfold with_channel. by rewrite length_alter.
  - intros n c. unfold with_channel. destruct (decide (n = rx)) as [->|Hn].
    + rewrite list_lookup_alter_eq, fmap_Some. intros (c0 & Hc & ->). by apply Hf, H4.
    + rewrite list_lookup_alter_ne by done. apply H4.
Qed.

Lemma routed_send turns senders id cs :
  routed turns (senders, id, cs) ->
  routed turns (<[id := length cs]> senders, id + 1, cs ++ [mkChannel [] [] true]).
Proof.
  intros [H1 H2 H3 H4 H5]. cbn in *. split; cbn.
  - rewrite length_app. cbn. lia.
  - intros k rx [[<- <-]|[Hk Hl]]%lookup_insert_Some; [lia|]. apply H2 in Hl. lia.
  - intros k Hk Hf. destruct (decide (k = id)) as [->|Hne].
    + rewrite lookup_insert_eq. f_equal. lia.
    + rewrite lookup_insert_ne by done. apply H3; [lia|done].
  - intros n c [Hc|[Hn Hc]]%lookup_app_Some; [by apply H4|].
    assert (n - length cs = 0)%nat as E by (apply lookup_lt_Some in Hc; cbn in Hc; lia).
    rewrite E in Hc. injection Hc as <-. rewrite H5 by lia. by split.
  - intros k Hk. apply H5. lia.
Qed.

Lemma routed_response turns i senders id cs k r :
  (forall j, response_of j i = if decide (k = j) then Some r else None) ->
  (forall j, ends j i = false) -> is_Some (senders !! k) -> routed turns (senders, id, cs) ->
  routed (turns ++ [i]) (senders, id, match senders !! k with
                                      | Some rx => with_channel rx (deliver r) cs
                                      | None => cs
                                      end).
Proof.
  intros Hi He [rx Hrx] [H1 H2 H3 H4 H5]. rewrite Hrx. cbn in *. destruct (H2 _ _ Hrx) as [Hk ->].
  split; cbn; try done.
  - unfold with_channel. by rewrite length_alter.
  - intros j Hj [Hf _]%Forall_app. by apply H3.
  - intros n c. rewrite responses_for_snoc, Hi. unfold with_channel.
    destruct (decide (n = Z.to_nat k)) as [->|Hn].
    + rewrite list_lookup_alter_eq, fmap_Some. intros (c0 & Hc & ->).
      rewrite decide_True by lia. by apply holds_deliver, H4.
    + rewrite list_lookup_alter_ne by done. intros Hc. rewrite decide_False, app_nil_r by lia. by apply H4.
  - intros j Hj. rewrite responses_for_snoc, Hi, decide_False, app_nil_r by lia. by apply H5.
Qed.

Lemma response_needs_sender x k r s s' :
  m_event x = Received (ReceivedResponse k r) -> on_rpc x s = (Ok tt, s') ->
  is_Some (rpc_response_channels s !! k).
Proof.
  intros E. rewrite (response_spec _ _ _ _ E). by destruct (rpc_response_channels s !! k).
Qed.

Lemma step_routed turns i s s' :
  routed turns (routing s) -> step i s = (Ok tt, s') -> routed (turns ++ [i]) (routing s').
Proof.
  intros Hr E. rewrite (step_route _ _ _ E). unfold routing in *.
  destruct i as [now ok|now ok waiting R c| |e|rx|rx]; cbn [route];
    try (apply routed_quiet; [done|]; done).
  - destruct c; (apply routed_quiet; [done|]); try done. by apply routed_send.
  - destruct e as [d|l|l|a|x|p a|p n k|]; try (apply routed_quiet; done).
    destruct (m_event x) as [[id req|id r|id tm]|err] eqn:Ex.
    + apply routed_quiet; [|done]. intros k. cbn. by rewrite Ex.
    + eapply routed_response; [| | |done].
      * intros j. cbn. by rewrite Ex.
      * intros j. cbn. by rewrite Ex.
      * by eapply response_needs_sender.
    + apply (routed_quiet _ (FromSwarm (Eth2Rpc x))) in Hr; [|intros k; cbn; by rewrite Ex].
      destruct Hr as [H1 H2 H3 H4 H5]. split; cbn in *; try done.
      * intros k rx [_ Hk]%lookup_delete_Some. by apply H2.
      * intros k Hk Hf. rewrite lookup_delete_ne; [by apply H3|]. intros <-.
        apply Forall_app in Hf as [_ [Hf _]%Forall_cons]. cbn in Hf. rewrite Ex in Hf.
        by rewrite bool_decide_true in Hf.
    + apply routed_quiet; [|done]. intros k. cbn. by rewrite Ex.
  - apply routed_quiet; [done|]. apply routed_with_channel; [|done]. apply holds_take_one.
  - apply routed_quiet; [done|]. apply routed_with_channel; [|done]. apply holds_drop_receiver.
Qed.

Lemma init_routed r : routed [] (routing (init r)).
Proof. split; cbn; try done. intros; lia. Qed.

Lemma run_routed r turns s : run turns (init r) = (Ok tt, s) -> routed turns (routing s).
Proof.
  revert turns s. apply (run_invariant (fun turns s => routed turns (routing s))); [apply init_routed|].
  intros. by eapply step_routed.
Qed.

(** C35: Whatever commands, events and ticks come in whatever order: the channel
    that a client gets for a request carries the responses with the id of that
    request, all of them, in order and none of another, until the client drops
    it; then it has the first of them. *)
Theorem responses_routed r turns s :
  run turns (init r) = (Ok tt, s) ->
  next_id s = Z.of_nat (length (channels s)) /\
  forall n c, channels s !! n = Some c ->
    (taken c ++ buffer c) `prefix_of` responses_for (Z.of_nat n) turns /\
    (receiver c = true -> taken c ++ buffer c = responses_for (Z.of_nat n) turns).
Proof. intros Hr%run_routed. split; [apply Hr|]. intros n c Hc. by apply Hr. Qed.

(** A client sees the end of its responses only after an end of the stream with
    its id: whatever else happens, errors of the request included, the sender
    stays and the client waits. *)
Theorem stream_open_without_end r turns s k :
  run turns (init r) = (Ok tt, s) -> 0 <= k < next_id s ->
  Forall (fun i => ends k i = false) turns ->
  rpc_response_channels s !! k = Some (Z.to_nat k).
Proof. intros Hr%run_routed. apply Hr. Qed.

(** ** Waiting and panics *)

(** Only a full channel makes the loop wait. *)
Lemma step_waits i s w s' :
  step i s = (Err w, s') ->
  exists x k r n c, i = FromSwarm (Eth2Rpc x) /\ m_event x = Received (ReceivedResponse k r) /\
    rpc_response_channels s !! k = Some n /\ channels s !! n = Some c /\ receiver c = true /\
    (CHANNEL_CAPACITY <= length (buffer c))%nat /\ w = ChannelFull n /\ s' = s.
Proof.
  destruct i as [now ok|now ok waiting R c| |e|rx|rx]; cbn [step]; try done.
  - pose proof (tick_spec (E:=Wait) now ok s) as F. by destruct (attempt_reconnections now ok s) as [[]].
  - unfold mbind, st_bind. destruct c; cbn; unfold mbind, st_bind; try done.
    + unfold publish, mbind, st_bind, liftR, unwrap. by destruct (to_vec m).
    + pose proof (send_rpc_spec (E:=Wait) now waiting p r s) as F.
      by destruct (on_send_rpc now waiting p r s) as [[]].
  - destruct e as [d|l|l|a|x|p a|p n k|]; cbn [handle_event]; try done.
    + unfold on_gossip, mbind, st_bind, liftR, unwrap. by destruct (from_slice d).
    + destruct (m_event x) as [[id req|id r|id tm]|[|]] eqn:Ex; try (unfold on_rpc; by rewrite Ex).
      rewrite (response_spec _ _ _ _ Ex). destruct (rpc_response_channels s !! id) as [n|] eqn:En; [|done].
      destruct (channels s !! n) as [c|] eqn:Ec; [|done]. destruct (receiver c) eqn:Er; [|done].
      destruct (Nat.ltb_spec (length (buffer c)) CHANNEL_CAPACITY) as [|Hge]; [done|].
      intros [= <- <-]. by exists x, id, r, n, c.
Qed.

(** As long as no request gets more than 1024 responses, which is what a node
    asks for when it synchronises, the loop never waits for a client, however
    slow it is. *)
Theorem backend_never_waits r turns w s :
  (forall k, (length (responses_for k turns) <= CHANNEL_CAPACITY)%nat) ->
  run turns (init r) <> (Err w, s).
Proof.
  intros Hb E. destruct (run_stops _ _ _ _ E) as (before & i & after & s1 & -> & Hbefore & Hi); [done|].
  apply step_waits in Hi as (x & k & resp & n & c & -> & Ex & Hk & Hc & Hrx & Hfull & _ & _).
  pose proof (run_routed _ _ _ Hbefore) as Hr. destruct (routed_senders _ _ Hr _ _ Hk) as [Hk0 ->].
  destruct (routed_channels _ _ Hr _ _ Hc) as [_ He]. specialize (He Hrx).
  rewrite Z2Nat.id in He by lia. specialize (Hb k).
  change (before ++ FromSwarm (Eth2Rpc x) :: after) with (before ++ [FromSwarm (Eth2Rpc x)] ++ after) in Hb.
  rewrite app_assoc in Hb. unfold responses_for in Hb, He. rewrite omap_app, length_app in Hb.
  fold (responses_for k (before ++ [FromSwarm (Eth2Rpc x)])) in Hb.
  rewrite responses_for_snoc, length_app in Hb. unfold responses_for in Hb. rewrite <-He, length_app in Hb.
  cbn [response_of] in Hb. rewrite Ex, decide_True in Hb by done. cbn in Hb. lia.
Qed.

(** What aborts the node at a turn. *)
Definition aborts i s : Prop :=
  match i with
  | Tick now _ => exists p info, reconnect_info s !! p = Some info /\ overflows now info
  | Command _ _ waiting c =>
      match c with
      | Publish m => to_vec m = None
      | SendRpc _ _ => waiting = false \/ in_width 32 (next_id s + 1) = false
      | _ => False
      end
  | FromSwarm (GossipMessage d) => from_slice d = None
  | FromSwarm (Eth2Rpc x) =>
      match m_event x with
      | Received (ReceivedResponse k _) => rpc_response_channels s !! k = None
      | _ => False
      end
  | _ => False
  end.

Lemma tick_panics {E} now ok s :
  (attempt_reconnections (E:=E) now ok s).1 = Panic <->
  exists p info, reconnect_info s !! p = Some info /\ overflows now info.
Proof.
  pose proof (tick_spec (E:=E) now ok s) as F. split.
  - destruct (attempt_reconnections now ok s) as [[]]; done.
  - intros (p & info & Hp & Hs & Ho). unfold attempt_reconnections, mbind, st_bind, getS in *.
    destruct (peers_of_spec (reconnect_info s)) as [Hnd Hin].
    assert (p ∈ peers_of (reconnect_info s)) as Hk by (apply Hin; by eexists).
    assert (forall keys s, NoDup keys -> p ∈ keys -> reconnect_info s !! p = Some info ->
      exists s', due (E:=E) now keys s = (Panic, s')) as Hdue.
    { clear -Hs Ho. induction keys as [|q keys IH]; intros s Hnd Hk Hp; [set_solver|].
      apply NoDup_cons in Hnd as [Hq Hnd]. rewrite due_cons. apply elem_of_cons in Hk as [<-|Hk].
      - rewrite Hp, Hs, Ho. by eexists.
      - assert (q <> p) by (by intros ->). repeat case_match; try (by apply IH); try (by eexists).
        all: edestruct (IH (set_reconnect (<[q:=marked now p0]> (reconnect_info s)) s)) as [s2 E2];
          [done|done|cbn; by rewrite lookup_insert_ne|]; congruence. }
    destruct (Hdue _ s Hnd Hk Hp) as [s' ->]. done.
Qed.

(** C36: Without limits for the node's own requests, as it is started, a turn aborts
    the node exactly when: a gossip message cannot be decoded, a response comes
    for an id without a sender, a message cannot be encoded, a client has
    stopped waiting for its request, or a counter overflows. *)
Theorem backend_panics_iff i s :
  self_limiter (eth2_rpc s) = None -> (step i s).1 = Panic <-> aborts i s.
Proof.
  intros Hl. destruct i as [now ok|now ok waiting R c| |e|rx|rx]; cbn [step aborts]; try done.
  - apply tick_panics.
  - unfold mbind, st_bind. destruct c; cbn; unfold mbind, st_bind; try done.
    + unfold publish, mbind, st_bind, liftR, unwrap. by destruct (to_vec m).
    + pose proof (send_rpc_spec (E:=Wait) now waiting p r s) as F.
      destruct (on_send_rpc now waiting p r s) as [[rx|e|] s1]; cbn; [|done|naive_solver].
      destruct F as (-> & -> & _). naive_solver.
  - destruct e as [d|l|l|a|x|p a|p n k|]; cbn [handle_event]; try done.
    + unfold on_gossip, mbind, st_bind, liftR, unwrap. by destruct (from_slice d).
    + destruct (m_event x) as [[id req|id r|id tm]|[|]] eqn:Ex; try (unfold on_rpc; by rewrite Ex).
      rewrite (response_spec _ _ _ _ Ex). destruct (rpc_response_channels s !! id) as [n|]; [|done].
      destruct (channels s !! n) as [c|]; [|done]. destruct (receiver c); [|done].
      by destruct (_ <? _)%nat.
Qed.

(** ** Dials of lost peers *)

(** A turn that brings no news of a connection to the peer. *)
Definition no_news (p : PeerId) i : Prop :=
  match i with
  | FromSwarm (ConnectionEstablished q _) => q <> p
  | FromSwarm (ConnectionClosed q _ _) => q <> p
  | _ => True
  end.

Definition tick_after (start : Z) i : Prop :=
  match i with Tick now _ => start <= now | _ => True end.

(** Only ticks and news of the peer change what is known of it. *)
Lemma step_info p i s s' :
  no_news p i -> step i s = (Ok tt, s') ->
  match i with Tick _ _ => True | _ => reconnect_info s' !! p = reconnect_info s !! p end.
Proof.
  intros Hn. destruct i as [now ok|now ok waiting R c| |e|rx|rx]; cbn [step]; try (by intros [= <-]).
  - done.
  - unfold mbind, st_bind. destruct c; cbn; unfold mbind, st_bind; try (by intros [= <-]).
    + unfold publish, mbind, st_bind, liftR, unwrap. destruct (to_vec m); [|done]. by intros [= <-].
    + pose proof (send_rpc_spec (E:=Wait) now waiting p0 r s) as F.
      destruct (on_send_rpc now waiting p0 r s) as [[rx|e|] s1]; [|done..]. intros [= <-].
      by destruct F as (_ & _ & _ & x & ->).
  - destruct e as [d|l|l|a|x|q a|q n k|]; cbn [handle_event]; try (by intros [= <-]).
    + unfold on_gossip, mbind, st_bind, liftR, unwrap. destruct (from_slice d); [|done]. by intros [= <-].
    + intros [= <-]. unfold on_discovered. clear Hn. revert s. induction l as [|y l IH]; intros s; [done|].
      cbn. by rewrite IH.
    + intros [= <-]. unfold on_expired. clear Hn. revert s. induction l as [|y l IH]; intros s; [done|].
      cbn. by rewrite IH.
    + destruct (m_event x) as [[id req|id r|id tm]|[|]] eqn:Ex;
        try (unfold on_rpc; rewrite Ex; by intros [= <-]).
      rewrite (response_spec _ _ _ _ Ex). destruct (rpc_response_channels s !! id) as [n|]; [|done].
      destruct (channels s !! n) as [c|]; [|by intros [= <-]]. destruct (receiver c); [|by intros [= <-]].
      destruct (_ <? _)%nat; [|done]. by intros [= <-].
    + intros [= <-]. unfold on_established. cbn. cbn in Hn. case_match; [|done]. cbn.
      by apply lookup_insert_ne.
    + intros [= <-]. unfold on_closed. cbn in Hn. repeat case_match; try done. cbn. by apply lookup_insert_ne.
  - intros [= <-]. unfold client_takes. by repeat case_match.
  - intros [= <-]. unfold client_drops. by repeat case_match.
Qed.

(** The peer was tried at [start] or later, at least [n] times. *)
Definition tried (p : PeerId) (start n : Z) s : Prop :=
  forall info, reconnect_info s !! p = Some info ->
  n <= attempt_count info /\ exists last, last_attempt info = Some last /\ start <= last.

Lemma step_tried p start n i s s' :
  no_news p i -> tick_after start i -> tried p start n s -> step i s = (Ok tt, s') -> tried p start n s'.
Proof.
  intros Hn Ht Hs E. pose proof (step_info _ _ _ _ Hn E) as Hi.
  destruct i as [now ok|now ok waiting R c| |e|rx|rx]; try (intros info; rewrite Hi; apply Hs).
  pose proof (tick_spec (E:=Wait) now ok s) as F. cbn in E. rewrite E in F. destruct F as (_ & F & _).
  intros info' (info & Hinfo & ->)%F. destruct (Hs _ Hinfo) as (H1 & last & H2 & H3). unfold marked.
  destruct (should_reconnect now info); cbn; [|by eauto]. split; [lia|]. by exists now.
Qed.

Lemma backoff_mono a b : a <= b -> backoff a <= backoff b.
Proof.
  intros Hab. unfold backoff, secs. apply Z.mul_le_mono_nonneg_r; [lia|].
  apply Z.pow_le_mono_r; lia.
Qed.

Lemma backoff_pos a : 0 <= a -> 0 < backoff a.
Proof. intros Ha. unfold backoff, secs. apply Z.mul_pos_pos; [|lia]. apply Z.pow_pos_nonneg; lia. Qed.

(** Between two dials of a lost peer with no news of a connection in between
    lie at least two to the number of attempts seconds, up to 4096: from the
    tick at [t1] that made the peer's attempt number [n + 1], no tick before
    [t1 + backoff (n + 1)] dials it. *)
Theorem redials_spaced p t1 ok1 turns t2 s s1 s2 info info2 :
  reconnect_info s !! p = Some info -> should_reconnect t1 info = true -> 0 <= attempt_count info ->
  step (Tick t1 ok1) s = (Ok tt, s1) -> run turns s1 = (Ok tt, s2) ->
  Forall (no_news p) turns -> Forall (tick_after t1) turns ->
  reconnect_info s2 !! p = Some info2 -> should_reconnect t2 info2 = true ->
  backoff (attempt_count info + 1) <= t2 - t1.
Proof.
  intros Hi Hs Hc E1 Hrun Hn Ht Hi2 Hs2.
  assert (tried p t1 (attempt_count info + 1) s1) as H1.
  { pose proof (tick_spec (E:=Wait) t1 ok1 s) as F. cbn in E1. rewrite E1 in F. destruct F as (_ & F & _).
    intros info' (info0 & Hinfo & ->)%F. rewrite Hi in Hinfo. injection Hinfo as <-. unfold marked.
    rewrite Hs. cbn. split; [lia|]. by exists t1. }
  assert (tried p t1 (attempt_count info + 1) s2) as H2.
  { clear E1. revert s1 Hrun H1. induction turns as [|i turns IH]; intros s1 Hrun H1.
    - injection Hrun as <-. done.
    - apply Forall_cons in Hn as [Hn1 Hn2], Ht as [Ht1 Ht2]. cbn in Hrun. unfold mbind, st_bind in Hrun.
      destruct (step i s1) as [[[]|w|] s3] eqn:E3; [|done..]. apply (IH Hn2 Ht2 s3); [done|].
      by eapply step_tried. }
  destruct (H2 _ Hi2) as (Hcount & last & Hlast & Hstart). unfold should_reconnect in Hs2.
  rewrite Hlast in Hs2. apply Z.leb_le in Hs2. pose proof (backoff_mono _ _ Hcount).
  pose proof (backoff_pos (attempt_count info2)). unfold saturating_sub in Hs2. lia.
Qed.

(** Ticks, each followed by a new connection to the peer. *)
Definition reconnecting (p : PeerId) (a : Multiaddr) (ok : PeerId -> bool) (times : list Z) : list Input :=
  times ≫= fun now => [Tick now ok; FromSwarm (ConnectionEstablished p a)].

Lemma established_info p a s info :
  reconnect_info s !! p = Some info ->
  reconnect_info (on_established p a s) !! p = Some (reset_attempts info) /\
  swarm_calls (on_established p a s) = swarm_calls s /\ p ∈ peers (on_established p a s).
Proof.
  intros Hi. unfold on_established. cbn. rewrite Hi. cbn. rewrite lookup_insert_eq.
  split; [done|]. split; [done|]. set_solver.
Qed.

Lemma tick_dials now ok s s' p info :
  step (Tick now ok) s = (Ok tt, s') -> reconnect_info s !! p = Some info ->
  should_reconnect now info = true ->
  exists before after, swarm_calls s' = swarm_calls s ++ before ++ DialAddress (address info) :: after.
Proof.
  intros E Hi Hs. pose proof (tick_spec (E:=Wait) now ok s) as F. cbn in E. rewrite E in F.
  destruct F as (-> & _). destruct (peers_of_spec (reconnect_info s)) as [_ Hin].
  assert ((p, address info) ∈ omap (due_entry now (reconnect_info s)) (peers_of (reconnect_info s))) as Hd.
  { apply list_elem_of_omap. exists p. split; [apply Hin; by eexists|]. unfold due_entry. by rewrite Hi, Hs. }
  apply (list_elem_of_fmap_2 (fun x => DialAddress (PeerId:=PeerId) x.2)) in Hd. cbn in Hd.
  apply list_elem_of_split in Hd as (before & after & Hl). exists before, after. by rewrite <-Hl.
Qed.

(** A peer that was lost once and is connected again stays on the list: every
    tick dials it anew, for as long as the dials succeed. *)
Theorem connected_peer_redialled p a ok times s s' info :
  reconnect_info s !! p = Some info -> last_attempt info = None -> p ∈ peers s -> ok p = true ->
  run (reconnecting p a ok times) s = (Ok tt, s') ->
  p ∈ peers s' /\
  exists calls, swarm_calls s' = swarm_calls s ++ calls /\
    replicate (length times) (DialAddress (address info)) `sublist_of` calls.
Proof.
  intros Hi Hl Hp Hok. revert s info Hi Hl Hp. induction times as [|now times IH]; intros s info Hi Hl Hp Hrun.
  { injection Hrun as <-. split; [done|]. exists []. by rewrite app_nil_r. }
  change (run ([Tick now ok; FromSwarm (ConnectionEstablished p a)] ++ reconnecting p a ok times) s
          = (Ok tt, s')) in Hrun.
  rewrite run_app in Hrun.
  destruct (run [Tick now ok; FromSwarm (ConnectionEstablished p a)] s) as [[[]|w|] s1] eqn:E1; [|done..].
  apply (run_snoc [Tick now ok]) in E1 as (s2 & E2 & [= <-]). apply (run_snoc []) in E2 as (s3 & [= <-] & E2).
  assert (should_reconnect now info = true) as Hs by (unfold should_reconnect; by rewrite Hl).
  destruct (tick_dials _ _ _ _ _ _ E2 Hi Hs) as (before & after & Ec).
  pose proof (tick_spec (E:=Wait) now ok s) as F. cbn in E2. rewrite E2 in F. destruct F as (_ & _ & F).
  specialize (F _ _ Hi Hok). destruct (established_info p a s2 _ F) as (Hi1 & Hc1 & Hp1).
  destruct (IH _ _ Hi1 eq_refl Hp1 Hrun) as (Hp' & calls & Ec' & Hsub). split; [done|].
  exists ((before ++ DialAddress (address info) :: after) ++ calls). split.
  - by rewrite Ec', Hc1, Ec, <-!app_assoc.
  - rewrite <-app_assoc. apply sublist_inserts_l. cbn. apply sublist_skip, sublist_inserts_l.
    unfold marked in Hsub. rewrite Hs in Hsub. done.
Qed.

(** ** Peers *)

(** The set of peers stays, or the last announcement is the new set. *)
Definition announces s s' : Prop :=
  (peers s' = peers s /\ peers_connected s' = peers_connected s) \/
  exists l, peers_connected s' = peers_connected s ++ l /\ last l = Some (peers s').

#[local] Instance announces_pre : PreOrder announces.
Proof.
  split; [by left|]. intros s1 s2 s3 [[E1 E2]|(l & E1 & E2)] [[E3 E4]|(l' & E3 & E4)].
  - left. split; congruence.
  - right. exists l'. by rewrite E3, E2.
  - right. exists l. by rewrite E4, E3.
  - right. exists (l ++ l'). rewrite E3, E1, <-app_assoc. split; [done|]. by rewrite last_app, E4.
Qed.

Lemma send_peers_announces s s' :
  peers_connected s' = peers_connected s -> announces s (send_peers s').
Proof. intros E. right. exists [peers s']. cbn. by rewrite E. Qed.

Lemma announces_fold {A} (f : t -> A -> t) (l : list A) s :
  (forall s x, announces s (f s x)) -> announces s (foldl f s l).
Proof. intros Hf. revert s. induction l as [|x l IH]; intros s; cbn; [reflexivity|].
  etrans; [apply Hf|apply IH].
Qed.

Lemma step_announces i s s' : step i s = (Ok tt, s') -> announces s s'.
Proof.
  destruct i as [now ok|now ok waiting R c| |e|rx|rx]; cbn [step]; try (by intros [= <-]; left).
  - intros E. pose proof (tick_frame (E:=Wait) now ok s) as F. rewrite E in F. cbn in F. left.
    by destruct F as (_ & ? & _ & _ & _ & _ & _ & ?).
  - unfold mbind, st_bind. destruct c; cbn; unfold mbind, st_bind; try (by intros [= <-]; left).
    + unfold publish, mbind, st_bind, liftR, unwrap. destruct (to_vec m); [|done]. by intros [= <-]; left.
    + pose proof (send_rpc_spec (E:=Wait) now waiting p r s) as F.
      destruct (on_send_rpc now waiting p r s) as [[rx|e|] s1]; [|done..]. intros [= <-].
      by destruct F as (_ & _ & _ & x & ->); left.
    + intros [= <-]. by apply send_peers_announces.
  - destruct e as [d|l|l|a|x|q a|q n k|]; cbn [handle_event]; try (by intros [= <-]; left).
    + unfold on_gossip, mbind, st_bind, liftR, unwrap. destruct (from_slice d); [|done]. by intros [= <-]; left.
    + intros [= <-]. apply announces_fold. intros s1 y. by apply send_peers_announces.
    + intros [= <-]. apply announces_fold. intros s1 y. by apply send_peers_announces.
    + destruct (m_event x) as [[id req|id r|id tm]|[|]] eqn:Ex;
        try (unfold on_rpc; rewrite Ex; by intros [= <-]; left).
      rewrite (response_spec _ _ _ _ Ex). repeat case_match; try done; by intros [= <-]; left.
    + intros [= <-]. apply send_peers_announces. cbn. by case_match.
    + intros [= <-]. unfold on_closed. case_match; [|by left]. apply send_peers_announces. by repeat case_match.
  - intros [= <-]. left. unfold client_takes. by repeat case_match.
  - intros [= <-]. left. unfold client_drops. by repeat case_match.
Qed.

Lemma run_announces turns s s' : run turns s = (Ok tt, s') -> announces s s'.
Proof.
  revert turns s'. apply (run_invariant (fun _ => announces s)); [reflexivity|].
  intros turns i s1 s2 H1 E. etrans; [done|]. by eapply step_announces.
Qed.

(** What a client that subscribed to the peers gets last is the current set. *)
Theorem subscriber_sees_peers now s s1 rx turns s2 :
  subscribe_peers true now s = (Ok rx, s1) -> run turns s1 = (Ok tt, s2) ->
  last (drop rx (peers_connected s2)) = Some (peers s2).
Proof.
  intros [= <- <-] Hrun%run_announces. cbn in Hrun.
  destruct Hrun as [[-> ->]|(l & E1 & E2)]; cbn in *.
  - by rewrite drop_app_length.
  - rewrite E1, <-app_assoc, drop_app_length, last_app, E2. done.
Qed.

(** The peers are those of the last news, connections and discoveries; an
    expired discovery is no news. *)
Definition news (p : PeerId) (before : bool) i : bool :=
  match i with
  | FromSwarm (MdnsDiscovered l) => before || existsb (fun x => bool_decide (x.1 = p)) l
  | FromSwarm (ConnectionEstablished q _) => if decide (q = p) then true else before
  | FromSwarm (ConnectionClosed q n _) =>
      if decide (q = p) then if n =? 0 then false else before else before
  | _ => before
  end.

Definition known (p : PeerId) turns : bool := foldl (news p) false turns.

Lemma discovered_peers p l s :
  p ∈ peers (on_discovered l s) <-> p ∈ peers s \/ p ∈ l.*1.
Proof.
  unfold on_discovered. revert s. induction l as [|x l IH]; intros s; cbn; [set_solver|].
  rewrite IH. cbn. set_solver.
Qed.

Lemma expired_peers l s : peers (on_expired l s) = peers s.
Proof. unfold on_expired. revert s. induction l as [|x l IH]; intros s; cbn; [done|]. by rewrite IH. Qed.

Lemma existsb_peer p (l : list (PeerId * Multiaddr)) :
  existsb (fun x => bool_decide (x.1 = p)) l = true <-> p ∈ l.*1.
Proof.
  rewrite existsb_exists, list_elem_of_fmap. split.
  - intros (x & Hx & <-%bool_decide_eq_true). exists x. by rewrite list_elem_of_In.
  - intros (x & -> & Hx). exists x. rewrite <-list_elem_of_In. by rewrite bool_decide_true.
Qed.

Lemma step_news p i s s' :
  step i s = (Ok tt, s') -> bool_decide (p ∈ peers s') = news p (bool_decide (p ∈ peers s)) i.
Proof.
  destruct i as [now ok|now ok waiting R c| |e|rx|rx]; cbn [step news]; try (by intros [= <-]).
  - intros E. pose proof (tick_frame (E:=Wait) now ok s) as F. rewrite E in F. cbn in F.
    by destruct F as (_ & -> & _).
  - unfold mbind, st_bind. destruct c; cbn; unfold mbind, st_bind; try (by intros [= <-]).
    + unfold publish, mbind, st_bind, liftR, unwrap. destruct (to_vec m); [|done]. by intros [= <-].
    + pose proof (send_rpc_spec (E:=Wait) now waiting p0 r s) as F.
      destruct (on_send_rpc now waiting p0 r s) as [[rx|e|] s1]; [|done..]. intros [= <-].
      by destruct F as (_ & _ & _ & x & ->).
  - destruct e as [d|l|l|a|x|q a|q n k|]; cbn [handle_event]; try (by intros [= <-]).
    + unfold on_gossip, mbind, st_bind, liftR, unwrap. destruct (from_slice d); [|done]. by intros [= <-].
    + intros [= <-]. apply eq_bool_prop_intro. rewrite orb_True, !bool_decide_spec, discovered_peers.
      rewrite <-existsb_peer. by rewrite Is_true_true.
    + intros [= <-]. by rewrite expired_peers.
    + destruct (m_event x) as [[id req|id r|id tm]|[|]] eqn:Ex;
        try (unfold on_rpc; rewrite Ex; by intros [= <-]).
      rewrite (response_spec _ _ _ _ Ex). repeat case_match; try done; by intros [= <-].
    + intros [= <-]. unfold on_established. cbn.
      case_match; cbn; case_decide; apply bool_decide_ext || apply bool_decide_true; set_solver.
    + intros [= <-]. unfold on_closed. case_match; [|by case_decide].
      assert (forall s', peers s' = peers s ∖ {[q]} ->
        bool_decide (p ∈ peers s') = (if decide (q = p) then false else bool_decide (p ∈ peers s))) as Hx.
      { intros s' ->. case_decide; [apply bool_decide_false; set_solver|apply bool_decide_ext; set_solver]. }
      apply Hx. cbn. by repeat case_match.
  - intros [= <-]. unfold client_takes. by repeat case_match.
  - intros [= <-]. unfold client_drops. by repeat case_match.
Qed.

Theorem peers_by_last_news r turns s p :
  run turns (init r) = (Ok tt, s) -> p ∈ peers s <-> known p turns = true.
Proof.
  intros Hrun. rewrite <-(bool_decide_eq_true (p ∈ peers s)).
  assert (bool_decide (p ∈ peers s) = known p turns) as ->; [|done]. revert turns s Hrun.
  apply (run_invariant (fun turns s => bool_decide (p ∈ peers s) = known p turns)).
  - apply bool_decide_false. cbn. set_solver.
  - intros turns i s s' IH E. unfold known. rewrite foldl_snoc. fold (known p turns).
    by rewrite (step_news _ _ _ _ E), IH.
Qed.

(** ** The client *)

(** A published message reaches a peer's subscribers as it was. *)
Theorem gossip_delivered `{!GossipLaws Msg} now m s s' :
  client_send true now true m s = (Ok tt, s') ->
  exists d, swarm_calls s' = swarm_calls s ++ [PublishData (topic (kind m)) d] /\
    forall peer : t, step (FromSwarm (GossipMessage d)) peer = (Ok tt, send_event m peer).
Proof.
  unfold client_send, request, mbind, st_bind. cbn [negb handle_command].
  unfold publish, mbind, st_bind, liftR, unwrap, modifyS. cbn.
  destruct (to_vec m) as [d|] eqn:Ed; [|done]. intros [= <-]. exists d. split; [done|]. intros peer.
  unfold on_gossip, mbind, st_bind, liftR, unwrap. by rewrite (from_slice_to_vec _ _ Ed).
Qed.

Lemma topic_injective k k' : topic k = topic k' -> k = k'.
Proof. by destruct k, k'. Qed.

(** An answer to a peer is handed to the connection, and the client is told
    that it failed: the backend drops the channel of the answer unused. *)
Lemma respond_rpc_fails now p c id payload s :
  respond_rpc true now p c id payload s = (Err OneshotRecvError, on_respond_rpc p c id payload s).
Proof. done. Qed.

(** ** Starting *)

Lemma subscribe_calls w k s s' :
  subscribe w k s = (Ok tt, s') -> swarm_calls s' = swarm_calls s ++ [SubscribeTopic (topic k)].
Proof.
  unfold subscribe, mbind, st_bind, modifyS. destruct (subscribe_ok w k); [|done]. by intros [= <-].
Qed.

Lemma listen_calls w x s s' :
  listen_on w x s = (Ok tt, s') -> exists a, swarm_calls s' = swarm_calls s ++ [ListenOn a].
Proof.
  unfold listen_on, read_address, mbind, st_bind, modifyS, liftR.
  destruct (map_err _ (Multiaddr.read_addr x)) as [a|e|]; [|done..]. destruct (listen_ok w a); [|done].
  intros [= <-]. by exists a.
Qed.

Lemma dial_all_calls w l s :
  exists s', dial_all w l s = (Ok tt, s') /\ swarm_calls s' = swarm_calls s ++ map DialAddress l.
Proof.
  revert s. induction l as [|a l IH]; intros s; [exists s; by rewrite app_nil_r|]. cbn [dial_all].
  unfold client_dial, request, mbind, st_bind. cbn [negb handle_command].
  unfold dial_command, mbind, st_bind, modifyS, liftR. cbn.
  destruct (IH (call (DialAddress a) s)) as (s' & E & Ec). exists s'. rewrite Ec. cbn.
  rewrite <-app_assoc. by destruct (dial_ok w a).
Qed.

(** The conditions for the network to start: the swarm is made, every topic is
    subscribed to, the two addresses are read and listened on, and the list of
    boot nodes, if there is one, is read. *)
Record network_ready (w : Setup) (addr : list Z) (port : Z) (bootnode : option (list Z)) : Prop := {
  nr_swarm : create_swarm w = Ok tt;
  nr_topics k : subscribe_ok w k = true;
  nr_udp : exists a, Multiaddr.read_addr (Multiaddr.lit "/ip4/" ++ addr ++ Multiaddr.lit "/udp/" ++ decimal port
                       ++ Multiaddr.lit "/quic-v1") = Ok a /\ listen_ok w a = true;
  nr_tcp : exists a, Multiaddr.read_addr (Multiaddr.lit "/ip4/" ++ addr ++ Multiaddr.lit "/tcp/" ++ decimal port) = Ok a /\
             listen_ok w a = true;
  nr_boot text : bootnode = Some text -> exists l, Multiaddr.parse_multiple_multiaddrs text = Ok l;
}.

Lemma subscribe_iff w k s s' : subscribe w k s = (Ok tt, s') <->
  subscribe_ok w k = true /\ s' = call (SubscribeTopic (topic k)) s.
Proof.
  unfold subscribe, modifyS, mbind, st_bind. destruct (subscribe_ok w k); cbn; [|by split; [|intros []]].
  split; [by intros [= <-]|by intros [_ ->]].
Qed.

Lemma listen_iff w text s : (exists s', listen_on w text s = (Ok tt, s')) <->
  exists a, Multiaddr.read_addr text = Ok a /\ listen_ok w a = true.
Proof.
  unfold listen_on, read_address, liftR, modifyS, mbind, st_bind.
  destruct (Multiaddr.read_addr text) as [a| |]; cbn.
  - destruct (listen_ok w a) eqn:E; cbn; split.
    + intros _. by exists a.
    + intros _. by eexists.
    + by intros [].
    + intros (b & [= <-] & Hb). congruence.
  - split; [by intros []|by intros (? & ? & _)].
  - split; [by intros []|by intros (? & ? & _)].
Qed.

Lemma spawn_ok_iff w addr port bootnode s :
  (spawn_network_handler w addr port bootnode s).1 = Ok tt <-> network_ready w addr port bootnode.
Proof.
  split.
  - intros HE. destruct (spawn_network_handler _ _ _ _ _) as [r s'] eqn:E. cbn in HE. subst r.
    unfold spawn_network_handler in E. apply st_bind_Ok in E as ([] & s0 & [= E0 <-] & E).
    apply st_bind_Ok in E as ([] & s1 & [E1 _]%subscribe_iff & E).
    apply st_bind_Ok in E as ([] & s2 & [E2 _]%subscribe_iff & E).
    apply st_bind_Ok in E as ([] & s3 & [E3 _]%subscribe_iff & E).
    apply st_bind_Ok in E as ([] & s4 & [E4 _]%subscribe_iff & E).
    apply st_bind_Ok in E as ([] & s5 & E5 & E). apply st_bind_Ok in E as ([] & s6 & E6 & E).
    split; [done|by intros []|by eapply listen_iff, ex_intro|by eapply listen_iff, ex_intro|].
    intros text ->. apply st_bind_Ok in E as (l & s7 & [= El _] & _). exists l.
    by destruct (Multiaddr.parse_multiple_multiaddrs text); simplify_eq/=.
  - intros [HS Ht (a1 & R1 & L1) (a2 & R2 & L2) Hb].
    unfold spawn_network_handler, subscribe, listen_on, read_address, liftR, modifyS, mbind, st_bind.
    rewrite HS, !Ht, R1, R2. cbn. rewrite L1, L2. cbn. destruct bootnode as [text|]; [|done].
    destruct (Hb text eq_refl) as [l ->]. cbn.
    match goal with |- (dial_all w l ?s1).1 = _ => destruct (dial_all_calls w l s1) as (s' & -> & _) end. done.
Qed.

(** A node that has started is subscribed to the topic of every kind of message
    and has dialled every address of its boot nodes, in order, whether or not
    the dials before succeeded. *)
Theorem started_node_listens w addr port bootnode s s' :
  spawn_network_handler w addr port bootnode s = (Ok tt, s') ->
  (forall k, SubscribeTopic (topic k) ∈ swarm_calls s') /\
  forall text, bootnode = Some text -> exists l before,
    Multiaddr.parse_multiple_multiaddrs text = Ok l /\ swarm_calls s' = before ++ map DialAddress l.
Proof.
  unfold spawn_network_handler. intros (u0 & s0 & [= _ <-] & E)%st_bind_Ok.
  apply st_bind_Ok in E as ([] & s1 & E1%subscribe_calls & E).
  apply st_bind_Ok in E as ([] & s2 & E2%subscribe_calls & E).
  apply st_bind_Ok in E as ([] & s3 & E3%subscribe_calls & E).
  apply st_bind_Ok in E as ([] & s4 & E4%subscribe_calls & E).
  apply st_bind_Ok in E as ([] & s5 & [a1 E5]%listen_calls & E).
  apply st_bind_Ok in E as ([] & s6 & [a2 E6]%listen_calls & E).
  assert (forall k, SubscribeTopic (topic k) ∈ swarm_calls s6) as Hk.
  { intros k. rewrite E6, E5, E4, E3, E2, E1. destruct k; set_solver. }
  destruct bootnode as [text|].
  - apply st_bind_Ok in E as (l & s7 & [= El <-] & E). destruct (dial_all_calls w l s6) as (s8 & E8 & Ec).
    rewrite E8 in E. injection E as <-. rewrite Ec. split; [set_solver|].
    intros text' [= <-]. exists l, (swarm_calls s6). split; [|done].
    by destruct (Multiaddr.parse_multiple_multiaddrs text) as [l'|e|]; simplify_eq/=.
  - injection E as <-. split; [done|]. intros ? [=].
Qed.

End WithTypes.

(** ** Witnesses *)

Module Witness.
Import Multiaddr.Witness.
#[local] Existing Instance Multiaddr.Witness.lib.

(** Peers and connections are numbers, a message is one of two. *)
#[local] Instance order : PeerOrder nat.
Proof. refine {| peers_of := fun V (m : gmap nat V) => (map_to_list m).*1 |}. done. Defined.

#[local] Instance gossip : GossipLib bool := {|
  kind (b : bool) := if b then KQueuePow else KApproveBlock;
  to_vec (b : bool) := Some [if b then 1 else 0];
  from_slice d := match d with [1] => Some true | [0] => Some false | _ => None end;
|}.

#[local] Instance gossip_laws : GossipLaws bool.
Proof. split. intros [] d [= <-]; done. Qed.

Abbreviation net := (Network.t (PeerId:=nat) (ConnectionId:=nat) (Msg:=bool)).
Abbreviation turn := (Network.Input (PeerId:=nat) (ConnectionId:=nat) (Msg:=bool)).

Definition s0 : net := init (mkRPC None None []).
Definition ping (n : Z) : RPCResponse := Pong (mkPing n).
Definition from_peer (e : HandlerEvent Z Z) : turn := FromSwarm (Eth2Rpc (mkMessage 1%nat 7%nat e)).
Definition got (id n : Z) : turn := from_peer (Received (ReceivedResponse id (ping n))).
Definition ask : turn := Command 0 true true (SendRpc 1%nat (PingReq (mkPing 0))).

(** Two requests, whose responses come mixed; the client takes one. *)
Definition turns : list turn := [ask; ask; got 1 10; got 0 20; got 1 11; ClientTakes 1].

Example mixed_responses :
  channels (run turns s0).2 = [mkChannel [] [ping 20] true; mkChannel [ping 10] [ping 11] true].
Proof. vm_compute. done. Qed.

Lemma responses_routed_witness :
  next_id (run turns s0).2 = 2 /\
  forall n c, channels (run turns s0).2 !! n = Some c ->
    (taken c ++ buffer c) `prefix_of` responses_for (Z.of_nat n) turns /\
    (receiver c = true -> taken c ++ buffer c = responses_for (Z.of_nat n) turns).
Proof. apply (responses_routed (mkRPC None None []) turns (run turns s0).2). vm_compute. done. Defined.

(** A request that failed; its channel stays open. *)
Definition failing : list turn := [ask; from_peer (Failed (Outbound 0 Ping StreamTimeout))].

Lemma stream_open_without_end_witness : rpc_response_channels (run failing s0).2 !! 0 = Some 0%nat.
Proof.
  apply (stream_open_without_end (mkRPC None None []) failing (run failing s0).2 0);
    [vm_compute; done|vm_compute; done|].
  repeat constructor.
Defined.

Lemma backend_never_waits_witness : run turns s0 <> (Err (ChannelFull 0), s0).
Proof.
  apply (backend_never_waits (mkRPC None None []) turns). intros k. unfold responses_for. cbn.
  repeat case_decide; cbn; unfold CHANNEL_CAPACITY; lia.
Defined.

(** A gossip message that cannot be decoded. *)
Lemma backend_panics_iff_witness : (step (FromSwarm (GossipMessage [2]) : turn) s0).1 = Panic.
Proof. apply backend_panics_iff; vm_compute; done. Defined.

(** A lost peer, and the ticks of the timer. *)
Definition addr1 : Multiaddr := node "10.38.1.103".
Definition lost : list turn :=
  [FromSwarm (ConnectionEstablished 1%nat addr1); FromSwarm (ConnectionClosed 1%nat 0 false)].
Definition tick (n : Z) : turn := Tick (secs n) (fun _ => true).

Definition lost_state : net := (run lost s0).2.
Definition dialled_state : net := (step (tick 5) lost_state).2.
Definition later_state : net := (run [ask] dialled_state).2.

Lemma redials_spaced_witness : backoff 1 <= secs 10 - secs 5.
Proof.
  apply (redials_spaced 1%nat (secs 5) (fun _ => true) [ask] (secs 10) lost_state dialled_state later_state
           (info_new addr1) (mkInfo addr1 (Some (secs 5)) 1)); try (vm_compute; done).
  - by repeat constructor.
  - by repeat constructor.
Defined.

Definition back_state : net := on_established 1%nat addr1 lost_state.

Lemma connected_peer_redialled_witness :
  1%nat ∈ peers (run (reconnecting 1%nat addr1 (fun _ => true) [secs 5; secs 10]) back_state).2 /\
  exists calls,
    swarm_calls (run (reconnecting 1%nat addr1 (fun _ => true) [secs 5; secs 10]) back_state).2
    = swarm_calls back_state ++ calls /\
    replicate 2 (DialAddress addr1) `sublist_of` calls.
Proof.
  apply (connected_peer_redialled 1%nat addr1 (fun _ => true) [secs 5; secs 10] back_state
    (run (reconnecting 1%nat addr1 (fun _ => true) [secs 5; secs 10]) back_state).2 (info_new addr1));
    try (vm_compute; done).
Defined.

Lemma subscriber_sees_peers_witness :
  last (drop 0 (peers_connected (run lost (send_peers s0)).2)) = Some (peers (run lost (send_peers s0)).2).
Proof.
  apply (subscriber_sees_peers 0 s0 (send_peers s0) 0 lost (run lost (send_peers s0)).2); vm_compute; done.
Defined.

Lemma peers_by_last_news_witness : 1%nat ∈ peers lost_state <-> known 1%nat lost = true.
Proof. apply (peers_by_last_news (mkRPC None None []) lost lost_state). vm_compute. done. Defined.

(** An expired discovery leaves the peer in the set. *)
Example expired_peer_stays :
  1%nat ∈ peers (run [FromSwarm (MdnsDiscovered [(1%nat, addr1)]);
                      FromSwarm (MdnsExpired [(1%nat, addr1)])] s0).2.
Proof. apply (bool_decide_unpack _). vm_compute. done. Qed.

Lemma gossip_delivered_witness :
  exists d, swarm_calls (client_send true 0 true true s0).2 = swarm_calls s0 ++ [PublishData (topic (kind true)) d] /\
    forall peer : net, step (FromSwarm (GossipMessage d)) peer = (Ok tt, send_event true peer).
Proof. apply (gossip_delivered 0 true s0 (client_send true 0 true true s0).2). vm_compute. done. Defined.

Definition all_ok : Setup := mkSetup (Ok tt) (fun _ => true) (fun _ => true) (fun _ => true).
Definition boot : list Z := Multiaddr.lit "/ip4/10.38.1.103/tcp/55444".
Definition started : net :=
  (spawn_network_handler all_ok (Multiaddr.lit "0.0.0.0") 55444 (Some boot) s0).2.

Lemma started_node_listens_witness :
  (forall k, SubscribeTopic (topic k) ∈ swarm_calls started) /\
  forall text, Some boot = Some text -> exists l before,
    Multiaddr.parse_multiple_multiaddrs text = Ok l /\ swarm_calls started = before ++ map DialAddress l.
Proof.
  apply (started_node_listens all_ok (Multiaddr.lit "0.0.0.0") 55444 (Some boot) s0 started).
  vm_compute. done.
Defined.

End Witness.
End NetworkProofs.
