(* ===== verification/DelayQueue.v ===== *)
(** The interface of the timer queues the network uses ([DelayQueue] of
    [tokio_util]), and maps that are inverse to each other: the timers of a
    handler and the keys its streams keep. *)
From stdpp Require Import base decidable list gmap fin_maps.
From Stdlib Require Import ZArith Lia.
From S2P Require Import Prelude.

Inductive Poll (A : Type) := Pending | Ready (a : A).
Arguments Pending {A}.
Arguments Ready {A} a.

(** A queue of values with their deadlines. [dq_remove] and [dq_reset] panic,
    here [None], for a key that is not in the queue; [dq_poll] yields a value
    whose deadline has passed and takes it off, an error of the timer, nothing
    when the queue is empty, or is pending. [dq_timers] is what the queue
    holds. *)
Class DelayQueue (Q Key V : Type) `{Countable Key} := {
  dq_new : Q;
  dq_insert : Z -> V -> Q -> Key * Q;
  dq_remove : Key -> Q -> option Q;
  dq_reset : Key -> Z -> Q -> option Q;
  dq_poll : Z -> Q -> Poll (option (V + unit)) * Q;
  dq_timers : Q -> gmap Key V;
  dq_new_empty : dq_timers dq_new = ∅;
  dq_insert_fresh due v q k q' :
    dq_insert due v q = (k, q') -> dq_timers q !! k = None /\ dq_timers q' = <[k := v]> (dq_timers q);
  dq_remove_present k v q :
    dq_timers q !! k = Some v ->
    exists q', dq_remove k q = Some q' /\ dq_timers q' = delete k (dq_timers q);
  dq_reset_present k due v q :
    dq_timers q !! k = Some v ->
    exists q', dq_reset k due q = Some q' /\ dq_timers q' = dq_timers q;
  dq_poll_takes now q r q' :
    dq_poll now q = (r, q') ->
    match r with
    | Ready (Some (inl v)) => exists k, dq_timers q !! k = Some v /\ dq_timers q' = delete k (dq_timers q)
    | _ => dq_timers q' = dq_timers q
    end;
}.

(** The deadlines of a queue, by key: a poll before all of them yields nothing,
    as long as the timer itself works. *)
Class Deadlines {Q Key V : Type} `{DelayQueue Q Key V} := {
  dq_due : Q -> gmap Key Z;
  due_insert due v q k q' : dq_insert due v q = (k, q') -> dq_due q' = <[k := due]> (dq_due q);
  due_remove k q q' : dq_remove k q = Some q' -> dq_due q' = delete k (dq_due q);
  due_reset k due q q' : dq_reset k due q = Some q' -> dq_due q' = <[k := due]> (dq_due q);
  due_poll now q :
    map_Forall (fun _ due => now < due) (dq_due q) ->
    exists r q', dq_poll now q = (r, q') /\ (r = Pending \/ r = Ready None) /\ dq_due q' = dq_due q;
}.
Arguments Deadlines Q Key V {_ _ _}.

(** ** Inverse maps *)

Section Inverse.
Context {A B : Type} `{Countable A, Countable B}.

Definition inverse (m : gmap A B) (m' : gmap B A) : Prop :=
  forall a b, m !! a = Some b <-> m' !! b = Some a.

Lemma inverse_empty : inverse ∅ ∅.
Proof. intros a b. by rewrite !lookup_empty. Qed.

Lemma inverse_insert m m' a b :
  inverse m m' -> m !! a = None -> m' !! b = None -> inverse (<[a := b]> m) (<[b := a]> m').
Proof.
  intros Hi Ha Hb x y. rewrite !lookup_insert_Some. split.
  - intros [[<- <-]|[Hx Hm]]; [by left|]. right. split; [|by apply Hi].
    intros <-. apply Hi in Hm. congruence.
  - intros [[<- <-]|[Hx Hm]]; [by left|]. right. split; [|by apply Hi].
    intros <-. apply Hi in Hm. congruence.
Qed.

Lemma inverse_delete m m' a b :
  inverse m m' -> m !! a = Some b -> inverse (delete a m) (delete b m').
Proof.
  intros Hi Ha x y. rewrite !lookup_delete_Some. split; intros [Hx Hm].
  - split; [|by apply Hi]. intros <-. apply Hx. apply Hi in Ha, Hm. congruence.
  - split; [|by apply Hi]. intros <-. apply Hx. apply Hi in Hm. congruence.
Qed.

End Inverse.

(** ** A queue *)

(** Timers with their deadlines; one that is due is yielded. *)
Module TimerList.

Abbreviation timers := (gmap Z (Z * Z)).

Definition tl_poll (now : Z) (q : timers) : Poll (option (Z + unit)) * timers :=
  match map_to_list (filter (fun p : Z * (Z * Z) => p.2.1 <= now) q) with
  | (k, (_, v)) :: _ => (Ready (Some (inl v)), delete k q)
  | [] => (if decide (q = ∅) then Ready None else Pending, q)
  end.

Definition tl_insert (due v : Z) (q : timers) : Z * timers :=
  let k := fresh (dom q : gset Z) in (k, <[k := (due, v)]> q).

Definition tl_remove (k : Z) (q : timers) : option timers :=
  match q !! k with Some _ => Some (delete k q) | None => None end.

Definition tl_reset (k due : Z) (q : timers) : option timers :=
  match q !! k with Some x => Some (<[k := (due, x.2)]> q) | None => None end.

#[global, program] Instance timer_list : DelayQueue timers Z Z := {|
  dq_new := (∅ : gmap Z (Z * Z));
  dq_insert := tl_insert;
  dq_remove := tl_remove;
  dq_reset := tl_reset;
  dq_poll := tl_poll;
  dq_timers q := (snd <$> (q : gmap Z (Z * Z)));
|}.
Next Obligation. done. Qed.
Next Obligation.
  unfold tl_insert. intros due v q k q' [= <- <-]. rewrite fmap_insert. split; [|done].
  rewrite lookup_fmap, fmap_None. apply not_elem_of_dom. apply is_fresh.
Qed.
Next Obligation.
  unfold tl_remove. intros k v q Hk. rewrite lookup_fmap in Hk. apply fmap_Some in Hk as ([d w] & -> & _).
  eexists. split; [done|]. by rewrite fmap_delete.
Qed.
Next Obligation.
  unfold tl_reset. intros k due v q Hk. rewrite lookup_fmap in Hk. apply fmap_Some in Hk as ([d w] & E & _).
  rewrite E. eexists. split; [done|]. rewrite fmap_insert. cbn.
  apply insert_id. by rewrite lookup_fmap, E.
Qed.
Next Obligation.
  unfold tl_poll. intros now q r q'.
  destruct (map_to_list _) as [|[k [d v]] l] eqn:E.
  - intros [= <- <-]. by destruct (decide _).
  - intros [= <- <-]. exists k. rewrite fmap_delete. split; [|done].
    assert ((k, (d, v)) ∈ map_to_list (filter (fun p : Z * (Z * Z) => p.2.1 <= now) q)) as Hin
      by (rewrite E; by left).
    apply elem_of_map_to_list, map_lookup_filter_Some in Hin as [Hin _].
    by rewrite lookup_fmap, Hin.
Qed.

#[global, program] Instance timer_deadlines : Deadlines timers Z Z := {|
  dq_due q := (fst <$> (q : gmap Z (Z * Z)));
|}.
Next Obligation. cbn. unfold tl_insert. intros due v q k q' [= <- <-]. by rewrite fmap_insert. Qed.
Next Obligation.
  cbn. unfold tl_remove. intros k q q'. destruct (q !! k); [|done]. intros [= <-]. by rewrite fmap_delete.
Qed.
Next Obligation.
  cbn. unfold tl_reset. intros k due q q'. destruct (q !! k); [|done]. intros [= <-]. by rewrite fmap_insert.
Qed.
Next Obligation.
  cbn. unfold tl_poll. intros now q Hq.
  assert (filter (fun p : Z * (Z * Z) => p.2.1 <= now) q = ∅) as ->.
  { apply map_empty_filter. intros k [due v] Hk Hle. cbn in Hle.
    specialize (Hq k due). rewrite lookup_fmap, Hk in Hq. specialize (Hq eq_refl). cbn in Hq. lia. }
  rewrite map_to_list_empty. eexists _, _. split_and!; [done|by destruct (decide _); [right|left]|done].
Qed.

End TimerList.
