(* ===== verification/Handler.v ===== *)
(** The connection handler of the request/response protocol ([RPCHandler] of
    [app/src/network/rpc/handler.rs]): queues and substreams of one connection
    to a peer, driven by [poll]. What the network and the clock do is an input:
    the framed streams, the timer queues, the order in which a hash map is
    walked, and the text of an error response are parameters. Times are
    nanoseconds; logging and the measured duration of a request are left out. *)
From stdpp Require Import base decidable list gmap strings.
From Stdlib Require Import ZArith Lia.
From S2P Require Import Prelude Bitcoin Block RpcTypes DelayQueue.

Module Handler.
Import RpcTypes.
Local Open Scope Z_scope.

Definition IO_ERROR_RETRIES : Z := 3.
Definition SHUTDOWN_TIMEOUT_SECS : Z := 15.
Definition MAX_INBOUND_SUBSTREAMS : Z := 32.

Abbreviation SubstreamId := Z.

(** The framed substreams: sending a response and closing on the inbound side,
    the next response and closing on the outbound side. A stream carries
    whatever its next answers depend on. *)
Class Streams (InboundSubstream OutboundFramed : Type) := {
  sub_send : InboundSubstream -> RPCCodedResponse -> Poll (option RPCError) * InboundSubstream;
  sub_close : InboundSubstream -> Poll (option RPCError) * InboundSubstream;
  out_next : OutboundFramed -> Poll (option (RPCCodedResponse + RPCError)) * OutboundFramed;
  out_close : OutboundFramed -> Poll (option RPCError) * OutboundFramed;
}.

(** The order in which the keys of a hash map come. *)
Class MapOrder := {
  keys_of {V : Type} : gmap SubstreamId V -> list SubstreamId;
  keys_of_perm {V : Type} (m : gmap SubstreamId V) : keys_of m ≡ₚ (map_to_list m).*1;
}.

Inductive HandlerState := Active | ShuttingDown (deadline : Z) | Deactivated.

Inductive StreamUpgradeError :=
| UpgradeTimeout | Apply (e : RPCError) | NegotiationFailed | UpgradeIo (e : string).

Section WithNetwork.
Context {Id InboundSubstream OutboundFramed Q Key Waker : Type}.
Context `{Streams InboundSubstream OutboundFramed} `{EqDecision Waker}.
Context `{DelayQueue Q Key SubstreamId}.
Context `{MapOrder}.
(** [to_string] of the text of an error response. *)
Context (error_text : ErrorType -> string).

Abbreviation event := (HandlerEvent Id SubstreamId).

(** ** State *)

(** The future of [send_message_to_inbound_substream], at its two waits. *)
Inductive SendFuture :=
| Sending (substream : InboundSubstream) (message : RPCCodedResponse) (last_chunk : bool)
| ClosingAfter (substream : InboundSubstream) (send_error : option RPCError).

Inductive InboundState := Idle (substream : InboundSubstream) | Busy (fut : SendFuture) | Poisoned.

Record InboundInfo := mkInbound {
  in_state : InboundState;
  pending_items : list RPCCodedResponse;
  in_protocol : Protocol;
  in_remaining_chunks : Z;
  delay_key : option Key;
}.

Inductive OutboundSubstreamState :=
| RequestPendingResponse (substream : OutboundFramed) (request : Request)
| Closing (substream : OutboundFramed)
| OutPoisoned.

Record OutboundInfo := mkOutbound {
  out_state : OutboundSubstreamState;
  out_delay_key : Key;
  proto : Protocol;
  remaining_chunks : option Z;
  req_id : Id;
}.

Record RPCHandler := mkHandler {
  events_out : list event;
  dial_queue : list (Id * Request);
  dial_negotiated : Z;
  inbound_substreams : gmap SubstreamId InboundInfo;
  inbound_substreams_delay : Q;
  outbound_substreams : gmap SubstreamId OutboundInfo;
  outbound_substreams_delay : Q;
  current_inbound_substream_id : SubstreamId;
  current_outbound_substream_id : SubstreamId;
  max_dial_negotiated : Z;
  state : HandlerState;
  outbound_io_error_retries : Z;
  waker : option Waker;
  resp_timeout : Z;
  max_rpc_size : Z;
}.

Definition new (max_rpc_size resp_timeout : Z) : RPCHandler :=
  mkHandler [] [] 0 ∅ dq_new ∅ dq_new 0 0 8 Active 0 None resp_timeout max_rpc_size.

(** Assignments to the fields. *)
Definition set_events (x : list event) (h : RPCHandler) : RPCHandler :=
  mkHandler x (dial_queue h) (dial_negotiated h) (inbound_substreams h)
    (inbound_substreams_delay h) (outbound_substreams h) (outbound_substreams_delay h)
    (current_inbound_substream_id h) (current_outbound_substream_id h) (max_dial_negotiated h)
    (state h) (outbound_io_error_retries h) (waker h) (resp_timeout h) (max_rpc_size h).

Definition set_dials (q : list (Id * Request)) (n : Z) (h : RPCHandler) : RPCHandler :=
  mkHandler (events_out h) q n (inbound_substreams h)
    (inbound_substreams_delay h) (outbound_substreams h) (outbound_substreams_delay h)
    (current_inbound_substream_id h) (current_outbound_substream_id h) (max_dial_negotiated h)
    (state h) (outbound_io_error_retries h) (waker h) (resp_timeout h) (max_rpc_size h).

Definition set_inbound (m : gmap SubstreamId InboundInfo) (q : Q) (h : RPCHandler) : RPCHandler :=
  mkHandler (events_out h) (dial_queue h) (dial_negotiated h) m q
    (outbound_substreams h) (outbound_substreams_delay h)
    (current_inbound_substream_id h) (current_outbound_substream_id h) (max_dial_negotiated h)
    (state h) (outbound_io_error_retries h) (waker h) (resp_timeout h) (max_rpc_size h).

Definition set_outbound (m : gmap SubstreamId OutboundInfo) (q : Q) (h : RPCHandler) : RPCHandler :=
  mkHandler (events_out h) (dial_queue h) (dial_negotiated h) (inbound_substreams h)
    (inbound_substreams_delay h) m q
    (current_inbound_substream_id h) (current_outbound_substream_id h) (max_dial_negotiated h)
    (state h) (outbound_io_error_retries h) (waker h) (resp_timeout h) (max_rpc_size h).

Definition set_current (i o : SubstreamId) (h : RPCHandler) : RPCHandler :=
  mkHandler (events_out h) (dial_queue h) (dial_negotiated h) (inbound_substreams h)
    (inbound_substreams_delay h) (outbound_substreams h) (outbound_substreams_delay h)
    i o (max_dial_negotiated h)
    (state h) (outbound_io_error_retries h) (waker h) (resp_timeout h) (max_rpc_size h).

Definition set_control (s : HandlerState) (retries : Z) (w : option Waker) (h : RPCHandler) :
    RPCHandler :=
  mkHandler (events_out h) (dial_queue h) (dial_negotiated h) (inbound_substreams h)
    (inbound_substreams_delay h) (outbound_substreams h) (outbound_substreams_delay h)
    (current_inbound_substream_id h) (current_outbound_substream_id h) (max_dial_negotiated h)
    s retries w (resp_timeout h) (max_rpc_size h).

Definition push (e : event) (h : RPCHandler) : RPCHandler := set_events (events_out h ++ [e]) h.

Definition set_state (s : HandlerState) (h : RPCHandler) : RPCHandler :=
  set_control s (outbound_io_error_retries h) (waker h) h.
Definition set_retries (n : Z) (h : RPCHandler) : RPCHandler :=
  set_control (state h) n (waker h) h.
Definition set_waker (w : option Waker) (h : RPCHandler) : RPCHandler :=
  set_control (state h) (outbound_io_error_retries h) w h.

(** ** Requests and responses of the node *)

Definition failed_outbound (error : RPCError) (x : Id * Request) : event :=
  Failed (Outbound x.1 (protocol (request_protocol x.2)) error).

(** The queue is emptied from its end. *)
Definition shutdown (now : Z) (goodbye_reason : option (Id * GoodbyeReason)) (h : RPCHandler) :
    RPCHandler :=
  match state h with
  | Active =>
      let h := set_events (events_out h ++ map (failed_outbound Disconnected) (reverse (dial_queue h))) h in
      let q := match goodbye_reason with Some (id, r) => [(id, GoodbyeReq r)] | None => [] end in
      set_state (ShuttingDown (now + SHUTDOWN_TIMEOUT_SECS * 10 ^ 9)) (set_dials q (dial_negotiated h) h)
  | _ => h
  end.

Definition send_request (id : Id) (req : Request) (h : RPCHandler) : RPCHandler :=
  match state h with
  | Active => set_dials (dial_queue h ++ [(id, req)]) (dial_negotiated h) h
  | _ => push (failed_outbound Disconnected (id, req)) h
  end.

Definition send_response (inbound_id : SubstreamId) (response : RPCCodedResponse) (h : RPCHandler) :
    RPCHandler :=
  match inbound_substreams h !! inbound_id with
  | None => h
  | Some info =>
      let h := match response with
               | ErrorResponse code reason =>
                   push (Failed (Inbound inbound_id (in_protocol info)
                                   (ErrorResponseError code (error_text reason)))) h
               | _ => h
               end in
      match state h with
      | Deactivated => h
      | _ =>
          set_inbound
            (<[inbound_id := mkInbound (in_state info) (pending_items info ++ [response])
                               (in_protocol info) (in_remaining_chunks info) (delay_key info)]>
               (inbound_substreams h)) (inbound_substreams_delay h) h
      end
  end.

(** The result names the waker that is woken. *)
Definition on_behaviour_event (now : Z) (rpc_event : RPCSend Id SubstreamId) (h : RPCHandler) :
    option Waker * RPCHandler :=
  let h := match rpc_event with
           | SendRequest id req => send_request id req h
           | SendResponse inbound_id response => send_response inbound_id response h
           | SendShutdown id reason => shutdown now (Some (id, reason)) h
           end in
  (waker h, h).

(** Nothing is queued, dialled, open or to be reported. *)
Definition drained (h : RPCHandler) : bool :=
  (length (dial_queue h) =? 0)%nat && (size (outbound_substreams h) =? 0)%nat
  && (size (inbound_substreams h) =? 0)%nat && (length (events_out h) =? 0)%nat
  && (dial_negotiated h =? 0).

Definition connection_keep_alive (h : RPCHandler) : bool :=
  let should_shutdown := match state h with
                         | ShuttingDown _ => drained h
                         | Deactivated => true
                         | Active => false
                         end in
  negb should_shutdown.

(** ** [poll] *)

(** [ConnectionHandlerEvent]; a substream request carries its upgrade and the
    request it is for. *)
Inductive ConnectionHandlerEvent :=
| NotifyBehaviour (e : event)
| Close (e : RPCError)
| OutboundSubstreamRequest (upgrade : Request) (max_rpc_size : Z) (info : Id * Request).

(** A part of [poll]: [Err] is an early return with an event. *)
Abbreviation step := (ST RPCHandler ConnectionHandlerEvent).

Definition update_waker (w : Waker) : step unit := fun h =>
  match waker h with
  | Some old => if decide (old = w) then (Ok tt, set_waker (Some w) h) else (Ok tt, h)
  | None => (Ok tt, set_waker (Some w) h)
  end.

Definition take_event : step unit := fun h =>
  match events_out h with
  | e :: es => (Err (NotifyBehaviour e), set_events es h)
  | [] => (Ok tt, h)
  end.

Definition check_shutdown (now : Z) : step unit := fun h =>
  match state h with
  | ShuttingDown deadline =>
      if deadline <=? now then (Err (Close Disconnected), set_state Deactivated h) else (Ok tt, h)
  | _ => (Ok tt, h)
  end.

(** A response that does not end the stream is the last one queued. *)
Definition last_open (items : list RPCCodedResponse) : bool :=
  match last items with Some l => negb (close_after l) | None => false end.

Definition time_out_inbound (inbound_id : SubstreamId) (h : RPCHandler) : RPCHandler :=
  match inbound_substreams h !! inbound_id with
  | None => h
  | Some info =>
      let h := push (Failed (Inbound inbound_id (in_protocol info) StreamTimeout)) h in
      let items := if last_open (pending_items info)
                   then pending_items info ++ [ErrorResponse ServerError (error_type "Request timed out")]
                   else pending_items info in
      set_inbound
        (<[inbound_id := mkInbound (in_state info) items (in_protocol info)
                           (in_remaining_chunks info) None]> (inbound_substreams h))
        (inbound_substreams_delay h) h
  end.

(** The loops over the expired timers take one off the queue each time; with
    more fuel than timers they end. *)
Fixpoint purge_inbound (fuel : nat) (now : Z) : step unit := fun h =>
  match fuel with
  | O => (Panic, h)
  | S fuel =>
      match dq_poll now (inbound_substreams_delay h) with
      | (Ready (Some (inl inbound_id)), q) =>
          purge_inbound fuel now (time_out_inbound inbound_id (set_inbound (inbound_substreams h) q h))
      | (Ready (Some (inr _)), q) =>
          (Err (Close (InternalError "Could not poll inbound stream timer")),
           set_inbound (inbound_substreams h) q h)
      | (_, q) => (Ok tt, set_inbound (inbound_substreams h) q h)
      end
  end.

Fixpoint purge_outbound (fuel : nat) (now : Z) : step unit := fun h =>
  match fuel with
  | O => (Panic, h)
  | S fuel =>
      match dq_poll now (outbound_substreams_delay h) with
      | (Ready (Some (inl outbound_id)), q) =>
          match outbound_substreams h !! outbound_id with
          | Some info =>
              (Err (NotifyBehaviour (Failed (Outbound (req_id info) (proto info) StreamTimeout))),
               set_outbound (delete outbound_id (outbound_substreams h)) q h)
          | None => purge_outbound fuel now (set_outbound (outbound_substreams h) q h)
          end
      | (Ready (Some (inr _)), q) =>
          (Err (Close (InternalError "Could not poll outbound stream timer")),
           set_outbound (outbound_substreams h) q h)
      | (_, q) => (Ok tt, set_outbound (outbound_substreams h) q h)
      end
  end.

(** *** Inbound substreams *)

Definition send_message_to_inbound_substream (substream : InboundSubstream)
    (message : RPCCodedResponse) (last_chunk : bool) : SendFuture :=
  match message with
  | StreamTermination _ => ClosingAfter substream None
  | _ => Sending substream message last_chunk
  end.

(** What a poll of the future gives: itself while it waits, or its output, the
    stream and whether it was closed, or an error. An error of the sending goes
    before one of the closing. *)
Definition poll_closing (substream : InboundSubstream) (send_error : option RPCError) :
    SendFuture + (InboundSubstream * bool + RPCError) :=
  match sub_close substream with
  | (Pending, s) => inl (ClosingAfter s send_error)
  | (Ready close_error, s) =>
      inr (match send_error, close_error with
           | Some e, _ => inr e
           | None, Some e => inr e
           | None, None => inl (s, true)
           end)
  end.

Definition poll_future (f : SendFuture) : SendFuture + (InboundSubstream * bool + RPCError) :=
  match f with
  | Sending substream message last_chunk =>
      match sub_send substream message with
      | (Pending, s) => inl (Sending s message last_chunk)
      | (Ready send_error, s) =>
          let is_error := match message with ErrorResponse _ _ => true | _ => false end in
          let failed := match send_error with Some _ => true | None => false end in
          if last_chunk || is_error || failed then poll_closing s send_error
          else inr (inl (s, false))
      end
  | ClosingAfter substream send_error => poll_closing substream send_error
  end.

(** The timer of a substream, if it has one, is removed or set anew. *)
Definition remove_timer (k : option Key) : step unit := fun h =>
  match k with
  | None => (Ok tt, h)
  | Some k =>
      match dq_remove k (inbound_substreams_delay h) with
      | Some q => (Ok tt, set_inbound (inbound_substreams h) q h)
      | None => (Panic, h)
      end
  end.

Definition reset_timer (now : Z) (k : option Key) : step unit := fun h =>
  match k with
  | None => (Ok tt, h)
  | Some k =>
      match dq_reset k (now + resp_timeout h) (inbound_substreams_delay h) with
      | Some q => (Ok tt, set_inbound (inbound_substreams h) q h)
      | None => (Panic, h)
      end
  end.

Definition store_inbound (id : SubstreamId) (info : InboundInfo) (s : InboundState)
    (pending : list RPCCodedResponse) : step unit :=
  modifyS (fun h =>
    set_inbound
      (<[id := mkInbound s pending (in_protocol info) (in_remaining_chunks info) (delay_key info)]>
         (inbound_substreams h)) (inbound_substreams_delay h) h).

Definition failed_inbound (id : SubstreamId) (info : InboundInfo) (error : RPCError) : event :=
  Failed (Inbound id (in_protocol info) error).

Definition next_chunk (info : InboundInfo) : InboundInfo :=
  mkInbound (in_state info) (pending_items info) (in_protocol info)
    (saturating_sub (in_remaining_chunks info) 1) (delay_key info).

(** The loop over the states of a substream that is sending: every round sends
    one of the pending messages. The result says whether the substream is to be
    removed. *)
Fixpoint drive_busy (now : Z) (deactivated : bool) (id : SubstreamId) (info : InboundInfo)
    (fut : SendFuture) (pending : list RPCCodedResponse) : step bool :=
  match poll_future fut with
  | inl fut => store_inbound id info (Busy fut) pending ;; mret false
  | inr (inl (substream, false)) =>
      let info := next_chunk info in
      reset_timer now (delay_key info) ;;
      match deactivated, pending with
      | false, message :: rest =>
          drive_busy now deactivated id info
            (send_message_to_inbound_substream substream message (in_remaining_chunks info <=? 1)) rest
      | _, _ => store_inbound id info (Idle substream) pending ;; mret false
      end
  | inr (inl (_, true)) =>
      store_inbound id info Poisoned pending ;;
      remove_timer (delay_key info) ;;
      mret true
  | inr (inr error) =>
      store_inbound id info Poisoned pending ;;
      remove_timer (delay_key info) ;;
      modifyS (push (failed_inbound id info error)) ;;
      mret true
  end.

(** A substream that is idle when the handler is deactivated. *)
Definition close_idle (id : SubstreamId) (info : InboundInfo) (substream : InboundSubstream) :
    step bool :=
  match sub_close substream with
  | (Pending, s) => store_inbound id info (Idle s) (pending_items info) ;; mret false
  | (Ready res, _) =>
      store_inbound id info Poisoned (pending_items info) ;;
      remove_timer (delay_key info) ;;
      (match res with
       | Some error => modifyS (push (failed_inbound id info error))
       | None => mret tt
       end) ;;
      (if last_open (pending_items info)
       then modifyS (push (failed_inbound id info Disconnected))
       else mret tt) ;;
      mret true
  end.

Definition drive_inbound (now : Z) (deactivated : bool) (id : SubstreamId) : step bool := fun h =>
  match inbound_substreams h !! id with
  | None => (Ok false, h)
  | Some info =>
      match in_state info with
      | Idle substream =>
          if deactivated then close_idle id info substream h
          else
            match pending_items info with
            | message :: rest =>
                drive_busy now deactivated id info
                  (send_message_to_inbound_substream substream message (in_remaining_chunks info <=? 1))
                  rest h
            | [] => (Ok false, h)
            end
      | Busy fut => drive_busy now deactivated id info fut (pending_items info) h
      | Poisoned => (Panic, h)
      end
  end.

(** The substreams to remove. *)
Fixpoint drive_inbounds (now : Z) (deactivated : bool) (ids : list SubstreamId) :
    step (list SubstreamId) :=
  match ids with
  | [] => mret []
  | id :: ids =>
      closed ← drive_inbound now deactivated id;
      substreams_to_remove ← drive_inbounds now deactivated ids;
      mret (if closed : bool then id :: substreams_to_remove else substreams_to_remove)
  end.

Definition remove_inbound (ids : list SubstreamId) : step unit :=
  modifyS (fun h => set_inbound (foldr delete (inbound_substreams h) ids)
                      (inbound_substreams_delay h) h).

(** *** Outbound substreams *)

Definition store_outbound (id : SubstreamId) (info : OutboundInfo) (s : OutboundSubstreamState)
    (remaining : option Z) : step unit :=
  modifyS (fun h =>
    set_outbound
      (<[id := mkOutbound s (out_delay_key info) (proto info) remaining (req_id info)]>
         (outbound_substreams h)) (outbound_substreams_delay h) h).

(** Drops a stream with its timer. *)
Definition drop_outbound (id : SubstreamId) (info : OutboundInfo) : step unit := fun h =>
  match dq_remove (out_delay_key info) (outbound_substreams_delay h) with
  | Some q => (Ok tt, set_outbound (delete id (outbound_substreams h)) q h)
  | None => (Panic, h)
  end.

Definition reset_outbound (now : Z) (info : OutboundInfo) : step unit := fun h =>
  match dq_reset (out_delay_key info) (now + resp_timeout h) (outbound_substreams_delay h) with
  | Some q => (Ok tt, set_outbound (outbound_substreams h) q h)
  | None => (Panic, h)
  end.

(** How a response is reported. *)
Definition received (info : OutboundInfo) (response : RPCCodedResponse) : event :=
  match response with
  | StreamTermination t => Received (EndOfStream (req_id info) t)
  | Success resp => Received (ReceivedResponse (req_id info) resp)
  | ErrorResponse code r =>
      Failed (Outbound (req_id info) (proto info) (ErrorResponseError code (error_text r)))
  end.

(** A response has come: the stream waits for the next chunk or is closed. *)
Definition on_response (now : Z) (id : SubstreamId) (info : OutboundInfo)
    (substream : OutboundFramed) (request : Request) (response : RPCCodedResponse) : step unit :=
  (if (1 <? expected_responses request) && negb (close_after response) then
     let remaining := match remaining_chunks info with
                      | Some count => saturating_sub count 1
                      | None => 0
                      end in
     if remaining =? 0 then store_outbound id info (Closing substream) (remaining_chunks info)
     else
       store_outbound id info (RequestPendingResponse substream request) (Some remaining) ;;
       reset_outbound now info
   else store_outbound id info (Closing substream) (remaining_chunks info)) ;;
  throw (NotifyBehaviour (received info response)).

Definition on_stream_end (id : SubstreamId) (info : OutboundInfo) (request : Request) : step unit :=
  drop_outbound id info ;;
  if 1 <? expected_responses request then
    t ← liftR (stream_termination request);
    throw (NotifyBehaviour (Received (EndOfStream (req_id info) t)))
  else
    throw (NotifyBehaviour (failed_outbound IncompleteStream (req_id info, request))).

Definition on_closing (id : SubstreamId) (info : OutboundInfo) (substream : OutboundFramed) :
    step unit :=
  match out_close substream with
  | (Ready _, _) =>
      drop_outbound id info ;;
      match proto info with
      | BlocksByRange =>
          throw (NotifyBehaviour (Received (EndOfStream (req_id info) BlocksByRangeTermination)))
      | _ => mret tt
      end
  | (Pending, s) => store_outbound id info (Closing s) (remaining_chunks info)
  end.

Definition drive_outbound (now : Z) (deactivated : bool) (id : SubstreamId) : step unit := fun h =>
  match outbound_substreams h !! id with
  | None => (Panic, h)
  | Some info =>
      match out_state info with
      | RequestPendingResponse substream request =>
          if deactivated then
            (store_outbound id info (Closing substream) (remaining_chunks info) ;;
             modifyS (push (Failed (Outbound (req_id info) (proto info) Disconnected)))) h
          else
            match out_next substream with
            | (Ready (Some (inl response)), s) => on_response now id info s request response h
            | (Ready None, _) => on_stream_end id info request h
            | (Pending, s) =>
                store_outbound id info (RequestPendingResponse s request) (remaining_chunks info) h
            | (Ready (Some (inr e)), _) =>
                (drop_outbound id info ;;
                 throw (NotifyBehaviour (Failed (Outbound (req_id info) (proto info) e)))) h
            end
      | Closing substream => on_closing id info substream h
      | OutPoisoned => (Panic, h)
      end
  end.

Fixpoint drive_outbounds (now : Z) (deactivated : bool) (ids : list SubstreamId) : step unit :=
  match ids with
  | [] => mret tt
  | id :: ids => drive_outbound now deactivated id ;; drive_outbounds now deactivated ids
  end.

(** *** Dialling and the whole *)

Definition establish : step unit := fun h =>
  match dial_queue h with
  | (id, req) :: queue =>
      if dial_negotiated h <? max_dial_negotiated h then
        match add_chk (E:=unit) 32 (dial_negotiated h) 1 with
        | Ok n => (Err (OutboundSubstreamRequest req (max_rpc_size h) (id, req)), set_dials queue n h)
        | _ => (Panic, h)
        end
      else (Ok tt, h)
  | [] => (Ok tt, h)
  end.

Definition check_closed : step unit := fun h =>
  match state h with
  | ShuttingDown _ => if drained h then (Err (Close Disconnected), h) else (Ok tt, h)
  | _ => (Ok tt, h)
  end.

Definition is_deactivated (h : RPCHandler) : bool :=
  match state h with Deactivated => true | _ => false end.

Definition poll_steps (now : Z) (w : Waker) : step unit :=
  update_waker w ;;
  take_event ;;
  check_shutdown now ;;
  h ← getS;
  purge_inbound (S (size (dq_timers (inbound_substreams_delay h)))) now ;;
  h ← getS;
  purge_outbound (S (size (dq_timers (outbound_substreams_delay h)))) now ;;
  h ← getS;
  let deactivated := is_deactivated h in
  substreams_to_remove ← drive_inbounds now deactivated (keys_of (inbound_substreams h));
  remove_inbound substreams_to_remove ;;
  h ← getS;
  drive_outbounds now deactivated (keys_of (outbound_substreams h)) ;;
  establish ;;
  check_closed.

(** [None] is [Poll::Pending]. *)
Definition poll (now : Z) (w : Waker) : ST RPCHandler unit (option ConnectionHandlerEvent) := fun h =>
  match poll_steps now w h with
  | (Err e, h') => (Ok (Some e), h')
  | (Ok _, h') => (Ok None, h')
  | (Panic, h') => (Panic, h')
  end.

(** ** Connection events *)

(** The end of [on_fully_negotiated_inbound]: the request is reported. *)
Definition accept_request (now : Z) (req : Request) : ST RPCHandler unit unit := fun h =>
  let h := match req with GoodbyeReq _ => shutdown now None h | _ => h end in
  let h := push (Received (ReceivedRequest (current_inbound_substream_id h) req)) h in
  match add_chk (E:=unit) 64 (current_inbound_substream_id h) 1 with
  | Ok n => (Ok tt, set_current n (current_outbound_substream_id h) h)
  | _ => (Panic, h)
  end.

Definition on_fully_negotiated_inbound (now : Z) (substream : Request * InboundSubstream) :
    ST RPCHandler unit unit := fun h =>
  match state h with
  | Active =>
      let (req, substream) := substream in
      let id := current_inbound_substream_id h in
      let p := protocol (request_protocol req) in
      if 0 <? expected_responses req then
        if Z.of_nat (size (inbound_substreams h)) <? MAX_INBOUND_SUBSTREAMS then
          let (k, q) := dq_insert (now + resp_timeout h) id (inbound_substreams_delay h) in
          accept_request now req
            (set_inbound
               (<[id := mkInbound (Idle substream) [] p (expected_responses req) (Some k)]>
                  (inbound_substreams h)) q h)
        else (Ok tt, shutdown now None (push (Failed (Inbound id p HandlerRejected)) h))
      else accept_request now req h
  | _ => (Ok tt, h)
  end.

Definition on_fully_negotiated_outbound (now : Z) (substream : OutboundFramed) (info : Id * Request) :
    ST RPCHandler unit unit := fun h =>
  match sub_chk (E:=unit) 32 (dial_negotiated h) 1 with
  | Ok n =>
      let (id, request) := info in
      let h := set_retries 0 (set_dials (dial_queue h) n h) in
      let p := protocol (request_protocol request) in
      let h := match state h with
               | Deactivated => push (Failed (Outbound id p Disconnected)) h
               | _ => h
               end in
      let expected := expected_responses request in
      if 0 <? expected then
        let sid := current_outbound_substream_id h in
        let (k, q) := dq_insert (now + resp_timeout h) sid (outbound_substreams_delay h) in
        let h := set_outbound
                   (<[sid := mkOutbound (RequestPendingResponse substream request) k p
                               (if 1 <? expected then Some expected else None) id]>
                      (outbound_substreams h)) q h in
        match add_chk (E:=unit) 64 sid 1 with
        | Ok n => (Ok tt, set_current (current_inbound_substream_id h) n h)
        | _ => (Panic, h)
        end
      else (Ok tt, h)
  | _ => (Panic, h)
  end.

(** The dialling has failed. *)
Definition fail_dial (info : Id * Request) (error : RPCError) : ST RPCHandler unit unit := fun h =>
  match sub_chk (E:=unit) 32 (dial_negotiated h) 1 with
  | Ok n => (Ok tt, push (failed_outbound error info) (set_retries 0 (set_dials (dial_queue h) n h)))
  | _ => (Panic, h)
  end.

(** Errors of the network are retried a few times. *)
Definition retry_dial (info : Id * Request) (error : RPCError) : ST RPCHandler unit unit := fun h =>
  match add_chk (E:=unit) 8 (outbound_io_error_retries h) 1 with
  | Ok n =>
      let h := set_retries n h in
      if n <? IO_ERROR_RETRIES then (Ok tt, send_request info.1 info.2 h) else fail_dial info error h
  | _ => (Panic, h)
  end.

Definition on_dial_upgrade_error (info : Id * Request) (error : StreamUpgradeError) :
    ST RPCHandler unit unit :=
  match error with
  | UpgradeTimeout => fail_dial info NegotiationTimeout
  | Apply (IoError e) => retry_dial info (IoError e)
  | NegotiationFailed => fail_dial info UnsupportedProtocol
  | UpgradeIo io_err => retry_dial info (IoError io_err)
  | Apply other => fail_dial info other
  end.

(** Of the connection events only these three do anything. *)
Inductive ConnectionEvent :=
| FullyNegotiatedInbound (substream : Request * InboundSubstream)
| FullyNegotiatedOutbound (substream : OutboundFramed) (info : Id * Request)
| DialUpgradeError (info : Id * Request) (error : StreamUpgradeError)
| ListenUpgradeError | LocalProtocolsChange | RemoteProtocolsChange | AddressChange.

Definition on_connection_event (now : Z) (e : ConnectionEvent) : ST RPCHandler unit unit :=
  match e with
  | FullyNegotiatedInbound substream => on_fully_negotiated_inbound now substream
  | FullyNegotiatedOutbound substream info => on_fully_negotiated_outbound now substream info
  | DialUpgradeError info error => on_dial_upgrade_error info error
  | _ => mret tt
  end.

End WithNetwork.
End Handler.
