(* ===== verification/Codec.v ===== *)
(** The codec of the request/response protocol
    ([app/src/network/rpc/codec/{base,ssz_snappy,mod}.rs], the SSZ of
    [GoodbyeReason] in [methods.rs] and the limits of [protocol.rs]). SSZ, snappy frames and
    variable-length integers are libraries, given by interfaces with the laws
    they document; blocks are MessagePack, by the interface of [Block]. *)
From stdpp Require Import base decidable list gmap strings pretty.
From Stdlib Require Import ZArith Lia.
From S2P Require Import Prelude Bitcoin Block Serial RpcTypes.

Module Codec.
Import RpcTypes.
Local Open Scope Z_scope.

Abbreviation bytes := (list Z).
Definition zlength {A} (l : list A) : Z := Z.of_nat (length l).

(** ** The libraries *)

(** SSZ of a type of fixed length: [ssz_valid] is what its Rust type admits. *)
Class Ssz (A : Type) := {
  ssz_valid : A -> Prop;
  as_ssz_bytes : A -> bytes;
  from_ssz_bytes : bytes -> A + string;
  ssz_fixed_len : Z;
  ssz_round_trip a : ssz_valid a -> from_ssz_bytes (as_ssz_bytes a) = inl a;
  ssz_length a : ssz_valid a -> zlength (as_ssz_bytes a) = ssz_fixed_len;
  ssz_decoded b a : from_ssz_bytes b = inl a -> ssz_valid a;
}.
Arguments ssz_fixed_len A {_}.

(** The derived encodings: a container of one field is encoded as the field,
    and a list of bytes is its bytes, refused beyond its maximum. *)
Class SszLib := {
  u64_ssz :: Ssz Z;
  status_ssz :: Ssz StatusMessage;
  ping_ssz :: Ssz PingMessage;
  range_ssz :: Ssz BlocksByRangeRequest;
  metadata_ssz :: Ssz MetaDataMessage;
  error_from_ssz : bytes -> ErrorType + string;
  u64_valid z : ssz_valid z <-> 0 <= z < 2 ^ 64;
  ping_valid p : ssz_valid p <-> ssz_valid (data p);
  ping_container p : as_ssz_bytes p = as_ssz_bytes (data p);
  error_bytes b : zlength b <= MAX_ERROR_LEN -> error_from_ssz b = inl b;
}.

(** What reading decompressed bytes gives: the bytes, too little input, or
    another error. *)
Inductive ReadResult := ReadOk (b : bytes) | ReadEof | ReadFailed (e : string).

(** Snappy frames and unsigned varints. [read_frames] reads decompressed bytes
    of the given number from an input, with the position it has reached in it. *)
Class FrameLib := {
  max_compress_len : Z -> Z;
  frame : bytes -> bytes + string;
  read_frames : bytes -> Z -> ReadResult * Z;
  uvi_encode : Z -> bytes + string;
  uvi_decode : bytes -> option (Z * bytes) + string;
}.

Class FrameLaws (F : FrameLib) := {
  frame_total b : exists f, frame b = inl f /\ zlength f <= max_compress_len (zlength b) /\
    (f = [] \/ 2 <= zlength f);
  frame_read b f rest : frame b = inl f ->
    read_frames (f ++ rest) (zlength b) = (ReadOk b, zlength f);
  frame_short b f p : frame b = inl f -> p `prefix_of` f -> p <> f ->
    exists n, read_frames p (zlength b) = (ReadEof, n) /\ n <= zlength p;
  read_position input n r pos : read_frames input n = (r, pos) -> 0 <= pos <= zlength input;
  uvi_total n : 0 <= n < 2 ^ 64 -> exists v, uvi_encode n = inl v /\ v <> [];
  uvi_read n v rest : 0 <= n < 2 ^ 64 -> uvi_encode n = inl v ->
    uvi_decode (v ++ rest) = inl (Some (n, rest));
  uvi_short n v p : 0 <= n < 2 ^ 64 -> uvi_encode n = inl v -> p `prefix_of` v -> p <> v ->
    uvi_decode p = inl None;
}.

Section WithLibs.
Context `{L : SszLib, F : FrameLib, K : BlockLib}.

(** [ssz::Encode] and [ssz::Decode] for [GoodbyeReason]. *)
Definition reason_from_ssz (b : bytes) : GoodbyeReason + string :=
  match from_ssz_bytes b with inl n => inl (reason_from_u64 n) | inr e => inr e end.

#[global, program] Instance reason_ssz : Ssz GoodbyeReason := {|
  ssz_valid _ := True;
  as_ssz_bytes r := as_ssz_bytes (reason_to_u64 r);
  from_ssz_bytes := reason_from_ssz;
  ssz_fixed_len := ssz_fixed_len Z;
|}.
Next Obligation.
  intros r _. unfold reason_from_ssz. rewrite ssz_round_trip by (apply u64_valid; by destruct r). by rewrite reason_round_trip.
Qed.
Next Obligation. intros r _. apply ssz_length, u64_valid. by destruct r. Qed.
Next Obligation. done. Qed.

(** ** Limits *)

Definition rpc_request_limits (p : ProtocolId) : RpcLimits :=
  match protocol (versioned_protocol p) with
  | Status => mkLimits (ssz_fixed_len StatusMessage) (ssz_fixed_len StatusMessage)
  | Goodbye => mkLimits (ssz_fixed_len GoodbyeReason) (ssz_fixed_len GoodbyeReason)
  | BlocksByRange => mkLimits (ssz_fixed_len BlocksByRangeRequest) (ssz_fixed_len BlocksByRangeRequest)
  | Ping => mkLimits (ssz_fixed_len PingMessage) (ssz_fixed_len PingMessage)
  | MetaData => mkLimits 0 0
  end.

Definition rpc_response_limits (p : ProtocolId) : RpcLimits :=
  match protocol (versioned_protocol p) with
  | Status => mkLimits (ssz_fixed_len StatusMessage) (ssz_fixed_len StatusMessage)
  | Goodbye => mkLimits 0 0
  | BlocksByRange => mkLimits SIGNED_CONSENSUS_BLOCK_BASE_MIN SIGNED_CONSENSUS_BLOCK_CAPELLA_MAX
  | Ping => mkLimits (ssz_fixed_len PingMessage) (ssz_fixed_len PingMessage)
  | MetaData => mkLimits (ssz_fixed_len MetaDataMessage) (ssz_fixed_len MetaDataMessage)
  end.

(** ** Encoding *)

Definition of_io {A} (r : A + string) : res RPCError A :=
  match r with inl a => Ok a | inr e => Err (IoError e) end.

(** The length prefix and the frames of encoded bytes, appended to [dst]. *)
Definition write_payload (max_packet_size : Z) (payload dst : bytes) : res RPCError bytes :=
  if max_packet_size <? zlength payload
  then Err (InternalError "attempting to encode data > max_packet_size")
  else
    prefix ← of_io (uvi_encode (zlength payload));
    compressed ← of_io (frame payload);
    Ok (dst ++ prefix ++ compressed).

(** [SSZSnappyInboundCodec::encode]. *)
Definition encode_response (max_packet_size : Z) (item : RPCCodedResponse) (dst : bytes) :
    res RPCError bytes :=
  payload ← match item with
            | Success (StatusResp m) => Ok (as_ssz_bytes m)
            | Success (BlocksByRangeResp b) => Ok (rmp_signed b)
            | Success (Pong p) => Ok (as_ssz_bytes (data p))
            | Success (MetaDataResp m) => Ok (as_ssz_bytes m)
            | ErrorResponse _ err => Ok err
            | StreamTermination _ => Panic
            end;
  write_payload max_packet_size payload dst.

(** [BaseInboundCodec::encode] clears the buffer and writes the code first. *)
Definition encode_coded_response (max_packet_size : Z) (item : RPCCodedResponse) (dst : bytes) :
    res RPCError bytes :=
  code ← unwrap (as_u8 item);
  encode_response max_packet_size item [code].

(** [SSZSnappyOutboundCodec::encode]; metadata requests are empty. *)
Definition encode_request (max_packet_size : Z) (item : Request) (dst : bytes) : res RPCError bytes :=
  match item with
  | StatusReq m => write_payload max_packet_size (as_ssz_bytes m) dst
  | GoodbyeReq r => write_payload max_packet_size (as_ssz_bytes r) dst
  | BlocksByRangeReq r => write_payload max_packet_size (as_ssz_bytes r) dst
  | PingReq p => write_payload max_packet_size (as_ssz_bytes p) dst
  | MetaDataReq => Ok dst
  end.

(** ** Decoding *)

(** A decoder: the length it has read and the buffer. *)
Record Decoder := mkDecoder { len : option Z; src : bytes }.

Abbreviation dec := (ST Decoder RPCError).

Definition handle_length : dec (option Z) := fun d =>
  match len d with
  | Some length => (Ok (Some length), d)
  | None =>
      match uvi_decode (src d) with
      | inl (Some (length, rest)) => (Ok (Some length), mkDecoder (Some length) rest)
      | inl None => (Ok None, d)
      | inr e => (Err (IoError e), d)
      end
  end.

Definition handle_error {A} (err : ReadResult) (num_bytes max_compressed_len : Z) :
    res RPCError (option A) :=
  match err with
  | ReadFailed e => Err (IoError e)
  | _ =>
      if max_compressed_len <=? num_bytes then
        Err (InvalidData ("Received malicious snappy message, num_bytes " +:+ pretty num_bytes
                          +:+ ", max_compressed_len " +:+ pretty max_compressed_len))
      else Ok None
  end.

(** Reading [length] decompressed bytes from the part of the buffer that can
    hold them, and parsing them. *)
Definition read_payload {A} (length : Z) (parse : bytes -> res RPCError (option A)) : dec (option A) :=
  fun d =>
  let max_compressed_len := max_compress_len length in
  match read_frames (take (Z.to_nat max_compressed_len) (src d)) length with
  | (ReadOk decoded_buffer, n) =>
      if zlength (src d) <? n then (Panic, d)
      else (parse decoded_buffer, mkDecoder None (drop (Z.to_nat n) (src d)))
  | (e, n) => (handle_error e n max_compressed_len, d)
  end.

Definition of_ssz {A} (r : A + string) : res RPCError A :=
  match r with inl a => Ok a | inr e => Err (SSZDecodeError e) end.

Definition handle_rpc_request (v : SupportedProtocol) (decoded_buffer : bytes) :
    res RPCError (option Request) :=
  match v with
  | StatusV1 => m ← of_ssz (from_ssz_bytes decoded_buffer); Ok (Some (StatusReq m))
  | GoodbyeV1 => r ← of_ssz (from_ssz_bytes decoded_buffer); Ok (Some (GoodbyeReq r))
  | BlocksByRangeV1 => r ← of_ssz (from_ssz_bytes decoded_buffer); Ok (Some (BlocksByRangeReq r))
  | PingV1 => n ← of_ssz (from_ssz_bytes decoded_buffer); Ok (Some (PingReq (mkPing n)))
  | MetaDataV1 =>
      match decoded_buffer with
      | [] => Ok (Some MetaDataReq)
      | _ => Err (InternalError "Metadata requests shouldn't reach decoder")
      end
  end.

Definition handle_rpc_response (v : SupportedProtocol) (decoded_buffer : bytes) :
    res RPCError (option RPCResponse) :=
  match v with
  | StatusV1 => m ← of_ssz (from_ssz_bytes decoded_buffer); Ok (Some (StatusResp m))
  | GoodbyeV1 => Err (InvalidData "Goodbye RPC message has no valid response")
  | PingV1 => n ← of_ssz (from_ssz_bytes decoded_buffer); Ok (Some (Pong (mkPing n)))
  | MetaDataV1 => m ← of_ssz (from_ssz_bytes decoded_buffer); Ok (Some (MetaDataResp m))
  | BlocksByRangeV1 =>
      match rmp_signed_decode decoded_buffer with
      | Some b => Ok (Some (BlocksByRangeResp b))
      | None => Err CodecError
      end
  end.

Definition debug_name (v : SupportedProtocol) : string :=
  match v with
  | StatusV1 => "StatusV1" | GoodbyeV1 => "GoodbyeV1" | BlocksByRangeV1 => "BlocksByRange"
  | PingV1 => "PingV1" | MetaDataV1 => "MetaDataV1"
  end.

(** The common course of the decoders: the length, its check, and the payload. *)
Definition decode_payload {A} (out_of_bounds : Z -> bool) (message : string)
    (parse : bytes -> res RPCError (option A)) : dec (option A) :=
  o ← handle_length;
  match o with
  | None => mret None
  | Some length =>
      if out_of_bounds length then throw (InvalidData (message +:+ pretty length))
      else read_payload length parse
  end.

(** [SSZSnappyInboundCodec::decode]. *)
Definition decode_request (p : ProtocolId) (max_packet_size : Z) : dec (option Request) :=
  if decide (versioned_protocol p = MetaDataV1) then mret (Some MetaDataReq)
  else
    decode_payload (fun length => is_out_of_bounds (rpc_request_limits p) length max_packet_size)
      ("RPC request length for protocol " +:+ debug_name (versioned_protocol p)
       +:+ " is out of bounds, length ")
      (handle_rpc_request (versioned_protocol p)).

(** [SSZSnappyOutboundCodec::decode]. *)
Definition decode_response (p : ProtocolId) (max_packet_size : Z) : dec (option RPCResponse) :=
  decode_payload (fun length => is_out_of_bounds (rpc_response_limits p) length max_packet_size)
    "RPC response length is out of bounds, length " (handle_rpc_response (versioned_protocol p)).

(** [SSZSnappyOutboundCodec::decode_error]. *)
Definition decode_error (max_packet_size : Z) : dec (option ErrorType) :=
  decode_payload
    (fun length => (max_packet_size <? length) || (ERROR_TYPE_MAX <? length) || (length <? ERROR_TYPE_MIN))
    "RPC Error length is out of bounds, length "
    (fun b => e ← of_ssz (error_from_ssz b); Ok (Some e)).

(** [BaseOutboundCodec]: the code of the response that is being read. *)
Record BaseDecoder := mkBase { current_response_code : option Z; inner : Decoder }.

Definition decode_inner (p : ProtocolId) (max_packet_size code : Z) : dec (option RPCCodedResponse) :=
  if is_response code then
    o ← decode_response p max_packet_size; mret (option_map Success o)
  else
    o ← decode_error max_packet_size; mret (option_map (from_error code) o).

Definition decode_coded_response (p : ProtocolId) (max_packet_size : Z) :
    ST BaseDecoder RPCError (option RPCCodedResponse) := fun b =>
  match src (inner b) with
  | [] | [_] => (Ok None, b)
  | first :: rest =>
      let '(code, d) := match current_response_code b with
                        | Some code => (code, inner b)
                        | None => (first, mkDecoder (len (inner b)) rest)
                        end in
      let (r, d') := decode_inner p max_packet_size code d in
      (r, mkBase (match r with Ok (Some _) => None | _ => Some code end) d')
  end.

(** ** Payloads *)

Section Payloads.
Context `{!FrameLaws F}.

Section One.
Context {A : Type} (parse : bytes -> res RPCError (option A)) (bad : Z -> bool) (msg : string).
Context (payload prefix compressed : bytes).
Context (Hframe : frame payload = inl compressed).
Context (Huvi : uvi_encode (zlength payload) = inl prefix).
Context (Hlen : zlength payload < 2 ^ 64) (Hbad : bad (zlength payload) = false).

Lemma payload_length : 0 <= zlength payload < 2 ^ 64.
Proof. unfold zlength in *. lia. Qed.

Lemma compressed_fits : zlength compressed <= max_compress_len (zlength payload).
Proof. destruct (frame_total payload) as (f & E & Hf & _). congruence. Qed.

Lemma read_payload_full l rest :
  read_payload (zlength payload) parse (mkDecoder l (compressed ++ rest))
  = (parse payload, mkDecoder None rest).
Proof.
  pose proof compressed_fits as Hfit. unfold read_payload. cbn [src].
  rewrite take_app_ge by (unfold zlength in *; lia).
  rewrite (frame_read payload) by done. unfold zlength at 1 2.
  rewrite length_app, Nat2Z.inj_add.
  destruct (Z.ltb_spec (Z.of_nat (length compressed) + Z.of_nat (length rest)) (Z.of_nat (length compressed)));
    [lia|].
  unfold zlength. by rewrite Nat2Z.id, drop_app_length.
Qed.

Lemma read_payload_short l p todo :
  p ++ todo = compressed -> todo <> [] ->
  read_payload (zlength payload) parse (mkDecoder l p) = (Ok None, mkDecoder l p).
Proof.
  intros Hp Ht. pose proof compressed_fits as Hfit.
  assert (zlength p < zlength compressed) as Hlt.
  { rewrite <-Hp. unfold zlength. rewrite length_app. destruct todo; [done|cbn; lia]. }
  destruct (frame_short payload compressed p) as (n & E & Hn); [done|by exists todo| |].
  { intros ->. lia. }
  unfold read_payload. cbn [src]. rewrite take_ge by (unfold zlength in *; lia). rewrite E. cbn.
  destruct (Z.leb_spec (max_compress_len (zlength payload)) n); [lia|done].
Qed.

Lemma handle_prefix rest :
  handle_length (mkDecoder None (prefix ++ rest))
  = (Ok (Some (zlength payload)), mkDecoder (Some (zlength payload)) rest).
Proof. unfold handle_length. cbn. by rewrite (uvi_read (zlength payload)) by auto using payload_length. Qed.

Lemma decode_payload_full rest :
  decode_payload bad msg parse (mkDecoder None (prefix ++ compressed ++ rest))
  = (parse payload, mkDecoder None rest).
Proof.
  unfold decode_payload, mbind, st_bind. rewrite handle_prefix, Hbad. apply read_payload_full.
Qed.

Lemma decode_payload_resumed rest :
  decode_payload bad msg parse (mkDecoder (Some (zlength payload)) (compressed ++ rest))
  = (parse payload, mkDecoder None rest).
Proof. unfold decode_payload, mbind, st_bind. cbn. rewrite Hbad. apply read_payload_full. Qed.

Lemma decode_payload_no_prefix p todo :
  p ++ todo = prefix -> todo <> [] ->
  decode_payload bad msg parse (mkDecoder None p) = (Ok None, mkDecoder None p).
Proof.
  intros Hp Ht. unfold decode_payload, mbind, st_bind, handle_length. cbn.
  rewrite (uvi_short (zlength payload) prefix p); [done|apply payload_length|done|by exists todo|].
  intros ->. apply Ht. by apply (app_inv_head prefix); rewrite app_nil_r.
Qed.

Lemma decode_payload_partial p todo :
  p ++ todo = compressed -> todo <> [] ->
  decode_payload bad msg parse (mkDecoder None (prefix ++ p))
  = (Ok None, mkDecoder (Some (zlength payload)) p).
Proof.
  intros Hp Ht. unfold decode_payload, mbind, st_bind. rewrite handle_prefix, Hbad.
  by apply (read_payload_short _ p todo).
Qed.

Lemma decode_payload_still_partial p todo :
  p ++ todo = compressed -> todo <> [] ->
  decode_payload bad msg parse (mkDecoder (Some (zlength payload)) p)
  = (Ok None, mkDecoder (Some (zlength payload)) p).
Proof.
  intros Hp Ht. unfold decode_payload, mbind, st_bind. cbn. rewrite Hbad.
  by apply (read_payload_short _ p todo).
Qed.

End One.

Lemma write_payload_ok max payload dst :
  zlength payload <= max -> max < 2 ^ 64 ->
  exists prefix compressed,
    uvi_encode (zlength payload) = inl prefix /\ prefix <> [] /\ frame payload = inl compressed /\
    write_payload max payload dst = Ok (dst ++ prefix ++ compressed).
Proof.
  intros Hm Hw. destruct (uvi_total (zlength payload)) as (v & Ev & Hv).
  { unfold zlength in *. lia. }
  destruct (frame_total payload) as (f & Ef & _). exists v, f. split_and!; [done..|].
  unfold write_payload. destruct (Z.ltb_spec max (zlength payload)); [lia|]. by rewrite Ev, Ef.
Qed.

(** A result of parsing, with a function applied. *)
Definition parsed {A B} (f : A -> B) (r : res RPCError (option A)) : res RPCError (option B) :=
  o ← r; Ok (option_map f o).

Lemma decode_payload_map {A B} (f : A -> B) bad msg parse d :
  (o ← decode_payload bad msg parse; mret (option_map f o) : dec (option B)) d
  = decode_payload bad msg (fun b => parsed f (parse b)) d.
Proof.
  unfold decode_payload, parsed, mbind, st_bind, mret, st_ret.
  destruct (handle_length d) as [[[n|]| |] d1]; [|done..]. destruct (bad n); [done|].
  unfold read_payload. destruct (read_frames _ _) as [[b| |e] pos].
  - destruct (_ <? _); [done|]. unfold res_bind. by destruct (parse b).
  - unfold handle_error. by destruct (_ <=? _).
  - done.
Qed.

(** ** Requests *)

Definition request_valid (r : Request) : Prop :=
  match r with
  | StatusReq m => ssz_valid m
  | GoodbyeReq r => ssz_valid r
  | BlocksByRangeReq r => ssz_valid r
  | PingReq p => ssz_valid p
  | MetaDataReq => True
  end.

Lemma is_out_of_bounds_fixed n max : n <= max -> is_out_of_bounds (mkLimits n n) n max = false.
Proof. unfold is_out_of_bounds. cbn. lia. Qed.

Definition request_payload (r : Request) : bytes :=
  match r with
  | StatusReq m => as_ssz_bytes m
  | GoodbyeReq r => as_ssz_bytes r
  | BlocksByRangeReq r => as_ssz_bytes r
  | PingReq p => as_ssz_bytes p
  | MetaDataReq => []
  end.

(** The bytes of a request are within the limits of its protocol and are parsed
    as the request. *)
Lemma request_parsed r max :
  request_valid r -> r <> MetaDataReq ->
  let p := protocol_id_new (request_protocol r) SSZSnappy in
  limit_max (rpc_request_limits p) <= max ->
  zlength (request_payload r) <= max /\
  is_out_of_bounds (rpc_request_limits p) (zlength (request_payload r)) max = false /\
  handle_rpc_request (request_protocol r) (request_payload r) = Ok (Some r).
Proof.
  intros Hv Hne p Hm. subst p.
  destruct r as [m|reason|q|p|]; [..|done]; cbn in Hm, Hv |- *.
  - by rewrite (ssz_length m Hv), (ssz_round_trip m Hv), is_out_of_bounds_fixed.
  - unfold reason_from_ssz. assert (ssz_valid (reason_to_u64 reason)) as Hr by (apply u64_valid; by destruct reason).
    by rewrite (ssz_length _ Hr), (ssz_round_trip _ Hr), reason_round_trip, is_out_of_bounds_fixed.
  - by rewrite (ssz_length q Hv), (ssz_round_trip q Hv), is_out_of_bounds_fixed.
  - rewrite (ssz_length p Hv), is_out_of_bounds_fixed by done.
    rewrite ping_container, (ssz_round_trip (data p)) by (by apply ping_valid). by destruct p.
Qed.

(** A request as bytes, and the decoder of its protocol as the common course. *)
Lemma request_coded r max :
  request_valid r -> r <> MetaDataReq ->
  let p := protocol_id_new (request_protocol r) SSZSnappy in
  limit_max (rpc_request_limits p) <= max -> max < 2 ^ 64 ->
  exists prefix compressed msg,
    uvi_encode (zlength (request_payload r)) = inl prefix /\ prefix <> [] /\
    frame (request_payload r) = inl compressed /\
    encode_request max r [] = Ok (prefix ++ compressed) /\
    forall d, decode_request p max d
      = decode_payload (fun length => is_out_of_bounds (rpc_request_limits p) length max) msg
          (handle_rpc_request (request_protocol r)) d.
Proof.
  intros Hv Hne p Hm Hw. destruct (request_parsed r max Hv Hne Hm) as (Hl & _ & _).
  destruct (write_payload_ok max (request_payload r) [] Hl Hw) as (v & f & Ev & Hvne & Ef & Ew).
  eexists v, f, _. split_and!; [done..|by destruct r|]. intros d. unfold decode_request. subst p.
  rewrite decide_False by (by destruct r). done.
Qed.

(** Whatever bytes a peer sends, the decoder of requests does not panic, and a
    request it yields is one of the protocol agreed on with fields of their
    types. *)
Lemma decoded_request_typed p max d :
  (decode_request p max d).1 <> Panic /\
  forall r, (decode_request p max d).1 = Ok (Some r) ->
    request_protocol r = versioned_protocol p /\ request_valid r.
Proof.
  unfold decode_request. case_decide as Hp; [split; [done|]; intros r [= <-]; by rewrite Hp|].
  unfold decode_payload, mbind, st_bind, handle_length.
  assert (forall n d, let o := (read_payload n (handle_rpc_request (versioned_protocol p)) d).1 in
    o <> Panic /\ forall r, o = Ok (Some r) -> request_protocol r = versioned_protocol p /\ request_valid r)
    as Hread.
  { clear d. intros n d. unfold read_payload.
    destruct (read_frames _ n) as [[b| |e] pos] eqn:E; cbn -[handle_rpc_request].
    - apply read_position in E. unfold zlength in *. rewrite length_take in E.
      destruct (Z.ltb_spec (Z.of_nat (length (src d))) pos); [lia|]. cbn -[handle_rpc_request].
      destruct (versioned_protocol p); cbn; unfold reason_from_ssz.
      all: try (destruct (from_ssz_bytes b) as [x|e] eqn:Ex; (split; [done|]); intros r [= <-]).
      all: try (by apply ssz_decoded in Ex).
      + split; [done|]. cbn. apply ssz_decoded in Ex. by apply ping_valid.
      + by destruct b.
    - destruct (_ <=? _); done.
    - done. }
  destruct (len d) as [n|]; [|destruct (uvi_decode (src d)) as [[[n rest]|]|e]];
    try done; (destruct (is_out_of_bounds _ _ _); [done|apply Hread]).
Qed.

(** ** Responses *)

Definition response_payload (r : RPCResponse) : bytes :=
  match r with
  | StatusResp m => as_ssz_bytes m
  | BlocksByRangeResp b => rmp_signed b
  | Pong p => as_ssz_bytes (data p)
  | MetaDataResp m => as_ssz_bytes m
  end.

Definition response_valid (r : RPCResponse) : Prop :=
  match r with
  | StatusResp m => ssz_valid m
  | BlocksByRangeResp _ => True
  | Pong p => ssz_valid (data p)
  | MetaDataResp m => ssz_valid m
  end.

(** A response that can be sent and read on the streams of a protocol. *)
Definition response_fits (v : SupportedProtocol) (max : Z) (item : RPCCodedResponse) : Prop :=
  match item with
  | Success r =>
      response_protocol r = protocol v /\ response_valid r /\
      is_out_of_bounds (rpc_response_limits (protocol_id_new v SSZSnappy)) (zlength (response_payload r)) max
      = false
  | ErrorResponse _ err => zlength err <= MAX_ERROR_LEN /\ zlength err <= max
  | StreamTermination _ => False
  end.

Definition item_payload (item : RPCCodedResponse) : bytes :=
  match item with Success r => response_payload r | ErrorResponse _ err => err | StreamTermination _ => [] end.

Context `{!BlockLaws K}.

Lemma parse_response v r :
  response_protocol r = protocol v -> response_valid r ->
  handle_rpc_response v (response_payload r) = Ok (Some r).
Proof.
  intros Hp Hv. destruct r as [m|b|p|m], v; try done; cbn in *.
  - by rewrite (ssz_round_trip m).
  - by rewrite rmp_round_trip.
  - rewrite (ssz_round_trip (data p)) by done. by destruct p.
  - by rewrite (ssz_round_trip m).
Qed.

(** The inner decoder, for the code of an item that fits, reads its payload. *)
Lemma decode_inner_item v max item :
  response_fits v max item -> max < 2 ^ 64 ->
  exists code bad msg parse,
    as_u8 item = Some code /\
    (forall d, decode_inner (protocol_id_new v SSZSnappy) max code d = decode_payload bad msg parse d) /\
    bad (zlength (item_payload item)) = false /\ parse (item_payload item) = Ok (Some item) /\
    zlength (item_payload item) <= max.
Proof.
  intros Hf Hw. destruct item as [r|code err|]; [| |done].
  - destruct Hf as (Hp & Hv & Hb). eexists 0, _, _, _. split_and!; [done|..|].
    + intros d. unfold decode_inner, decode_response. cbn [is_response Z.eqb]. apply decode_payload_map.
    + exact Hb.
    + cbn [item_payload protocol_id_new versioned_protocol]. by rewrite (parse_response v r).
    + unfold is_out_of_bounds in Hb. cbn [item_payload]. lia.
  - destruct Hf as (Hl & Hm). eexists (code_as_u8 code), _, _, _. split_and!; [done|..|done].
    + intros d. unfold decode_inner, decode_error. destruct (code_round_trip code err) as [_ ->].
      apply decode_payload_map.
    + cbn [item_payload]. unfold ERROR_TYPE_MAX, ERROR_TYPE_MIN. unfold zlength in *. lia.
    + cbn [item_payload]. rewrite error_bytes by done. cbn. by destruct (code_round_trip code err) as [-> _].
Qed.

(** The bytes of an item: its code, the length and the frames. *)
Lemma encode_item v max item dst :
  response_fits v max item -> max < 2 ^ 64 ->
  exists code prefix compressed,
    as_u8 item = Some code /\ uvi_encode (zlength (item_payload item)) = inl prefix /\ prefix <> [] /\
    frame (item_payload item) = inl compressed /\
    encode_coded_response max item dst = Ok (code :: prefix ++ compressed).
Proof.
  intros Hf Hw. destruct (decode_inner_item v max item Hf Hw) as (code & _ & _ & _ & Hc & _ & _ & _ & Hm).
  destruct (write_payload_ok max (item_payload item) [code]) as (v' & f & Ev & Hv & Ef & Ew); [done..|].
  exists code, v', f. split_and!; [done..|].
  unfold encode_coded_response. rewrite Hc. cbn. unfold encode_response.
  destruct item as [[]| |]; [..|done]; exact Ew.
Qed.

(** *** Chunks *)

(** More bytes arrive. *)
Definition arrive (more : bytes) (b : BaseDecoder) : BaseDecoder :=
  mkBase (current_response_code b) (mkDecoder (len (inner b)) (src (inner b) ++ more)).

(** Reading from a stream that delivers bytes in chunks, up to the first item
    or error. *)
Fixpoint read_chunks (p : ProtocolId) (max : Z) (b : BaseDecoder) (chunks : list bytes) :
    res RPCError (option RPCCodedResponse) :=
  match chunks with
  | [] => Ok None
  | c :: chunks =>
      match decode_coded_response p max (arrive c b) with
      | (Ok None, b') => read_chunks p max b' chunks
      | (r, _) => r
      end
  end.

Definition fresh : BaseDecoder := mkBase None (mkDecoder None []).

Section Chunks.
Context (p : ProtocolId) (max code : Z) (item : RPCCodedResponse) (payload prefix compressed : bytes).
Context (bad : Z -> bool) (msg : string) (parse : bytes -> res RPCError (option RPCCodedResponse)).
Context (Hinner : forall d, decode_inner p max code d = decode_payload bad msg parse d).
Context (Hframe : frame payload = inl compressed).
Context (Huvi : uvi_encode (zlength payload) = inl prefix) (Hprefix : prefix <> []).
Context (Hlen : zlength payload < 2 ^ 64) (Hbad : bad (zlength payload) = false).
Context (Hparse : parse payload = Ok (Some item)).

(** How far a decoder has come, and the bytes still to arrive. *)
Inductive waiting : BaseDecoder -> bytes -> Prop :=
| waiting_code s todo :
    s ++ todo = code :: prefix ++ compressed -> (length s <= 1)%nat ->
    waiting (mkBase None (mkDecoder None s)) todo
| waiting_length s todo todo' :
    s ++ todo = prefix -> s <> [] -> todo <> [] -> todo' = todo ++ compressed ->
    waiting (mkBase (Some code) (mkDecoder None s)) todo'
| waiting_payload s todo :
    s ++ todo = compressed -> todo <> [] ->
    waiting (mkBase (Some code) (mkDecoder (Some (zlength payload)) s)) todo.

Definition coded (d : Decoder) : res RPCError (option RPCCodedResponse) * BaseDecoder :=
  let (r, d') := decode_inner p max code d in
  (r, mkBase (match r with Ok (Some _) => None | _ => Some code end) d').

(** One decoding of what has come of the length and the payload. *)
Lemma coded_step s todo :
  s ++ todo = prefix ++ compressed -> s <> [] ->
  (todo = [] /\ coded (mkDecoder None s) = (Ok (Some item), fresh)) \/
  (exists b, coded (mkDecoder None s) = (Ok None, b) /\ waiting b todo).
Proof.
  intros Hs Hne. unfold coded. rewrite Hinner.
  apply app_eq_inv in Hs as [(k & -> & Hk)|(k & Hk & ->)].
  - destruct (decide (todo = [])) as [->|Ht].
    + left. split; [done|]. rewrite app_nil_r in Hk. subst k.
      pose proof (decode_payload_full parse bad msg payload prefix compressed Hframe Huvi Hlen Hbad []) as E.
      rewrite app_nil_r in E. by rewrite E, Hparse.
    + right. rewrite (decode_payload_partial parse bad msg payload prefix compressed Hframe Huvi Hlen Hbad k todo)
        by done.
      eexists. split; [done|]. by apply waiting_payload.
  - destruct (decide (k = [])) as [->|Hk'].
    + rewrite app_nil_r in Hk. subst s. cbn. destruct (decide (compressed = [])) as [Hc|Hc].
      * left. split; [done|].
        pose proof (decode_payload_full parse bad msg payload prefix compressed Hframe Huvi Hlen Hbad []) as E.
        rewrite Hc, !app_nil_r in E. by rewrite E, Hparse.
      * right. pose proof (decode_payload_partial parse bad msg payload prefix compressed Hframe Huvi Hlen Hbad
          [] compressed eq_refl Hc) as E. rewrite app_nil_r in E. rewrite E.
        eexists. split; [done|]. by apply waiting_payload.
    + right. rewrite (decode_payload_no_prefix parse bad msg payload prefix Huvi Hlen s k) by done.
      eexists. split; [done|]. by apply (waiting_length s k).
Qed.

Lemma decode_coded_two o l s :
  (2 <= length s)%nat ->
  decode_coded_response p max (mkBase (Some code) (mkDecoder l s)) = coded (mkDecoder l s) /\
  (head s = Some code ->
   decode_coded_response p max (mkBase None (mkDecoder o s)) = coded (mkDecoder o (tail s))).
Proof.
  intros Hs. destruct s as [|a [|b s]]; cbn in Hs; [lia..|]. split; [done|]. intros [= ->]. done.
Qed.

Lemma decode_coded_one o l s :
  (length s <= 1)%nat ->
  decode_coded_response p max (mkBase o (mkDecoder l s)) = (Ok None, mkBase o (mkDecoder l s)).
Proof. intros Hs. by destruct s as [|a [|b s]]; cbn in Hs; [..|lia]. Qed.

Lemma compressed_size : compressed = [] \/ (2 <= length compressed)%nat.
Proof.
  destruct (frame_total payload) as (f & E & _ & Hf). assert (f = compressed) as -> by congruence.
  unfold zlength in Hf. destruct Hf; [by left|right; lia].
Qed.

Lemma chunk_step b c todo :
  waiting b (c ++ todo) ->
  (todo = [] /\ decode_coded_response p max (arrive c b) = (Ok (Some item), fresh)) \/
  (exists b', decode_coded_response p max (arrive c b) = (Ok None, b') /\ waiting b' todo).
Proof.
  inversion 1 as [s t Hs Hl|s t t' Hs Hne Ht Et|s t Hs Ht]; subst; unfold arrive;
    cbn [current_response_code inner len src].
  - rewrite app_assoc in Hs. destruct (decide (length (s ++ c) <= 1)%nat) as [H1|H2].
    + right. rewrite decode_coded_one by done. eexists. split; [done|]. by apply waiting_code.
    + destruct (decode_coded_two None None (s ++ c)) as [_ Hd]; [lia|].
      destruct (s ++ c) as [|a u]; [cbn in H2; lia|]. injection Hs as -> Hu.
      rewrite Hd by done. cbn [tail]. apply coded_step; [done|]. intros ->. cbn in H2. lia.
  - assert ((s ++ c) ++ todo = (s ++ t) ++ compressed) as Hu by (by rewrite <-!app_assoc, Et).
    destruct (decide (length (s ++ c) <= 1)%nat) as [H1|H2].
    + right. rewrite decode_coded_one by done. eexists. split; [done|].
      rewrite length_app in H1. destruct s as [|x [|y s]]; [done| |cbn in H1; lia].
      destruct c; [|cbn in H1; lia]. rewrite app_nil_r in *. by apply (waiting_length [x] t).
    + destruct (decode_coded_two None None (s ++ c)) as [-> _]; [lia|].
      apply coded_step; [by rewrite <-Hs|]. by destruct s.
  - rewrite app_assoc in Hs. destruct compressed_size as [Hc|Hc].
    { exfalso. apply Ht. rewrite Hc in Hs. apply app_eq_nil in Hs as [Hs ->].
      apply app_eq_nil in Hs as [_ ->]. done. }
    destruct (decide (todo = [])) as [->|Hd].
    + left. split; [done|]. rewrite app_nil_r in Hs.
      destruct (decode_coded_two None (Some (zlength payload)) (s ++ c)) as [-> _]; [by rewrite Hs|].
      unfold coded. rewrite Hinner, Hs.
      pose proof (decode_payload_resumed parse bad msg payload compressed Hframe Hbad []) as E.
      rewrite app_nil_r in E. by rewrite E, Hparse.
    + right. destruct (decide (length (s ++ c) <= 1)%nat) as [H1|H2].
      * rewrite decode_coded_one by done. eexists. split; [done|]. by apply waiting_payload.
      * destruct (decode_coded_two None (Some (zlength payload)) (s ++ c)) as [-> _]; [lia|].
        unfold coded. rewrite Hinner.
        rewrite (decode_payload_still_partial parse bad msg payload compressed Hframe Hbad _ todo) by done.
        eexists. split; [done|]. by apply waiting_payload.
Qed.

(** The rest of the item arrives, with whatever follows it. *)
Lemma chunk_over b todo extra :
  waiting b todo ->
  decode_coded_response p max (arrive (todo ++ extra) b)
  = (Ok (Some item), mkBase None (mkDecoder None extra)).
Proof.
  inversion 1 as [s t Hs Hl|s t t' Hs Hne Ht Et|s t Hs Ht]; subst; unfold arrive;
    cbn [current_response_code inner len src].
  - rewrite app_assoc, Hs. destruct (decode_coded_two None None ((code :: prefix ++ compressed) ++ extra)) as [_ Hd].
    { destruct prefix; [done|cbn; lia]. }
    rewrite Hd by done. cbn [tail app]. unfold coded. rewrite Hinner, <-app_assoc.
    by rewrite (decode_payload_full parse bad msg payload prefix compressed Hframe Huvi Hlen Hbad extra), Hparse.
  - rewrite !app_assoc. destruct (decode_coded_two None None (((s ++ t) ++ compressed) ++ extra)) as [-> _].
    { rewrite !length_app. destruct s; [done|]. destruct t; [done|cbn; lia]. }
    unfold coded. rewrite Hinner, <-app_assoc, Hs.
    by rewrite (decode_payload_full parse bad msg payload prefix compressed Hframe Huvi Hlen Hbad extra), Hparse.
  - rewrite app_assoc. destruct compressed_size as [Hc|Hc].
    { exfalso. apply Ht. rewrite Hc in Hs. by apply app_eq_nil in Hs as [_ ->]. }
    rewrite Hs. destruct (decode_coded_two None (Some (zlength payload)) (compressed ++ extra)) as [-> _].
    { rewrite length_app. lia. }
    unfold coded. rewrite Hinner.
    by rewrite (decode_payload_resumed parse bad msg payload compressed Hframe Hbad extra), Hparse.
Qed.

Lemma waiting_more b : ~ waiting b [].
Proof.
  inversion 1 as [s t Hs Hl|s t t' Hs Hne Ht Et|s t Hs Ht]; subst.
  - rewrite app_nil_r in Hs. subst s. rewrite length_cons, length_app in Hl.
    destruct prefix; [done|cbn in Hl; lia].
  - by destruct t.
  - done.
Qed.

Lemma read_chunks_waiting chunks b :
  waiting b (concat chunks) -> read_chunks p max b chunks = Ok (Some item).
Proof.
  revert b. induction chunks as [|c chunks IH]; intros b Hw; cbn in *; [by apply waiting_more in Hw|].
  apply chunk_step in Hw as [[_ ->]|(b' & -> & Hw)]; [done|by apply IH].
Qed.

End Chunks.

(** A decoder that has read a part of an item, and the bytes of it that are
    still to come. *)
Definition waits (v : SupportedProtocol) (max : Z) (item : RPCCodedResponse) (b : BaseDecoder) (todo : bytes) :
    Prop :=
  exists code prefix compressed bad msg parse,
    (forall d, decode_inner (protocol_id_new v SSZSnappy) max code d = decode_payload bad msg parse d) /\
    frame (item_payload item) = inl compressed /\
    uvi_encode (zlength (item_payload item)) = inl prefix /\ prefix <> [] /\
    zlength (item_payload item) < 2 ^ 64 /\ bad (zlength (item_payload item)) = false /\
    parse (item_payload item) = Ok (Some item) /\
    waiting code (item_payload item) prefix compressed b todo.

Lemma waits_start v max item dst :
  response_fits v max item -> max < 2 ^ 64 ->
  exists enc, encode_coded_response max item dst = Ok enc /\ waits v max item fresh enc.
Proof.
  intros Hf Hw.
  destruct (encode_item v max item dst Hf Hw) as (code & prefix & f & Hc & Hu & Hne & Hfr & He).
  destruct (decode_inner_item v max item Hf Hw) as (code' & bad & msg & parse & Hc' & Hin & Hb & Hp & Hm).
  assert (code' = code) as -> by congruence.
  exists (code :: prefix ++ f). split; [done|].
  exists code, prefix, f, bad, msg, parse. split_and!; [done..|lia|done|done|].
  apply waiting_code; [done|cbn; lia].
Qed.

Lemma waits_more v max item b : ~ waits v max item b [].
Proof.
  intros (code & prefix & f & bad & msg & parse & Hin & Hfr & Hu & Hne & Hl & Hb & Hp & Hw).
  by eapply waiting_more.
Qed.

Lemma waits_part v max item b c todo :
  waits v max item b (c ++ todo) -> todo <> [] ->
  exists b', decode_coded_response (protocol_id_new v SSZSnappy) max (arrive c b) = (Ok None, b') /\
    waits v max item b' todo.
Proof.
  intros (code & prefix & f & bad & msg & parse & Hin & Hfr & Hu & Hne & Hl & Hb & Hp & Hw) Ht.
  eapply chunk_step in Hw as [[-> _]|(b' & E & Hw)]; [done| |done..].
  exists b'. split; [done|]. by exists code, prefix, f, bad, msg, parse.
Qed.

Lemma waits_done v max item b todo extra :
  waits v max item b todo ->
  decode_coded_response (protocol_id_new v SSZSnappy) max (arrive (todo ++ extra) b)
  = (Ok (Some item), mkBase None (mkDecoder None extra)).
Proof.
  intros (code & prefix & f & bad & msg & parse & Hin & Hfr & Hu & Hne & Hl & Hb & Hp & Hw).
  by eapply chunk_over.
Qed.

Lemma waits_chunks v max item chunks b :
  waits v max item b (concat chunks) ->
  read_chunks (protocol_id_new v SSZSnappy) max b chunks = Ok (Some item).
Proof.
  intros (code & prefix & f & bad & msg & parse & Hin & Hfr & Hu & Hne & Hl & Hb & Hp & Hw).
  by eapply read_chunks_waiting.
Qed.

(** C28: A response that fits its protocol is read back as it was written, error
    codes included: in front of whatever follows, and however the network cuts
    its bytes into chunks, without an error on the way. *)
Theorem response_round_trip v max item dst :
  response_fits v max item -> max < 2 ^ 64 ->
  exists enc, encode_coded_response max item dst = Ok enc /\
    (forall rest,
       decode_coded_response (protocol_id_new v SSZSnappy) max (mkBase None (mkDecoder None (enc ++ rest)))
       = (Ok (Some item), mkBase None (mkDecoder None rest))) /\
    (forall chunks, concat chunks = enc ->
       read_chunks (protocol_id_new v SSZSnappy) max fresh chunks = Ok (Some item)).
Proof.
  intros Hf Hw. destruct (waits_start v max item dst Hf Hw) as (enc & He & Hs).
  exists enc. split_and!; [done| |].
  - intros rest. apply (waits_done _ _ _ _ _ rest Hs).
  - intros chunks <-. by apply waits_chunks.
Qed.

(** Only encoding the end of a stream panics; the handler closes the stream
    instead. *)
Lemma encode_panics_iff max item dst :
  encode_coded_response max item dst = Panic <-> as_u8 item = None.
Proof.
  unfold encode_coded_response. destruct (as_u8 item) as [code|] eqn:E; [|done]. cbn.
  split; [|done]. unfold encode_response.
  assert (forall payload, write_payload max payload [code] <> Panic) as Hw.
  { intros payload. unfold write_payload. destruct (max <? _); [done|].
    by destruct (uvi_encode _), (frame payload). }
  destruct item as [[]| |]; cbn; [..|done]; intros Hp; by apply Hw in Hp.
Qed.

End Payloads.
End WithLibs.

(** ** Libraries that satisfy the laws *)

Module Witness.

(** Numbers as eight little-endian bytes. *)
Definition read_u64 (b : bytes) : Z + string :=
  if (length b =? 8)%nat && in_width 64 (from_le_bytes b) then inl (from_le_bytes b)
  else inr "InvalidByteLength".

Lemma read_u64_ok z : 0 <= z < 2 ^ 64 -> read_u64 (to_le_bytes 8 z) = inl z.
Proof.
  intros Hz. unfold read_u64. rewrite to_le_bytes_length, from_to_le_bytes by (cbn; lia).
  by rewrite (proj2 (in_width_spec 64 z) Hz).
Qed.

Lemma read_u64_valid b z : read_u64 b = inl z -> 0 <= z < 2 ^ 64.
Proof.
  unfold read_u64. destruct ((_ =? _)%nat && _) eqn:E; [|done]. intros [= <-].
  apply andb_true_iff in E as [_ E]. by apply in_width_spec.
Qed.

#[program] Definition u64 : Ssz Z := {|
  ssz_valid z := 0 <= z < 2 ^ 64;
  as_ssz_bytes z := to_le_bytes 8 z;
  from_ssz_bytes := read_u64;
  ssz_fixed_len := 8;
|}.
Next Obligation. apply read_u64_ok. Qed.
Next Obligation. intros z _. unfold zlength. by rewrite to_le_bytes_length. Qed.
Next Obligation. apply read_u64_valid. Qed.

Definition read_ping (b : bytes) : PingMessage + string :=
  match read_u64 b with inl z => inl (mkPing z) | inr e => inr e end.

#[program] Definition ping : Ssz PingMessage := {|
  ssz_valid p := 0 <= data p < 2 ^ 64;
  as_ssz_bytes p := to_le_bytes 8 (data p);
  from_ssz_bytes := read_ping;
  ssz_fixed_len := 8;
|}.
Next Obligation. intros [z] Hz. unfold read_ping. by rewrite read_u64_ok. Qed.
Next Obligation. intros p _. unfold zlength. by rewrite to_le_bytes_length. Qed.
Next Obligation.
  unfold read_ping. intros b p. destruct (read_u64 b) as [z|] eqn:E; [|done]. intros [= <-].
  by apply read_u64_valid in E.
Qed.

Definition read_status (b : bytes) : StatusMessage + string :=
  if (length b =? 64)%nat then inl (mkStatus (take 32 b) (drop 32 b)) else inr "InvalidByteLength".

#[program] Definition status : Ssz StatusMessage := {|
  ssz_valid m := length (finalized_hash m) = 32%nat /\ length (head_hash m) = 32%nat;
  as_ssz_bytes m := finalized_hash m ++ head_hash m;
  from_ssz_bytes := read_status;
  ssz_fixed_len := 64;
|}.
Next Obligation.
  intros [f h] [Hf Hh]. cbn [finalized_hash head_hash] in *. unfold read_status.
  rewrite length_app, Hf, Hh. cbn [Nat.eqb Nat.add].
  by rewrite take_app_length', drop_app_length' by done.
Qed.
Next Obligation. intros [f h] [Hf Hh]. cbn in *. unfold zlength. by rewrite length_app, Hf, Hh. Qed.
Next Obligation.
  unfold read_status. intros b m. destruct (Nat.eqb_spec (length b) 64) as [E|]; [|done]. intros [= <-]. cbn.
  rewrite length_take, length_drop. lia.
Qed.

Definition read_range (b : bytes) : BlocksByRangeRequest + string :=
  match read_u64 (take 8 b), read_u64 (drop 8 b) with
  | inl s, inl c => inl (mkRange s c)
  | _, _ => inr "InvalidByteLength"
  end.

#[program] Definition range : Ssz BlocksByRangeRequest := {|
  ssz_valid r := 0 <= start_height r < 2 ^ 64 /\ 0 <= count r < 2 ^ 64;
  as_ssz_bytes r := to_le_bytes 8 (start_height r) ++ to_le_bytes 8 (count r);
  from_ssz_bytes := read_range;
  ssz_fixed_len := 16;
|}.
Next Obligation.
  intros [s c] [Hs Hc]. cbn [start_height count] in *. unfold read_range.
  rewrite take_app_length', drop_app_length' by (by rewrite to_le_bytes_length). by rewrite !read_u64_ok.
Qed.
Next Obligation. intros r _. unfold zlength. by rewrite length_app, !to_le_bytes_length. Qed.
Next Obligation.
  unfold read_range. intros b r. destruct (read_u64 (take 8 b)) as [s|] eqn:Es; [|done].
  destruct (read_u64 (drop 8 b)) as [c|] eqn:Ec; [|done]. intros [= <-].
  apply read_u64_valid in Es, Ec. done.
Qed.

(** The bit fields one byte per bit. *)
Definition bit_byte (b : bool) : Z := if b then 1 else 0.

Definition read_metadata (b : bytes) : MetaDataMessage + string :=
  match read_u64 (take 8 b) with
  | inl s =>
      if (length b =? 76)%nat then
        let bits := map (fun x => x =? 1) (drop 8 b) in inl (mkMetaData s (take 64 bits) (drop 64 bits))
      else inr "InvalidByteLength"
  | inr e => inr e
  end.

#[program] Definition metadata : Ssz MetaDataMessage := {|
  ssz_valid m := 0 <= seq_number m < 2 ^ 64 /\ length (attnets m) = 64%nat /\ length (syncnets m) = 4%nat;
  as_ssz_bytes m := to_le_bytes 8 (seq_number m) ++ map bit_byte (attnets m ++ syncnets m);
  from_ssz_bytes := read_metadata;
  ssz_fixed_len := 76;
|}.
Next Obligation.
  intros [s a n] (Hs & Ha & Hn). cbn [seq_number attnets syncnets] in *. unfold read_metadata.
  rewrite take_app_length', drop_app_length' by (by rewrite to_le_bytes_length). rewrite read_u64_ok by done.
  rewrite length_app, length_map, to_le_bytes_length, length_app, Ha, Hn. cbn [Nat.eqb Nat.add].
  assert (forall l, map (fun x => x =? 1) (map bit_byte l) = l) as ->.
  { intros l. induction l as [|[] l IH]; cbn; by rewrite ?IH. }
  by rewrite take_app_length', drop_app_length' by done.
Qed.
Next Obligation.
  intros [s a n] (Hs & Ha & Hn). cbn [seq_number attnets syncnets] in *. unfold zlength.
  by rewrite length_app, length_map, to_le_bytes_length, length_app, Ha, Hn.
Qed.
Next Obligation.
  unfold read_metadata. intros b m. destruct (read_u64 (take 8 b)) as [s|] eqn:Es; [|done].
  destruct (Nat.eqb_spec (length b) 76) as [E|]; [|done]. intros [= <-]. cbn [seq_number attnets syncnets].
  apply read_u64_valid in Es. rewrite length_take, length_drop, length_map, length_drop. lia.
Qed.

Definition read_error (b : bytes) : ErrorType + string :=
  if zlength b <=? MAX_ERROR_LEN then inl b else inr "TooLong".

#[program] Definition ssz : SszLib := {|
  u64_ssz := u64; status_ssz := status; ping_ssz := ping; range_ssz := range; metadata_ssz := metadata;
  error_from_ssz := read_error;
|}.
Next Obligation. done. Qed.
Next Obligation. done. Qed.
Next Obligation. done. Qed.
Next Obligation. intros b Hb. unfold read_error. by rewrite (proj2 (Z.leb_le _ _) Hb). Qed.

(** Numbers as groups of seven bits, the least significant first. *)
Fixpoint leb (fuel : nat) (n : Z) : bytes :=
  match fuel with
  | O => [n]
  | S fuel => if n <? 128 then [n] else (n mod 128 + 128) :: leb fuel (n / 128)
  end.

Fixpoint unleb (l : bytes) : option (Z * bytes) :=
  match l with
  | [] => None
  | b :: l =>
      if b <? 128 then Some (b, l)
      else match unleb l with Some (n, rest) => Some (b - 128 + 128 * n, rest) | None => None end
  end.

Lemma leb_small f n : 0 <= n < 128 ^ Z.of_nat (S (S f)) -> 0 <= n / 128 < 128 ^ Z.of_nat (S f).
Proof.
  intros Hn. rewrite Nat2Z.inj_succ, Z.pow_succ_r in Hn by lia.
  split; [apply Z.div_pos; lia|apply Z.div_lt_upper_bound; lia].
Qed.

Lemma unleb_leb f n rest : 0 <= n < 128 ^ Z.of_nat (S f) -> unleb (leb f n ++ rest) = Some (n, rest).
Proof.
  revert n. induction f as [|f IH]; intros n Hn; cbn [leb].
  - cbn. destruct (Z.ltb_spec n 128); [done|]. cbn in Hn. lia.
  - destruct (Z.ltb_spec n 128) as [Hlt|Hge]; cbn [app unleb].
    + by rewrite (proj2 (Z.ltb_lt n 128)).
    + pose proof (Z.mod_pos_bound n 128). rewrite (proj2 (Z.ltb_ge _ 128)) by lia.
      rewrite IH by (by apply leb_small). f_equal. f_equal. pose proof (Z.div_mod n 128). lia.
Qed.

Lemma unleb_short f n p todo :
  0 <= n < 128 ^ Z.of_nat (S f) -> p ++ todo = leb f n -> todo <> [] -> unleb p = None.
Proof.
  revert n p. induction f as [|f IH]; intros n p Hn Hp Ht; (destruct p as [|x p]; [done|]); cbn [leb] in Hp.
  - injection Hp as _ Hp. by apply app_eq_nil in Hp as [_ ->].
  - destruct (Z.ltb_spec n 128).
    + injection Hp as _ Hp. by apply app_eq_nil in Hp as [_ ->].
    + injection Hp as -> Hp. cbn [unleb]. pose proof (Z.mod_pos_bound n 128).
      rewrite (proj2 (Z.ltb_ge _ 128)) by lia. by rewrite (IH (n / 128)) by (try done; by apply leb_small).
Qed.

(** Frames that store the bytes behind their length. *)
Definition store (b : bytes) : bytes := to_le_bytes 8 (zlength b) ++ b.

Definition unstore (input : bytes) (n : Z) : ReadResult * Z :=
  if zlength input <? 8 + Z.max 0 n then (ReadEof, zlength input)
  else (ReadOk (take (Z.to_nat n) (drop 8 input)), 8 + Z.max 0 n).

Definition frames : FrameLib := {|
  max_compress_len n := 32 + n + n / 6;
  frame b := inl (store b);
  read_frames := unstore;
  uvi_encode n := inl (leb 9 n);
  uvi_decode b := inl (unleb b);
|}.

Lemma store_length b : zlength (store b) = 8 + zlength b.
Proof. unfold store, zlength. rewrite length_app, to_le_bytes_length. lia. Qed.

Lemma prefix_todo {A} (p l : list A) : p `prefix_of` l -> p <> l -> exists todo, p ++ todo = l /\ todo <> [].
Proof. intros [t ->] Hne. exists t. split; [done|]. intros ->. by rewrite app_nil_r in Hne. Qed.

Lemma frame_laws : FrameLaws frames.
Proof.
  assert (forall n, 0 <= n < 2 ^ 64 -> 0 <= n < 128 ^ Z.of_nat 10) as Hw
    by (change (128 ^ Z.of_nat 10) with 1180591620717411303424; lia).
  split.
  - intros b. exists (store b). rewrite store_length. cbn. unfold zlength. split_and!; [done| |right; lia].
    pose proof (Z.div_pos (Z.of_nat (length b)) 6). lia.
  - intros b f rest [= <-]. cbn [read_frames frames]. unfold unstore. rewrite store_length.
    replace (Z.max 0 (zlength b)) with (zlength b) by (unfold zlength; lia).
    destruct (Z.ltb_spec (zlength (store b ++ rest)) (8 + zlength b)) as [Hlt|_].
    { unfold zlength in Hlt. pose proof (store_length b) as Hs. unfold zlength in Hs.
      rewrite length_app in Hlt. lia. }
    unfold store. rewrite <-app_assoc, drop_app_length' by (by rewrite to_le_bytes_length).
    unfold zlength. by rewrite Nat2Z.id, take_app_length.
  - intros b f p [= <-] Hp Hne. apply prefix_todo in Hp as (t & Hp & Ht); [|done].
    exists (zlength p). split; [|done]. cbn [read_frames frames]. unfold unstore.
    assert (zlength p + zlength t = 8 + zlength b) as E.
    { rewrite <-store_length, <-Hp. unfold zlength. rewrite length_app. lia. }
    destruct (Z.ltb_spec (zlength p) (8 + Z.max 0 (zlength b))); [done|].
    destruct t; [done|]. unfold zlength in *. cbn in *. lia.
  - intros input n r pos. cbn [read_frames frames]. unfold unstore. destruct (Z.ltb_spec (zlength input) (8 + Z.max 0 n));
      intros [= <- <-]; unfold zlength in *; lia.
  - intros n Hn. exists (leb 9 n). split; [done|]. cbn. by destruct (_ <? _).
  - intros n v rest Hn [= <-]. cbn [uvi_decode frames]. by rewrite (unleb_leb 9 n) by auto.
  - intros n v p Hn [= <-] Hp Hne. apply prefix_todo in Hp as (t & Hp & Ht); [|done].
    cbn [uvi_decode frames]. by rewrite (unleb_short 9 n p t) by auto.
Qed.

(** A refusal arrives in three pieces. *)
Lemma response_round_trip_witness :
  exists enc, encode_coded_response (L:=ssz) (F:=frames) (K:=ExampleSerial.blocks) 1024
      (ErrorResponse RateLimited [87; 97]) [] = Ok enc /\
    read_chunks (L:=ssz) (F:=frames) (K:=ExampleSerial.blocks)
      (protocol_id_new BlocksByRangeV1 SSZSnappy) 1024 fresh [take 1 enc; take 4 (drop 1 enc); drop 5 enc]
    = Ok (Some (ErrorResponse RateLimited [87; 97])).
Proof.
  pose proof frame_laws. pose proof ExampleSerial.block_laws.
  destruct (response_round_trip (L:=ssz) (F:=frames) (K:=ExampleSerial.blocks) BlocksByRangeV1 1024
              (ErrorResponse RateLimited [87; 97]) []) as (enc & He & _ & Hc).
  - by vm_compute.
  - done.
  - exists enc. split; [done|]. apply Hc. cbn [concat].
    rewrite app_nil_r. change (drop 5 enc) with (drop (1 + 4) enc).
    by rewrite <-drop_drop, take_drop, take_drop.
Defined.

End Witness.

End Codec.
