(* ===== verification/HandlerProofs.v ===== *)
(** Correctness of the connection handler: an invariant over everything that
    can happen to it (no step panics, limits hold, each open request has a
    timer), that no request is forgotten, that a peer cannot deliver more
    responses than were asked for, that a shutdown ends, and what becomes of
    the dialling slots. *)
From stdpp Require Import base decidable list gmap strings fin_maps relations.
From Stdlib Require Import ZArith Lia.
From S2P Require Import Prelude Bitcoin Block Serial RpcTypes DelayQueue Handler Codec.

Module HandlerProofs.
Import RpcTypes Handler.
Local Open Scope Z_scope.

(** Removing several keys. *)
Lemma lookup_foldr_delete {V} (m : gmap Z V) (dead : list Z) i :
  foldr delete m dead !! i = if decide (i ∈ dead) then None else m !! i.
Proof.
  induction dead as [|d dead IH]; cbn; [done|]. destruct (decide (i = d)) as [->|Hi].
  - rewrite lookup_delete_eq, decide_True; [done|by left].
  - rewrite lookup_delete_ne, IH by done. repeat case_decide; set_solver.
Qed.

Lemma foldr_delete_ext {V} (m : gmap Z V) (l l' : list Z) :
  (forall i, i ∈ l <-> i ∈ l') -> foldr delete m l = foldr delete m l'.
Proof.
  intros Hl. apply map_eq. intros i. rewrite !lookup_foldr_delete.
  repeat case_decide; naive_solver.
Qed.

(** Compute the fields of a handler after assignments. *)
Ltac hproj :=
  cbn [events_out dial_queue dial_negotiated inbound_substreams inbound_substreams_delay
       outbound_substreams outbound_substreams_delay current_inbound_substream_id
       current_outbound_substream_id max_dial_negotiated state outbound_io_error_retries waker
       resp_timeout Handler.max_rpc_size set_events set_dials set_inbound set_outbound set_current
       set_control set_state set_retries set_waker push] in *.

Section WithNetwork.
Context {Id InboundSubstream OutboundFramed Q Key Waker : Type}.
Context `{HS : Streams InboundSubstream OutboundFramed} `{EqDecision Waker} `{EqDecision Id}.
Context `{HQ : DelayQueue Q Key SubstreamId}.
Context `{HO : MapOrder}.
Context (error_text : ErrorType -> string).

Abbreviation event := (HandlerEvent Id SubstreamId).
Abbreviation inbound_info := (InboundInfo (InboundSubstream:=InboundSubstream) (Key:=Key)).
Abbreviation outbound_info := (OutboundInfo (Id:=Id) (OutboundFramed:=OutboundFramed) (Key:=Key)).
Abbreviation handler := (RPCHandler (Id:=Id) (InboundSubstream:=InboundSubstream)
  (OutboundFramed:=OutboundFramed) (Q:=Q) (Key:=Key) (Waker:=Waker)).
Abbreviation hevent := (ConnectionHandlerEvent (Id:=Id)).
Implicit Types h : handler.

(** ** The invariant *)

(** A future that sends is not asked to send the end of a stream, which has no
    encoding. *)
Definition good_future (f : SendFuture (InboundSubstream:=InboundSubstream)) : Prop :=
  match f with Sending _ m _ => as_u8 m <> None | ClosingAfter _ _ => True end.

Definition good_state (s : InboundState (InboundSubstream:=InboundSubstream)) : Prop :=
  match s with Idle _ => True | Busy f => good_future f | Poisoned => False end.

Lemma send_message_good s m last : good_future (send_message_to_inbound_substream s m last).
Proof. by destruct m. Qed.

Lemma poll_future_good f f' : good_future f -> poll_future f = inl f' -> good_future f'.
Proof.
  assert (forall s e, poll_closing s e = inl f' -> good_future f') as Hc.
  { intros s e. unfold poll_closing. by destruct (sub_close s) as [[|]]; intros [= <-]. }
  destruct f as [s m l|s e]; cbn; intros Hg Hp; [|by eapply Hc].
  destruct (sub_send s m) as [[|e] s']; [by injection Hp as <-|].
  destruct (l || _ || _); [by eapply Hc|done].
Qed.

(** Inbound substreams: the running timers are those their keys name, and at
    most [MAX_INBOUND_SUBSTREAMS] are open. *)
Record good_inbound (m : gmap Z inbound_info) (timers : gmap Key Z) (current : Z) : Prop := {
  gi_timers : inverse timers (omap delay_key m);
  gi_size : Z.of_nat (size m) <= MAX_INBOUND_SUBSTREAMS;
  gi_info i info : m !! i = Some info -> i < current /\ good_state (in_state info);
}.

(** Outbound substreams: each has its timer, and one that waits for a response
    knows how many are left. *)
Definition good_info (info : outbound_info) : Prop :=
  match out_state info with
  | RequestPendingResponse _ r =>
      0 < expected_responses r /\ proto info = protocol (request_protocol r) /\
      if 1 <? expected_responses r then exists n, remaining_chunks info = Some n /\ 0 < n
      else remaining_chunks info = None
  | Closing _ => True
  | OutPoisoned => False
  end.

Record good_outbound (m : gmap Z outbound_info) (timers : gmap Key Z) (current : Z) : Prop := {
  go_timers : inverse timers (out_delay_key <$> m);
  go_info i info : m !! i = Some info -> i < current /\ good_info info;
}.

(** A request that waits for a response on a stream. *)
Definition pending (info : outbound_info) : Prop :=
  match out_state info with RequestPendingResponse _ _ => True | _ => False end.

(** Events about a request. *)
Definition about (id : Id) (e : event) : Prop :=
  match e with
  | Received (ReceivedResponse i _) => i = id
  | Received (EndOfStream i _) => i = id
  | Failed (Outbound i _ _) => i = id
  | _ => False
  end.

(** Responses delivered for a request. *)
Definition delivers (id : Id) (e : event) : Z :=
  match e with
  | Received (ReceivedResponse i _) => if decide (i = id) then 1 else 0
  | _ => 0
  end.

Definition delivered (id : Id) (l : list event) : Z := foldr (fun e n => delivers id e + n) 0 l.

(** Responses asked for. *)
Definition asked (id : Id) (l : list (Id * Request)) : Z :=
  foldr (fun x n => (if decide (x.1 = id) then expected_responses x.2 else 0) + n) 0 l.

(** Responses a stream may still deliver. *)
Definition credit (id : Id) (info : outbound_info) : Z :=
  match out_state info with
  | RequestPendingResponse _ _ =>
      if decide (req_id info = id) then default 1 (remaining_chunks info) else 0
  | _ => 0
  end.

Definition open_credit (id : Id) (m : gmap Z outbound_info) : Z :=
  map_fold (fun _ info n => credit id info + n) 0 m.

Section Leaked.
(** Slots for dialling that are taken by no dial. *)
Context (leaked : Z) (leaked_nonneg : 0 <= leaked).

(** What holds of a handler that was given the requests [sub], reported the
    events [rep] and waits for the substreams of [dial], its inbound side
    apart. *)
Record core (sub : list (Id * Request)) (rep : list event) (dial : list (Id * Request)) h : Prop := {
  c_out : good_outbound (outbound_substreams h) (dq_timers (outbound_substreams_delay h))
            (current_outbound_substream_id h);
  c_dials : leaked + Z.of_nat (length dial) <= dial_negotiated h <= max_dial_negotiated h;
  c_max : max_dial_negotiated h = 8;
  c_retries : 0 <= outbound_io_error_retries h < IO_ERROR_RETRIES;
  c_ids : 0 <= current_inbound_substream_id h /\ 0 <= current_outbound_substream_id h;
  c_quiet : Forall (fun e => forall id, delivers id e = 0) (events_out h);
  c_expected : Forall (fun x => 0 <= expected_responses x.2) (dial_queue h ++ dial);
  c_kept x : x ∈ sub -> 0 < expected_responses x.2 ->
    x ∈ dial_queue h ++ dial \/
    (exists i info, outbound_substreams h !! i = Some info /\ pending info /\ req_id info = x.1) \/
    (exists e, e ∈ rep ++ events_out h /\ about x.1 e);
  c_credit id :
    delivered id rep + asked id (dial_queue h ++ dial) + open_credit id (outbound_substreams h)
    <= asked id sub;
}.

(** [dead] substreams are still in the map and about to be removed. *)
Definition live_inbound (dead : list Z) h : Prop :=
  good_inbound (foldr delete (inbound_substreams h) dead) (dq_timers (inbound_substreams_delay h))
    (current_inbound_substream_id h).

Definition inv sub rep dial h : Prop := core sub rep dial h /\ live_inbound [] h.

(** ** Inbound substreams *)

Lemma core_inbound sub rep dial h m q :
  core sub rep dial h -> core sub rep dial (set_inbound m q h).
Proof. intros []. by constructor. Qed.

Definition quiet (e : event) : Prop := forall id, delivers id e = 0.

Lemma core_push sub rep dial h e : core sub rep dial h -> quiet e -> core sub rep dial (push e h).
Proof.
  intros [] He. constructor; cbn; try done.
  - apply Forall_app. split; [done|]. by constructor.
  - intros x Hx Hp. destruct (c_kept0 x Hx Hp) as [?|[?|(e' & He' & Ha)]]; [by left|by right; left|].
    right; right. exists e'. split; [|done]. rewrite app_assoc. apply elem_of_app. by left.
Qed.

Lemma good_inbound_update m timers cur i info info' :
  good_inbound m timers cur -> m !! i = Some info -> delay_key info' = delay_key info ->
  good_state (in_state info') -> good_inbound (<[i := info']> m) timers cur.
Proof.
  intros [Ht Hs Hi] E Hk Hp. split.
  - intros k j. rewrite (Ht k j), !lookup_omap. destruct (decide (j = i)) as [->|].
    + rewrite lookup_insert_eq, E. cbn. by rewrite Hk.
    + by rewrite lookup_insert_ne.
  - by rewrite map_size_insert_Some.
  - intros j x [[<- <-]|[_ Hx]]%lookup_insert_Some; [|by apply Hi]. split; [|done]. by eapply Hi.
Qed.

Lemma good_inbound_remove m timers timers' cur i info :
  good_inbound m timers cur -> m !! i = Some info ->
  timers' = match delay_key info with Some k => delete k timers | None => timers end ->
  good_inbound (delete i m) timers' cur.
Proof.
  intros [Ht Hs Hi] E ->. split.
  - destruct (delay_key info) as [k|] eqn:Ek.
    + rewrite omap_delete. apply inverse_delete; [done|]. apply Ht. by rewrite lookup_omap, E.
    + intros k j. rewrite (Ht k j), omap_delete. destruct (decide (j = i)) as [->|].
      * rewrite lookup_delete_eq, lookup_omap, E. cbn. by rewrite Ek.
      * by rewrite lookup_delete_ne.
  - rewrite map_size_delete, E. lia.
  - intros j x [_ Hx]%lookup_delete_Some. by apply Hi.
Qed.

(** A timer that has run out is no longer kept by its substream. *)
Lemma good_inbound_expired m timers cur k i info :
  good_inbound m timers cur -> timers !! k = Some i -> m !! i = Some info ->
  forall items, good_inbound (<[i := mkInbound (in_state info) items (in_protocol info)
    (in_remaining_chunks info) None]> m) (delete k timers) cur.
Proof.
  intros [Ht Hs Hi] Ek E items. split.
  - rewrite omap_insert. cbn. by apply inverse_delete.
  - by rewrite map_size_insert_Some.
  - intros j x [[<- <-]|[_ Hx]]%lookup_insert_Some; [|by apply Hi]. exact (Hi _ _ E).
Qed.

(** A timer belongs to a substream. *)
Lemma good_inbound_timer m timers cur k i :
  good_inbound m timers cur -> timers !! k = Some i -> exists info, m !! i = Some info.
Proof.
  intros [Ht _ _] Ek. apply Ht in Ek. rewrite lookup_omap in Ek.
  destruct (m !! i) as [info|]; [by eexists|done].
Qed.

(** The reports of a step: what it returned is put before the events. *)
Definition rep_of (e : hevent) (rep : list event) : list event :=
  match e with NotifyBehaviour x => x :: rep | _ => rep end.
Definition dial_of (e : hevent) (dial : list (Id * Request)) : list (Id * Request) :=
  match e with OutboundSubstreamRequest _ _ x => x :: dial | _ => dial end.

(** The invariant after an early return. *)
Definition left_with sub rep dial (e : hevent) h : Prop :=
  inv sub (rep_of e rep) (dial_of e dial) h.

(** A substream about to be driven, with its info up to the parts that change. *)
Definition driving sub rep dial dead (id : Z) (k : option Key) h : Prop :=
  core sub rep dial h /\ live_inbound dead h /\ (id ∉ dead) /\
  exists info, inbound_substreams h !! id = Some info /\ delay_key info = k.

Definition driven sub rep dial dead (id : Z) (closed : bool) h : Prop :=
  core sub rep dial h /\ live_inbound (if closed then id :: dead else dead) h.

Section Drive.
Context (sub : list (Id * Request)) (rep : list event) (dial : list (Id * Request)).
Context (dead : list Z) (id : Z) (X : hevent -> handler -> Prop).

Lemma store_live info s p :
  good_state s ->
  triple (driving sub rep dial dead id (delay_key info)) (store_inbound id info s p)
         (fun _ => driven sub rep dial dead id false) X.
Proof.
  intros Hs. apply triple_modify. intros h (Hc & Hl & Hd & x & Ex & Ek).
  split; [by apply core_inbound|]. unfold live_inbound in *. cbn.
  replace (foldr delete _ dead) with
    (<[id := mkInbound s p (in_protocol info) (in_remaining_chunks info) (delay_key info)]>
       (foldr delete (inbound_substreams h) dead)).
  - apply (good_inbound_update _ _ _ _ x); [done| |done|done].
    by rewrite lookup_foldr_delete, decide_False.
  - apply map_eq. intros j. rewrite lookup_foldr_delete. destruct (decide (j = id)) as [->|].
    + by rewrite !lookup_insert_eq, decide_False.
    + by rewrite !lookup_insert_ne, lookup_foldr_delete by done.
Qed.

Lemma store_dead info s p :
  triple (driving sub rep dial dead id (delay_key info))
         (store_inbound id info s p ;; remove_timer (delay_key info))
         (fun _ => driven sub rep dial dead id true) X.
Proof.
  intros h (Hc & Hl & Hd & x & Ex & Ek). unfold store_inbound, modifyS, mbind, st_bind, remove_timer.
  set (m := <[id := _]> _).
  assert (foldr delete m (id :: dead) = delete id (foldr delete (inbound_substreams h) dead)) as Em.
  { apply map_eq. intros j. cbn [foldr]. destruct (decide (j = id)) as [->|].
    - by rewrite !lookup_delete_eq.
    - rewrite !lookup_delete_ne, !lookup_foldr_delete by done. unfold m.
      by rewrite lookup_insert_ne. }
  assert (foldr delete (inbound_substreams h) dead !! id = Some x) as Ed
    by (by rewrite lookup_foldr_delete, decide_False).
  destruct (delay_key info) as [k|] eqn:Ei; cbn [inbound_substreams_delay set_inbound].
  - assert (dq_timers (inbound_substreams_delay h) !! k = Some id) as Ekk.
    { apply (gi_timers _ _ _ Hl). by rewrite lookup_omap, Ed. }
    destruct (dq_remove_present k id _ Ekk) as (q & -> & Eq).
    split; [by do 2 apply core_inbound|]. unfold live_inbound. cbn -[foldr]. rewrite Em.
    apply (good_inbound_remove _ _ _ _ _ x Hl Ed). by rewrite Ek.
  - split; [by apply core_inbound|]. unfold live_inbound. cbn -[foldr]. rewrite Em.
    apply (good_inbound_remove _ _ _ _ _ x Hl Ed). by rewrite Ek.
Qed.

Lemma push_driven closed e :
  quiet e ->
  triple (driven sub rep dial dead id closed) (modifyS (push e))
         (fun _ => driven sub rep dial dead id closed) X.
Proof. intros He. apply triple_modify. intros h [Hc Hl]. split; [by apply core_push|done]. Qed.

Lemma reset_driving now k :
  triple (driving sub rep dial dead id k) (reset_timer now k)
         (fun _ => driving sub rep dial dead id k) X.
Proof.
  intros h (Hc & Hl & Hd & x & Ex & Ek). unfold reset_timer. destruct k as [k|].
  2:{ split_and!; eauto. }
  assert (dq_timers (inbound_substreams_delay h) !! k = Some id) as Ekk.
  { apply (gi_timers _ _ _ Hl). rewrite lookup_omap, lookup_foldr_delete, decide_False by done.
    by rewrite Ex. }
  destruct (dq_reset_present k (now + resp_timeout h) id _ Ekk) as (q & -> & Eq).
  split; [by apply core_inbound|]. unfold live_inbound. cbn. rewrite Eq. split_and!; eauto.
Qed.

Lemma ret_driven closed :
  triple (driven sub rep dial dead id closed) (mret closed) (driven sub rep dial dead id) X.
Proof. by apply triple_ret. Qed.

Lemma drive_busy_ok now deactivated items info fut :
  good_future fut ->
  triple (driving sub rep dial dead id (delay_key info))
         (drive_busy now deactivated id info fut items) (driven sub rep dial dead id) X.
Proof.
  revert info fut. induction items as [|m items IH]; intros info fut Hfut; cbn [drive_busy];
    destruct (poll_future fut) as [f|[[s []]|e]] eqn:Ef;
    try (eapply triple_bind; [apply store_live; by eapply poll_future_good|intros; apply ret_driven]);
    try (eapply triple_bind_assoc; [apply store_dead|intros];
         first [apply ret_driven
               |eapply triple_bind; [by apply push_driven|intros; apply ret_driven]]);
    cbv zeta; (eapply triple_bind; [apply (reset_driving now (delay_key info))|intros]);
    destruct deactivated; try apply (IH (next_chunk info)), send_message_good;
    (eapply triple_bind; [by apply (store_live (next_chunk info))|intros; apply ret_driven]).
Qed.

Lemma close_idle_ok info substream :
  triple (driving sub rep dial dead id (delay_key info)) (close_idle id info substream)
         (driven sub rep dial dead id) X.
Proof.
  unfold close_idle. destruct (sub_close substream) as [[|res] s].
  - eapply triple_bind; [by apply store_live|intros; apply ret_driven].
  - eapply triple_bind_assoc; [apply store_dead|intros ?].
    eapply (triple_bind _ _ _ (fun _ => driven sub rep dial dead id true)); [|intros ?].
    + destruct res; [by apply push_driven|by apply triple_ret].
    + eapply (triple_bind _ _ _ (fun _ => driven sub rep dial dead id true)); [|intros ?; apply ret_driven].
      destruct (last_open _); [by apply push_driven|by apply triple_ret].
Qed.

Lemma drive_inbound_ok now deactivated :
  id ∉ dead ->
  triple (fun h => core sub rep dial h /\ live_inbound dead h)
         (drive_inbound now deactivated id) (driven sub rep dial dead id) X.
Proof.
  intros Hd h [Hc Hl]. unfold drive_inbound.
  destruct (inbound_substreams h !! id) as [info|] eqn:E; [|done].
  assert (driving sub rep dial dead id (delay_key info) h) as Hdr by (split_and!; eauto).
  destruct (in_state info) as [s|f|] eqn:Es.
  - destruct deactivated; [by apply close_idle_ok|].
    destruct (pending_items info); [done|]. apply drive_busy_ok; [apply send_message_good|done].
  - apply drive_busy_ok; [|done]. pose proof (gi_info _ _ _ Hl id info) as Hg. rewrite Es in Hg. apply Hg.
    by rewrite lookup_foldr_delete, decide_False.
  - destruct (gi_info _ _ _ Hl id info) as [_ Hp]; [|by rewrite Es in Hp].
    by rewrite lookup_foldr_delete, decide_False.
Qed.

End Drive.

Lemma drive_inbounds_ok sub rep dial X now deactivated ids dead :
  NoDup ids -> (forall i, i ∈ ids -> i ∉ dead) ->
  triple (fun h => core sub rep dial h /\ live_inbound dead h) (drive_inbounds now deactivated ids)
         (fun removed h => core sub rep dial h /\ live_inbound (removed ++ dead) h) X.
Proof.
  revert dead. induction ids as [|id ids IH]; intros dead Hn Hd; cbn [drive_inbounds].
  - by apply triple_ret.
  - apply NoDup_cons in Hn as [Hid Hn].
    eapply triple_bind; [apply drive_inbound_ok; apply Hd; by left|].
    intros closed. eapply triple_bind; [apply IH; [done|]|].
    + intros i Hi. destruct closed; [|apply Hd; by right].
      intros [->|Hi']%elem_of_cons; [done|]. by apply (Hd i); [right|].
    + intros removed. apply triple_ret. intros h [Hc Hl]. split; [done|].
      unfold live_inbound in *. destruct closed; [|done].
      erewrite foldr_delete_ext; [done|]. set_solver.
Qed.

Lemma remove_inbound_ok sub rep dial X removed :
  triple (fun h => core sub rep dial h /\ live_inbound (removed ++ []) h) (remove_inbound removed)
         (fun _ => inv sub rep dial) X.
Proof.
  apply triple_modify. intros h [Hc Hl]. split; [by apply core_inbound|].
  by rewrite app_nil_r in Hl.
Qed.

Lemma time_out_inbound_ok sub rep dial h k i q :
  inv sub rep dial h -> dq_timers (inbound_substreams_delay h) !! k = Some i ->
  dq_timers q = delete k (dq_timers (inbound_substreams_delay h)) ->
  inv sub rep dial (time_out_inbound i (set_inbound (inbound_substreams h) q h)).
Proof.
  intros [Hc Hl] Ek Eq. unfold live_inbound in Hl. cbn in Hl.
  destruct (good_inbound_timer _ _ _ _ _ Hl Ek) as [info E].
  unfold time_out_inbound. cbn [inbound_substreams set_inbound]. rewrite E. split.
  - apply core_inbound, core_push; [by apply core_inbound|done].
  - unfold live_inbound. cbn. rewrite Eq. by apply good_inbound_expired.
Qed.

Lemma purge_inbound_ok sub rep dial now fuel :
  triple (fun h => inv sub rep dial h /\ (size (dq_timers (inbound_substreams_delay h)) < fuel)%nat)
         (purge_inbound fuel now) (fun _ => inv sub rep dial) (left_with sub rep dial).
Proof.
  induction fuel as [|fuel IH]; intros h [Hi Hf]; [lia|]. cbn [purge_inbound].
  destruct (dq_poll now (inbound_substreams_delay h)) as [r q] eqn:E. apply dq_poll_takes in E.
  assert (forall q', dq_timers q' = dq_timers (inbound_substreams_delay h) ->
          inv sub rep dial (set_inbound (inbound_substreams h) q' h)) as Hsame.
  { intros q' Eq. destruct Hi as [Hc Hl]. split; [by apply core_inbound|].
    unfold live_inbound in *. cbn in *. by rewrite Eq. }
  destruct r as [|[[i|[]]|]]; [by apply Hsame| |by apply Hsame|by apply Hsame].
  destruct E as (k & Ek & Eq). apply IH. split; [by eapply time_out_inbound_ok|].
  enough (inbound_substreams_delay (time_out_inbound i (set_inbound (inbound_substreams h) q h)) = q) as ->.
  { rewrite Eq, map_size_delete, Ek.
    assert (size (dq_timers (inbound_substreams_delay h)) <> 0%nat); [|lia].
    intros Hz%map_size_empty_iff. by rewrite Hz, lookup_empty in Ek. }
  unfold time_out_inbound. cbn [inbound_substreams set_inbound].
  by destruct (inbound_substreams h !! i).
Qed.

(** ** Outbound substreams *)

Lemma open_credit_insert id (m : gmap Z outbound_info) i info :
  m !! i = None -> open_credit id (<[i := info]> m) = credit id info + open_credit id m.
Proof. intros Hi. unfold open_credit. rewrite map_fold_insert_L; [done|intros; lia|done]. Qed.

Lemma open_credit_delete id (m : gmap Z outbound_info) i info :
  m !! i = Some info -> open_credit id m = credit id info + open_credit id (delete i m).
Proof.
  intros Hi. rewrite <-(insert_delete_id m i info Hi) at 1.
  apply open_credit_insert, lookup_delete_eq.
Qed.

Lemma open_credit_update id (m : gmap Z outbound_info) i info info' :
  m !! i = Some info ->
  open_credit id (<[i := info']> m) = open_credit id m - credit id info + credit id info'.
Proof.
  intros Hi. rewrite (open_credit_delete id m i info Hi), <-insert_delete_eq.
  rewrite open_credit_insert by apply lookup_delete_eq. lia.
Qed.

Lemma good_outbound_update m timers cur i (info info' : outbound_info) :
  good_outbound m timers cur -> m !! i = Some info -> out_delay_key info' = out_delay_key info ->
  good_info info' -> good_outbound (<[i := info']> m) timers cur.
Proof.
  intros [Ht Hi] E Hk Hg. split.
  - intros k j. rewrite (Ht k j), !lookup_fmap. destruct (decide (j = i)) as [->|].
    + rewrite lookup_insert_eq, E. cbn. by rewrite Hk.
    + by rewrite lookup_insert_ne.
  - intros j x [[<- <-]|[_ Hx]]%lookup_insert_Some; [|by apply Hi]. split; [by eapply Hi|done].
Qed.

Lemma good_outbound_delete m timers cur i (info : outbound_info) :
  good_outbound m timers cur -> m !! i = Some info ->
  good_outbound (delete i m) (delete (out_delay_key info) timers) cur.
Proof.
  intros [Ht Hi] E. split.
  - rewrite fmap_delete. apply inverse_delete; [done|]. apply Ht. by rewrite lookup_fmap, E.
  - intros j x [_ Hx]%lookup_delete_Some. by apply Hi.
Qed.

Lemma good_outbound_timer m timers cur i (info : outbound_info) :
  good_outbound m timers cur -> m !! i = Some info -> timers !! out_delay_key info = Some i.
Proof. intros [Ht _] E. apply Ht. by rewrite lookup_fmap, E. Qed.

(** The outbound side moves: events are reported or queued, and a request that
    no longer waits for a response has one about it. *)
Lemma core_outbound sub rep rep' dial h m q ev :
  core sub rep dial h ->
  good_outbound m (dq_timers q) (current_outbound_substream_id h) ->
  (forall e, e ∈ rep ++ events_out h -> e ∈ rep' ++ ev) ->
  Forall (fun e => forall id, delivers id e = 0) ev ->
  (forall i info, outbound_substreams h !! i = Some info -> pending info ->
     (exists info', m !! i = Some info' /\ pending info' /\ req_id info' = req_id info) \/
     (exists e, e ∈ rep' ++ ev /\ about (req_id info) e)) ->
  (forall id, delivered id rep' + open_credit id m
              <= delivered id rep + open_credit id (outbound_substreams h)) ->
  core sub rep' dial (set_outbound m q (set_events ev h)).
Proof.
  intros [] Hm He Hq Hp Hd. constructor; hproj; try done.
  - intros x Hx Hr. destruct (c_kept0 x Hx Hr) as [?|[(i & info & Ei & Hpi & Eid)|(e & Hin & Ha)]].
    + by left.
    + destruct (Hp i info Ei Hpi) as [(info' & ? & ? & ?)|(e & ? & ?)].
      * right; left. exists i, info'. split_and!; [done|done|congruence].
      * right; right. exists e. by rewrite <-Eid.
    + right; right. exists e. auto.
  - intros id. specialize (Hd id). specialize (c_credit0 id). lia.
Qed.

(** A stream is updated in place, reporting [es] at once. *)
Lemma core_out_update sub rep dial h i info info' q es :
  core sub rep dial h -> outbound_substreams h !! i = Some info ->
  out_delay_key info' = out_delay_key info -> req_id info' = req_id info -> good_info info' ->
  dq_timers q = dq_timers (outbound_substreams_delay h) ->
  (pending info' \/ ~ pending info \/ exists e, e ∈ es /\ about (req_id info) e) ->
  (forall id, delivered id es + credit id info' <= credit id info) ->
  core sub (es ++ rep) dial (set_outbound (<[i := info']> (outbound_substreams h)) q h).
Proof.
  intros Hc E Hk Hr Hg Eq Hp Hd.
  apply (core_outbound sub rep (es ++ rep) dial h _ q (events_out h)); [done|..].
  - rewrite Eq. apply (good_outbound_update _ _ _ _ info); [by apply Hc|done..].
  - intros e. rewrite <-app_assoc, (elem_of_app es). auto.
  - apply Hc.
  - intros j x Ex Hx. destruct (decide (j = i)) as [->|Hj].
    + simplify_eq. destruct Hp as [Hp|[Hp|(e & Hin & Ha)]]; [|done|].
      * left. exists info'. by rewrite lookup_insert_eq.
      * right. exists e. split; [|done]. rewrite <-app_assoc. apply elem_of_app. by left.
    + left. exists x. by rewrite lookup_insert_ne.
  - intros id. rewrite (open_credit_update id _ i info) by done. specialize (Hd id).
    assert (delivered id (es ++ rep) = delivered id es + delivered id rep) as ->; [|lia].
    clear. unfold delivered. induction es as [|e es IH]; cbn; [done|]. lia.
Qed.

Lemma credit_nonneg sub rep dial h i info id :
  core sub rep dial h -> outbound_substreams h !! i = Some info -> 0 <= credit id info.
Proof.
  intros Hc E. destruct (go_info _ _ _ (c_out _ _ _ _ Hc) i info E) as [_ Hg].
  unfold credit, good_info in *.
  destruct (out_state info); [|done..]. destruct Hg as (_ & _ & Hg). case_decide; [|done].
  destruct (1 <? _); [destruct Hg as (n & -> & ?); cbn; lia|by rewrite Hg].
Qed.

(** A stream is dropped with its timer, reporting [es] at once. *)
Lemma core_out_drop sub rep dial h i info q es :
  core sub rep dial h -> outbound_substreams h !! i = Some info ->
  dq_timers q = delete (out_delay_key info) (dq_timers (outbound_substreams_delay h)) ->
  (~ pending info \/ exists e, e ∈ es /\ about (req_id info) e) ->
  Forall (fun e => forall id, delivers id e = 0) es ->
  core sub (es ++ rep) dial (set_outbound (delete i (outbound_substreams h)) q h).
Proof.
  intros Hc E Eq Hp Hq.
  apply (core_outbound sub rep (es ++ rep) dial h _ q (events_out h)); [done|..].
  - rewrite Eq. apply good_outbound_delete; [by apply Hc|done].
  - intros e. rewrite <-app_assoc, (elem_of_app es). auto.
  - apply Hc.
  - intros j x Ex Hx. destruct (decide (j = i)) as [->|Hj].
    + simplify_eq. destruct Hp as [Hp|(e & Hin & Ha)]; [done|].
      right. exists e. split; [|done]. rewrite <-app_assoc. apply elem_of_app. by left.
    + left. exists x. by rewrite lookup_delete_ne.
  - intros id. rewrite (open_credit_delete id (outbound_substreams h) i info) by done.
    assert (delivered id (es ++ rep) = delivered id rep) as ->.
    { clear -Hq. unfold delivered. induction Hq as [|e es He _ IH]; cbn; [done|]. rewrite (He id). lia. }
    pose proof (credit_nonneg sub rep dial h i info id Hc E). lia.
Qed.

Section DriveOutbound.
Context (sub : list (Id * Request)) (rep : list event) (dial : list (Id * Request)).

(** The streams of [ids] are open. *)
Definition open (ids : list Z) h : Prop :=
  inv sub rep dial h /\ forall j, j ∈ ids -> is_Some (outbound_substreams h !! j).

Lemma open_insert (ids : list Z) (m : gmap Z outbound_info) i info :
  (forall j, j ∈ ids -> is_Some (m !! j)) -> forall j, j ∈ ids -> is_Some (<[i := info]> m !! j).
Proof. intros Hm j Hj. destruct (decide (j = i)) as [->|]; simplify_map_eq; eauto. Qed.

Lemma open_delete (ids : list Z) (m : gmap Z outbound_info) i :
  i ∉ ids -> (forall j, j ∈ ids -> is_Some (m !! j)) -> forall j, j ∈ ids -> is_Some (delete i m !! j).
Proof. intros Hi Hm j Hj. rewrite lookup_delete_ne by (by intros <-). auto. Qed.

(** Removing the timer of an open stream succeeds. *)
Lemma drop_outbound_eq h i info :
  core sub rep dial h -> outbound_substreams h !! i = Some info ->
  exists q, drop_outbound i info h = (Ok tt, set_outbound (delete i (outbound_substreams h)) q h) /\
    dq_timers q = delete (out_delay_key info) (dq_timers (outbound_substreams_delay h)).
Proof.
  intros Hc E. unfold drop_outbound.
  destruct (dq_remove_present (out_delay_key info) i (outbound_substreams_delay h)) as (q & -> & Eq).
  { eapply good_outbound_timer; [by apply Hc|done]. }
  by exists q.
Qed.

Lemma drop_and_report h i info e :
  inv sub rep dial h -> outbound_substreams h !! i = Some info -> about (req_id info) e -> quiet e ->
  match (drop_outbound i info ;; throw (NotifyBehaviour e) : ST handler hevent unit) h with
  | (Err e', h') => left_with sub rep dial e' h'
  | _ => False
  end.
Proof.
  intros [Hc Hl] E Ha Hq. destruct (drop_outbound_eq h i info Hc E) as (q & Ed & Eq).
  unfold mbind, st_bind. rewrite Ed. split; [|done].
  apply (core_out_drop sub rep dial h i info q [e]); [done..| |].
  - right. exists e. split; [by left|done].
  - by repeat constructor.
Qed.

(** The state of a stream changes and nothing is reported. *)
Lemma store_outbound_ok h i info s r r' ids :
  open ids h -> outbound_substreams h !! i = Some info ->
  out_state info = RequestPendingResponse s r ->
  open ids (store_outbound i info (RequestPendingResponse r' r) (remaining_chunks info) h).2.
Proof.
  intros [[Hc Hl] Ho] E Es. split; [|by apply open_insert]. split; [|done]. hproj.
  destruct (go_info _ _ _ (c_out _ _ _ _ Hc) i info E) as [_ Hg]. unfold good_info in Hg.
  rewrite Es in Hg.
  apply (core_out_update sub rep dial h i info _ (outbound_substreams_delay h) []); try done.
  - by left.
  - intros id. unfold credit. cbn [out_state req_id remaining_chunks delivered foldr]. rewrite Es. lia.
Qed.

(** A stream starts to close after an event about it, reported or queued. *)
Lemma closing_reported h i info s e rem :
  core sub rep dial h -> outbound_substreams h !! i = Some info ->
  about (req_id info) e -> (forall id, delivers id e <= credit id info) ->
  core sub (e :: rep) dial
    (set_outbound (<[i := mkOutbound (Closing s) (out_delay_key info) (proto info) rem (req_id info)]>
       (outbound_substreams h)) (outbound_substreams_delay h) h).
Proof.
  intros Hc E Ha Hd.
  apply (core_out_update sub rep dial h i info _ (outbound_substreams_delay h) [e]); try done.
  - right; right. exists e. split; [by left|done].
  - intros id. specialize (Hd id). unfold credit at 1. cbn. lia.
Qed.

(** Closing a stream when the handler is deactivated. *)
Lemma closing_queued h i info s e ids :
  open ids h -> outbound_substreams h !! i = Some info -> about (req_id info) e -> quiet e ->
  open ids (push e (store_outbound i info (Closing s) (remaining_chunks info) h).2).
Proof.
  intros [[Hc Hl] Ho] E Ha Hq. split; [|hproj; by apply open_insert]. split; [|done].
  set (m := <[i := mkOutbound (Closing s) (out_delay_key info) (proto info) (remaining_chunks info)
                     (req_id info)]> (outbound_substreams h)).
  apply (core_outbound sub rep rep dial h m (outbound_substreams_delay h) (events_out h ++ [e])); [done|..].
  - apply (good_outbound_update _ _ _ _ info); [by apply Hc|done..].
  - intros x. rewrite app_assoc, (elem_of_app _ [e]). auto.
  - apply Forall_app. split; [apply Hc|by repeat constructor].
  - intros j x Ex Hx. destruct (decide (j = i)) as [->|Hj].
    + simplify_eq. right. exists e. split; [|done]. set_solver.
    + left. exists x. unfold m. by rewrite lookup_insert_ne.
  - intros id. unfold m. rewrite (open_credit_update id _ i info) by done.
    pose proof (credit_nonneg sub rep dial h i info id Hc E). unfold credit at 2. cbn. lia.
Qed.

Lemma on_response_ok now h i info s0 s r resp :
  inv sub rep dial h -> outbound_substreams h !! i = Some info ->
  out_state info = RequestPendingResponse s0 r ->
  match on_response error_text now i info s r resp h with
  | (Err e, h') => left_with sub rep dial e h'
  | _ => False
  end.
Proof.
  intros [Hc Hl] E Es.
  assert (about (req_id info) (received error_text info resp)) as Ha by (by destruct resp).
  destruct (go_info _ _ _ (c_out _ _ _ _ Hc) i info E) as [_ Hg].
  assert (forall id, delivers id (received error_text info resp) <= credit id info) as Hd.
  { intros id. pose proof (credit_nonneg _ _ _ _ _ _ id Hc E) as Hn. destruct resp; [|done..].
    unfold credit, good_info in *. rewrite Es in *. cbn. case_decide; [|done].
    destruct Hg as (_ & _ & Hg). destruct (1 <? _); [destruct Hg as (n & -> & ?); cbn; lia|by rewrite Hg]. }
  unfold on_response, mbind, st_bind.
  destruct ((1 <? expected_responses r) && negb (close_after resp)) eqn:Em.
  2:{ split; [by apply closing_reported|done]. }
  apply andb_true_iff in Em as [Em Hs]. unfold good_info in Hg. rewrite Es, Em in Hg.
  destruct Hg as (H0 & Hpr & n & Hn & Hn0). rewrite Hn. unfold saturating_sub.
  destruct (Z.eqb_spec (Z.max 0 (n - 1)) 0) as [Hz|Hz]; [split; [by apply closing_reported|done]|].
  unfold store_outbound, modifyS, reset_outbound. hproj.
  destruct (dq_reset_present (out_delay_key info) (now + resp_timeout h) i (outbound_substreams_delay h))
    as (q & -> & Eq).
  { eapply good_outbound_timer; [by apply Hc|done]. }
  split; [|done].
  apply (core_out_update sub rep dial h i info _ q [received error_text info resp]); try done.
  - unfold good_info. cbn. rewrite Em. split_and!; [done..|]. eexists. split; [done|]. lia.
  - by left.
  - intros id. specialize (Hd id). destruct resp; [|done..]. unfold credit in *. rewrite Es, Hn in *. cbn.
    case_decide; lia.
Qed.

Lemma on_stream_end_ok h i info s r :
  inv sub rep dial h -> outbound_substreams h !! i = Some info ->
  out_state info = RequestPendingResponse s r ->
  match on_stream_end i info r h with
  | (Err e, h') => left_with sub rep dial e h'
  | _ => False
  end.
Proof.
  intros Hi E Es. unfold on_stream_end. destruct (Z.ltb_spec 1 (expected_responses r)) as [Hr|Hr].
  - destruct r; cbn in Hr; try lia. by apply (drop_and_report h i info).
  - by apply (drop_and_report h i info).
Qed.

Lemma on_closing_ok h i info s ids :
  open ids h -> outbound_substreams h !! i = Some info -> out_state info = Closing s -> i ∉ ids ->
  match on_closing i info s h with
  | (Ok _, h') => open ids h'
  | (Err e, h') => left_with sub rep dial e h'
  | (Panic, _) => False
  end.
Proof.
  intros [[Hc Hl] Ho] E Es Hi. unfold on_closing. destruct (out_close s) as [[|r] s'].
  - split; [|by apply open_insert]. split; [|done].
    apply (core_out_update sub rep dial h i info _ (outbound_substreams_delay h) []); try done.
    + right; left. unfold pending. rewrite Es. tauto.
    + intros id. pose proof (credit_nonneg _ _ _ _ _ _ id Hc E). by unfold credit at 1.
  - destruct (decide (proto info = BlocksByRange)) as [Hp|Hp].
    + rewrite Hp. pose proof (drop_and_report h i info
        (Received (EndOfStream (req_id info) BlocksByRangeTermination)) (conj Hc Hl) E eq_refl (fun _ => eq_refl)) as Hr.
      by destruct ((drop_outbound i info ;; _) h) as [[| |]].
    + destruct (drop_outbound_eq h i info Hc E) as (q & Ed & Eq).
      assert (open ids (set_outbound (delete i (outbound_substreams h)) q h)) as Hopen.
      { split; [|by apply open_delete]. split; [|done].
        apply (core_out_drop sub rep dial h i info q []); try done.
        left. unfold pending. rewrite Es. tauto. }
      unfold mbind, st_bind. rewrite Ed. by destruct (proto info).
Qed.

Lemma drive_outbound_ok now deactivated i ids :
  i ∉ ids ->
  triple (open (i :: ids)) (drive_outbound error_text now deactivated i)
         (fun _ => open ids) (left_with sub rep dial).
Proof.
  intros Hi h [Hinv Ho]. destruct (Ho i) as [info E]; [by left|].
  assert (open ids h) as Hopen by (split; [done|]; intros j Hj; apply Ho; by right).
  unfold drive_outbound. rewrite E. destruct (out_state info) as [s r|s|] eqn:Es.
  - destruct deactivated.
    { by apply (closing_queued h i info s (Failed (Outbound (req_id info) (proto info) Disconnected)) ids). }
    destruct (out_next s) as [[|[[resp|e]|]] s'].
    + by apply (store_outbound_ok h i info s r s' ids).
    + pose proof (on_response_ok now h i info s s' r resp Hinv E Es) as Hr.
      by destruct (on_response _ _ _ _ _ _ _ _) as [[| |]].
    + pose proof (drop_and_report h i info (Failed (Outbound (req_id info) (proto info) e)) Hinv E
                    eq_refl (fun _ => eq_refl)) as Hr.
      by destruct ((drop_outbound i info ;; _) h) as [[| |]].
    + pose proof (on_stream_end_ok h i info s r Hinv E Es) as Hr.
      by destruct (on_stream_end _ _ _ _) as [[| |]].
  - by apply on_closing_ok.
  - destruct (go_info _ _ _ (c_out _ _ _ _ (proj1 Hinv)) i info E) as [_ Hg].
    unfold good_info in Hg. by rewrite Es in Hg.
Qed.

Lemma drive_outbounds_ok now deactivated ids :
  NoDup ids ->
  triple (open ids) (drive_outbounds error_text now deactivated ids)
         (fun _ => inv sub rep dial) (left_with sub rep dial).
Proof.
  induction 1 as [|i ids Hi _ IH]; cbn [drive_outbounds].
  - apply triple_ret. by intros h [].
  - eapply triple_bind; [by apply drive_outbound_ok|intros ?; apply IH].
Qed.

Lemma purge_outbound_ok now fuel :
  triple (fun h => inv sub rep dial h /\ (size (dq_timers (outbound_substreams_delay h)) < fuel)%nat)
         (purge_outbound fuel now) (fun _ => inv sub rep dial) (left_with sub rep dial).
Proof.
  intros h [[Hc Hl] Hf]. destruct fuel as [|fuel]; [lia|]. cbn [purge_outbound].
  destruct (dq_poll now (outbound_substreams_delay h)) as [r q] eqn:E. apply dq_poll_takes in E.
  assert (forall q', dq_timers q' = dq_timers (outbound_substreams_delay h) ->
          inv sub rep dial (set_outbound (outbound_substreams h) q' h)) as Hsame.
  { intros q' Eq. split; [|done]. destruct Hc as [[] ?]. constructor; hproj; try done.
    split; [by rewrite Eq|done]. }
  destruct r as [|[[i|[]]|]]; [by apply Hsame| |by apply Hsame|by apply Hsame].
  destruct E as (k & Ek & Eq).
  pose proof (proj1 (go_timers _ _ _ (c_out _ _ _ _ Hc) k i) Ek) as Hk.
  rewrite lookup_fmap in Hk. destruct (outbound_substreams h !! i) as [info|] eqn:Ei; [|done].
  injection Hk as Hk. split; [|done].
  apply (core_out_drop sub rep dial h i info q [_]); [done|done|by rewrite Hk| |by repeat constructor].
  right. eexists. split; [by left|done].
Qed.

End DriveOutbound.

(** ** [poll] *)

Lemma inv_control sub rep dial h s n w :
  inv sub rep dial h -> 0 <= n < IO_ERROR_RETRIES -> inv sub rep dial (set_control s n w h).
Proof. intros [[] Hl] Hn. split; [by constructor|done]. Qed.

Lemma update_waker_ok sub rep dial w X :
  triple (inv sub rep dial) (update_waker w) (fun _ => inv sub rep dial) X.
Proof.
  intros h Hi. assert (inv sub rep dial (set_waker (Some w) h)) as Hw
    by (apply inv_control; [done|apply Hi]).
  unfold update_waker. destruct (waker h) as [old|]; [by destruct (decide (old = w))|done].
Qed.

Lemma take_event_ok sub rep dial :
  triple (inv sub rep dial) take_event (fun _ => inv sub rep dial) (left_with sub rep dial).
Proof.
  intros h [Hc Hl]. unfold take_event. destruct (events_out h) as [|e es] eqn:E; [done|].
  split; [|done]. destruct Hc. rewrite E in *. apply Forall_cons in c_quiet0 as [Hq1 Hq2].
  constructor; hproj; try done.
  - intros x Hx Hp. destruct (c_kept0 x Hx Hp) as [?|[?|(e' & He & Ha)]]; [by left|by right; left|].
    right; right. exists e'. cbn. set_solver.
  - intros id. cbn. rewrite Hq1. apply c_credit0.
Qed.

Lemma check_shutdown_ok sub rep dial now :
  triple (inv sub rep dial) (check_shutdown now) (fun _ => inv sub rep dial) (left_with sub rep dial).
Proof.
  intros h Hi. unfold check_shutdown. destruct (state h) as [|d|]; [done| |done].
  destruct (d <=? now); [|done]. apply inv_control; [done|apply Hi].
Qed.

Lemma establish_ok sub rep dial :
  triple (inv sub rep dial) establish (fun _ => inv sub rep dial) (left_with sub rep dial).
Proof.
  intros h [Hc Hl]. unfold establish. destruct (dial_queue h) as [|[id req] queue] eqn:E; [done|].
  destruct (Z.ltb_spec (dial_negotiated h) (max_dial_negotiated h)) as [Hlt|]; [|done].
  pose proof (c_dials _ _ _ _ Hc) as Hd. pose proof (c_max _ _ _ _ Hc) as Hm.
  rewrite add_chk_ok by lia. split; [|done]. destruct Hc. rewrite E in *.
  assert (queue ++ (id, req) :: dial ≡ₚ ((id, req) :: queue) ++ dial) as Hp
    by (by rewrite <-Permutation_middle).
  constructor; hproj; cbn [dial_of rep_of length]; try done.
  - lia.
  - by rewrite Hp.
  - intros x. setoid_rewrite Hp. apply c_kept0.
  - intros i. replace (asked i (queue ++ (id, req) :: dial)) with (asked i (((id, req) :: queue) ++ dial));
      [done|].
    clear. unfold asked. cbn. induction queue as [|y l IH]; cbn; [done|]. lia.
Qed.

Lemma check_closed_ok sub rep dial :
  triple (inv sub rep dial) check_closed (fun _ => inv sub rep dial) (left_with sub rep dial).
Proof.
  intros h Hi. unfold check_closed. destruct (state h); [done| |done]. by destruct (drained h).
Qed.

Lemma keys_NoDup {V} (m : gmap Z V) : NoDup (keys_of m).
Proof. rewrite keys_of_perm. apply NoDup_fst_map_to_list. Qed.

Lemma keys_open {V} (m : gmap Z V) j : j ∈ keys_of m -> is_Some (m !! j).
Proof.
  rewrite keys_of_perm. intros ([k v] & -> & Hin)%list_elem_of_fmap.
  apply elem_of_map_to_list in Hin. by exists v.
Qed.

Lemma poll_steps_ok sub rep dial now w :
  triple (inv sub rep dial) (poll_steps error_text now w)
         (fun _ => inv sub rep dial) (left_with sub rep dial).
Proof.
  unfold poll_steps.
  eapply triple_bind; [apply update_waker_ok|intros ?].
  eapply triple_bind; [apply take_event_ok|intros ?].
  eapply triple_bind; [apply check_shutdown_ok|intros ?].
  apply triple_get_bind. intros h1 H1.
  eapply triple_bind.
  { eapply triple_weaken; [apply purge_inbound_ok| |by intros ??].
    intros h ->. split; [done|lia]. }
  intros ?. apply triple_get_bind. intros h2 H2.
  eapply triple_bind.
  { eapply triple_weaken; [apply purge_outbound_ok| |by intros ??].
    intros h ->. split; [done|lia]. }
  intros ?. apply triple_get_bind. intros h3 H3. cbv zeta.
  eapply triple_bind.
  { eapply triple_weaken; [apply (drive_inbounds_ok sub rep dial _ _ _ _ []); [apply keys_NoDup|set_solver]
                          | |intros ? ? Hh; exact Hh].
    by intros h ->. }
  intros removed. eapply triple_bind; [apply remove_inbound_ok|intros ?].
  apply triple_get_bind. intros h4 H4.
  eapply triple_bind.
  { eapply triple_weaken; [apply drive_outbounds_ok; apply keys_NoDup| |by intros ??].
    intros h ->. split; [done|]. apply keys_open. }
  intros ?. eapply triple_bind; [apply establish_ok|intros ?; apply check_closed_ok].
Qed.

Lemma poll_ok sub rep dial now w h :
  inv sub rep dial h ->
  match poll error_text now w h with
  | (Ok (Some e), h') => left_with sub rep dial e h'
  | (Ok None, h') => inv sub rep dial h'
  | _ => False
  end.
Proof.
  intros Hi. pose proof (poll_steps_ok sub rep dial now w h Hi) as Hp. unfold poll.
  by destruct (poll_steps error_text now w h) as [[| |]].
Qed.

(** ** The other operations *)

Lemma asked_app id l l' : asked id (l ++ l') = asked id l + asked id l'.
Proof. unfold asked. induction l as [|x l IH]; cbn; [done|]. lia. Qed.

Lemma asked_cons id x l :
  asked id (x :: l) = (if decide (x.1 = id) then expected_responses x.2 else 0) + asked id l.
Proof. done. Qed.

Lemma asked_nonneg id l : Forall (fun x => 0 <= expected_responses x.2) l -> 0 <= asked id l.
Proof. induction 1 as [|x l Hx _ IH]; cbn; [done|]. fold (asked id l). case_decide; lia. Qed.

Lemma asked_perm id l l' : l ≡ₚ l' -> asked id l = asked id l'.
Proof. unfold asked. induction 1; cbn; lia. Qed.

(** The queues of dials change: what leaves them has an event about it, which
    is queued. *)
Lemma core_dials sub sub' rep dial dial' h q n ev :
  core sub rep dial h ->
  leaked + Z.of_nat (length dial') <= n <= max_dial_negotiated h ->
  Forall (fun e => forall id, delivers id e = 0) ev ->
  (forall e, e ∈ events_out h -> e ∈ ev) ->
  Forall (fun x => 0 <= expected_responses x.2) (q ++ dial') ->
  (forall x, x ∈ sub' -> x ∈ sub \/ x ∈ q) ->
  (forall x, x ∈ dial_queue h ++ dial -> 0 < expected_responses x.2 ->
     x ∈ q ++ dial' \/ exists e, e ∈ ev /\ about x.1 e) ->
  (forall id, asked id (q ++ dial') + asked id sub <= asked id (dial_queue h ++ dial) + asked id sub') ->
  core sub' rep dial' (set_dials q n (set_events ev h)).
Proof.
  intros [] Hn Hq He Hx Hs Hk Ha. constructor; hproj; try done.
  - intros x Hin Hp. destruct (Hs x Hin) as [Hsub|Hq']; [|left; set_solver].
    destruct (c_kept0 x Hsub Hp) as [Hd|[?|(e & Hin' & Hab)]].
    + destruct (Hk x Hd Hp) as [?|(e & ? & ?)]; [by left|]. right; right. exists e. set_solver.
    + by right; left.
    + right; right. exists e. split; [|done]. apply elem_of_app in Hin' as [?|?%He]; set_solver.
  - intros id. specialize (c_credit0 id). specialize (Ha id). lia.
Qed.

Lemma shutdown_ok sub rep dial now r h : inv sub rep dial h -> inv sub rep dial (shutdown now r h).
Proof.
  intros [Hc Hl]. unfold shutdown. destruct (state h); [|done..].
  set (q := match r with Some (id, r) => [(id, GoodbyeReq r)] | None => [] end).
  assert (forall id, asked id q = 0) as Hq.
  { intros id. destruct r as [[i r]|]; cbn; [by case_decide|done]. }
  pose proof (c_expected _ _ _ _ Hc) as He. apply Forall_app in He as [He1 He2].
  apply inv_control; [|apply Hc]. split; [|done].
  apply (core_dials sub sub rep dial dial h q (dial_negotiated h)); [done|apply Hc|..].
  - apply Forall_app. split; [apply Hc|]. by apply Forall_map, Forall_true.
  - intros e. rewrite elem_of_app. auto.
  - apply Forall_app. split; [|done]. destruct r as [[i r]|]; by repeat constructor.
  - auto.
  - intros x [Hx|Hx]%elem_of_app Hp; [right|left; set_solver].
    exists (failed_outbound Disconnected x). split; [|done]. apply elem_of_app. right.
    apply list_elem_of_fmap. exists x. by rewrite elem_of_reverse.
  - intros id. rewrite !asked_app, Hq. pose proof (asked_nonneg id _ He1). lia.
Qed.

Lemma send_request_ok sub rep dial id req h :
  inv sub rep dial h -> 0 <= expected_responses req ->
  inv ((id, req) :: sub) rep dial (send_request id req h).
Proof.
  intros [Hc Hl] Hr. unfold send_request.
  assert (inv ((id, req) :: sub) rep dial (push (failed_outbound Disconnected (id, req)) h)) as Hfail.
  { split; [|done]. destruct Hc. constructor; hproj; try done.
    - apply Forall_app. split; [done|]. by repeat constructor.
    - intros x [->|Hx]%elem_of_cons Hp.
      + right; right. exists (failed_outbound Disconnected (id, req)). set_solver.
      + destruct (c_kept0 x Hx Hp) as [?|[?|(e & ? & ?)]]; [by left|by right; left|].
        right; right. exists e. set_solver.
    - intros i. cbn. fold (asked i sub). specialize (c_credit0 i). case_decide; lia. }
  destruct (state h); [|done..]. split; [|done].
  pose proof (c_expected _ _ _ _ Hc) as He.
  apply (core_dials sub _ rep dial dial h _ (dial_negotiated h) (events_out h)); [done|apply Hc|apply Hc|..].
  - done.
  - rewrite <-app_assoc. cbn. apply Forall_app in He as [He1 He2].
    apply Forall_app. split; [done|]. by constructor.
  - set_solver.
  - set_solver.
  - intros i. rewrite !asked_app. cbn. fold (asked i sub). lia.
Qed.

Lemma send_response_ok sub rep dial i resp h :
  inv sub rep dial h -> inv sub rep dial (send_response error_text i resp h).
Proof.
  intros [Hc Hl]. unfold send_response.
  destruct (inbound_substreams h !! i) as [info|] eqn:E; [|done].
  set (h1 := match resp with ErrorResponse _ _ => _ | _ => h end).
  assert (inv sub rep dial h1 /\ inbound_substreams h1 = inbound_substreams h) as [[Hc1 Hl1] E1].
  { unfold h1. destruct resp; [done| |done]. split; [|done]. split; [by apply core_push|done]. }
  destruct (state h1); [..|done]; split; [by apply core_inbound| |by apply core_inbound| ];
    unfold live_inbound in *; cbn [foldr] in *; hproj; rewrite E1 in *;
    (apply (good_inbound_update _ _ _ _ info); [done..|]); exact (proj2 (gi_info _ _ _ Hl1 i info E)).
Qed.

Lemma on_behaviour_event_ok sub rep dial now e h :
  inv sub rep dial h ->
  match e with SendRequest _ req => 0 <= expected_responses req | _ => True end ->
  inv (match e with SendRequest id req => [(id, req)] | _ => [] end ++ sub) rep dial
      (on_behaviour_event error_text now e h).2.
Proof.
  intros Hi He. destruct e; cbn; [by apply send_request_ok|by apply send_response_ok|by apply shutdown_ok].
Qed.

Lemma good_inbound_mono m timers cur cur' :
  cur <= cur' -> good_inbound m timers cur -> good_inbound m timers cur'.
Proof. intros Hc [Ht Hs Hi]. split; [done|done|]. intros i x [? ?]%Hi. split; [lia|done]. Qed.

Lemma good_inbound_insert m timers cur k info :
  good_inbound m timers cur -> timers !! k = None -> delay_key info = Some k ->
  good_state (in_state info) -> Z.of_nat (size m) < MAX_INBOUND_SUBSTREAMS ->
  good_inbound (<[cur := info]> m) (<[k := cur]> timers) (cur + 1).
Proof.
  intros [Ht Hs Hi] Ek Hk Hp Hsz.
  assert (m !! cur = None) as Hcur.
  { destruct (m !! cur) as [x|] eqn:E; [|done]. apply Hi in E. lia. }
  split.
  - rewrite omap_insert, Hk. apply inverse_insert; [done|done|]. by rewrite lookup_omap, Hcur.
  - rewrite map_size_insert_None by done. lia.
  - intros i x [[<- <-]|[_ [? ?]%Hi]]%lookup_insert_Some; (split; [lia|done]).
Qed.

Lemma core_current sub rep dial h i o :
  core sub rep dial h -> 0 <= i -> current_outbound_substream_id h = o ->
  core sub rep dial (set_current i o h).
Proof. intros [] Hi <-. constructor; try done. by split; [|apply c_ids0]. Qed.

Lemma accept_request_ok sub rep dial now req h :
  state h = Active -> 0 <= current_inbound_substream_id h ->
  inv sub rep dial (set_current (current_inbound_substream_id h + 1) (current_outbound_substream_id h) h) ->
  match accept_request now req h with
  | (Ok _, h') => inv sub rep dial h'
  | _ => 2 ^ 64 - 1 <= current_inbound_substream_id h
  end.
Proof.
  intros Hs H0 Hi. unfold accept_request.
  set (h1 := match req with GoodbyeReq _ => shutdown now None h | _ => h end).
  assert (current_inbound_substream_id h1 = current_inbound_substream_id h) as E1
    by (unfold h1, shutdown; rewrite Hs; by destruct req).
  hproj. unfold add_chk, chk. rewrite E1.
  destruct (in_width 64 _) eqn:Ew; [|unfold in_width in Ew; lia].
  set (h2 := set_current (current_inbound_substream_id h + 1) (current_outbound_substream_id h) h) in Hi.
  assert (inv sub rep dial (match req with GoodbyeReq _ => shutdown now None h2 | _ => h2 end)) as [Hc Hl]
    by (destruct req; try done; by apply shutdown_ok).
  apply (core_push _ _ _ _ (Received (ReceivedRequest (current_inbound_substream_id h) req))) in Hc; [|done].
  unfold h1, shutdown, h2 in *. hproj. rewrite Hs in *. by destruct req.
Qed.

Lemma negotiated_inbound_ok sub rep dial now req s h :
  inv sub rep dial h ->
  match on_fully_negotiated_inbound now (req, s) h with
  | (Ok _, h') => inv sub rep dial h'
  | _ => 2 ^ 64 - 1 <= current_inbound_substream_id h
  end.
Proof.
  intros [Hc Hl]. unfold on_fully_negotiated_inbound. destruct (state h) eqn:Es; [|done..].
  pose proof (c_ids _ _ _ _ Hc) as Hids. destruct (0 <? expected_responses req).
  - destruct (Z.ltb_spec (Z.of_nat (size (inbound_substreams h))) MAX_INBOUND_SUBSTREAMS).
    + destruct (dq_insert _ _ (inbound_substreams_delay h)) as [k q] eqn:Eq.
      apply dq_insert_fresh in Eq as [Ek Eq].
      apply (accept_request_ok sub rep dial now req (set_inbound _ q h)); [done|hproj; lia|]. split.
      * apply core_current; [by apply core_inbound|hproj; lia|done].
      * unfold live_inbound. hproj. cbn [foldr]. rewrite Eq. by apply good_inbound_insert.
    + apply shutdown_ok. split; [by apply core_push|done].
  - apply accept_request_ok; [done|lia|]. split; [apply core_current; [done|lia|done]|].
    eapply good_inbound_mono; [|exact Hl]. hproj. lia.
Qed.

(** ** Answers to dials *)

Lemma good_outbound_insert m timers cur k (info : outbound_info) :
  good_outbound m timers cur -> timers !! k = None -> out_delay_key info = k -> good_info info ->
  good_outbound (<[cur := info]> m) (<[k := cur]> timers) (cur + 1) /\ m !! cur = None.
Proof.
  intros [Ht Hi] Ek Hk Hg.
  assert (m !! cur = None) as Hcur.
  { destruct (m !! cur) as [x|] eqn:E; [|done]. apply Hi in E. lia. }
  split; [split|done].
  - rewrite fmap_insert, Hk. apply inverse_insert; [done|done|]. by rewrite lookup_fmap, Hcur.
  - intros i x [[<- <-]|[_ [? ?]%Hi]]%lookup_insert_Some; (split; [lia|done]).
Qed.

Section Dials.
Context (sub : list (Id * Request)) (rep : list event) (dial1 dial2 : list (Id * Request)).
Context (id : Id) (req : Request).
Abbreviation before := (dial1 ++ (id, req) :: dial2).
Abbreviation after := (dial1 ++ dial2).

Lemma before_perm q : q ++ before ≡ₚ (id, req) :: q ++ after.
Proof. by rewrite !Permutation_middle, (app_assoc q), <-Permutation_middle, <-app_assoc. Qed.

(** A dial is in progress, so that a slot can be given back. *)
Lemma slot_taken h : core sub rep before h -> 0 <= dial_negotiated h - 1 < 2 ^ 32.
Proof.
  intros Hc. pose proof (c_dials _ _ _ _ Hc) as Hd. rewrite (c_max _ _ _ _ Hc) in Hd.
  rewrite length_app in Hd. cbn in Hd. lia.
Qed.

(** The request waits on a new substream. *)
Lemma core_open h q k s :
  core sub rep before h -> 0 < expected_responses req ->
  dq_timers (outbound_substreams_delay h) !! k = None ->
  dq_timers q = <[k := current_outbound_substream_id h]> (dq_timers (outbound_substreams_delay h)) ->
  core sub rep after
    (set_current (current_inbound_substream_id h) (current_outbound_substream_id h + 1)
      (set_outbound
        (<[current_outbound_substream_id h :=
            mkOutbound (RequestPendingResponse s req) k (protocol (request_protocol req))
              (if 1 <? expected_responses req then Some (expected_responses req) else None) id]>
           (outbound_substreams h)) q
        (set_dials (dial_queue h) (dial_negotiated h - 1) h))).
Proof.
  intros Hc Hr Ek Eq. set (info := mkOutbound _ _ _ _ _).
  assert (good_info info) as Hg.
  { unfold good_info. cbn. split_and!; [done..|]. destruct (Z.ltb_spec 1 (expected_responses req)); [|done].
    eexists. split; [done|]. lia. }
  assert (credit id info = expected_responses req) as Hcr.
  { unfold credit. cbn. rewrite decide_True by done.
    destruct (Z.ltb_spec 1 (expected_responses req)); cbn; lia. }
  destruct (good_outbound_insert _ _ _ k info (c_out _ _ _ _ Hc) Ek eq_refl Hg) as [Ho Hn].
  destruct Hc. rewrite before_perm in c_expected0. apply Forall_cons in c_expected0 as [_ Hexp].
  constructor; hproj; try done.
  - by rewrite Eq.
  - rewrite length_app in *. cbn in *. lia.
  - lia.
  - intros x Hx Hp. destruct (c_kept0 x Hx Hp) as [Hin|[(i & y & Ei & Hy)|?]]; [|right; left|by right; right].
    + rewrite before_perm in Hin. apply elem_of_cons in Hin as [->|?]; [|by left].
      right; left. exists (current_outbound_substream_id h), info. by rewrite lookup_insert_eq.
    + exists i, y. rewrite lookup_insert_ne; [done|]. intros <-. congruence.
  - intros i. specialize (c_credit0 i). rewrite (asked_perm _ _ _ (before_perm _)) in c_credit0.
    rewrite open_credit_insert by done. rewrite asked_cons in c_credit0. cbn [fst snd] in c_credit0.
    case_decide as Hi; [subst i; lia|].
    assert (credit i info = 0) as ->; [|lia]. unfold credit. cbn. by rewrite decide_False.
Qed.

(** A dial leaves the swarm: its request is queued again, or reported, or
    needs no response. *)
Lemma core_answer h q n ev :
  core sub rep before h ->
  leaked + Z.of_nat (length after) <= n <= max_dial_negotiated h ->
  Forall (fun e => forall i, delivers i e = 0) ev ->
  (forall e, e ∈ events_out h -> e ∈ ev) ->
  q = dial_queue h ++ [(id, req)] \/
  q = dial_queue h /\ (expected_responses req <= 0 \/ exists e, e ∈ ev /\ about id e) ->
  core sub rep after (set_dials q n (set_events ev h)).
Proof.
  intros Hc Hn Hq He Hcase. pose proof (c_expected _ _ _ _ Hc) as Hexp. rewrite before_perm in Hexp.
  pose proof Hexp as [Hr Hexp']%Forall_cons. cbn in Hr.
  assert (q ++ after ≡ₚ (id, req) :: dial_queue h ++ after \/ q = dial_queue h) as Hperm.
  { destruct Hcase as [->|[-> _]]; [left|by right]. rewrite <-app_assoc. cbn. by rewrite <-Permutation_middle. }
  apply (core_dials sub sub rep before after h q n ev); [done..| | | |].
  - destruct Hperm as [-> | ->]; done.
  - auto.
  - intros x Hx Hp. rewrite before_perm in Hx. destruct Hperm as [Hperm| ->]; [left; by rewrite Hperm|].
    apply elem_of_cons in Hx as [->|Hx]; [|by left]. cbn in Hp.
    destruct Hcase as [Hbad|[_ [?|?]]]; [|lia|by right].
    exfalso. apply (f_equal length) in Hbad. rewrite length_app in Hbad. cbn in Hbad. lia.
  - intros i. rewrite (asked_perm _ _ _ (before_perm _)).
    destruct Hperm as [Hperm| ->]; [rewrite (asked_perm _ _ _ Hperm)|]; rewrite ?asked_cons; cbn [fst snd];
      [lia|case_decide; lia].
Qed.

Lemma negotiated_outbound_ok now s h :
  inv sub rep before h ->
  match on_fully_negotiated_outbound now s (id, req) h with
  | (Ok _, h') => inv sub rep after h'
  | _ => 2 ^ 64 - 1 <= current_outbound_substream_id h
  end.
Proof.
  intros Hi. unfold on_fully_negotiated_outbound.
  rewrite sub_chk_ok by (apply slot_taken, Hi).
  apply (inv_control _ _ _ _ (state h) 0 (waker h)) in Hi; [|done].
  change (set_retries 0 (set_dials (dial_queue h) (dial_negotiated h - 1) h)) with
    (set_dials (dial_queue h) (dial_negotiated h - 1) (set_retries 0 h)).
  change (dial_queue h) with (dial_queue (set_retries 0 h)).
  change (dial_negotiated h) with (dial_negotiated (set_retries 0 h)).
  change (current_outbound_substream_id h) with (current_outbound_substream_id (set_retries 0 h)).
  unfold set_retries in *. revert Hi. generalize (set_control (state h) 0 (waker h) h). clear h.
  intros h [Hc Hl].
  set (f := match state (set_dials (dial_queue h) (dial_negotiated h - 1) h) with
            | Deactivated => push (Failed (Outbound id (protocol (request_protocol req)) Disconnected))
            | _ => fun h => h
            end).
  assert (forall h, core sub rep before h -> core sub rep before (f h)) as Hf
    by (intros h0 Hc0; unfold f; destruct (state _); [done|done|by apply core_push]).
  replace (match state _ with Deactivated => _ | _ => _ end) with
    (set_dials (dial_queue (f h)) (dial_negotiated (f h) - 1) (f h))
    by (unfold f; hproj; by destruct (state h)).
  assert (live_inbound [] (f h) /\ current_outbound_substream_id (f h) = current_outbound_substream_id h)
    as [Hl' Ecur] by (unfold f; by destruct (state _)).
  rewrite <-Ecur. revert Hl'. apply Hf in Hc. revert Hc. generalize (f h). clear -leaked_nonneg.
  intros h Hc Hl. pose proof (c_ids _ _ _ _ Hc) as Hids. hproj.
  destruct (Z.ltb_spec 0 (expected_responses req)) as [Hr|Hr].
  - destruct (dq_insert _ _ (outbound_substreams_delay h)) as [k q] eqn:Eq.
    apply dq_insert_fresh in Eq as [Ek Eq]. unfold add_chk, chk.
    destruct (in_width 64 _) eqn:Ew; [|unfold in_width in Ew; lia].
    split; [by apply core_open|done].
  - split; [|done]. apply (core_answer h _ _ (events_out h)); [done| |apply Hc|done|right; auto].
    pose proof (c_dials _ _ _ _ Hc) as Hd. rewrite length_app in *. cbn in Hd. lia.
Qed.

Lemma fail_dial_ok error h :
  inv sub rep before (set_retries 0 h) ->
  match fail_dial (id, req) error h with (Ok _, h') => inv sub rep after h' | _ => False end.
Proof.
  intros [Hc Hl]. unfold fail_dial.
  rewrite sub_chk_ok by (apply (slot_taken (set_retries 0 h)), Hc). split; [|done].
  pose proof (c_dials _ _ _ _ Hc) as Hd. rewrite length_app in Hd. cbn in Hd.
  apply (core_answer (set_retries 0 h) (dial_queue h) (dial_negotiated h - 1)
           (events_out h ++ [failed_outbound error (id, req)])); [done|..].
  - rewrite length_app. hproj. lia.
  - apply Forall_app. split; [apply Hc|by repeat constructor].
  - set_solver.
  - right. split; [done|]. right. exists (failed_outbound error (id, req)). set_solver.
Qed.

(** A retry gives no slot back. *)
Lemma retry_dial_ok error h :
  inv sub rep before h ->
  match retry_dial (id, req) error h with (Ok _, h') => inv sub rep after h' | _ => False end.
Proof.
  intros Hi. unfold retry_dial. pose proof (c_retries _ _ _ _ (proj1 Hi)) as Hr.
  unfold IO_ERROR_RETRIES in *. rewrite add_chk_ok by lia.
  destruct (Z.ltb_spec (outbound_io_error_retries h + 1) 3) as [Hlt|Hge].
  - apply (inv_control _ _ _ _ (state h) (outbound_io_error_retries h + 1) (waker h)) in Hi;
      [|unfold IO_ERROR_RETRIES; lia].
    fold (set_retries (outbound_io_error_retries h + 1) h) in Hi. revert Hi.
    generalize (set_retries (outbound_io_error_retries h + 1) h). clear -leaked_nonneg. intros h [Hc Hl].
    pose proof (c_dials _ _ _ _ Hc) as Hd. rewrite length_app in Hd. cbn in Hd.
    assert (leaked + Z.of_nat (length after) <= dial_negotiated h <= max_dial_negotiated h)
      by (rewrite length_app; lia).
    assert (core sub rep after (push (failed_outbound Disconnected (id, req)) h)) as Hpush.
    { apply (core_answer h (dial_queue h) (dial_negotiated h)
               (events_out h ++ [failed_outbound Disconnected (id, req)])); [done|done|..].
      - apply Forall_app. split; [apply Hc|by repeat constructor].
      - set_solver.
      - right. split; [done|]. right. exists (failed_outbound Disconnected (id, req)). set_solver. }
    unfold send_request. cbn [fst snd]. destruct (state h); split; try done.
    apply (core_answer h _ _ (events_out h)); [done|done|apply Hc|done|by left].
  - apply fail_dial_ok. exact (inv_control _ _ _ _ (state h) 0 (waker h) Hi ltac:(done)).
Qed.

Lemma dial_error_ok error h :
  inv sub rep before h ->
  match on_dial_upgrade_error (id, req) error h with (Ok _, h') => inv sub rep after h' | _ => False end.
Proof.
  intros Hi. assert (inv sub rep before (set_retries 0 h)) as H0
    by (by apply (inv_control _ _ _ _ (state h) 0 (waker h))).
  destruct error as [|[]| |]; cbn [on_dial_upgrade_error];
    first [apply (fail_dial_ok _ h H0)|apply (retry_dial_ok _ h Hi)].
Qed.

End Dials.
End Leaked.

(** ** Runs *)

(** A handler, the requests it was given, the events it reported, and the
    dials the swarm has not answered. *)
Record config := mkConfig {
  submitted : list (Id * Request);
  reported : list event;
  dialing : list (Id * Request);
  handler_of : handler;
}.

Definition requests_of (e : RPCSend Id SubstreamId) : list (Id * Request) :=
  match e with SendRequest id req => [(id, req)] | _ => [] end.

Definition after_poll (o : option hevent) (c : config) (h : handler) : config :=
  match o with
  | Some e => mkConfig (submitted c) (rep_of e (reported c)) (dial_of e (dialing c)) h
  | None => mkConfig (submitted c) (reported c) (dialing c) h
  end.

(** What can happen: the node sends something, the peer opens a substream, the
    swarm answers a dial, or polls. Counts are 64-bit numbers. *)
Inductive happens (c : config) : config -> Prop :=
| happens_event now e :
    Forall (fun x => 0 <= expected_responses x.2) (requests_of e) ->
    happens c (mkConfig (requests_of e ++ submitted c) (reported c) (dialing c)
                 (on_behaviour_event error_text now e (handler_of c)).2)
| happens_inbound now req s h' :
    on_connection_event now (FullyNegotiatedInbound (req, s)) (handler_of c) = (Ok tt, h') ->
    happens c (mkConfig (submitted c) (reported c) (dialing c) h')
| happens_outbound now s id req dial1 dial2 h' :
    dialing c = dial1 ++ (id, req) :: dial2 ->
    on_connection_event now (FullyNegotiatedOutbound s (id, req)) (handler_of c) = (Ok tt, h') ->
    happens c (mkConfig (submitted c) (reported c) (dial1 ++ dial2) h')
| happens_dial_error now error id req dial1 dial2 h' :
    dialing c = dial1 ++ (id, req) :: dial2 ->
    on_connection_event now (DialUpgradeError (id, req) error) (handler_of c) = (Ok tt, h') ->
    happens c (mkConfig (submitted c) (reported c) (dial1 ++ dial2) h')
| happens_poll now w o h' :
    poll error_text now w (handler_of c) = (Ok o, h') -> happens c (after_poll o c h').

Definition started (max_rpc_size resp_timeout : Z) : config :=
  mkConfig [] [] [] (new max_rpc_size resp_timeout).

Definition reachable (c : config) : Prop :=
  exists size timeout, rtc happens (started size timeout) c.

Definition config_inv (leaked : Z) (c : config) : Prop := inv leaked (submitted c) (reported c) (dialing c) (handler_of c).

Lemma started_inv size timeout : config_inv 0 (started size timeout).
Proof.
  split.
  - constructor; cbn; try done.
    + split; [rewrite dq_new_empty, fmap_empty; apply inverse_empty|]. intros i x. by rewrite lookup_empty.
    + intros x Hx. by apply elem_of_nil in Hx.
  - split; cbn.
    + rewrite dq_new_empty, omap_empty. apply inverse_empty.
    + by rewrite map_size_empty.
    + intros i x. by rewrite lookup_empty.
Qed.

Lemma happens_inv leaked c c' :
  0 <= leaked -> config_inv leaked c -> happens c c' -> config_inv leaked c'.
Proof.
  intros Hl Hi Hs. destruct Hs as [now e He|now req s h' Hr|now s id req d1 d2 h' Hd Hr
    |now error id req d1 d2 h' Hd Hr|now w o h' Hr]; unfold config_inv in *; cbn.
  - apply on_behaviour_event_ok; [done..|]. destruct e; [|done..]. exact (Forall_inv He).
  - apply (negotiated_inbound_ok leaked Hl _ _ _ now req s) in Hi. cbn in Hr. by rewrite Hr in Hi.
  - rewrite Hd in Hi. apply (negotiated_outbound_ok leaked Hl _ _ _ _ _ _ now s) in Hi. cbn in Hr. by rewrite Hr in Hi.
  - rewrite Hd in Hi. apply (dial_error_ok leaked Hl _ _ _ _ _ _ error) in Hi. cbn in Hr. by rewrite Hr in Hi.
  - apply (poll_ok leaked Hl _ _ _ now w) in Hi. rewrite Hr in Hi. by destruct o as [e|].
Qed.

Lemma reachable_inv c : reachable c -> config_inv 0 c.
Proof.
  intros (size & timeout & Hr). apply (rtc_invariant happens (config_inv 0) (started size timeout));
    [|done|apply started_inv].
  intros x y Hs Hi. by eapply happens_inv.
Qed.

(** ** Properties *)

(** C22: The limits of a handler, in every state it reaches: at most 32 inbound
    substreams, at most eight dials, a retry counter below its bound; every
    open outbound substream has its own running timer, and every running timer
    of the inbound side belongs to the substream that keeps its key. *)
Theorem handler_limits c :
  reachable c ->
  let h := handler_of c in
  Z.of_nat (size (inbound_substreams h)) <= 32 /\
  Z.of_nat (length (dialing c)) <= dial_negotiated h <= 8 /\
  0 <= outbound_io_error_retries h < 3 /\
  (forall i info, outbound_substreams h !! i = Some info ->
     dq_timers (outbound_substreams_delay h) !! out_delay_key info = Some i) /\
  (forall i k, dq_timers (inbound_substreams_delay h) !! k = Some i <->
     exists info, inbound_substreams h !! i = Some info /\ delay_key info = Some k).
Proof.
  intros [Hc Hl]%reachable_inv h. split_and!.
  - apply (gi_size _ _ _ Hl).
  - pose proof (c_dials _ _ _ _ _ Hc). unfold h. lia.
  - pose proof (c_dials _ _ _ _ _ Hc). pose proof (c_max _ _ _ _ _ Hc). unfold h. lia.
  - apply Hc.
  - apply Hc.
  - intros i info. eapply good_outbound_timer, Hc.
  - intros i k. unfold h. rewrite (gi_timers _ _ _ Hl k i), lookup_omap. cbn [foldr].
    destruct (inbound_substreams (handler_of c) !! i) as [info|]; cbn; naive_solver.
Qed.

(** C21: Whatever the peer, the network and the clock do, no step of a handler
    panics: no timer is removed twice, no substream is found poisoned, no
    counter of dials or retries leaves its width, no request without a stream
    of responses is asked for its termination, and no message handed to the
    codec is one it cannot encode. Only the numbering of substreams can run out,
    after 2^64 of them. *)
Theorem handler_never_panics `{Codec.SszLib, Codec.FrameLib, BlockLib} c :
  reachable c ->
  let h := handler_of c in
  (forall i info s m last max dst, inbound_substreams h !! i = Some info ->
     in_state info = Busy (Sending s m last) -> Codec.encode_coded_response max m dst <> Panic) /\
  (forall now w, (poll error_text now w h).1 <> Panic) /\
  (forall now req s, current_inbound_substream_id h < 2 ^ 64 - 1 ->
     (on_connection_event now (FullyNegotiatedInbound (req, s)) h).1 <> Panic) /\
  (forall now x, x ∈ dialing c ->
     (forall error, (on_connection_event now (DialUpgradeError x error) h).1 <> Panic) /\
     (forall s, current_outbound_substream_id h < 2 ^ 64 - 1 ->
        (on_connection_event now (FullyNegotiatedOutbound s x) h).1 <> Panic)).
Proof.
  intros Hi%reachable_inv h. unfold config_inv in Hi. fold h in Hi. split_and!.
  - intros i info s m last max dst E Es Hp%Codec.encode_panics_iff.
    destruct (gi_info _ _ _ (proj2 Hi) i info E) as [_ Hg]. by rewrite Es in Hg.
  - intros now w. pose proof (poll_ok 0 ltac:(done) _ _ _ now w h Hi) as Hp.
    by destruct (poll error_text now w h) as [[| |]].
  - intros now req s Hcur. pose proof (negotiated_inbound_ok 0 ltac:(done) _ _ _ now req s h Hi) as Hp.
    cbn. destruct (on_fully_negotiated_inbound now (req, s) h) as [[| |]]; cbn; [done|done|lia].
  - intros now [id req] (d1 & d2 & Hd)%list_elem_of_split. rewrite Hd in Hi. split.
    + intros error. pose proof (dial_error_ok 0 ltac:(done) _ _ _ _ _ _ error h Hi) as Hp.
      cbn. by destruct (on_dial_upgrade_error (id, req) error h) as [[| |]].
    + intros s Hcur. pose proof (negotiated_outbound_ok 0 ltac:(done) _ _ _ _ _ _ now s h Hi) as Hp.
      cbn. destruct (on_fully_negotiated_outbound now s (id, req) h) as [[| |]]; cbn; [done|done|lia].
Qed.

(** C23: No request that expects a response is forgotten: at any time it is queued,
    being dialled, waits on a substream with a running timer, or an event about
    it, a response or a failure, has been or is about to be reported. *)
Theorem no_request_forgotten c id req :
  reachable c -> (id, req) ∈ submitted c -> 0 < expected_responses req ->
  let h := handler_of c in
  (id, req) ∈ dial_queue h \/ (id, req) ∈ dialing c \/
  (exists i info, outbound_substreams h !! i = Some info /\ req_id info = id /\
     dq_timers (outbound_substreams_delay h) !! out_delay_key info = Some i) \/
  (exists e, e ∈ reported c ++ events_out h /\ about id e).
Proof.
  intros [Hc _]%reachable_inv Hin Hr h.
  destruct (c_kept _ _ _ _ _ Hc (id, req) Hin Hr) as [Hd|[(i & info & E & _ & Hid)|?]].
  - apply elem_of_app in Hd as [?|?]; auto.
  - right; right; left. exists i, info. split_and!; [done|done|]. eapply good_outbound_timer; [apply Hc|done].
  - by right; right; right.
Qed.

Lemma open_credit_nonneg leaked sub rep dial h id :
  core leaked sub rep dial h -> 0 <= open_credit id (outbound_substreams h).
Proof.
  intros Hc. unfold open_credit.
  assert (forall i info, outbound_substreams h !! i = Some info -> 0 <= credit id info) as Hn
    by (intros i info E; by eapply credit_nonneg).
  revert Hn. generalize (outbound_substreams h). clear.
  intros m. induction m as [|i x m Hi IH] using map_ind; intros Hn; [by rewrite map_fold_empty|].
  rewrite map_fold_insert_L; [|intros; lia|done].
  pose proof (Hn i x ltac:(by rewrite lookup_insert_eq)).
  enough (0 <= map_fold (fun _ info n => credit id info + n) 0 m) by lia.
  apply IH. intros j y Hj. apply (Hn j). rewrite lookup_insert_ne; [done|]. intros <-. congruence.
Qed.

(** C24: A peer cannot flood the node: of the responses to the requests with one id,
    no more are handed to the node than the requests asked for. *)
Theorem responses_bounded c id :
  reachable c -> delivered id (reported c) <= asked id (submitted c).
Proof.
  intros [Hc _]%reachable_inv. pose proof (c_credit _ _ _ _ _ Hc id) as Hcr.
  pose proof (open_credit_nonneg _ _ _ _ _ id Hc) as Ho.
  pose proof (asked_nonneg id _ (c_expected _ _ _ _ _ Hc)). lia.
Qed.

(** Slots that no dial in progress holds. *)
Definition lost_slots (c : config) : Z :=
  dial_negotiated (handler_of c) - Z.of_nat (length (dialing c)).

(** A slot lost is lost for good: whatever happens later, as many slots stay
    taken, and when all eight are lost the handler never dials again. *)
Theorem lost_slots_stay c c' :
  reachable c -> rtc happens c c' ->
  lost_slots c <= lost_slots c' /\ (lost_slots c = 8 -> dialing c' = []).
Proof.
  intros Hr%reachable_inv Hs. assert (0 <= lost_slots c) as H0.
  { destruct Hr as [Hc _]. pose proof (c_dials _ _ _ _ _ Hc). unfold lost_slots. lia. }
  assert (config_inv (lost_slots c) c) as Hi.
  { destruct Hr as [[] Hl]. split; [|done]. constructor; try done. unfold lost_slots. lia. }
  assert (config_inv (lost_slots c) c') as [Hc _].
  { apply (rtc_invariant happens (config_inv (lost_slots c)) c); [|done|done].
    intros x y Hxy Hx. by eapply happens_inv. }
  pose proof (c_dials _ _ _ _ _ Hc) as Hd. pose proof (c_max _ _ _ _ _ Hc) as Hm. split.
  - unfold lost_slots at 2. lia.
  - intros E. destruct (dialing c'); [done|]. cbn in Hd. lia.
Qed.

(** ** Shutting down *)

(** Polls one after the other. *)
Fixpoint polls (l : list (Z * Waker)) h : list (res unit (option hevent)) * handler :=
  match l with
  | [] => ([], h)
  | (now, w) :: l =>
      let (r, h1) := poll error_text now w h in
      let (rs, h2) := polls l h1 in (r :: rs, h2)
  end.

Lemma update_waker_frame w h :
  exists w', update_waker w h = (Ok tt, set_waker w' h).
Proof.
  unfold update_waker. destruct (waker h) as [old|] eqn:E; [|by eexists].
  destruct (decide (old = w)); [by eexists|]. exists (Some old). rewrite <-E. by destruct h.
Qed.

(** C25: A handler that is shutting down ends: polled after its deadline, it reports
    its events, one each time and in order, then closes the connection and is
    no longer kept alive. *)
Theorem shutdown_ends h deadline l :
  state h = ShuttingDown deadline ->
  length l = S (length (events_out h)) -> Forall (fun x => deadline <= x.1) l ->
  let (rs, h') := polls l h in
  rs = map (fun e => Ok (Some (NotifyBehaviour e))) (events_out h) ++ [Ok (Some (Close Disconnected))] /\
  state h' = Deactivated /\ connection_keep_alive h' = false.
Proof.
  remember (events_out h) as es eqn:Ees. revert h l Ees.
  induction es as [|e es IH]; intros h l Ees Hs Hlen Hl; (destruct l as [|[now w] l]; [done|]);
    apply Forall_cons in Hl as [Hnow Hl]; cbn [polls poll]; unfold poll, poll_steps;
    destruct (update_waker_frame w h) as [w' Ew];
    unfold mbind, st_bind; rewrite Ew; unfold take_event; hproj; rewrite <-Ees.
  - destruct l; [|done]. unfold check_shutdown. hproj. rewrite Hs.
    replace (deadline <=? now) with true by (symmetry; apply Z.leb_le; exact Hnow). done.
  - specialize (IH (set_events es (set_waker w' h)) l eq_refl Hs ltac:(cbn in Hlen; lia) Hl).
    destruct (polls l _) as [rs h']. destruct IH as (-> & ? & ?). done.
Qed.

(** A waker is kept from the first poll on: one of another task never takes its
    place. *)
Lemma waker_kept w w0 h :
  waker h = Some w0 -> waker (update_waker w h).2 = Some w0.
Proof. unfold update_waker. intros E. rewrite E. destruct (decide (w0 = w)) as [->|]; cbn; congruence. Qed.

(** ** Executions *)

Inductive action :=
| Send (now : Z) (e : RPCSend Id SubstreamId)
| Opened (now : Z) (req : Request) (s : InboundSubstream)
| Dialed (now : Z) (s : OutboundFramed)
| DialFailed (now : Z) (error : StreamUpgradeError)
| PollAt (now : Z) (w : Waker).

(** Dials are answered in order of the last first. *)
Definition act (a : action) (c : config) : option config :=
  match a with
  | Send now e =>
      if decide (Forall (fun x => 0 <= expected_responses x.2) (requests_of e)) then
        Some (mkConfig (requests_of e ++ submitted c) (reported c) (dialing c)
                (on_behaviour_event error_text now e (handler_of c)).2)
      else None
  | Opened now req s =>
      match on_connection_event now (FullyNegotiatedInbound (req, s)) (handler_of c) with
      | (Ok tt, h) => Some (mkConfig (submitted c) (reported c) (dialing c) h)
      | _ => None
      end
  | Dialed now s =>
      match dialing c with
      | x :: rest =>
          match on_connection_event now (FullyNegotiatedOutbound s x) (handler_of c) with
          | (Ok tt, h) => Some (mkConfig (submitted c) (reported c) rest h)
          | _ => None
          end
      | [] => None
      end
  | DialFailed now error =>
      match dialing c with
      | x :: rest =>
          match on_connection_event now (DialUpgradeError x error) (handler_of c) with
          | (Ok tt, h) => Some (mkConfig (submitted c) (reported c) rest h)
          | _ => None
          end
      | [] => None
      end
  | PollAt now w =>
      match poll error_text now w (handler_of c) with
      | (Ok o, h) => Some (after_poll o c h)
      | _ => None
      end
  end.

Fixpoint acts (l : list action) (c : config) : option config :=
  match l with
  | [] => Some c
  | a :: l => match act a c with Some c' => acts l c' | None => None end
  end.

Lemma act_happens a c c' : act a c = Some c' -> happens c c'.
Proof.
  destruct a as [now e|now req s|now s|now error|now w]; unfold act.
  - case_decide; [|done]. intros [= <-]. by apply happens_event.
  - destruct (on_connection_event _ _ _) as [[[]| |] h] eqn:E; [|done..]. intros [= <-].
    by eapply happens_inbound.
  - destruct (dialing c) as [|[id req] rest] eqn:Ed; [done|].
    destruct (on_connection_event _ _ _) as [[[]| |] h] eqn:E; [|done..]. intros [= <-].
    by apply (happens_outbound c now s id req [] rest h).
  - destruct (dialing c) as [|[id req] rest] eqn:Ed; [done|].
    destruct (on_connection_event _ _ _) as [[[]| |] h] eqn:E; [|done..]. intros [= <-].
    by apply (happens_dial_error c now error id req [] rest h).
  - destruct (poll _ _ _ _) as [[o| |] h] eqn:E; [|done..]. intros [= <-]. by eapply happens_poll.
Qed.

Lemma acts_happen l c c' : acts l c = Some c' -> rtc happens c c'.
Proof.
  revert c. induction l as [|a l IH]; intros c; cbn; [by intros [= <-]|].
  destruct (act a c) as [c1|] eqn:E; [|done]. intros Hl. eapply rtc_l; [by eapply act_happens|by apply IH].
Qed.

Lemma acts_reachable l c : acts l (started 0 10) = Some c -> reachable c.
Proof. intros Hl. exists 0, 10. by eapply acts_happen. Qed.

End WithNetwork.

(** ** Witnesses *)

Module Witness.

(** Inbound streams send at once; an outbound stream is the list of what it
    yields. *)
#[local] Instance streams : Streams unit (list (RPCCodedResponse + RPCError)) := {|
  sub_send s _ := (Ready None, s);
  sub_close s := (Ready None, s);
  out_next s := match s with [] => (Pending, []) | x :: s => (Ready (Some x), s) end;
  out_close s := (Ready None, s);
|}.

#[local] Instance order : MapOrder := {|
  keys_of V m := (map_to_list m).*1;
  keys_of_perm V m := reflexivity _;
|}.

Definition text (e : ErrorType) : string := "".

Abbreviation cfg := (config (Id:=Z) (InboundSubstream:=unit)
  (OutboundFramed:=list (RPCCodedResponse + RPCError)) (Q:=TimerList.timers) (Key:=Z) (Waker:=Z)).
Abbreviation go := (acts (Id:=Z) (Waker:=Z) (Q:=TimerList.timers) text).

(** Two blocks are asked for; the peer sends a status three times. *)
Definition blocks : Request := BlocksByRangeReq (mkRange 7 2).
Definition answer : RPCCodedResponse + RPCError := inl (Success (StatusResp (mkStatus [] []))).

Definition flood : list (action (Id:=Z) (InboundSubstream:=unit)
    (OutboundFramed:=list (RPCCodedResponse + RPCError)) (Waker:=Z)) :=
  [Send 0 (SendRequest 1 blocks); PollAt 0 0; Dialed 0 [answer; answer; answer]; PollAt 0 0; PollAt 0 0].

Definition flooded : cfg := default (started 0 10) (go flood (started 0 10)).

Lemma responses_bounded_witness :
  delivered 1 (reported flooded) = 2 /\ delivered 1 (reported flooded) <= asked 1 (submitted flooded).
Proof.
  split; [by vm_compute|]. apply (responses_bounded text flooded 1).
  apply (acts_reachable text flood). by vm_compute.
Defined.

Lemma no_request_forgotten_witness :
  (1, blocks) ∈ dial_queue (handler_of flooded) \/ (1, blocks) ∈ dialing flooded \/
  (exists i info, outbound_substreams (handler_of flooded) !! i = Some info /\ req_id info = 1 /\
     dq_timers (outbound_substreams_delay (handler_of flooded)) !! out_delay_key info = Some i) \/
  (exists e, e ∈ reported flooded ++ events_out (handler_of flooded) /\ about 1 e).
Proof.
  apply (no_request_forgotten text flooded 1 blocks).
  - apply (acts_reachable text flood). by vm_compute.
  - replace (submitted flooded) with [(1, blocks)] by (by vm_compute). by left.
  - done.
Defined.

(** Three requests fail for good, each after two retries; the second retry of
    a fourth waits for a slot that never comes. *)
Definition failing (id : Z) := Send (InboundSubstream:=unit)
    (OutboundFramed:=list (RPCCodedResponse + RPCError)) (Waker:=Z) 0 (SendRequest id blocks)
  :: concat (replicate 3 [PollAt 0 0; DialFailed 0 (UpgradeIo "reset")]) ++ [PollAt 0 0].

Definition losing := failing 1 ++ failing 2 ++ failing 3 ++ take 5 (failing 4).
Definition lost : cfg := default (started 0 10) (go losing (started 0 10)).
Definition stuck : cfg :=
  default (started 0 10) (go [PollAt 0 0; PollAt 1 0] lost).

Lemma lost_slots_stay_witness :
  lost_slots lost = 8 /\ dial_queue (handler_of stuck) = [(4, blocks)] /\ dialing stuck = [].
Proof.
  split; [by vm_compute|]. split; [by vm_compute|].
  apply (lost_slots_stay text lost stuck).
  - apply (acts_reachable text losing). by vm_compute.
  - apply (acts_happen text [PollAt 0 0; PollAt 1 0]). by vm_compute.
  - by vm_compute.
Defined.

Lemma handler_limits_witness :
  Z.of_nat (length (dialing lost)) <= dial_negotiated (handler_of lost) <= 8.
Proof.
  apply (handler_limits text lost). apply (acts_reachable text losing). by vm_compute.
Defined.

Lemma handler_never_panics_witness : (poll text 99 0 (handler_of flooded)).1 <> Panic.
Proof.
  apply (handler_never_panics (H0:=Codec.Witness.ssz) (H1:=Codec.Witness.frames) (H2:=ExampleSerial.blocks)
           text flooded). apply (acts_reachable text flood). by vm_compute.
Defined.

(** A shutdown with a queued request, polled after fifteen seconds. *)
Definition closing : cfg :=
  default (started 0 10) (go [Send 0 (SendRequest 1 blocks); Send 1 (SendShutdown 2 Fault)] (started 0 10)).

Lemma shutdown_ends_witness :
  (polls text [(10 ^ 11, 0); (10 ^ 11, 0)] (handler_of closing)).1
  = [Ok (Some (NotifyBehaviour (Failed (Outbound 1 BlocksByRange Disconnected))));
     Ok (Some (Close Disconnected))].
Proof.
  pose proof (shutdown_ends text (handler_of closing) 15000000001 [(10 ^ 11, 0); (10 ^ 11, 0)]) as Hs.
  destruct (polls text _ _) as [rs h']. apply Hs; [by vm_compute|by vm_compute|].
  repeat constructor; cbn; lia.
Defined.

End Witness.

End HandlerProofs.
