(* ===== verification/Framed.v ===== *)
(** The reading side of [Framed] of [tokio_util], a library, as its documentation
    describes it: a decoder over the bytes that come from a socket, in pieces and
    with pauses. The codecs of requests and of
    responses are instances; that a decoder yields the messages that were
    written, however the bytes are cut, is proved once for both. *)
From stdpp Require Import base decidable list strings.
From Stdlib Require Import ZArith Lia.
From S2P Require Import Prelude RpcTypes DelayQueue.

Module Framed.
Import RpcTypes.
Local Open Scope Z_scope.

Abbreviation bytes := (list Z).

(** A codec: decoding from the buffer it keeps, and bytes added to the buffer. *)
Class Codec (D Item : Type) := {
  decode : D -> res RPCError (option Item) * D;
  feed : bytes -> D -> D;
  buffer : D -> bytes;
}.

(** What a read from the socket gives: nothing yet, bytes (the end of the stream
    if there are none), or an error. *)
Inductive Read := Wait | Bytes (b : bytes) | Broken (e : string).

(** The decoder with the flags of [ReadFrame], and what the reads will give,
    with the end of the stream after the last. *)
Record Reader (D : Type) := mkReader {
  decoder : D;
  eof : bool;
  is_readable : bool;
  has_errored : bool;
  reads : list Read;
}.
Arguments mkReader {D}.
Arguments decoder {D}.
Arguments eof {D}.
Arguments is_readable {D}.
Arguments has_errored {D}.
Arguments reads {D}.

Section Reading.
Context {D Item : Type} `{C : Codec D Item}.

Abbreviation item := (Item + RPCError)%type.
Abbreviation reader := (Reader D).

(** [Framed::new], before anything has been read. *)
Definition new (d : D) (rs : list Read) : reader := mkReader d false false false rs.

Definition fail (e : RPCError) (r : reader) : option (Poll (option item)) * reader :=
  (Some (Ready (Some (inr e))), mkReader (decoder r) (eof r) (is_readable r) true (reads r)).

(** [Decoder::decode_eof]. [None] is a panic of the decoder. *)
Definition decode_eof (r : reader) : option (Poll (option item)) * reader :=
  match decode (decoder r) with
  | (Ok (Some x), d) => (Some (Ready (Some (inl x))), mkReader d true true false (reads r))
  | (Ok None, d) =>
      match buffer d with
      | [] => (Some (Ready None), mkReader d true false false (reads r))
      | _ => fail (IoError "bytes remaining on stream") (mkReader d true true false (reads r))
      end
  | (Err e, d) => fail e (mkReader d true true false (reads r))
  | (Panic, _) => (None, r)
  end.

(** The loop of [poll_next], from a read on. *)
Fixpoint read_on (rs : list Read) (r : reader) : option (Poll (option item)) * reader :=
  match rs with
  | [] => if eof r then (Some (Ready None), r) else decode_eof (mkReader (decoder r) true true false [])
  | Bytes [] :: rs =>
      if eof r then (Some (Ready None), mkReader (decoder r) true false false rs)
      else decode_eof (mkReader (decoder r) true true false rs)
  | Wait :: rs => (Some Pending, mkReader (decoder r) (eof r) false false rs)
  | Broken e :: rs => fail (IoError e) (mkReader (decoder r) (eof r) false false rs)
  | Bytes chunk :: rs =>
      match decode (feed chunk (decoder r)) with
      | (Ok (Some x), d) => (Some (Ready (Some (inl x))), mkReader d false true false rs)
      | (Ok None, d) => read_on rs (mkReader d false false false rs)
      | (Err e, d) => fail e (mkReader d false true false rs)
      | (Panic, _) => (None, r)
      end
  end.

(** [poll_next]. *)
Definition next (r : reader) : option (Poll (option item)) * reader :=
  if has_errored r then (Some (Ready None), mkReader (decoder r) (eof r) false false (reads r))
  else if negb (is_readable r) then read_on (reads r) r
  else if eof r then decode_eof r
  else
    match decode (decoder r) with
    | (Ok (Some x), d) => (Some (Ready (Some (inl x))), mkReader d false true false (reads r))
    | (Ok None, d) => read_on (reads r) (mkReader d false false false (reads r))
    | (Err e, d) => fail e (mkReader d false true false (reads r))
    | (Panic, _) => (None, r)
    end.

(** ** Whatever the peer sends *)

Section Anything.
Context (I : D -> Prop) (good : Item -> Prop).
Context (I_feed : forall c d, I d -> I (feed c d)).
Context (I_decode : forall d, I d ->
  (decode d).1 <> Panic /\ I (decode d).2 /\ forall x, (decode d).1 = Ok (Some x) -> good x).

(** No panic, and an item is a good one. *)
Definition answers (a : option (Poll (option item)) * reader) : Prop :=
  exists o, a.1 = Some o /\ I (decoder a.2) /\ forall x, o = Ready (Some (inl x)) -> good x.

Lemma answers_done o (r : reader) :
  I (decoder r) -> (forall x, o <> Ready (Some (inl x))) -> answers (Some o, r).
Proof. intros Hr Hne. exists o. split_and!; [done..|]. intros x ->. by destruct (Hne x). Qed.

Lemma decode_eof_answers (r : reader) : I (decoder r) -> answers (decode_eof r).
Proof.
  intros Hr. unfold decode_eof. destruct (I_decode _ Hr) as (Hp & Hi & Hg).
  destruct (decode (decoder r)) as [[[x|]|e|] d]; cbn in *; [| |by apply answers_done|done].
  - eexists. split_and!; [done..|]. intros y [= <-]. by apply Hg.
  - destruct (buffer d); by apply answers_done.
Qed.

Lemma read_on_answers rs (r : reader) : I (decoder r) -> answers (read_on rs r).
Proof.
  revert r. induction rs as [|[|chunk|e] rs IH]; intros r Hr; cbn [read_on].
  - destruct (eof r); [by apply answers_done|by apply decode_eof_answers].
  - by apply answers_done.
  - destruct chunk as [|z chunk]; [destruct (eof r); [by apply answers_done|by apply decode_eof_answers]|].
    destruct (I_decode _ (I_feed (z :: chunk) _ Hr)) as (Hp & Hi & Hg).
    destruct (decode (feed _ _)) as [[[x|]|e|] d]; cbn in *; [|by apply IH|by apply answers_done|done].
    eexists. split_and!; [done..|]. intros y [= <-]. by apply Hg.
  - by apply answers_done.
Qed.

Lemma next_answers (r : reader) : I (decoder r) -> answers (next r).
Proof.
  intros Hr. unfold next. destruct (has_errored r); [by apply answers_done|].
  destruct (is_readable r); cbn [negb]; [|by apply read_on_answers].
  destruct (eof r); [by apply decode_eof_answers|]. destruct (I_decode _ Hr) as (Hp & Hi & Hg).
  destruct (decode (decoder r)) as [[[x|]|e|] d]; cbn in *; [|by apply read_on_answers|by apply answers_done|done].
  eexists. split_and!; [done..|]. intros y [= <-]. by apply Hg.
Qed.

End Anything.

(** ** What a reader reads *)

(** The reads give exactly these bytes, and the stream does not end before. *)
Definition bytes_of (x : Read) : bytes := match x with Bytes b => b | _ => [] end.
Definition sound (x : Read) : Prop := match x with Wait => True | Bytes b => b <> [] | Broken _ => False end.
Definition arrives (rs : list Read) (w : bytes) : Prop :=
  concat (map bytes_of rs) = w /\ Forall sound rs.

(** [ahead ms d todo]: the decoder has taken some of the bytes of the messages
    [ms], and the bytes [todo] of them are still to come. *)
Context (ahead : list Item -> D -> bytes -> Prop).
Context (ahead_feed : forall ms d c todo, ahead ms d (c ++ todo) -> ahead ms (feed c d) todo).
Context (ahead_decode : forall ms d todo, ahead ms d todo ->
  (exists m ms' d', ms = m :: ms' /\ decode d = (Ok (Some m), d') /\ ahead ms' d' todo) \/
  (exists d', decode d = (Ok None, d') /\ ahead ms d' todo /\ (todo = [] -> ms = [] /\ buffer d' = []))).

(** The reader is not ahead of the end of the stream. *)
Definition reading (ms : list Item) (r : reader) : Prop :=
  has_errored r = false /\
  exists todo, ahead ms (decoder r) todo /\ arrives (reads r) todo /\
    (eof r = true -> is_readable r = true /\ reads r = []).

(** The next answer of a reader: it waits, or has the next message, or ends
    after the last. *)
Definition next_of (ms : list Item) (n : nat) (a : option (Poll (option item)) * reader) : Prop :=
  (a.1 = Some Pending /\ reading ms a.2 /\ (length (reads a.2) < n)%nat) \/
  (exists m ms', ms = m :: ms' /\ a.1 = Some (Ready (Some (inl m))) /\ reading ms' a.2 /\
     (length (reads a.2) <= n)%nat) \/
  (ms = [] /\ a.1 = Some (Ready None)).

Lemma next_of_mono ms n n' a : (n <= n')%nat -> next_of ms n a -> next_of ms n' a.
Proof.
  intros Hn [(Ha & Hr & Hl)|[(m & ms' & E & Ha & Hr & Hl)|Ha]]; [left|right; left; exists m, ms'|by right; right].
  - split_and!; [done..|lia].
  - split_and!; [done..|lia].
Qed.

Lemma arrives_nothing w : arrives [] w -> w = [].
Proof. by intros [<- _]. Qed.

Lemma arrives_pause rs w : arrives (Wait :: rs) w -> arrives rs w.
Proof. intros [Hc Hs]. apply Forall_cons in Hs as [_ Hs]. by split. Qed.

Lemma arrives_chunk c rs w :
  arrives (Bytes c :: rs) w -> c <> [] /\ exists w', w = c ++ w' /\ arrives rs w'.
Proof.
  intros [Hc Hs]. apply Forall_cons in Hs as [Hne Hs]. split; [done|].
  exists (concat (map bytes_of rs)). by repeat split.
Qed.

Lemma decode_eof_reading ms (r : reader) n :
  ahead ms (decoder r) [] -> reads r = [] -> next_of ms n (decode_eof r).
Proof.
  intros Ha Er. unfold decode_eof.
  destruct (ahead_decode _ _ _ Ha) as [(m & ms' & d & -> & -> & Ha')|(d & -> & Ha' & Hend)].
  - right. left. exists m, ms'. split_and!; [done..| |cbn; rewrite Er; cbn; lia].
    split; [done|]. exists []. by rewrite Er.
  - destruct (Hend eq_refl) as [-> ->]. right. by right.
Qed.

Lemma read_on_reading ms (r : reader) todo :
  ahead ms (decoder r) todo -> arrives (reads r) todo -> eof r = false ->
  next_of ms (length (reads r)) (read_on (reads r) r).
Proof.
  remember (reads r) as rs eqn:Er. revert r Er todo.
  induction rs as [|[|chunk|e] rs IH]; intros r Er todo Ha Hr Ee.
  - apply arrives_nothing in Hr as ->. cbn [read_on]. rewrite Ee. by apply decode_eof_reading.
  - apply arrives_pause in Hr. left. cbn [read_on]. split_and!; [done| |cbn; lia].
    split; [done|]. exists todo. cbn. by rewrite Ee.
  - apply arrives_chunk in Hr as (Hne & w & -> & Hr). destruct chunk as [|x chunk]; [done|].
    cbn [read_on]. apply ahead_feed in Ha.
    destruct (ahead_decode _ _ _ Ha) as [(m & ms' & d & -> & -> & Ha')|(d & -> & Ha' & _)].
    + right. left. exists m, ms'. split_and!; [done..| |cbn; lia]. split; [done|]. exists w. by split_and!.
    + eapply next_of_mono; [|eapply IH; [done..|exact Ha'|done|done]]. cbn. lia.
  - destruct Hr as [_ Hs]. by apply Forall_cons in Hs as [[] _].
Qed.

Lemma next_reading ms (r : reader) : reading ms r -> next_of ms (length (reads r)) (next r).
Proof.
  intros (Eh & todo & Ha & Hr & Hend). unfold next. rewrite Eh.
  destruct (is_readable r) eqn:Er; cbn [negb].
  - destruct (eof r) eqn:Ee.
    + destruct (Hend eq_refl) as [_ Ers]. rewrite Ers in Hr. apply arrives_nothing in Hr as ->.
      by apply decode_eof_reading.
    + destruct (ahead_decode _ _ _ Ha) as [(m & ms' & d & -> & -> & Ha')|(d & -> & Ha' & _)].
      * right. left. exists m, ms'. split_and!; [done..| |cbn; lia]. split; [done|]. exists todo. by split_and!.
      * by apply (read_on_reading ms (mkReader d false false false (reads r)) todo).
  - apply (read_on_reading ms r todo); [done..|]. destruct (eof r); [|done]. by destruct Hend.
Qed.

End Reading.
End Framed.
