(* ===== verification/Upgrade.v ===== *)
(** Connections and substreams of the request protocol: the handler and the
    protocol of a new connection ([NetworkBehaviour for RPC] in
    [app/src/network/rpc/mod.rs], with the parameters of [create_swarm] in
    [app/src/network/mod.rs]), the upgrade of a substream by the node that asks
    ([app/src/network/rpc/outbound.rs]) and by the node that answers
    ([app/src/network/rpc/protocol.rs]). Times are nanoseconds. *)
From stdpp Require Import base decidable list gmap strings.
From Stdlib Require Import ZArith Lia.
From S2P Require Import Prelude Bitcoin Block Serial RpcTypes DelayQueue Codec Handler Framed.

Module Upgrade.
Import RpcTypes.
Local Open Scope Z_scope.

Abbreviation bytes := (list Z).

(** ** Connections *)

Definition SECOND : Z := 10 ^ 9.

Record NetworkParams := mkParams { max_chunk_size : Z; ttfb_timeout : Z; resp_timeout : Z }.

(** The parameters of [create_swarm]. *)
Definition network_params : NetworkParams := mkParams (1024 * 1024) (180 * SECOND) (180 * SECOND).

(** [RPCProtocol]. *)
Record RPCProtocol := mkRPCProtocol { rpc_size : Z; read_timeout : Z }.

Section Connections.
Context {Id InboundSubstream OutboundFramed Q Key Waker : Type} `{DQ : DelayQueue Q Key Z}.
Abbreviation handler :=
  (Handler.RPCHandler (Id:=Id) (InboundSubstream:=InboundSubstream) (OutboundFramed:=OutboundFramed)
     (Q:=Q) (Key:=Key) (Waker:=Waker)).

Definition handle_established_inbound_connection (n : NetworkParams) : RPCProtocol * handler :=
  let protocol := mkRPCProtocol (max_rpc_size (max_chunk_size n)) (ttfb_timeout n) in
  (protocol, Handler.new (rpc_size protocol) (resp_timeout n)).

Definition handle_established_outbound_connection (n : NetworkParams) : RPCProtocol * handler :=
  let protocol := mkRPCProtocol (max_rpc_size (max_chunk_size n)) (ttfb_timeout n) in
  (protocol, Handler.new (rpc_size protocol) (resp_timeout n)).

End Connections.

Section Upgrades.
Context `{L : Codec.SszLib, F : Codec.FrameLib, K : BlockLib}.

(** ** The codecs of a substream *)

Record InboundCodec := mkInbound { i_protocol : ProtocolId; i_max : Z; i_decoder : Codec.Decoder }.

Record OutboundCodec := mkOutbound { o_protocol : ProtocolId; o_max : Z; o_decoder : Codec.BaseDecoder }.

Definition inbound_codec_new (p : ProtocolId) (max_packet_size : Z) : InboundCodec :=
  mkInbound p max_packet_size (Codec.mkDecoder None []).

Definition outbound_codec_new (p : ProtocolId) (max_packet_size : Z) : OutboundCodec :=
  mkOutbound p max_packet_size Codec.fresh.

(** [Decoder for InboundCodec]. *)
Definition inbound_decode (c : InboundCodec) : res RPCError (option Request) * InboundCodec :=
  let (r, d) := Codec.decode_request (i_protocol c) (i_max c) (i_decoder c) in
  (r, mkInbound (i_protocol c) (i_max c) d).

(** [Decoder for OutboundCodec]. *)
Definition outbound_decode (c : OutboundCodec) : res RPCError (option RPCCodedResponse) * OutboundCodec :=
  let (r, b) := Codec.decode_coded_response (o_protocol c) (o_max c) (o_decoder c) in
  (r, mkOutbound (o_protocol c) (o_max c) b).

#[global] Instance inbound_framed : Framed.Codec InboundCodec Request := {|
  Framed.decode := inbound_decode;
  Framed.feed more c := mkInbound (i_protocol c) (i_max c)
    (Codec.mkDecoder (Codec.len (i_decoder c)) (Codec.src (i_decoder c) ++ more));
  Framed.buffer c := Codec.src (i_decoder c);
|}.

#[global] Instance outbound_framed : Framed.Codec OutboundCodec RPCCodedResponse := {|
  Framed.decode := outbound_decode;
  Framed.feed more c := mkOutbound (o_protocol c) (o_max c) (Codec.arrive more (o_decoder c));
  Framed.buffer c := Codec.src (Codec.inner (o_decoder c));
|}.

(** ** The upgrades *)

(** [upgrade_outbound]: the request is encoded and flushed to the socket, and
    the writing half is closed. [flush] and [close] are what the socket answers,
    an error or nothing; [rs] is what its reading half will give. *)
Definition upgrade_outbound (p : ProtocolId) (max : Z) (req : Request)
    (flush : bytes -> option string) (close : option string) (rs : list Framed.Read) :
    res RPCError (Framed.Reader OutboundCodec) :=
  enc ← Codec.encode_request max req [];
  match flush enc with
  | Some e => Err (IoError e)
  | None =>
      match close with
      | Some e => Err (IoError e)
      | None => Ok (Framed.new (outbound_codec_new p max) rs)
      end
  end.

Definition REQUEST_TIMEOUT : Z := 15.

(** What [tokio::time::timeout] of the first message gives, polled at the given
    times: the message if it is there, and else the timeout when it is due. *)
Inductive FirstItem :=
| TimedOut
| First (x : option (Request + RPCError)) (stream : Framed.Reader InboundCodec)
| Panicked.

Fixpoint first_item (deadline : Z) (times : list Z) (s : Framed.Reader InboundCodec) : Poll FirstItem :=
  match times with
  | [] => Pending
  | now :: times =>
      match Framed.next s with
      | (Some (Ready x), s) => Ready (First x s)
      | (Some Pending, s) => if deadline <=? now then Ready TimedOut else first_item deadline times s
      | (None, _) => Ready Panicked
      end
  end.

(** [upgrade_inbound], begun at [start] and polled at [times]. *)
Definition upgrade_inbound (max start : Z) (times : list Z) (rs : list Framed.Read) (p : ProtocolId) :
    Poll (res RPCError (Request * Framed.Reader InboundCodec)) :=
  let socket := Framed.new (inbound_codec_new p max) rs in
  match versioned_protocol p with
  | MetaDataV1 => Ready (Ok (MetaDataReq, socket))
  | _ =>
      match first_item (start + REQUEST_TIMEOUT * SECOND) times socket with
      | Pending => Pending
      | Ready TimedOut => Ready (Err StreamTimeout)
      | Ready (First (Some (inl request)) stream) => Ready (Ok (request, stream))
      | Ready (First (Some (inr e)) _) => Ready (Err e)
      | Ready (First None _) => Ready (Err IncompleteStream)
      | Ready Panicked => Ready Panic
      end
  end.

(** ** Whatever the peer sends *)

Context `{!Codec.FrameLaws F}.

Definition typed (p : ProtocolId) (r : Request) : Prop :=
  request_protocol r = versioned_protocol p /\ Codec.request_valid r.

Lemma first_item_answers p max deadline times (s : Framed.Reader InboundCodec) :
  i_protocol (Framed.decoder s) = p -> i_max (Framed.decoder s) = max ->
  Exists (fun now => deadline <= now) times ->
  exists x, first_item deadline times s = Ready x /\
    match x with First (Some (inl r)) _ => typed p r | Panicked => False | _ => True end.
Proof.
  intros Hp Hm Ht. revert s Hp Hm. induction times as [|now times IH]; intros s Hp Hm; [by apply Exists_nil in Ht|].
  destruct (Framed.next_answers (fun c => i_protocol c = p /\ i_max c = max) (typed p)) with (r := s)
    as (o & Eo & [Hp' Hm'] & Hg); [done| |done|].
  { intros c [Hc Hx]. cbn. unfold inbound_decode. rewrite Hc, Hx.
    destruct (Codec.decoded_request_typed p max (i_decoder c)) as [Hnp Hr].
    by destruct (Codec.decode_request _ _ _) as [a d]. }
  cbn [first_item]. destruct (Framed.next s) as [a s']. cbn in Eo, Hp', Hm'. subst a.
  destruct o as [|x].
  - destruct (Z.leb_spec deadline now); [by eexists|]. apply IH; [|done..].
    apply Exists_cons in Ht as [?|?]; [lia|done].
  - eexists. split; [done|]. destruct x as [[r|e]|]; [|done..]. by apply Hg.
Qed.

(** C30: An inbound substream does not wait for ever and does not stop the node:
    whatever bytes, pauses and errors come, the upgrade has ended when it is
    polled after the timeout, without a panic, and a request it accepts is one
    of the protocol agreed on, with fields of their types. *)
Theorem inbound_upgrade_ends max start times rs p :
  Exists (fun now => start + REQUEST_TIMEOUT * SECOND <= now) times ->
  exists o, upgrade_inbound max start times rs p = Ready o /\ o <> Panic /\
    forall r s, o = Ok (r, s) -> request_protocol r = versioned_protocol p /\ Codec.request_valid r.
Proof.
  intros Ht. unfold upgrade_inbound.
  destruct (decide (versioned_protocol p = MetaDataV1)) as [->|Hne].
  { eexists. split_and!; [done..|]. by intros r s [= <- _]. }
  destruct (first_item_answers p max _ times (Framed.new (inbound_codec_new p max) rs) eq_refl eq_refl Ht)
    as (x & -> & Hx).
  destruct x as [|[[r|e]|] s|]; [| | | |done]; (destruct (versioned_protocol p) eqn:Ev; [..|done]);
    eexists; (split_and!; [done..|]); intros r' s' [= <- _]; unfold typed in Hx; by rewrite Ev in Hx.
Qed.

(** ** A request on its way *)

Section OneRequest.
Context (r : Request) (max : Z).
Abbreviation p := (protocol_id_new (request_protocol r) SSZSnappy).
Context (Hvalid : Codec.request_valid r) (Hne : r <> MetaDataReq).
Context (Hlimit : limit_max (Codec.rpc_request_limits p) <= max) (Hmax : max < 2 ^ 64).

(** The decoder has taken some of the bytes of the request: of its length, or
    the length and some of the frames. *)
Definition request_ahead (prefix compressed : bytes) (ms : list Request) (c : InboundCodec) (todo : bytes) : Prop :=
  i_protocol c = p /\ i_max c = max /\
  let d := i_decoder c in
  match ms with
  | [] => d = Codec.mkDecoder None [] /\ todo = []
  | [r'] => r' = r /\
      ((Codec.len d = None /\ Codec.src d ++ todo = prefix ++ compressed) \/
       (Codec.len d = Some (Codec.zlength (Codec.request_payload r)) /\ Codec.src d ++ todo = compressed))
  | _ => False
  end.

Lemma request_ahead_feed prefix compressed ms c more todo :
  request_ahead prefix compressed ms c (more ++ todo) ->
  request_ahead prefix compressed ms (Framed.feed more c) todo.
Proof.
  intros (Hp & Hm & Hms). split_and!; [done..|]. cbn. destruct ms as [|r' [|]]; [| |done].
  - destruct Hms as [-> [-> ->]%app_eq_nil]. done.
  - rewrite <-app_assoc. done.
Qed.

Context (prefix compressed : bytes) (msg : string).
Context (Huvi : Codec.uvi_encode (Codec.zlength (Codec.request_payload r)) = inl prefix).
Context (Hprefix : prefix <> []) (Hframe : Codec.frame (Codec.request_payload r) = inl compressed).
Context (Hdecode : forall d, Codec.decode_request p max d
  = Codec.decode_payload (fun length => is_out_of_bounds (Codec.rpc_request_limits p) length max) msg
      (Codec.handle_rpc_request (request_protocol r)) d).

(** The rest of the bytes of the request is not there. *)
Lemma request_part d todo :
  (Codec.len d = None /\ Codec.src d ++ todo = prefix ++ compressed) \/
  (Codec.len d = Some (Codec.zlength (Codec.request_payload r)) /\ Codec.src d ++ todo = compressed) ->
  todo <> [] ->
  exists d', Codec.decode_request p max d = (Ok None, d') /\
    ((Codec.len d' = None /\ Codec.src d' ++ todo = prefix ++ compressed) \/
     (Codec.len d' = Some (Codec.zlength (Codec.request_payload r)) /\ Codec.src d' ++ todo = compressed)).
Proof.
  destruct (Codec.request_parsed r max Hvalid Hne Hlimit) as (Hl & Hb & _).
  assert (Codec.zlength (Codec.request_payload r) < 2 ^ 64) as Hl64 by lia.
  intros Hd Ht. rewrite Hdecode. destruct d as [l s]. cbn [Codec.len Codec.src] in Hd.
  destruct Hd as [[-> Hs]|[-> Hs]].
  - apply app_eq_inv in Hs as [(k & Ek & Hk)|(k & Ek & Hk)].
    + subst s. eexists. split; [by eapply Codec.decode_payload_partial|]. by right.
    + destruct (decide (k = [])) as [->|Hkne].
      * rewrite app_nil_r in Ek. subst s. cbn in Hk. subst todo. rewrite <-(app_nil_r prefix).
        eexists. split; [by eapply (Codec.decode_payload_partial _ _ _ _ _ _ Hframe Huvi Hl64 Hb [])|]. by right.
      * eexists. split; [by eapply (Codec.decode_payload_no_prefix _ _ _ _ _ Huvi Hl64 s k)|].
        left. cbn. split; [done|]. by rewrite Hk, Ek, app_assoc.
  - eexists. split; [by eapply Codec.decode_payload_still_partial|]. by right.
Qed.

Lemma request_whole d :
  (Codec.len d = None /\ Codec.src d = prefix ++ compressed) \/
  (Codec.len d = Some (Codec.zlength (Codec.request_payload r)) /\ Codec.src d = compressed) ->
  Codec.decode_request p max d = (Ok (Some r), Codec.mkDecoder None []).
Proof.
  destruct (Codec.request_parsed r max Hvalid Hne Hlimit) as (Hl & Hb & Hparse).
  assert (Codec.zlength (Codec.request_payload r) < 2 ^ 64) as Hl64 by lia.
  intros Hd. rewrite Hdecode. destruct d as [l s]. cbn [Codec.len Codec.src] in Hd.
  rewrite <-Hparse. rewrite <-(app_nil_r compressed) in Hd.
  destruct Hd as [[-> ->]|[-> ->]];
    [by apply Codec.decode_payload_full|by apply Codec.decode_payload_resumed].
Qed.

Lemma request_ahead_decode ms c todo :
  request_ahead prefix compressed ms c todo ->
  (exists m ms' c', ms = m :: ms' /\ Framed.decode c = (Ok (Some m), c') /\
     request_ahead prefix compressed ms' c' todo) \/
  (exists c', Framed.decode c = (Ok None, c') /\ request_ahead prefix compressed ms c' todo /\
     (todo = [] -> ms = [] /\ Framed.buffer c' = [])).
Proof.
  intros (Hp & Hm & Hms). cbn. unfold inbound_decode. rewrite Hp, Hm.
  destruct ms as [|r' [|]]; [| |done].
  - destruct Hms as [-> ->]. right.
    destruct (Codec.request_parsed r max Hvalid Hne Hlimit) as (Hl & _).
    rewrite Hdecode, (Codec.decode_payload_no_prefix _ _ _ _ _ Huvi ltac:(lia) [] prefix) by done.
    eexists. by split_and!.
  - destruct Hms as [-> Hd]. destruct (decide (todo = [])) as [->|Ht].
    + left. rewrite !app_nil_r in Hd. rewrite (request_whole _ Hd). eexists r, [], _. by split_and!.
    + right. destruct (request_part _ _ Hd Ht) as (d' & -> & Hd'). eexists. by split_and!.
Qed.

Lemma first_item_arrives deadline times (s : Framed.Reader InboundCodec) :
  Framed.reading (request_ahead prefix compressed) [r] s ->
  (length (Framed.reads s) < length times)%nat -> Forall (fun now => now < deadline) times ->
  exists s', first_item deadline times s = Ready (First (Some (inl r)) s').
Proof.
  revert s. induction times as [|now times IH]; intros s Hs Hl Ht; [cbn in Hl; lia|].
  apply Forall_cons in Ht as [Hnow Ht]. cbn [first_item].
  pose proof (Framed.next_reading _ (request_ahead_feed prefix compressed) request_ahead_decode _ _ Hs) as Hn.
  destruct (Framed.next s) as [a s']. destruct Hn as [(Ea & Hs' & Hl')|[(m & ms & Em & Ea & _)|[? _]]];
    [| |done]; cbn in Ea; subst a.
  - destruct (Z.leb_spec deadline now); [lia|]. apply IH; [done| |done]. cbn in *. lia.
  - injection Em as <- <-. by eexists.
Qed.

End OneRequest.

(** What the outbound upgrade does with the bytes of a request. *)
Definition sent (p : ProtocolId) (max : Z) (r : Request) (w : bytes) : Prop :=
  forall flush close rs, upgrade_outbound p max r flush close rs
    = match flush w, close with
      | None, None => Ok (Framed.new (outbound_codec_new p max) rs)
      | Some e, _ | None, Some e => Err (IoError e)
      end.

#[local] Instance is_metadata (r : Request) : Decision (r = MetaDataReq).
Proof. destruct r; [by right..|by left]. Defined.

Lemma request_bytes r max :
  Codec.request_valid r -> limit_max (Codec.rpc_request_limits (protocol_id_new (request_protocol r) SSZSnappy)) <= max ->
  max < 2 ^ 64 -> exists w, Codec.encode_request max r [] = Ok w.
Proof.
  intros Hv Hl Hm. destruct (decide (r = MetaDataReq)) as [->|Hne]; [by eexists|].
  destruct (Codec.request_coded r max Hv Hne Hl Hm) as (v & f & msg & _ & _ & _ & E & _). by eexists.
Qed.

Lemma upgrade_outbound_sends p max r w : Codec.encode_request max r [] = Ok w -> sent p max r w.
Proof. intros Ew flush close rs. unfold upgrade_outbound. rewrite Ew. cbn. by destruct (flush w), close. Qed.

Lemma upgrade_inbound_reads r max w start times rs :
  Codec.request_valid r ->
  limit_max (Codec.rpc_request_limits (protocol_id_new (request_protocol r) SSZSnappy)) <= max -> max < 2 ^ 64 ->
  Codec.encode_request max r [] = Ok w ->
  Framed.arrives rs w -> (length rs < length times)%nat ->
  Forall (fun now => now < start + REQUEST_TIMEOUT * SECOND) times ->
  exists s, upgrade_inbound max start times rs (protocol_id_new (request_protocol r) SSZSnappy) = Ready (Ok (r, s)).
Proof.
  intros Hv Hl Hm Ew Hr Hlen Ht. destruct (decide (r = MetaDataReq)) as [->|Hne]; [by eexists|].
  destruct (Codec.request_coded r max Hv Hne Hl Hm) as (v & f & msg & Ev & Hvne & Ef & E & Hd).
  rewrite Ew in E. injection E as ->.
  destruct (first_item_arrives r max Hv Hne Hl Hm v f msg Ev Hvne Ef Hd (start + REQUEST_TIMEOUT * SECOND) times
    (Framed.new (inbound_codec_new (protocol_id_new (request_protocol r) SSZSnappy) max) rs)) as [s Es]; [|done..|].
  { split; [done|]. exists (v ++ f). split_and!; [|done..]. split_and!; [done..|]. cbn. split; [done|by left]. }
  exists s. unfold upgrade_inbound. rewrite Es. by destruct r.
Qed.

(** C29: A request arrives: what the outbound upgrade writes to the socket, the
    inbound upgrade of a peer that has agreed on the protocol accepts as the same
    request, however the bytes are cut and delayed, if all of them come before
    the timeout; a socket that fails makes the outbound upgrade fail. *)
Theorem request_delivered r max :
  Codec.request_valid r ->
  limit_max (Codec.rpc_request_limits (protocol_id_new (request_protocol r) SSZSnappy)) <= max -> max < 2 ^ 64 ->
  exists w, sent (protocol_id_new (request_protocol r) SSZSnappy) max r w /\
    forall start times rs,
      Framed.arrives rs w -> (length rs < length times)%nat ->
      Forall (fun now => now < start + REQUEST_TIMEOUT * SECOND) times ->
      exists s, upgrade_inbound max start times rs (protocol_id_new (request_protocol r) SSZSnappy)
                = Ready (Ok (r, s)).
Proof.
  intros Hv Hl Hm. destruct (request_bytes r max Hv Hl Hm) as [w Ew]. exists w.
  split; [by apply upgrade_outbound_sends|]. intros start times rs. by apply upgrade_inbound_reads.
Qed.

End Upgrades.

(** ** Witnesses *)

Module Witness.
#[local] Existing Instance Codec.Witness.ssz.
#[local] Existing Instance Codec.Witness.frames.
#[local] Existing Instance Codec.Witness.frame_laws.

Definition ask : Request := BlocksByRangeReq (mkRange 5 7).
Definition size : Z := max_rpc_size (max_chunk_size network_params).

(** A second before each byte. *)
Definition slowly (w : bytes) : list Framed.Read := concat (map (fun b => [Framed.Wait; Framed.Bytes [b]]) w).

Lemma slowly_arrives w : Framed.arrives (slowly w) w.
Proof.
  split; induction w as [|b w IH]; cbn; [done| |constructor|]; [by f_equal|]. by repeat constructor.
Qed.

Lemma request_delivered_witness :
  exists w, sent (protocol_id_new BlocksByRangeV1 SSZSnappy) size ask w /\
    exists times s, upgrade_inbound size 0 times (slowly w) (protocol_id_new BlocksByRangeV1 SSZSnappy)
                    = Ready (Ok (ask, s)).
Proof.
  destruct (request_delivered ask size) as (w & Hs & Hd); [cbn; lia|by vm_compute|done|].
  exists w. split; [done|]. exists (replicate (S (length (slowly w))) SECOND).
  apply Hd; [apply slowly_arrives|rewrite length_replicate; lia|]. apply Forall_replicate. done.
Defined.

(** A peer that sends half of a request and then nothing. *)
Lemma inbound_upgrade_ends_witness :
  exists o, upgrade_inbound size 0 [1; SECOND; 20 * SECOND]
              [Framed.Bytes [16]; Framed.Wait; Framed.Wait; Framed.Wait] (protocol_id_new BlocksByRangeV1 SSZSnappy)
            = Ready o /\ o <> Panic.
Proof.
  destruct (inbound_upgrade_ends size 0 [1; SECOND; 20 * SECOND]
              [Framed.Bytes [16]; Framed.Wait; Framed.Wait; Framed.Wait] (protocol_id_new BlocksByRangeV1 SSZSnappy))
    as (o & E & Hp & _); [do 2 apply Exists_cons_tl; apply Exists_cons_hd; done|]. by exists o.
Defined.

(** It times out, where one that closes the substream is refused at once, and a
    connection that breaks is an error. *)
Example half_a_request :
  let up rs := upgrade_inbound size 0 [1; SECOND; 20 * SECOND] rs (protocol_id_new BlocksByRangeV1 SSZSnappy) in
  up [Framed.Bytes [16]; Framed.Wait; Framed.Wait; Framed.Wait] = Ready (Err StreamTimeout) /\
  up [Framed.Bytes [16]] = Ready (Err IncompleteStream) /\
  up [Framed.Bytes [16]; Framed.Broken "reset"] = Ready (Err (IoError "reset")).
Proof. split_and!; vm_compute; reflexivity. Qed.

End Witness.
End Upgrade.
