(* ===== verification/Exchange.v ===== *)
(** Two nodes on one substream: the handler of the node that serves blocks, the
    bytes on the wire, and the handler of the node that asked. The substreams
    are [Framed] of [tokio_util] over the codec of [app/src/network/rpc/codec].
    Both handlers are driven by [Handler.poll], at given times, so that their
    timers run; the serving side writes to a socket that may not be ready. *)
From stdpp Require Import base decidable list gmap strings.
From Stdlib Require Import ZArith Lia.
From S2P Require Import Prelude Bitcoin Signatures Block Serial RpcTypes DelayQueue Codec Handler Framed Upgrade.

Module Exchange.
Import RpcTypes.
Local Open Scope Z_scope.

Section Streams.
Context `{L : Codec.SszLib, F : Codec.FrameLib, K : BlockLib}.

(** ** The substreams *)

(** The writing side: what will have been written when it closes, and for each
    poll of a write or of the closing, until they are used up, whether the socket
    is ready. A write of other bytes fails, and so does an early close. *)
Record Writer := mkWriter { w_max : Z; to_write : bytes; ready : list bool }.

Fixpoint strip_prefix (p l : bytes) : option bytes :=
  match p, l with
  | [], _ => Some l
  | a :: p, b :: l => if a =? b then strip_prefix p l else None
  | _, [] => None
  end.

Definition writer_send (w : Writer) (m : RPCCodedResponse) : Poll (option RPCError) * Writer :=
  match ready w with
  | false :: more => (Pending, mkWriter (w_max w) (to_write w) more)
  | _ =>
      match Codec.encode_coded_response (w_max w) m [] with
      | Ok bytes =>
          match strip_prefix bytes (to_write w) with
          | Some rest => (Ready None, mkWriter (w_max w) rest (tail (ready w)))
          | None => (Ready (Some (IoError "other bytes")), w)
          end
      | Err e => (Ready (Some e), w)
      | Panic => (Pending, w)
      end
  end.

Definition writer_close (w : Writer) : Poll (option RPCError) * Writer :=
  match ready w with
  | false :: more => (Pending, mkWriter (w_max w) (to_write w) more)
  | _ =>
      match to_write w with
      | [] => (Ready None, w)
      | _ => (Ready (Some (IoError "more bytes")), w)
      end
  end.

(** The reading side. The decoder of responses does not panic on the bytes of
    the theorems below; a panic is left pending. *)
Abbreviation Reader := (Framed.Reader Upgrade.OutboundCodec).

Definition reader_next (r : Reader) : Poll (option (RPCCodedResponse + RPCError)) * Reader :=
  match Framed.next r with
  | (Some x, r) => (x, r)
  | (None, r) => (Pending, r)
  end.

#[local] Instance framed : Handler.Streams Writer Reader := {|
  Handler.sub_send := writer_send;
  Handler.sub_close := writer_close;
  Handler.out_next := reader_next;
  Handler.out_close r := (Ready None, r);
|}.

(** ** What a reader reads *)

Context `{!Codec.FrameLaws F} `{!BlockLaws K}.

(** The bytes of a list of responses, one after the other. *)
Inductive written (max : Z) : list RPCCodedResponse -> bytes -> Prop :=
| written_nil : written max [] []
| written_cons m ms b bs :
    Codec.encode_coded_response max m [] = Ok b -> written max ms bs -> written max (m :: ms) (b ++ bs).

(** The decoder [b] has taken some of the bytes of the responses [ms], and the
    bytes [todo] are still to arrive. *)
Definition ahead (v : SupportedProtocol) (max : Z) (ms : list RPCCodedResponse) (b : Codec.BaseDecoder)
    (todo : bytes) : Prop :=
  exists b0 s, b = Codec.arrive s b0 /\
    match ms with
    | [] => b0 = Codec.fresh /\ s ++ todo = []
    | m :: ms => exists t rest, Codec.waits v max m b0 t /\ written max ms rest /\ s ++ todo = t ++ rest
    end.

Lemma arrive_app x y b : Codec.arrive y (Codec.arrive x b) = Codec.arrive (x ++ y) b.
Proof. unfold Codec.arrive. cbn. by rewrite app_assoc. Qed.

Lemma arrive_nil b : Codec.arrive [] b = b.
Proof. unfold Codec.arrive. rewrite app_nil_r. by destruct b as [c [l s]]. Qed.

Lemma ahead_arrive v max ms b c todo :
  ahead v max ms b (c ++ todo) -> ahead v max ms (Codec.arrive c b) todo.
Proof.
  intros (b0 & s & -> & Hms). exists b0, (s ++ c). rewrite arrive_app. split; [done|].
  destruct ms as [|m ms]; rewrite <-app_assoc; done.
Qed.

Lemma ahead_start v max ms todo :
  Forall (Codec.response_fits v max) ms -> max < 2 ^ 64 -> written max ms todo ->
  forall s todo', s ++ todo' = todo -> ahead v max ms (Codec.mkBase None (Codec.mkDecoder None s)) todo'.
Proof.
  intros Hf Hm Hw s todo' Hs. exists Codec.fresh, s. split; [done|].
  destruct Hw as [|m ms b bs Eb Hw]; [done|]. apply Forall_cons in Hf as [Hf _].
  destruct (Codec.waits_start v max m [] Hf Hm) as (enc & Ee & Hst). rewrite Eb in Ee. injection Ee as <-.
  by exists b, bs.
Qed.

(** A decoding gives the next response once its bytes are there, and nothing
    before. *)
Lemma decode_ahead v max ms b todo :
  Forall (Codec.response_fits v max) ms -> max < 2 ^ 64 -> ahead v max ms b todo ->
  let d := Codec.decode_coded_response (protocol_id_new v SSZSnappy) max b in
  (exists m ms' b', ms = m :: ms' /\ d = (Ok (Some m), b') /\ ahead v max ms' b' todo) \/
  (exists b', d = (Ok None, b') /\ ahead v max ms b' todo /\
     (todo = [] -> ms = [] /\ Codec.src (Codec.inner b') = [])).
Proof.
  intros Hf Hm (b0 & s & -> & Hms) d. destruct ms as [|m ms].
  { right. destruct Hms as [-> [-> ->]%app_eq_nil]. exists Codec.fresh. split_and!; [done| |done].
    exists Codec.fresh, []. by rewrite arrive_nil. }
  destruct Hms as (t & rest & Hwait & Hw & Hs). apply Forall_cons in Hf as [_ Hf].
  assert (forall k, s = t ++ k -> k ++ todo = rest ->
    exists m0 ms' b', m :: ms = m0 :: ms' /\ d = (Ok (Some m0), b') /\ ahead v max ms' b' todo) as Hdone.
  { intros k -> Hk. exists m, ms, (Codec.mkBase None (Codec.mkDecoder None k)).
    split_and!; [done|by apply (Codec.waits_done v max m b0 t k)|]. by eapply ahead_start. }
  apply app_eq_inv in Hs as [(k & Ek & Hk)|(k & Ek & Hk)]; [left; by eapply Hdone|].
  destruct (decide (k = [])) as [->|Hne].
  { left. apply (Hdone []); rewrite ?app_nil_r; [by rewrite app_nil_r in Ek|done]. }
  right. rewrite Ek in Hwait. destruct (Codec.waits_part v max m b0 s k Hwait Hne) as (b' & Eb & Hw').
  exists b'. split_and!; [done| |].
  - exists b', []. rewrite arrive_nil. split; [done|]. by exists k, rest.
  - intros ->. symmetry in Hk. by apply app_eq_nil in Hk as [? _].
Qed.

(** The same of the codec of the substream, for responses that fit. *)
Definition responses_ahead (v : SupportedProtocol) (max : Z) (ms : list RPCCodedResponse)
    (c : Upgrade.OutboundCodec) (todo : bytes) : Prop :=
  Upgrade.o_protocol c = protocol_id_new v SSZSnappy /\ Upgrade.o_max c = max /\
  Forall (Codec.response_fits v max) ms /\ max < 2 ^ 64 /\ ahead v max ms (Upgrade.o_decoder c) todo.

Lemma responses_ahead_feed v max ms c more todo :
  responses_ahead v max ms c (more ++ todo) -> responses_ahead v max ms (Framed.feed more c) todo.
Proof. intros (Hp & Hx & Hf & Hm & Ha). split_and!; [done..|]. by apply ahead_arrive. Qed.

Lemma responses_ahead_decode v max ms c todo :
  responses_ahead v max ms c todo ->
  (exists m ms' c', ms = m :: ms' /\ Framed.decode c = (Ok (Some m), c') /\ responses_ahead v max ms' c' todo) \/
  (exists c', Framed.decode c = (Ok None, c') /\ responses_ahead v max ms c' todo /\
     (todo = [] -> ms = [] /\ Framed.buffer c' = [])).
Proof.
  intros (Hp & Hx & Hf & Hm & Ha). cbn. unfold Upgrade.outbound_decode. rewrite Hp, Hx.
  destruct (decode_ahead v max ms _ _ Hf Hm Ha) as [(m & ms' & b' & -> & -> & Ha')|(b' & -> & Ha' & Hend)].
  - left. apply Forall_cons in Hf as [_ Hf]. eexists m, ms', _. by split_and!.
  - right. eexists. by split_and!.
Qed.

(** ** The reader's items *)

Abbreviation reading v max := (Framed.reading (responses_ahead v max)).

Lemma reader_next_reading v max ms (r : Reader) :
  reading v max ms r ->
  let a := reader_next r in
  (a.1 = Pending /\ reading v max ms a.2 /\ (length (Framed.reads a.2) < length (Framed.reads r))%nat) \/
  (exists m ms', ms = m :: ms' /\ a.1 = Ready (Some (inl m)) /\ reading v max ms' a.2 /\
     (length (Framed.reads a.2) <= length (Framed.reads r))%nat) \/
  (ms = [] /\ a.1 = Ready None).
Proof.
  intros Hr a. subst a. unfold reader_next.
  pose proof (Framed.next_reading _ (responses_ahead_feed v max) (responses_ahead_decode v max) _ _ Hr) as Hn.
  destruct (Framed.next r) as [o r'].
  destruct Hn as [(Eo & ? & ?)|[(m & ms' & ? & Eo & ? & ?)|(? & Eo)]]; cbn in Eo; subst o;
    [left|right; left; exists m, ms'|right; right]; by split_and!.
Qed.

(** ** A handler with one substream *)

Context {Id Q Key Waker : Type} `{EqDecision Waker} `{DQ : DelayQueue Q Key Z} `{DD : !Deadlines Q Key Z}.
Context `{MO : Handler.MapOrder}.
Context (error_text : ErrorType -> string).

Abbreviation handler :=
  (Handler.RPCHandler (Id:=Id) (InboundSubstream:=Writer) (OutboundFramed:=Reader) (Q:=Q) (Key:=Key) (Waker:=Waker)).
Abbreviation event := (HandlerEvent Id Z).
Abbreviation out_events := (list (Handler.ConnectionHandlerEvent (Id:=Id))).

(** The handler is polled at the given times: what the polls return, in order,
    without those that are pending. *)
Fixpoint polls (wk : Waker) (times : list Z) (h : handler) : res unit out_events * handler :=
  match times with
  | [] => (Ok [], h)
  | now :: times =>
      match Handler.poll error_text now wk h with
      | (Ok o, h) =>
          match polls wk times h with
          | (Ok es, h) => (Ok (match o with Some e => e :: es | None => es end), h)
          | x => x
          end
      | (Err e, h) => (Err e, h)
      | (Panic, h) => (Panic, h)
      end
  end.

(** An open connection on which nothing else is going on: there is nothing to
    dial, and the only substreams, with their deadlines, are the given ones. *)
Record alone (ins : gmap Z Handler.InboundInfo) (dins : gmap Key Z)
    (outs : gmap Z Handler.OutboundInfo) (douts : gmap Key Z) (h : handler) : Prop := {
  al_state : Handler.state h = Handler.Active;
  al_dials : Handler.dial_queue h = [];
  al_in : Handler.inbound_substreams h = ins;
  al_in_due : dq_due (Handler.inbound_substreams_delay h) = dins;
  al_out : Handler.outbound_substreams h = outs;
  al_out_due : dq_due (Handler.outbound_substreams_delay h) = douts;
}.

(** The parts of a poll after the expiry of timers. *)
Definition drive (now : Z) : ST handler (Handler.ConnectionHandlerEvent (Id:=Id)) unit :=
  h ← getS;
  substreams_to_remove ← Handler.drive_inbounds now false (Handler.keys_of (Handler.inbound_substreams h));
  Handler.remove_inbound substreams_to_remove ;;
  h ← getS;
  Handler.drive_outbounds error_text now false (Handler.keys_of (Handler.outbound_substreams h)) ;;
  Handler.establish ;;
  Handler.check_closed.

(** Nothing expires in a poll before the deadlines. *)
Lemma poll_drives now wk ins dins outs douts (h : handler) :
  alone ins dins outs douts h -> Handler.events_out h = [] ->
  map_Forall (fun _ due => now < due) dins -> map_Forall (fun _ due => now < due) douts ->
  exists h', alone ins dins outs douts h' /\
    Handler.events_out h' = [] /\ Handler.resp_timeout h' = Handler.resp_timeout h /\
    dq_timers (Handler.inbound_substreams_delay h') = dq_timers (Handler.inbound_substreams_delay h) /\
    dq_timers (Handler.outbound_substreams_delay h') = dq_timers (Handler.outbound_substreams_delay h) /\
    Handler.poll_steps error_text now wk h = drive now h'.
Proof.
  intros [Hs Hd Hi Hid Ho Hod] He Hni Hno. subst ins dins outs douts.
  destruct (due_poll now _ Hni) as (ri & qi & Epi & Hri & Hqi), (due_poll now _ Hno) as (ro & qo & Epo & Hro & Hqo).
  pose proof (dq_poll_takes _ _ _ _ Epi) as Hti. pose proof (dq_poll_takes _ _ _ _ Epo) as Hto.
  assert (dq_timers qi = dq_timers (Handler.inbound_substreams_delay h)) as Ei by (by destruct Hri as [->| ->]).
  assert (dq_timers qo = dq_timers (Handler.outbound_substreams_delay h)) as Eo by (by destruct Hro as [->| ->]).
  assert (exists wk', Handler.update_waker wk h = (Ok tt, Handler.set_waker wk' h)) as [wk' Ew].
  { unfold Handler.update_waker. destruct (Handler.waker h) as [old|] eqn:E; [|by eexists].
    destruct (decide _); [by eexists|]. exists (Some old). rewrite <-E. by destruct h. }
  set (h1 := Handler.set_waker wk' h) in *.
  set (h2 := Handler.set_inbound (Handler.inbound_substreams h1) qi h1).
  set (h3 := Handler.set_outbound (Handler.outbound_substreams h2) qo h2).
  exists h3. split; [by split|]. split_and!; [done..|].
  unfold Handler.poll_steps. unfold mbind at 1, st_bind at 1. rewrite Ew.
  unfold mbind at 1, st_bind at 1, Handler.take_event. change (Handler.events_out h1) with (Handler.events_out h). rewrite He.
  unfold mbind at 1, st_bind at 1, Handler.check_shutdown. change (Handler.state h1) with (Handler.state h). rewrite Hs.
  unfold mbind at 1, st_bind at 1, getS at 1. unfold mbind at 1, st_bind at 1.
  assert (forall n, Handler.purge_inbound (Datatypes.S n) now h1 = (Ok tt, h2)) as ->.
  { intros n. cbn [Handler.purge_inbound]. change (Handler.inbound_substreams_delay h1) with (Handler.inbound_substreams_delay h).
    rewrite Epi. by destruct Hri as [->| ->]. }
  unfold mbind at 1, st_bind at 1, getS at 1. unfold mbind at 1, st_bind at 1.
  assert (forall n, Handler.purge_outbound (Datatypes.S n) now h2 = (Ok tt, h3)) as ->.
  { intros n. cbn [Handler.purge_outbound]. change (Handler.outbound_substreams_delay h2) with (Handler.outbound_substreams_delay h).
    rewrite Epo. by destruct Hro as [->| ->]. }
  unfold mbind at 1, st_bind at 1, getS at 1. unfold drive, mbind at 7, st_bind at 7.
  unfold Handler.is_deactivated. change (Handler.state h3) with (Handler.state h). by rewrite Hs.
Qed.

(** ** The node that asked *)

Definition block_response (b : SignedConsensusBlock) : RPCCodedResponse := Success (BlocksByRangeResp b).

(** What the node is told of a request for blocks: the blocks and the end. *)
Definition told (rid : Id) (blocks : list SignedConsensusBlock) : list event :=
  map (fun b => Received (ReceivedResponse rid (BlocksByRangeResp b))) blocks
  ++ [Received (EndOfStream rid BlocksByRangeTermination)].

Lemma keys_one {V} i (x : V) : Handler.keys_of {[i := x]} = [i].
Proof.
  pose proof (Handler.keys_of_perm {[i := x]}) as Hp. rewrite map_to_list_singleton in Hp.
  by apply Permutation_singleton_r in Hp.
Qed.

Lemma keys_none {V} : Handler.keys_of (∅ : gmap Z V) = [].
Proof.
  pose proof (Handler.keys_of_perm (∅ : gmap Z V)) as Hp. rewrite map_to_list_empty in Hp.
  by apply Permutation_nil_r in Hp.
Qed.

(** Nothing is dialled and an open connection is not closed. *)
Lemma alone_rests ins dins outs douts (h : handler) :
  alone ins dins outs douts h ->
  (Handler.establish (Id:=Id) ;; Handler.check_closed) h = (Ok tt, h).
Proof.
  intros Hal. unfold mbind, st_bind, Handler.establish, Handler.check_closed.
  by rewrite (al_dials _ _ _ _ _ Hal), (al_state _ _ _ _ _ Hal).
Qed.

Lemma remove_none (h : handler) : Handler.remove_inbound (Id:=Id) [] h = (Ok tt, h).
Proof. by destruct h. Qed.

(** The only substream is an outbound one, and has the timer [k]. *)
Definition asking (h : handler) (id : Z) (state : Handler.OutboundSubstreamState) (rem : option Z) (rid : Id)
    (due : Z) : Prop :=
  Handler.events_out h = [] /\
  exists k, alone ∅ ∅ {[id := Handler.mkOutbound state k BlocksByRange rem rid]} {[k := due]} h /\
    dq_timers (Handler.outbound_substreams_delay h) !! k = Some id.

(** No substream is open. *)
Definition idle (h : handler) : Prop := Handler.events_out h = [] /\ alone ∅ ∅ ∅ ∅ h.

Lemma idle_poll now wk (h : handler) :
  idle h -> exists h', Handler.poll error_text now wk h = (Ok None, h') /\ idle h'.
Proof.
  intros [He Hal]. destruct (poll_drives now wk _ _ _ _ h Hal He) as (h' & Hal' & He' & _ & _ & _ & E); [done..|].
  exists h'. split; [|done]. unfold Handler.poll. rewrite E. unfold drive.
  unfold mbind at 1, st_bind at 1, getS at 1. rewrite (al_in _ _ _ _ _ Hal'), keys_none.
  unfold mbind at 1, st_bind at 1. cbn [Handler.drive_inbounds mret st_ret].
  unfold mbind at 1, st_bind at 1. rewrite remove_none. unfold mbind at 1, st_bind at 1, getS at 1.
  rewrite (al_out _ _ _ _ _ Hal'), keys_none. unfold mbind at 1, st_bind at 1. cbn [Handler.drive_outbounds mret st_ret].
  by rewrite (alone_rests _ _ _ _ _ Hal').
Qed.

Lemma idle_polls wk times (h : handler) : idle h -> exists h', polls wk times h = (Ok [], h') /\ idle h'.
Proof.
  revert h. induction times as [|now times IH]; intros h Hh; cbn [polls]; [by exists h|].
  destruct (idle_poll now wk h Hh) as (h1 & -> & H1). destruct (IH h1 H1) as (h2 & -> & H2). by exists h2.
Qed.

(** A poll of a handler with one outbound substream drives it. *)
Lemma asking_poll now wk id state rem rid due (h : handler) :
  asking h id state rem rid due -> now < due ->
  exists h', asking h' id state rem rid due /\ Handler.resp_timeout h' = Handler.resp_timeout h /\
    Handler.poll error_text now wk h =
    match Handler.drive_outbound error_text now false id h' with
    | (Ok _, h2) => match (Handler.establish (Id:=Id) ;; Handler.check_closed) h2 with
                    | (Err e, h3) => (Ok (Some e), h3)
                    | (Ok _, h3) => (Ok None, h3)
                    | (Panic, h3) => (Panic, h3)
                    end
    | (Err e, h2) => (Ok (Some e), h2)
    | (Panic, h2) => (Panic, h2)
    end.
Proof.
  intros (He & k & Hal & Hk) Hlt.
  destruct (poll_drives now wk _ _ _ _ h Hal He) as (h' & Hal' & He' & Hr & _ & Ht & E);
    [done|by apply map_Forall_singleton|].
  exists h'. split; [split; [done|]; exists k; by rewrite Ht|]. split; [done|].
  unfold Handler.poll. rewrite E. unfold drive.
  unfold mbind at 1, st_bind at 1, getS at 1. rewrite (al_in _ _ _ _ _ Hal'), keys_none.
  unfold mbind at 1, st_bind at 1. cbn [Handler.drive_inbounds mret st_ret].
  unfold mbind at 1, st_bind at 1. rewrite remove_none. unfold mbind at 1, st_bind at 1, getS at 1.
  rewrite (al_out _ _ _ _ _ Hal'), keys_one. unfold mbind at 1, st_bind at 1. cbn [Handler.drive_outbounds].
  unfold mbind at 1, st_bind at 1.
  by destruct (Handler.drive_outbound error_text now false id h') as [[[]| |] h2].
Qed.

Lemma drop_ends (h : handler) id state rem rid k due :
  Handler.events_out h = [] ->
  alone ∅ ∅ {[id := Handler.mkOutbound state k BlocksByRange rem rid]} {[k := due]} h ->
  dq_timers (Handler.outbound_substreams_delay h) !! k = Some id ->
  exists h', Handler.drop_outbound id (Handler.mkOutbound state k BlocksByRange rem rid) h = (Ok tt, h') /\ idle h'.
Proof.
  intros He Hal Ek. unfold Handler.drop_outbound. cbn [Handler.out_delay_key].
  destruct (dq_remove_present k id _ Ek) as (q & Eq & _). rewrite Eq. apply due_remove in Eq.
  eexists. split; [done|]. split; [done|]. destruct Hal as [Hs Hd Hi Hid Ho Hod].
  split; cbn; [done..| |]; rewrite ?Eq, ?Hod, ?Ho; apply delete_singleton_eq.
Qed.

(** One poll of the substream, by what the reader answers. *)
Lemma drive_waits now id (h : handler) r r' q rem rid due :
  asking h id (Handler.RequestPendingResponse r (BlocksByRangeReq q)) rem rid due ->
  reader_next r = (Pending, r') ->
  exists h', Handler.drive_outbound error_text now false id h = (Ok tt, h') /\
    asking h' id (Handler.RequestPendingResponse r' (BlocksByRangeReq q)) rem rid due /\
    Handler.resp_timeout h' = Handler.resp_timeout h.
Proof.
  intros (He & k & Hal & Ek) Er. unfold Handler.drive_outbound.
  rewrite (al_out _ _ _ _ _ Hal), lookup_singleton_eq. cbn [Handler.out_state Handler.out_next framed].
  rewrite Er. eexists. split; [done|]. split; [|done]. split; [done|]. exists k. split; [|done].
  destruct Hal as [Hs Hd Hi Hid Ho Hod]. split; try done. cbn. by rewrite Ho, insert_singleton_eq.
Qed.

Lemma drive_ends now id (h : handler) r r' q rem rid due :
  asking h id (Handler.RequestPendingResponse r (BlocksByRangeReq q)) rem rid due ->
  reader_next r = (Ready None, r') -> 1 < count q ->
  exists h', Handler.drive_outbound error_text now false id h
             = (Err (Handler.NotifyBehaviour (Received (EndOfStream rid BlocksByRangeTermination))), h') /\ idle h'.
Proof.
  intros (He & k & Hal & Ek) Er Hq. unfold Handler.drive_outbound.
  rewrite (al_out _ _ _ _ _ Hal), lookup_singleton_eq. cbn [Handler.out_state Handler.out_next framed]. rewrite Er.
  destruct (drop_ends _ _ _ _ _ _ _ He Hal Ek) as (h' & Ed & Hn).
  unfold Handler.on_stream_end, mbind, st_bind. rewrite Ed. cbn [expected_responses].
  rewrite (proj2 (Z.ltb_lt _ _) Hq). cbn. by exists h'.
Qed.

Lemma drive_closing now id (h : handler) r rem rid due :
  asking h id (Handler.Closing r) rem rid due ->
  exists h', Handler.drive_outbound error_text now false id h
             = (Err (Handler.NotifyBehaviour (Received (EndOfStream rid BlocksByRangeTermination))), h') /\ idle h'.
Proof.
  intros (He & k & Hal & Ek). unfold Handler.drive_outbound.
  rewrite (al_out _ _ _ _ _ Hal), lookup_singleton_eq. cbn [Handler.out_state].
  destruct (drop_ends _ _ _ _ _ _ _ He Hal Ek) as (h' & Ed & Hn).
  unfold Handler.on_closing, mbind, st_bind. cbn [Handler.out_close framed]. rewrite Ed. cbn. by exists h'.
Qed.

(** Where the substream goes after a block: it waits for the next one while the
    count allows more. *)
Definition after_block (q : BlocksByRangeRequest) (rem : option Z) : option Z :=
  match rem with
  | Some n => if (1 <? count q) && (1 <? n) then Some (n - 1) else None
  | None => None
  end.

Lemma drive_block now id (h : handler) r r' q b rem rid due :
  asking h id (Handler.RequestPendingResponse r (BlocksByRangeReq q)) rem rid due ->
  reader_next r = (Ready (Some (inl (block_response b))), r') ->
  (forall n, rem = Some n -> 0 < n) ->
  exists h', Handler.drive_outbound error_text now false id h
             = (Err (Handler.NotifyBehaviour (Received (ReceivedResponse rid (BlocksByRangeResp b)))), h') /\
    match after_block q rem with
    | Some n => asking h' id (Handler.RequestPendingResponse r' (BlocksByRangeReq q)) (Some n) rid
                  (now + Handler.resp_timeout h)
    | None => asking h' id (Handler.Closing r') rem rid due
    end /\ Handler.resp_timeout h' = Handler.resp_timeout h.
Proof.
  intros (He & k & Hal & Ek) Er Hrem. unfold Handler.drive_outbound.
  rewrite (al_out _ _ _ _ _ Hal), lookup_singleton_eq. cbn [Handler.out_state Handler.out_next framed]. rewrite Er.
  destruct Hal as [Hs Hd Hi Hid Ho Hod].
  assert (forall s n, asking (Handler.set_outbound
     (<[id := Handler.mkOutbound s k BlocksByRange n rid]> (Handler.outbound_substreams h))
     (Handler.outbound_substreams_delay h) h) id s n rid due) as Hset.
  { intros s n. split; [done|]. exists k. split; [|done]. split; try done. cbn. by rewrite Ho, insert_singleton_eq. }
  unfold Handler.on_response, mbind, st_bind, throw. cbn [expected_responses Handler.remaining_chunks].
  unfold after_block. destruct (1 <? count q) eqn:Eq; cbn [andb negb close_after block_response].
  2:{ destruct rem; (eexists; split_and!; [done| |done]); apply Hset. }
  destruct rem as [n|]; cbn [saturating_sub].
  2:{ eexists. split_and!; [done| |done]. apply Hset. }
  specialize (Hrem n eq_refl). destruct (Z.ltb_spec 1 n).
  - replace (saturating_sub n 1 =? 0) with false by (unfold saturating_sub; lia).
    unfold Handler.store_outbound, Handler.reset_outbound, modifyS. cbn [Handler.out_delay_key].
    destruct (dq_reset_present k (now + Handler.resp_timeout h) id _ Ek) as (dq & Edq & Et).
    cbn. rewrite Edq. apply due_reset in Edq. eexists. split_and!; [done| |done]. split; [done|].
    exists k. cbn. rewrite Et. split; [|done]. split; try done; cbn.
    + rewrite Ho, insert_singleton_eq. do 3 f_equal. unfold saturating_sub. lia.
    + by rewrite Edq, Hod, insert_singleton_eq.
  - replace (saturating_sub n 1 =? 0) with true by (unfold saturating_sub; lia).
    eexists. split_and!; [done| |done]. apply Hset.
Qed.

(** In polls before the deadline the node is told of every block, in order and
    once, and then of the end, whatever the reads from the socket are. *)
Lemma polls_reading max q rid id t0 wk blocks times (h : handler) r rem due :
  asking h id (Handler.RequestPendingResponse r (BlocksByRangeReq q)) rem rid due ->
  reading BlocksByRangeV1 max (map block_response blocks) r ->
  (if 1 <? count q then exists n, rem = Some n /\ 0 < n /\ Z.of_nat (length blocks) <= n
   else rem = None /\ length blocks = 1%nat) ->
  t0 + Handler.resp_timeout h <= due ->
  Forall (fun now => t0 <= now < t0 + Handler.resp_timeout h) times ->
  (length (Framed.reads r) + length blocks + 2 <= length times)%nat ->
  exists h', polls wk times h = (Ok (map Handler.NotifyBehaviour (told rid blocks)), h') /\ idle h'.
Proof.
  intros Hw Hr Hn Hdue Ht. revert blocks h r rem due Hw Hr Hn Hdue Ht.
  induction times as [|now times IH]; intros blocks h r rem due Hw Hr Hn Hdue Ht Hlen; [cbn in Hlen; lia|].
  apply Forall_cons in Ht as [Hnow Ht]. cbn [polls length] in *.
  destruct (asking_poll now wk _ _ _ _ _ h Hw ltac:(lia)) as (h0 & Hw0 & Hr0 & ->).
  rewrite <-Hr0 in Hnow, Ht, Hdue.
  assert (forall h1 x, asking h1 id (Handler.Closing x) rem rid due ->
    Handler.resp_timeout h1 = Handler.resp_timeout h0 -> (1 <= length times)%nat ->
    exists h', polls wk times h1 = (Ok (map Handler.NotifyBehaviour (told rid [])), h') /\ idle h') as Hclose.
  { intros h1 x Hc Hr1 Hl. destruct times as [|now' times]; [cbn in Hl; lia|].
    apply Forall_cons in Ht as [Hnow' Ht]. cbn [polls].
    destruct (asking_poll now' wk _ _ _ _ _ h1 Hc ltac:(lia)) as (h2 & Hc2 & _ & ->).
    destruct (drive_closing now' id h2 x rem rid due Hc2) as (h3 & -> & H3).
    destruct (idle_polls wk times h3 H3) as (h4 & -> & H4). by exists h4. }
  pose proof (reader_next_reading _ _ _ _ Hr) as Hnext.
  destruct (reader_next r) as [a r'] eqn:En. destruct Hnext as [(Ea & Hr' & Hl)|[(m & ms & Em & Ea & Hr' & Hl)|(Em & Ea)]];
    cbn in *; subst a.
  - destruct (drive_waits now id h0 r r' q rem rid due Hw0 En) as (h1 & -> & Hw1 & Hr1).
    pose proof Hw1 as (_ & k1 & Hal1 & _). rewrite (alone_rests _ _ _ _ _ Hal1).
    destruct (IH blocks h1 r' rem due Hw1 Hr' Hn) as (h' & -> & Hi); [by rewrite Hr1..|lia|]. by exists h'.
  - destruct blocks as [|b blocks]; [done|]. injection Em as <- <-.
    destruct (drive_block now id h0 r r' q b rem rid due Hw0 En) as (h1 & -> & Hw1 & Hr1).
    { intros n ->. destruct (1 <? count q); naive_solver. }
    unfold after_block in Hw1. cbn [length] in *.
    destruct (1 <? count q) eqn:Eq.
    + destruct Hn as (n & -> & Hpos & Hle). cbn [andb] in Hw1. destruct (Z.ltb_spec 1 n).
      * destruct (IH blocks h1 r' (Some (n - 1)) _ Hw1 Hr') as (h' & -> & Hi);
          [|rewrite Hr1; lia|by rewrite Hr1|lia|by exists h'].
        exists (n - 1). split_and!; [done|lia|lia].
      * destruct blocks as [|? ?]; [|cbn in Hle; lia].
        destruct (Hclose h1 r' Hw1 Hr1 ltac:(lia)) as (h' & -> & Hi). by exists h'.
    + destruct Hn as [-> Hl1]. destruct blocks as [|? ?]; [|cbn in Hl1; lia].
      destruct (Hclose h1 r' Hw1 Hr1 ltac:(lia)) as (h' & -> & Hi). by exists h'.
  - destruct blocks; [|done]. destruct (Z.ltb_spec 1 (count q)); [|by destruct Hn].
    destruct (drive_ends now id h0 r r' q rem rid due Hw0 En) as (h1 & -> & Hi); [done|].
    destruct (idle_polls wk times h1 Hi) as (h2 & -> & H2). by exists h2.
Qed.

(** ** The node that serves *)

Lemma strip_app p l : strip_prefix p (p ++ l) = Some l.
Proof. induction p as [|a p IH]; cbn; [done|]. by rewrite Z.eqb_refl. Qed.

Definition END : RPCCodedResponse := StreamTermination BlocksByRangeTermination.

(** The only substream is an inbound one, and has the timer [k]. *)
Definition serving (h : handler) (i : Z) (state : Handler.InboundState) (pending : list RPCCodedResponse) (n : Z)
    (due : Z) : Prop :=
  Handler.events_out h = [] /\
  exists k, alone {[i := Handler.mkInbound state pending BlocksByRange n (Some k)]} {[k := due]} ∅ ∅ h /\
    dq_timers (Handler.inbound_substreams_delay h) !! k = Some i.

(** What is left to do of a substream: it is sending a block, with others and
    the end to come, or it is closing. [m] is how often the socket may still
    not be ready. *)
Inductive job (max n : Z) (m : nat) : Handler.SendFuture -> list RPCCodedResponse -> Prop :=
| job_send b bs w st :
    written max (map block_response (b :: bs)) w -> Z.of_nat (length (b :: bs)) <= n -> m = length st ->
    job max n m (Handler.Sending (mkWriter max w st) (block_response b) (n <=? 1)) (map block_response bs ++ [END])
| job_close st pending : m = length st -> job max n m (Handler.ClosingAfter (mkWriter max [] st) None) pending.

(** The next message, after one has been written. *)
Lemma next_job max n blocks w st :
  written max (map block_response blocks) w -> Z.of_nat (length blocks) <= n ->
  exists m rest, map block_response blocks ++ [END] = m :: rest /\
    job max n (length st) (Handler.send_message_to_inbound_substream (mkWriter max w st) m (n <=? 1)) rest.
Proof.
  intros Hw Hl. destruct blocks as [|b bs].
  - inversion Hw; subst. exists END, []. split; [done|]. by apply job_close.
  - exists (block_response b), (map block_response bs ++ [END]). split; [done|]. by eapply job_send.
Qed.

(** The closing of the substream ends, or waits for the socket. *)
Lemma closing_round max st :
  (exists st', (length st' < length st)%nat /\
     Handler.poll_closing (mkWriter max [] st) None = inl (Handler.ClosingAfter (mkWriter max [] st') None)) \/
  exists s, Handler.poll_closing (mkWriter max [] st) None = inr (inl (s, true)).
Proof.
  unfold Handler.poll_closing. cbn. unfold writer_close. cbn.
  destruct st as [|[] st]; [right; by eexists|right; by eexists|]. left. exists st. cbn. split; [lia|done].
Qed.

Section Busy.
Context (now i : Z) (k : Key).

(** A substream whose last round has ended is left closed, without its timer. *)
Lemma busy_closed (info : Handler.InboundInfo) x pending (h : handler) due :
  alone {[i := x]} {[k := due]} ∅ ∅ h -> Handler.delay_key info = Some k ->
  dq_timers (Handler.inbound_substreams_delay h) !! k = Some i ->
  exists x' h', (Handler.store_inbound i info Handler.Poisoned pending ;;
                 Handler.remove_timer (Handler.delay_key info) ;; mret true) h = (Ok true, h') /\
    alone {[i := x']} ∅ ∅ ∅ h' /\ Handler.events_out h' = Handler.events_out h.
Proof.
  intros [Hs Hd Hi Hid Ho Hod] Ek Hk.
  unfold Handler.store_inbound, Handler.remove_timer, modifyS, mbind, st_bind. rewrite Ek. cbn.
  destruct (dq_remove_present k i _ Hk) as (q & Eq & _). rewrite Eq. apply due_remove in Eq.
  eexists _, _. split; [done|]. split; [|done]. split; try done; cbn.
  - by rewrite Hi, insert_singleton_eq.
  - rewrite Eq, Hid. apply delete_singleton_eq.
Qed.

(** One that waits for the socket is kept. *)
Lemma busy_kept (info : Handler.InboundInfo) x fut pending (h : handler) due :
  alone {[i := x]} {[k := due]} ∅ ∅ h -> Handler.events_out h = [] -> Handler.delay_key info = Some k ->
  Handler.in_protocol info = BlocksByRange -> dq_timers (Handler.inbound_substreams_delay h) !! k = Some i ->
  exists h', (Handler.store_inbound i info (Handler.Busy fut) pending ;; mret false) h = (Ok false, h') /\
    serving h' i (Handler.Busy fut) pending (Handler.in_remaining_chunks info) due /\
    Handler.resp_timeout h' = Handler.resp_timeout h.
Proof.
  intros [Hs Hd Hi Hid Ho Hod] He Ek Ep Hk. eexists. split; [done|]. split; [|done]. split; [done|]. exists k.
  split; [|done]. split; try done. cbn. by rewrite Hi, insert_singleton_eq, Ek, Ep.
Qed.

(** A round of the loop. *)
Lemma busy_round max pending n m (info : Handler.InboundInfo) x fut (h : handler) due :
  alone {[i := x]} {[k := due]} ∅ ∅ h -> Handler.events_out h = [] -> Handler.delay_key info = Some k ->
  Handler.in_protocol info = BlocksByRange -> Handler.in_remaining_chunks info = n ->
  dq_timers (Handler.inbound_substreams_delay h) !! k = Some i -> job max n m fut pending ->
  exists h',
    (Handler.drive_busy now false i info fut pending h = (Ok true, h') /\
     Handler.events_out h' = [] /\ exists x', alone {[i := x']} ∅ ∅ ∅ h') \/
    (Handler.drive_busy now false i info fut pending h = (Ok false, h') /\
     Handler.resp_timeout h' = Handler.resp_timeout h /\
     exists fut' pending' n' m' due', (m' < m)%nat /\ job max n' m' fut' pending' /\
       (due' = due \/ due' = now + Handler.resp_timeout h) /\ serving h' i (Handler.Busy fut') pending' n' due').
Proof.
  revert n m info x fut h due. induction pending as [pending IH] using (induction_ltof1 _ length);
    intros n m info x fut h due Hal He Ek Ep En Hk Hj.
  assert (forall s, Handler.poll_future fut = inr (inl (s, true)) ->
    exists h', Handler.drive_busy now false i info fut pending h = (Ok true, h') /\
      Handler.events_out h' = [] /\ exists x', alone {[i := x']} ∅ ∅ ∅ h') as Hclosed.
  { intros s Ef. destruct (busy_closed info x pending h due Hal Ek Hk) as (x' & h' & E & Ha & Hev).
    exists h'. split; [destruct pending; cbn [Handler.drive_busy]; rewrite Ef; exact E|].
    split; [by rewrite Hev|by exists x']. }
  assert (forall fut' m', Handler.poll_future fut = inl fut' -> (m' < m)%nat -> job max n m' fut' pending ->
    exists h', Handler.drive_busy now false i info fut pending h = (Ok false, h') /\
      Handler.resp_timeout h' = Handler.resp_timeout h /\
      exists fut' pending' n' m' due', (m' < m)%nat /\ job max n' m' fut' pending' /\
        (due' = due \/ due' = now + Handler.resp_timeout h) /\ serving h' i (Handler.Busy fut') pending' n' due') as Hkept.
  { intros fut' m' Ef Hm Hj'. destruct (busy_kept info x fut' pending h due Hal He Ek Ep Hk) as (h' & E & Hs & Hr).
    exists h'. split; [destruct pending; cbn [Handler.drive_busy]; rewrite Ef; exact E|]. split; [done|].
    exists fut', pending, n, m', due. rewrite En in Hs. split_and!; [done|done|by left|done]. }
  destruct Hj as [b bs w st Hw Hl Hm|st pending Hm].
  2:{ destruct (closing_round max st) as [(st' & Hst & E)|(s & E)].
      - destruct (Hkept _ (length st') E) as (h' & E'); [lia|by apply job_close|]. exists h'. by right.
      - destruct (Hclosed s E) as (h' & E'). exists h'. by left. }
  inversion Hw; subst. cbn [length] in Hl.
  match goal with E : Codec.encode_coded_response _ _ _ = Ok ?x, R : written _ _ ?y |- _ =>
    rename E into Henc, R into Hrest, x into enc, y into rest end.
  set (n := Handler.in_remaining_chunks info) in *.
  set (fut := Handler.Sending (mkWriter max (enc ++ rest) st) (block_response b) (n <=? 1)) in *.
  destruct (decide (head st = Some false)) as [Est|Est].
  { destruct st as [|f st]; [done|]. injection Est as ->.
    destruct (Hkept (Handler.Sending (mkWriter max (enc ++ rest) st) (block_response b) (n <=? 1)) (length st))
      as (h' & E'); [done|cbn; lia|by eapply (job_send max _ _ b bs)|]. exists h'. by right. }
  assert (writer_send (mkWriter max (enc ++ rest) st) (block_response b)
          = (Ready None, mkWriter max rest (tail st))) as Es.
  { unfold writer_send. cbn [w_max to_write ready]. by destruct st as [|[] st]; rewrite ?Henc, ?strip_app. }
  assert (length (tail st) <= length st)%nat as Htl by (destruct st; cbn; lia).
  assert (Handler.poll_future fut = if n <=? 1 then Handler.poll_closing (mkWriter max rest (tail st)) None
                                    else inr (inl (mkWriter max rest (tail st), false))) as Ef.
  { subst fut. cbn [Handler.poll_future block_response]. cbn [Handler.sub_send framed].
    change (Success (BlocksByRangeResp b)) with (block_response b). rewrite Es. by destruct (n <=? 1). }
  destruct (Z.leb_spec n 1) as [Hlast|Hmore].
  - destruct bs; [|cbn in Hl; lia]. inversion Hrest; subst rest.
    destruct (closing_round max (tail st)) as [(st' & Hst & E)|(s & E)]; rewrite E in Ef.
    + destruct (Hkept _ (length st') Ef) as (h' & E'); [lia|by apply job_close|]. exists h'. by right.
    + destruct (Hclosed s Ef) as (h' & E'). exists h'. by left.
  - destruct (next_job max (n - 1) bs rest (tail st) Hrest ltac:(lia)) as (msg & more & Em & Hj).
    destruct (dq_reset_present k (now + Handler.resp_timeout h) i _ Hk) as (q & Eq & Et).
    pose proof (due_reset _ _ _ _ Eq) as Hdue. destruct Hal as [Hs Hd Hi Hid Ho Hod].
    set (h1 := Handler.set_inbound (Handler.inbound_substreams h) q h).
    assert (alone {[i := x]} {[k := now + Handler.resp_timeout h]} ∅ ∅ h1) as Hal1.
    { split; try done. cbn. by rewrite Hdue, Hid, insert_singleton_eq. }
    assert (Handler.in_remaining_chunks (Handler.next_chunk info) = n - 1) as En1.
    { cbn. unfold saturating_sub. fold n. lia. }
    assert (Handler.drive_busy now false i info fut (map block_response bs ++ [END]) h
            = Handler.drive_busy now false i (Handler.next_chunk info)
                (Handler.send_message_to_inbound_substream (mkWriter max rest (tail st)) msg (n - 1 <=? 1)) more h1) as Edrive.
    { rewrite Em. cbn [Handler.drive_busy]. rewrite Ef.
      unfold Handler.reset_timer, mbind at 1, st_bind at 1.
      change (Handler.delay_key (Handler.next_chunk info)) with (Handler.delay_key info).
      rewrite Ek, Eq. fold h1. by rewrite En1. }
    rewrite Edrive.
    destruct (IH more) with (n := n - 1) (m := length (tail st)) (info := Handler.next_chunk info) (x := x)
      (fut := Handler.send_message_to_inbound_substream (mkWriter max rest (tail st)) msg (n - 1 <=? 1))
      (h := h1) (due := now + Handler.resp_timeout h) as (h' & [H1|H1]); try done.
    + unfold ltof. rewrite Em. cbn. lia.
    + cbn. by rewrite Et.
    + exists h'. by left.
    + exists h'. right. destruct H1 as (E1 & Hr1 & fut' & p' & n' & m' & d' & Hm' & Hj' & Hd' & Hs').
      split; [done|]. split; [done|]. exists fut', p', n', m', d'. split_and!; [lia|done| |done].
      right. by destruct Hd' as [->| ->].
Qed.

End Busy.

(** A substream with something to send, as [drive_inbound] finds it. *)
Definition working (max : Z) (h : handler) (i n : Z) (m : nat) (due : Z) : Prop :=
  exists state pending fut rest, serving h i state pending n due /\ job max n m fut rest /\
    ((state = Handler.Busy fut /\ rest = pending) \/
     exists s msg, state = Handler.Idle s /\ pending = msg :: rest /\
       fut = Handler.send_message_to_inbound_substream s msg (n <=? 1)).

(** A poll of the serving handler: the substream is closed and gone, or it waits
    for the socket. It never reports a failure. *)
Lemma working_poll max now wk i n m due (h : handler) :
  working max h i n m due -> now < due ->
  exists h', Handler.poll error_text now wk h = (Ok None, h') /\
    (idle h' \/
     Handler.resp_timeout h' = Handler.resp_timeout h /\
     exists n' m' due', (m' < m)%nat /\ (due' = due \/ due' = now + Handler.resp_timeout h) /\
       working max h' i n' m' due').
Proof.
  intros (state & pending & fut & rest & (He & k & Hal & Hk) & Hj & Hfut) Hlt.
  destruct (poll_drives now wk _ _ _ _ h Hal He) as (h1 & Hal1 & He1 & Hr1 & Ht1 & _ & E);
    [by apply map_Forall_singleton|done|].
  rewrite <-Ht1 in Hk. set (info := Handler.mkInbound state pending BlocksByRange n (Some k)) in *.
  destruct (busy_round now i k max rest n m info info fut h1 due Hal1 He1) as (h2 & Hround); [done..|].
  assert (Handler.drive_inbound now false i h1 = Handler.drive_busy now false i info fut rest h1) as Edrive.
  { unfold Handler.drive_inbound. rewrite (al_in _ _ _ _ _ Hal1), lookup_singleton_eq.
    unfold info at 1. cbn [Handler.in_state]. by destruct Hfut as [[-> ->]|(s & msg & -> & -> & ->)]. }
  unfold Handler.poll. rewrite E. unfold drive.
  unfold mbind at 1, st_bind at 1, getS at 1. rewrite (al_in _ _ _ _ _ Hal1), keys_one.
  unfold mbind at 1, st_bind at 1. cbn [Handler.drive_inbounds]. unfold mbind at 1, st_bind at 1. rewrite Edrive.
  assert (forall h3 ins dins, alone ins dins ∅ ∅ h3 ->
    (h ← getS; Handler.drive_outbounds error_text now false (Handler.keys_of (Handler.outbound_substreams h)) ;;
     Handler.establish (Id:=Id) ;; Handler.check_closed) h3 = (Ok tt, h3)) as Hrest.
  { intros h3 ins dins Hal3. unfold mbind at 1, st_bind at 1, getS at 1.
    rewrite (al_out _ _ _ _ _ Hal3), keys_none. unfold mbind at 1, st_bind at 1. cbn [Handler.drive_outbounds mret st_ret].
    by rewrite (alone_rests _ _ _ _ _ Hal3). }
  destruct Hround as [(-> & He2 & x' & [Hs Hd Hi Hid Ho Hod])|(-> & Hr2 & fut' & p' & n' & m' & d' & Hm & Hj' & Hd' & Hs')];
    unfold mbind at 1, st_bind at 1; cbn [mret st_ret]; unfold mbind at 1, st_bind at 1.
  - cbn [Handler.remove_inbound modifyS].
    set (h3 := Handler.set_inbound (foldr delete (Handler.inbound_substreams h2) [i])
                 (Handler.inbound_substreams_delay h2) h2).
    assert (idle h3) as H3.
    { split; [done|]. split; try done. cbn. rewrite Hi. apply delete_singleton_eq. }
    exists h3. change (Handler.remove_inbound (Id:=Id) [i] h2) with (Ok tt : res _ unit, h3). cbn beta iota.
    rewrite (Hrest h3 _ _ (proj2 H3)). split; [done|by left].
  - rewrite remove_none. pose proof Hs' as (_ & k' & Hal' & _). rewrite (Hrest h2 _ _ Hal').
    exists h2. split; [done|]. right. split; [by rewrite Hr2|]. exists n', m', d'.
    split_and!; [done|by rewrite <-Hr1|]. exists (Handler.Busy fut'), p', fut', p'. by split_and!; [| |left].
Qed.

Lemma working_polls max wk i t0 times n m due (h : handler) :
  working max h i n m due -> t0 + Handler.resp_timeout h <= due ->
  Forall (fun now => t0 <= now < t0 + Handler.resp_timeout h) times -> (m < length times)%nat ->
  exists h', polls wk times h = (Ok [], h') /\ idle h'.
Proof.
  revert n m due h. induction times as [|now times IH]; intros n m due h Hw Hdue Ht Hm; [cbn in Hm; lia|].
  apply Forall_cons in Ht as [Hnow Ht]. cbn [polls length] in *.
  destruct (working_poll max now wk i n m due h Hw ltac:(lia)) as (h1 & -> & [Hi|(Hr & n' & m' & d' & Hlt & Hd & Hw')]).
  - destruct (idle_polls wk times h1 Hi) as (h2 & -> & H2). by exists h2.
  - destruct (IH n' m' d' h1 Hw') as (h2 & -> & H2); [rewrite Hr; destruct Hd as [->| ->]; lia|by rewrite Hr|lia|].
    by exists h2.
Qed.

(** ** From the request to the answer *)

Lemma written_total v max ms :
  Forall (Codec.response_fits v max) ms -> max < 2 ^ 64 -> exists w, written max ms w.
Proof.
  intros Hf Hm. induction Hf as [|m ms Hfit _ [w IH]]; [eexists; constructor|].
  destruct (Codec.waits_start v max m [] Hfit Hm) as (enc & E & _). eexists. by constructor.
Qed.

(** The answers of the node are queued on the substream. *)
Definition respond (now i : Z) (ms : list RPCCodedResponse) (h : handler) : handler :=
  foldl (fun h m => (Handler.on_behaviour_event error_text now (SendResponse i m) h).2) h ms.

Lemma respond_queues now i state n due pending ms (h : handler) :
  serving h i state pending n due -> Forall (fun m => forall c e, m <> ErrorResponse c e) ms ->
  serving (respond now i ms h) i state (pending ++ ms) n due /\
  Handler.resp_timeout (respond now i ms h) = Handler.resp_timeout h.
Proof.
  intros Hs Hm. revert pending h Hs. induction Hm as [|m ms Hne _ IH]; intros pending h Hs.
  { by rewrite app_nil_r. }
  destruct Hs as (He & k & [Ha Hd Hi Hid Ho Hod] & Ek). set (h1 := Handler.send_response error_text i m h).
  change (respond now i (m :: ms) h) with (respond now i ms h1).
  assert (serving h1 i state (pending ++ [m]) n due /\ Handler.resp_timeout h1 = Handler.resp_timeout h) as (Hs1 & Hr1).
  { subst h1. unfold Handler.send_response. rewrite Hi, lookup_singleton_eq.
    destruct m as [x|c e|x]; [|by destruct (Hne c e)|];
      cbn; rewrite Ha; (split; [|done]); (split; [done|]); exists k; (split; [|done]);
      (split; try done); cbn; by rewrite ?Hi, insert_singleton_eq. }
  destruct (IH (pending ++ [m]) h1 Hs1) as (H1 & H2).
  rewrite <-app_assoc in H1. rewrite H2. by split.
Qed.

Lemma request_accepted now q stream (h : handler) :
  idle h -> 0 <= Handler.current_inbound_substream_id h -> Handler.current_inbound_substream_id h + 1 < 2 ^ 64 ->
  0 < count q ->
  exists h1, Handler.on_fully_negotiated_inbound now (BlocksByRangeReq q, stream) h = (Ok tt, h1) /\
    Handler.events_out h1 = [Received (ReceivedRequest (Handler.current_inbound_substream_id h) (BlocksByRangeReq q))] /\
    serving (Handler.set_events [] h1) (Handler.current_inbound_substream_id h) (Handler.Idle stream) [] (count q)
      (now + Handler.resp_timeout h) /\
    Handler.resp_timeout h1 = Handler.resp_timeout h.
Proof.
  intros [He [Ha Hd Hi Hid Ho Hod]] Hlo Hhi Hq. unfold Handler.on_fully_negotiated_inbound. rewrite Ha. cbn [expected_responses].
  rewrite (proj2 (Z.ltb_lt _ _) Hq), Hi. change (Z.of_nat (size ∅) <? Handler.MAX_INBOUND_SUBSTREAMS) with true. cbn iota.
  destruct (dq_insert _ _ _) as [k dq] eqn:Ei. destruct (dq_insert_fresh _ _ _ _ _ Ei) as [_ Et].
  apply due_insert in Ei. rewrite Hid in Ei.
  unfold Handler.accept_request. cbn [Handler.current_inbound_substream_id Handler.set_inbound Handler.push Handler.set_events].
  rewrite add_chk_ok by lia. eexists. split; [done|]. cbn. split_and!; [by rewrite He| |done]. split; [done|].
  exists k. cbn. rewrite Et, lookup_insert_eq. split; [|done]. split; try done; cbn.
  all: by rewrite ?Hi, ?Ei, insert_empty.
Qed.

(** The first poll reports the request. *)
Lemma event_poll now wk e i state pending n due (h : handler) :
  Handler.events_out h = [e] -> serving (Handler.set_events [] h) i state pending n due ->
  exists h', Handler.poll error_text now wk h = (Ok (Some (Handler.NotifyBehaviour e)), h') /\
    serving h' i state pending n due /\ Handler.resp_timeout h' = Handler.resp_timeout h.
Proof.
  intros He (_ & k & [Ha Hd Hi Hid Ho Hod] & Hk). unfold Handler.poll, Handler.poll_steps.
  assert (exists wk', Handler.update_waker wk h = (Ok tt, Handler.set_waker wk' h)) as [wk' Ew].
  { unfold Handler.update_waker. destruct (Handler.waker h) as [old|] eqn:E; [|by eexists].
    destruct (decide _); [by eexists|]. exists (Some old). rewrite <-E. by destruct h. }
  unfold mbind at 1, st_bind at 1. rewrite Ew. unfold mbind at 1, st_bind at 1, Handler.take_event.
  change (Handler.events_out (Handler.set_waker wk' h)) with (Handler.events_out h). rewrite He.
  eexists. split; [done|]. split; [|done]. split; [done|]. exists k. split; [|done]. by split.
Qed.

Lemma request_sent now q rid r (h : handler) :
  idle h -> 0 < Handler.dial_negotiated h < 2 ^ 32 ->
  0 <= Handler.current_outbound_substream_id h -> Handler.current_outbound_substream_id h + 1 < 2 ^ 64 ->
  0 < count q ->
  exists h1, Handler.on_fully_negotiated_outbound now r (rid, BlocksByRangeReq q) h = (Ok tt, h1) /\
    asking h1 (Handler.current_outbound_substream_id h)
      (Handler.RequestPendingResponse r (BlocksByRangeReq q))
      (if 1 <? count q then Some (count q) else None) rid (now + Handler.resp_timeout h) /\
    Handler.resp_timeout h1 = Handler.resp_timeout h.
Proof.
  intros [He [Ha Hdl Hi Hid Ho Hod]] Hd Hlo Hhi Hq. unfold Handler.on_fully_negotiated_outbound. rewrite sub_chk_ok by lia.
  cbn [Handler.state Handler.set_retries Handler.set_control Handler.set_dials expected_responses].
  rewrite (proj2 (Z.ltb_lt _ _) Hq), Ha.
  cbn [Handler.current_outbound_substream_id].
  destruct (dq_insert _ _ _) as [k dq] eqn:Ei. destruct (dq_insert_fresh _ _ _ _ _ Ei) as [_ Et].
  apply due_insert in Ei. cbn in Ei. rewrite Hod in Ei.
  rewrite add_chk_ok by (cbn; lia). eexists. split; [done|]. split; [|done]. split; [done|].
  exists k. cbn. rewrite Et, lookup_insert_eq. split; [|done]. split; try done; cbn.
  all: by rewrite ?Ho, ?Ei, insert_empty.
Qed.


Abbreviation by_range := (protocol_id_new BlocksByRangeV1 SSZSnappy).

(** The asking node: it sends the request and reports what is answered. *)
Lemma asking_side max q rid blocks w rs (hc : handler) t3 wq :
  idle hc -> 0 < Handler.dial_negotiated hc < 2 ^ 32 ->
  0 <= Handler.current_outbound_substream_id hc -> Handler.current_outbound_substream_id hc + 1 < 2 ^ 64 ->
  0 < count q -> Z.of_nat (length blocks) <= count q -> (count q = 1 -> blocks <> []) ->
  Forall (Codec.response_fits BlocksByRangeV1 max) (map block_response blocks) -> max < 2 ^ 64 ->
  Upgrade.sent by_range max (BlocksByRangeReq q) wq ->
  written max (map block_response blocks) w -> Framed.arrives rs w ->
  exists r h1, Upgrade.upgrade_outbound by_range max (BlocksByRangeReq q) (fun _ => None) None rs = Ok r /\
    Handler.on_fully_negotiated_outbound t3 r (rid, BlocksByRangeReq q) hc = (Ok tt, h1) /\
    forall wk times, (length rs + length blocks + 2 <= length times)%nat ->
    Forall (fun now => t3 <= now < t3 + Handler.resp_timeout hc) times ->
    exists h2, polls wk times h1 = (Ok (map Handler.NotifyBehaviour (told rid blocks)), h2) /\ idle h2.
Proof.
  intros Hidle Hd Hlo Hhi Hq Hl Hone Hf Hm Hsent Hw Hrs.
  set (r := Framed.new (Upgrade.outbound_codec_new by_range max) rs).
  destruct (request_sent t3 q rid r hc Hidle Hd Hlo Hhi Hq) as (h1 & E1 & Hw1 & Hr1).
  exists r, h1. split; [by rewrite Hsent|]. split; [done|]. intros wk times Hlen Ht.
  apply (polls_reading max q rid _ t3 wk blocks times h1 r _ _ Hw1); [| |by rewrite Hr1|by rewrite Hr1|done].
  - split; [done|]. exists w. split_and!; [|done..]. split_and!; [done..|]. by apply (ahead_start _ _ _ w Hf Hm Hw []).
  - destruct (Z.ltb_spec 1 (count q)); [eexists; split_and!; [done|lia|lia]|].
    split; [done|]. destruct blocks as [|? [|? ?]]; [|done|cbn in Hl; lia]. by destruct Hone; [lia|].
Qed.

(** The serving node: it reports the request, writes the answers and closes the
    substream. *)
Lemma serving_side max q blocks w st (hs : handler) t1 :
  idle hs -> 0 <= Handler.current_inbound_substream_id hs -> Handler.current_inbound_substream_id hs + 1 < 2 ^ 64 ->
  0 < count q -> Z.of_nat (length blocks) <= count q -> written max (map block_response blocks) w ->
  exists h1, Handler.on_fully_negotiated_inbound t1 (BlocksByRangeReq q, mkWriter max w st) hs = (Ok tt, h1) /\
    forall wk ta times, t1 <= ta -> (length st < length times)%nat ->
    Forall (fun now => t1 <= now < t1 + Handler.resp_timeout hs) times ->
    exists h2 h3,
      polls wk [ta] h1 = (Ok [Handler.NotifyBehaviour (Received (ReceivedRequest
                                (Handler.current_inbound_substream_id hs) (BlocksByRangeReq q)))], h2) /\
      polls wk times (respond ta (Handler.current_inbound_substream_id hs) (map block_response blocks ++ [END]) h2)
      = (Ok [], h3) /\ idle h3.
Proof.
  intros Hidle Hlo Hhi Hq Hl Hw.
  destruct (request_accepted t1 q (mkWriter max w st) hs Hidle Hlo Hhi Hq) as (h1 & E1 & He1 & Hs1 & Hr1).
  exists h1. split; [done|]. intros wk ta times _ Hlen Ht.
  destruct (event_poll ta wk _ _ _ _ _ _ h1 He1 Hs1) as (h2 & E2 & Hs2 & Hr2). exists h2.
  destruct (respond_queues ta _ _ _ _ _ (map block_response blocks ++ [END]) h2 Hs2) as (Hs3 & Hr3).
  { apply Forall_app. split; [|by repeat constructor]. by apply Forall_map, Forall_true. }
  destruct (next_job max (count q) blocks w st Hw Hl) as (m & rest & Em & Hj).
  destruct (working_polls max wk (Handler.current_inbound_substream_id hs) t1 times (count q) (length st)
    (t1 + Handler.resp_timeout hs) (respond ta (Handler.current_inbound_substream_id hs)
      (map block_response blocks ++ [END]) h2)) as (h3 & E3 & H3); [|by rewrite Hr3, Hr2, Hr1..|done|].
  { eexists _, _, _, _. split; [exact Hs3|]. split; [exact Hj|]. right. by exists (mkWriter max w st), m. }
  exists h3. split; [|done]. cbn [polls]. by rewrite E2.
Qed.

(** C27: A request for blocks and its answer, over the wire, on two connections
    with nothing else going on. The outbound upgrade writes the request, and the
    inbound upgrade of the serving node reads it however its bytes are cut, if
    they come before its timeout. The next poll of the handler reports the
    request. When the node answers with at most as many blocks as were asked for
    (and with a block, when one was asked for), its handler, polled within the
    response timeout, however often the socket is not ready, writes them and
    closes the substream without reporting a failure. The handler of the asking
    node, polled often enough within the response timeout, reports exactly these
    blocks in their order and then the end, however the bytes are cut and
    whenever they arrive in this time. *)
Theorem blocks_exchanged max q rid blocks (hs hc : handler) st t1 t3 :
  idle hs -> 0 <= Handler.current_inbound_substream_id hs -> Handler.current_inbound_substream_id hs + 1 < 2 ^ 64 ->
  idle hc -> 0 < Handler.dial_negotiated hc < 2 ^ 32 ->
  0 <= Handler.current_outbound_substream_id hc -> Handler.current_outbound_substream_id hc + 1 < 2 ^ 64 ->
  Codec.request_valid (BlocksByRangeReq q) -> limit_max (Codec.rpc_request_limits by_range) <= max ->
  0 < count q -> Z.of_nat (length blocks) <= count q -> (count q = 1 -> blocks <> []) ->
  Forall (Codec.response_fits BlocksByRangeV1 max) (map block_response blocks) -> max < 2 ^ 64 ->
  exists wq w,
    Upgrade.sent by_range max (BlocksByRangeReq q) wq /\
    (forall start times rs, Framed.arrives rs wq -> (length rs < length times)%nat ->
     Forall (fun now => now < start + Upgrade.REQUEST_TIMEOUT * Upgrade.SECOND) times ->
     exists req s h1, Upgrade.upgrade_inbound max start times rs by_range = Ready (Ok (req, s)) /\
       Handler.on_fully_negotiated_inbound t1 (req, mkWriter max w st) hs = (Ok tt, h1) /\
       forall wk ta times, t1 <= ta -> (length st < length times)%nat ->
       Forall (fun now => t1 <= now < t1 + Handler.resp_timeout hs) times ->
       exists h2 h3,
         polls wk [ta] h1 = (Ok [Handler.NotifyBehaviour (Received (ReceivedRequest
                                   (Handler.current_inbound_substream_id hs) (BlocksByRangeReq q)))], h2) /\
         polls wk times (respond ta (Handler.current_inbound_substream_id hs) (map block_response blocks ++ [END]) h2)
         = (Ok [], h3) /\ idle h3) /\
    (forall rs, Framed.arrives rs w ->
     exists r h1, Upgrade.upgrade_outbound by_range max (BlocksByRangeReq q) (fun _ => None) None rs = Ok r /\
       Handler.on_fully_negotiated_outbound t3 r (rid, BlocksByRangeReq q) hc = (Ok tt, h1) /\
       forall wk times, (length rs + length blocks + 2 <= length times)%nat ->
       Forall (fun now => t3 <= now < t3 + Handler.resp_timeout hc) times ->
       exists h2, polls wk times h1 = (Ok (map Handler.NotifyBehaviour (told rid blocks)), h2) /\ idle h2).
Proof.
  intros Hs Hlo Hhi Hc Hd Hlo2 Hhi2 Hv Hlim Hq Hl Hone Hf Hm.
  destruct (written_total _ _ _ Hf Hm) as [w Hw].
  destruct (Upgrade.request_bytes _ _ Hv Hlim Hm) as [wq Ewq].
  pose proof (Upgrade.upgrade_outbound_sends by_range _ _ _ Ewq) as Hsent.
  exists wq, w. split_and!; [done| |intros rs Hrs; by eapply asking_side].
  intros start times rs Hrs Hlen Ht.
  destruct (Upgrade.upgrade_inbound_reads _ _ _ start times rs Hv Hlim Hm Ewq Hrs Hlen Ht) as [s Es].
  destruct (serving_side max q blocks w st hs t1) as (h1 & E); [done..|].
  by exists (BlocksByRangeReq q), s, h1.
Qed.

(** A request for a single block that the peer does not have is reported as a
    broken stream, where one for several blocks ends with no blocks. *)
Lemma missing_block_fails now id (h : handler) r r' q rem rid due :
  asking h id (Handler.RequestPendingResponse r (BlocksByRangeReq q)) rem rid due ->
  reader_next r = (Ready None, r') -> count q = 1 ->
  exists h', Handler.drive_outbound error_text now false id h
             = (Err (Handler.NotifyBehaviour (Failed (Outbound rid BlocksByRange IncompleteStream))), h').
Proof.
  intros (He & k & Hal & Ek) Er Hq. unfold Handler.drive_outbound.
  rewrite (al_out _ _ _ _ _ Hal), lookup_singleton_eq. cbn [Handler.out_state Handler.out_next framed]. rewrite Er.
  destruct (drop_ends _ _ _ _ _ _ _ He Hal Ek) as (h' & Ed & _).
  unfold Handler.on_stream_end, mbind, st_bind. rewrite Ed. cbn [expected_responses]. rewrite Hq. cbn. by exists h'.
Qed.

End Streams.

(** ** Witnesses *)

Module Witness.
#[local] Existing Instance Codec.Witness.ssz.
#[local] Existing Instance Codec.Witness.frames.
#[local] Existing Instance Codec.Witness.frame_laws.
#[local] Existing Instance Signatures.Example.bls.
#[local] Existing Instance ExampleSerial.blocks.
#[local] Existing Instance ExampleSerial.block_laws.

Abbreviation node :=
  (Handler.RPCHandler (Id:=Z) (InboundSubstream:=Writer) (OutboundFramed:=Framed.Reader Upgrade.OutboundCodec)
     (Q:=TimerList.timers) (Key:=Z) (Waker:=Z)).

(** The two ends of a new connection of the node's swarm. *)
Definition serving_node : node := (Upgrade.handle_established_inbound_connection Upgrade.network_params).2.
(** It is negotiating the substream for its request. *)
Definition asking_node : node :=
  Handler.set_dials [] 1 (Upgrade.handle_established_outbound_connection Upgrade.network_params).2.

Definition block_at (n : Z) : SignedConsensusBlock :=
  mkSigned (mkBlock zero_hash n None payload_default [] None []) Signatures.new.
Definition request : BlocksByRangeRequest := mkRange 1 3.
Definition found : list SignedConsensusBlock := [block_at 1; block_at 2].

Lemma found_fit : Forall (Codec.response_fits BlocksByRangeV1 1048576) (map block_response found).
Proof.
  repeat (apply Forall_cons; split); try apply Forall_nil_2; (split_and!; [done|done|vm_compute; reflexivity]).
Qed.

Definition no_text (_ : ErrorType) : string := "".

#[local] Instance order : Handler.MapOrder := {|
  Handler.keys_of V m := (map_to_list m).*1;
  Handler.keys_of_perm V m := reflexivity _;
|}.

(** Two of the three blocks asked for, byte by byte, with a pause before each
    byte, and a socket of the serving node that is not always ready. *)
Lemma blocks_exchanged_witness :
  exists wq w,
    (exists times req s, exists h1 h2 h3 : node, exists polled,
       Upgrade.upgrade_inbound 1048576 0 times (Upgrade.Witness.slowly wq) (protocol_id_new BlocksByRangeV1 SSZSnappy)
       = Ready (Ok (req, s)) /\
       Handler.on_fully_negotiated_inbound 0 (req, mkWriter 1048576 w [false; true; false]) serving_node = (Ok tt, h1) /\
       polls no_text 0 [1] h1
       = (Ok [Handler.NotifyBehaviour (Received (ReceivedRequest 0 (BlocksByRangeReq request)))], h2) /\
       polls no_text 0 polled (respond no_text 1 0 (map block_response found ++ [END]) h2) = (Ok [], h3)) /\
    exists r, exists h1 h2 : node, exists polled,
      Upgrade.upgrade_outbound (protocol_id_new BlocksByRangeV1 SSZSnappy) 1048576 (BlocksByRangeReq request)
        (fun _ => None) None (Upgrade.Witness.slowly w) = Ok r /\
      Handler.on_fully_negotiated_outbound 0 r (7, BlocksByRangeReq request) asking_node = (Ok tt, h1) /\
      polls no_text 0 polled h1 = (Ok (map Handler.NotifyBehaviour (told 7 found)), h2).
Proof.
  destruct (blocks_exchanged no_text 1048576 request 7 found serving_node asking_node [false; true; false] 0 0)
    as (wq & w & _ & Hs & Hc); try done.
  - apply found_fit.
  - exists wq, w. split.
    + set (times := replicate (S (length (Upgrade.Witness.slowly wq))) 1).
      destruct (Hs 0 times (Upgrade.Witness.slowly wq)) as (req & s & h1 & E & E1 & Hp).
      { apply Upgrade.Witness.slowly_arrives. }
      { subst times. rewrite length_replicate. lia. }
      { by apply Forall_replicate. }
      destruct (Hp 0 1 [1; 2; 3; 4]) as (h2 & h3 & E2 & E3 & _); [lia|cbn; lia|by repeat constructor|].
      by exists times, req, s, h1, h2, h3, [1; 2; 3; 4].
    + destruct (Hc (Upgrade.Witness.slowly w) (Upgrade.Witness.slowly_arrives w)) as (r & c1 & Er & Ec & Hd).
      set (polled := replicate (length (Upgrade.Witness.slowly w) + length found + 2) 5).
      destruct (Hd 0 polled) as (c2 & Ed & _).
      { subst polled. rewrite length_replicate. lia. }
      { by apply Forall_replicate. }
      by exists r, c1, c2, polled.
Defined.

End Witness.
End Exchange.
