(* ===== verification/JsonRpc.v ===== *)
(** The JSON-RPC server ([app/src/rpc.rs]): a request, the method it names, and
    the response; the merged-mining service and the chain behind it. JSON and
    hexadecimal are libraries, given by an interface; a JSON result is the value
    it is made of. Requests take a lock on the service, so they are handled one
    after the other. Its counters and timers are in [Metrics]. *)
From stdpp Require Import base decidable list gmap strings.
From Stdlib Require Import ZArith Lia Ascii.
From S2P Require Import Prelude Bitcoin Errors AuxPow Signatures Block Retarget AuxMiner Text.
From S2P Require Import Store Serial.

Module JsonRpc.
Local Open Scope Z_scope.

(** What the server asks of the chain itself. *)
Class ChainQueries (C : Type) := {
  cq_get_block_by_height : C -> Z -> res Error (option SignedConsensusBlock);
  cq_get_block : C -> hash -> res Error (option SignedConsensusBlock);
}.

Record JsonRpcErrorV1 := mkError { code : Z; error_message : string }.

Definition invalid_request : JsonRpcErrorV1 := mkError (-32600) "Invalid Request".
Definition method_not_found : JsonRpcErrorV1 := mkError (-32601) "Method not found".
Definition invalid_params : JsonRpcErrorV1 := mkError (-32602) "Invalid params".
Definition block_not_found : JsonRpcErrorV1 := mkError (-32604) "Block not found".
Definition debug_error (error_msg : string) : JsonRpcErrorV1 := mkError (-32605) error_msg.
Definition chain_syncing_error : JsonRpcErrorV1 := mkError (-32606) "Chain is syncing".

(** What a result is the JSON of. *)
Inductive Result :=
| AuxBlockResult (b : AuxMiner.AuxBlock)
| UnitResult
| AddressResult (s : string)
| HeadResult (b : SignedConsensusBlock)
| BlockResult (b : option SignedConsensusBlock)
| PowResult (h : AuxPowHeader).

(** The libraries: [serde_json] on requests and parameters, [hex::decode], the
    consensus decoding of an AuxPow, and the texts of errors. *)
Class JsonLib := {
  Value : Type;
  parse_request : bytes -> option (string * option string * Value);
  parse_address : string -> option Address;
  parse_string : string -> option string;
  parse_string_pair : string -> option (string * string);
  hex_decode : string -> option bytes;
  auxpow_decode : bytes -> option AuxPow.t;
  error_text : Error -> string;
  parse_int_text : Text.ParseIntError -> string;
}.

(** The failures that [?] hands to the HTTP server, which answers without a
    JSON body; and those of the arguments of a submission, by their texts. *)
Inductive ArgsError := NotTwoStrings | NotHex | BadHashLength | BadAuxPow.
Inductive GenericError := BodyError | JsonError | HexError | SubmitError (e : AuxMiner.MinerError).

Section WithLibs.
Context `{B : BitcoinLib, D : DecimalLib, K : BlockLib, M : ChainManager C, V : ChainQueries C}.
Context `{J : JsonLib} (args_text : ArgsError -> string).

Inductive HttpResponse :=
| PlainText (status : Z) (body : string)
| JsonRpcResponseV1 (status : Z) (result : option Result) (error : option JsonRpcErrorV1) (id : Value).

Record HttpRequest := mkHttpRequest { is_post : bool; body : option bytes }.

Abbreviation miner := (AuxMiner.t (C:=C)).
Abbreviation handler := (ST miner GenericError HttpResponse).

Definition ok_response (id : Value) (r : Result) : HttpResponse := JsonRpcResponseV1 200 (Some r) None id.
Definition new_json_rpc_error (id : Value) (status : Z) (e : JsonRpcErrorV1) : HttpResponse :=
  JsonRpcResponseV1 status None (Some e) id.

Definition block_response_helper (id : Value) (r : res Error (option SignedConsensusBlock)) :
    res GenericError HttpResponse :=
  match r with
  | Ok b => Ok (ok_response id (BlockResult b))
  | Err e => Ok (new_json_rpc_error id 400 (debug_error (error_text e)))
  | Panic => Panic
  end.

(** [BlockHash::from_slice] refuses other lengths than 32,
    [Hash256::from_slice] panics on them. *)
Definition block_hash_from_slice (b : bytes) : res ArgsError hash :=
  if (length b =? 32)%nat then Ok b else Err BadHashLength.
Definition hash256_from_slice {E} (b : bytes) : res E hash :=
  if (length b =? 32)%nat then Ok b else Panic.

Definition decode_submitauxblock_args (encoded : string) : res ArgsError (hash * AuxPow.t) :=
  '(blockhash_str, auxpow_str) ← ok_or (parse_string_pair encoded) NotTwoStrings;
  blockhash_bytes ← ok_or (hex_decode blockhash_str) NotHex;
  blockhash ← block_hash_from_slice blockhash_bytes;
  auxpow_bytes ← ok_or (hex_decode auxpow_str) NotHex;
  auxpow ← ok_or (auxpow_decode auxpow_bytes) BadAuxPow;
  Ok (blockhash, auxpow).

Definition createauxblock (id : Value) (params : string) : handler := fun m =>
  match parse_address params with
  | None => (Ok (new_json_rpc_error id 400 invalid_params), m)
  | Some script_pub_key =>
      match AuxMiner.create_aux_block script_pub_key m with
      | (Ok aux_block, m') => (Ok (ok_response id (AuxBlockResult aux_block)), m')
      | (Err _, m') => (Ok (new_json_rpc_error id 503 chain_syncing_error), m')
      | (Panic, m') => (Panic, m')
      end
  end.

Definition submitauxblock (id : Value) (params : string) : handler := fun m =>
  match decode_submitauxblock_args params with
  | Err e => (Ok (new_json_rpc_error id 400 (debug_error (args_text e))), m)
  | Panic => (Panic, m)
  | Ok (h, auxpow) =>
      match AuxMiner.submit_aux_block h auxpow m with
      | (Ok _, m') => (Ok (ok_response id UnitResult), m')
      | (Err e, m') => (Err (SubmitError e), m')
      | (Panic, m') => (Panic, m')
      end
  end.

Definition getheadblock (id : Value) : handler := fun m =>
  match AuxMiner.get_head m with
  | Ok head => (Ok (ok_response id (HeadResult head)), m)
  | Err _ => (Ok (JsonRpcResponseV1 200 None (Some block_not_found) id), m)
  | Panic => (Panic, m)
  end.

Definition getblockbyheight (id : Value) (params : string) : handler := fun m =>
  match Text.parse_u64 (Text.chars params) with
  | Ok target_height => (block_response_helper id (cq_get_block_by_height (AuxMiner.chain m) target_height), m)
  | Err e => (Ok (new_json_rpc_error id 400 (debug_error (parse_int_text e))), m)
  | Panic => (Panic, m)
  end.

Definition getblockbyhash (id : Value) (params : string) : handler := fun m =>
  match parse_string params with
  | None => (Ok (new_json_rpc_error id 400 invalid_params), m)
  | Some value =>
      (block_hash_bytes ← ok_or (hex_decode value) HexError;
       block_hash ← hash256_from_slice block_hash_bytes;
       block_response_helper id (cq_get_block (AuxMiner.chain m) block_hash), m)
  end.

Definition getqueuedpow (id : Value) : handler := fun m =>
  match AuxMiner.get_queued_auxpow m with
  | Some queued_pow => (Ok (ok_response id (PowResult queued_pow)), m)
  | None => (Ok (JsonRpcResponseV1 200 None None id), m)
  end.

Definition dispatch (federation_address method params : string) (id : Value) : handler :=
  if String.eqb method "createauxblock" then createauxblock id params
  else if String.eqb method "submitauxblock" then submitauxblock id params
  else if String.eqb method "getdepositaddress" then
    mret (ok_response id (AddressResult federation_address))
  else if String.eqb method "getheadblock" then getheadblock id
  else if String.eqb method "getblockbyheight" then getblockbyheight id params
  else if String.eqb method "getblockbyhash" then getblockbyhash id params
  else if String.eqb method "getqueuedpow" then getqueuedpow id
  else mret (new_json_rpc_error id 404 method_not_found).

Definition http_req_json_rpc (federation_address : string) (req : HttpRequest) : handler :=
  if negb (is_post req) then mret (PlainText 405 "JSONRPC server handles only POST requests")
  else
    bytes ← liftR (ok_or (body req) BodyError);
    '(method, params, id) ← liftR (ok_or (parse_request bytes) JsonError);
    match params with
    | None => mret (new_json_rpc_error id 200 invalid_request)
    | Some params => dispatch federation_address method params id
    end.

(** ** Properties *)

Lemma block_response_id id r s res e i :
  block_response_helper id r = Ok (JsonRpcResponseV1 s res e i) -> i = id /\ (res = None \/ e = None).
Proof. unfold block_response_helper. destruct r; intros [= <- <- <- <-]; auto. Qed.

Lemma hash256_cases {E A} (b : bytes) (f : hash -> res E A) :
  (hash256_from_slice b ≫= f) = if (length b =? 32)%nat then f b else Panic.
Proof. unfold hash256_from_slice. by destruct (_ =? _)%nat. Qed.

(** What every handler of a method keeps to. *)
Definition answers_to (id : Value) (h : handler) : Prop :=
  forall m s res e i m', h m = (Ok (JsonRpcResponseV1 s res e i), m') -> i = id /\ (res = None \/ e = None).

Lemma answers_const id r : answers_to id (mret (JsonRpcResponseV1 200 (Some r) None id)).
Proof. intros m s res e i m' [= <- <- <- <- <-]. auto. Qed.

Ltac answered := intros [= <- <- <- <- <-]; auto.

Lemma dispatch_answers addr method params id : answers_to id (dispatch addr method params id).
Proof.
  unfold dispatch. intros m s res e i m'.
  destruct (String.eqb method "createauxblock").
  { unfold createauxblock. destruct (parse_address params); [|answered].
    destruct (AuxMiner.create_aux_block _ m) as [[| |]]; [answered|answered|done]. }
  destruct (String.eqb method "submitauxblock").
  { unfold submitauxblock. destruct (decode_submitauxblock_args params) as [[h a]| |]; [|answered|done].
    destruct (AuxMiner.submit_aux_block h a m) as [[| |]]; [answered|done|done]. }
  destruct (String.eqb method "getdepositaddress"); [answered|].
  destruct (String.eqb method "getheadblock").
  { unfold getheadblock. destruct (AuxMiner.get_head m); [answered|answered|done]. }
  destruct (String.eqb method "getblockbyheight").
  { unfold getblockbyheight. destruct (Text.parse_u64 _); [|answered|done].
    intros [= Hr _]. by apply block_response_id in Hr. }
  destruct (String.eqb method "getblockbyhash").
  { unfold getblockbyhash. destruct (parse_string params); [|answered].
    destruct (hex_decode _) as [b|]; cbn; [|done]. rewrite hash256_cases.
    destruct (_ =? _)%nat; intros [= Hr _]. by apply block_response_id in Hr. }
  destruct (String.eqb method "getqueuedpow").
  { unfold getqueuedpow. destruct (AuxMiner.get_queued_auxpow m); answered. }
  answered.
Qed.

(** A JSON response carries the id of its request, and a result or an error but
    never both; a request that is not a POST, or does not parse, gets none. *)
Theorem response_matches_request addr req m s res e id m' :
  http_req_json_rpc addr req m = (Ok (JsonRpcResponseV1 s res e id), m') ->
  exists b method params, is_post req = true /\ body req = Some b /\
    parse_request b = Some (method, params, id) /\ (res = None \/ e = None).
Proof.
  unfold http_req_json_rpc. destruct (is_post req); cbn [negb]; [|done].
  unfold mbind, st_bind, liftR. destruct (body req) as [b|]; cbn [ok_or]; [|done].
  destruct (parse_request b) as [[[method params] i]|] eqn:Ep; cbn [ok_or]; [|done].
  destruct params as [params|].
  - intros [-> Hr]%dispatch_answers. by exists b, method, (Some params).
  - intros [= <- <- <- <- <-]. exists b, method, None. auto.
Qed.

(** The methods that mine. *)
Definition mines (req : HttpRequest) : bool :=
  match body req ≫= parse_request with
  | Some (method, _, _) => String.eqb method "createauxblock" || String.eqb method "submitauxblock"
  | None => false
  end.

(** Every other request, whatever it holds, leaves the service and the chain as
    they are. *)
Theorem queries_change_nothing addr req m :
  mines req = false -> (http_req_json_rpc addr req m).2 = m.
Proof.
  unfold mines, http_req_json_rpc. destruct (is_post req); cbn [negb]; [|done].
  unfold mbind, st_bind, liftR. destruct (body req) as [b|]; cbn [ok_or]; [|done].
  cbn [option_bind]. destruct (parse_request b) as [[[method params] i]|] eqn:Ep; cbn [ok_or]; [|done].
  intros [Hc Hs]%orb_false_iff. destruct params as [params|]; [|done].
  unfold dispatch. rewrite Hc, Hs.
  repeat (destruct (String.eqb method _); [|]); try done.
  - unfold getheadblock. by destruct (AuxMiner.get_head m).
  - unfold getblockbyheight. by destruct (Text.parse_u64 _).
  - unfold getblockbyhash. by destruct (parse_string params).
  - unfold getqueuedpow. by destruct (AuxMiner.get_queued_auxpow m).
Qed.

(** Asking for a block by a hexadecimal hash that is not 32 bytes long panics,
    whoever asks; with 32 bytes it panics only if the chain's lookup does. *)
Theorem short_hash_panics addr b id params value h m :
  parse_request b = Some ("getblockbyhash", Some params, id) ->
  parse_string params = Some value -> hex_decode value = Some h ->
  (http_req_json_rpc addr (mkHttpRequest true (Some b)) m).1 = Panic <->
  length h <> 32%nat \/ cq_get_block (AuxMiner.chain m) h = Panic.
Proof.
  intros Hb Hp Hh. unfold http_req_json_rpc, mbind, st_bind, liftR. cbn [is_post negb body ok_or].
  rewrite Hb. cbn -[getblockbyhash]. unfold getblockbyhash, hash256_from_slice. rewrite Hp, Hh.
  cbn [ok_or mbind res_bind fst].
  destruct (Nat.eqb_spec (length h) 32) as [E|E]; [|split; auto].
  unfold block_response_helper. cbn [mbind res_bind]. destruct (cq_get_block _ h); naive_solver.
Qed.

(** The block at a height that is written in decimal is the one the chain has
    there. *)
Theorem block_by_height addr b id m height params r :
  parse_request b = Some ("getblockbyheight", Some params, id) ->
  0 <= height < 2 ^ 64 -> Text.chars params = Text.print_u64 height ->
  cq_get_block_by_height (AuxMiner.chain m) height = Ok r ->
  http_req_json_rpc addr (mkHttpRequest true (Some b)) m = (Ok (ok_response id (BlockResult r)), m).
Proof.
  intros Hb Hh Hp Hc. unfold http_req_json_rpc, mbind, st_bind, liftR. cbn [is_post negb body ok_or].
  rewrite Hb. cbn -[getblockbyheight]. unfold getblockbyheight.
  rewrite Hp, Text.parse_print_u64 by done. by rewrite Hc.
Qed.

Lemma submit_request addr b id params h auxpow m :
  parse_request b = Some ("submitauxblock", Some params, id) ->
  decode_submitauxblock_args params = Ok (h, auxpow) ->
  http_req_json_rpc addr (mkHttpRequest true (Some b)) m =
  match AuxMiner.submit_aux_block h auxpow m with
  | (Ok _, m') => (Ok (ok_response id UnitResult), m')
  | (Err e, m') => (Err (SubmitError e), m')
  | (Panic, m') => (Panic, m')
  end.
Proof.
  intros Hb Hd. unfold http_req_json_rpc, mbind, st_bind, liftR. cbn [is_post negb body ok_or].
  rewrite Hb. cbn -[submitauxblock]. unfold submitauxblock. by rewrite Hd.
Qed.

Lemma create_request addr b id params a m :
  parse_request b = Some ("createauxblock", Some params, id) -> parse_address params = Some a ->
  http_req_json_rpc addr (mkHttpRequest true (Some b)) m =
  match AuxMiner.create_aux_block a m with
  | (Ok aux_block, m') => (Ok (ok_response id (AuxBlockResult aux_block)), m')
  | (Err _, m') => (Ok (new_json_rpc_error id 503 chain_syncing_error), m')
  | (Panic, m') => (Panic, m')
  end.
Proof.
  intros Hb Hp. unfold http_req_json_rpc, mbind, st_bind, liftR. cbn [is_post negb body ok_or].
  rewrite Hb. cbn -[createauxblock]. unfold createauxblock. by rewrite Hp.
Qed.

(** Mining over the interface: when a miner is given an aux block, finds work
    that meets its target and submits it for its hash, and the chain has not
    changed in between, the response is a success and exactly the committed
    range is pushed to the chain, for the address of the request; the
    commitment is used up. *)
Theorem mined_over_rpc `{!ChainManagerLaws C M} addr b1 b2 id1 id2 p1 p2 a m ab m' auxpow pushed c' :
  cm_ok (AuxMiner.chain m) ->
  parse_request b1 = Some ("createauxblock", Some p1, id1) -> parse_address p1 = Some a ->
  http_req_json_rpc addr (mkHttpRequest true (Some b1)) m = (Ok (ok_response id1 (AuxBlockResult ab)), m') ->
  AuxPow.check_proof_of_work auxpow (AuxMiner.ab_bits ab) = true ->
  AuxPow.check auxpow (AuxMiner.ab_hash ab) (AuxMiner.ab_chain_id ab) = Ok tt ->
  parse_request b2 = Some ("submitauxblock", Some p2, id2) ->
  decode_submitauxblock_args p2 = Ok (AuxMiner.ab_hash ab, auxpow) ->
  (forall start end_,
     (exists hashes, cm_get_aggregate_hashes (AuxMiner.chain m) = Ok hashes /\
        hd_error hashes = Some start /\ list.last hashes = Some end_ /\
        AuxMiner.ab_hash ab = AuxPow.aggregate_hash hashes) ->
     cm_push_auxpow start end_ (AuxMiner.ab_bits ab) (AuxMiner.ab_chain_id ab) (AuxMiner.ab_height ab)
       auxpow a (AuxMiner.chain m) = (Ok pushed, c')) ->
  http_req_json_rpc addr (mkHttpRequest true (Some b2)) m'
  = (Ok (ok_response id2 UnitResult),
     AuxMiner.set_chain c'
       (AuxMiner.set_state (delete (AuxMiner.ab_hash ab) (AuxMiner.state m)) m)).
Proof.
  intros Hok Hb1 Hp1 Hc Hpow Hchk Hb2 Hp2 Hpush.
  rewrite (create_request addr b1 id1 p1 a m Hb1 Hp1) in Hc.
  destruct (AuxMiner.create_aux_block a m) as [[ab'|e|] m1] eqn:Ec; [|done|done].
  injection Hc as -> ->.
  rewrite (submit_request addr b2 id2 p2 _ auxpow m' Hb2 Hp2).
  by rewrite (AuxMiner.submit_created_pushes a m ab m' auxpow pushed c' Hok Ec Hpow Hchk Hpush).
Qed.

End WithLibs.

(** ** Witnesses *)

Module Witness.
#[local] Existing Instance ExampleLib.lib.
#[local] Existing Instance Retarget.Witness.dec.
#[local] Existing Instance AuxMiner.Witness.blocks.
#[local] Existing Instance AuxMiner.Witness.chain0.
#[local] Existing Instance AuxMiner.Witness.chain0_laws.

#[local] Instance queries : ChainQueries (list AuxPowHeader) := {|
  cq_get_block_by_height _ _ := Ok None;
  cq_get_block _ _ := Ok None;
|}.

(** Four requests, by their number. *)
Definition requests (b : bytes) : option (string * option string * Z) :=
  match b with
  | [1] => Some ("getblockbyhash", Some "abcd", 5)
  | [2] => Some ("getblockbyheight", Some "12", 6)
  | [3] => Some ("createauxblock", Some "miner", 7)
  | [4] => Some ("submitauxblock", Some "solution", 8)
  | _ => None
  end%string.

#[local] Instance json : JsonLib := {|
  Value := Z;
  parse_request := requests;
  parse_address _ := Some zero_address;
  parse_string s := Some s;
  parse_string_pair _ := Some ("hash", "pow")%string;
  hex_decode s :=
    if String.eqb s "hash" then Some AuxMiner.Witness.aux_hash
    else if String.eqb s "abcd" then Some [171; 205] else Some [1];
  auxpow_decode _ := Some AuxMiner.Witness.solved;
  error_text _ := "error"%string;
  parse_int_text _ := "invalid digit found in string"%string;
|}.

Definition text (e : ArgsError) : string := "bad arguments".
Abbreviation serve := (http_req_json_rpc (J:=json) text "bc1").
Definition post (n : Z) : HttpRequest := mkHttpRequest true (Some [n]).
Definition m0 := AuxMiner.Witness.miner.

Lemma short_hash_panics_witness : (serve (post 1) m0).1 = Panic.
Proof.
  apply (short_hash_panics (J:=json) text "bc1" [1] 5 "abcd" "abcd" [171; 205] m0); try reflexivity. left. cbn. lia.
Defined.

Lemma block_by_height_witness : serve (post 2) m0 = (Ok (ok_response (J:=json) 6 (BlockResult None)), m0).
Proof. apply (block_by_height (J:=json) text "bc1" [2] 6 m0 12 "12" None); try reflexivity. lia. Defined.

Lemma queries_change_nothing_witness : (serve (post 2) m0).2 = m0.
Proof. apply (queries_change_nothing (J:=json) text "bc1" (post 2) m0). reflexivity. Defined.

Lemma response_matches_request_witness :
  exists b method params, is_post (post 2) = true /\ body (post 2) = Some b /\
    parse_request (JsonLib:=json) b = Some (method, params, 6) /\ (Some (BlockResult None) = None \/ @None JsonRpcErrorV1 = None).
Proof.
  apply (response_matches_request (J:=json) text "bc1" (post 2) m0 200 _ _ 6 m0). reflexivity.
Defined.

Lemma mined_over_rpc_witness :
  serve (post 4) (serve (post 3) m0).2
  = (Ok (ok_response (J:=json) 8 UnitResult),
     AuxMiner.set_chain [mkAuxPowHeader AuxPow.Witness.h0 AuxPow.Witness.h1 505794034 1212 1
                           (Some AuxMiner.Witness.solved) zero_address]
       (AuxMiner.set_state (delete AuxMiner.Witness.aux_hash (AuxMiner.state m0)) m0)).
Proof.
  apply (mined_over_rpc (J:=json) text "bc1" [3] [4] 7 8 "miner" "solution" zero_address m0 AuxMiner.Witness.created
           _ AuxMiner.Witness.solved true).
  - exact I.
  - reflexivity.
  - reflexivity.
  - vm_compute. reflexivity.
  - vm_compute. reflexivity.
  - vm_compute. reflexivity.
  - reflexivity.
  - vm_compute. reflexivity.
  - intros start end_ (hs & [= <-] & [= <-] & [= <-] & _). reflexivity.
Defined.

End Witness.

End JsonRpc.
