(* ===== verification/Metrics.v ===== *)
(** The metrics ([app/src/metrics.rs]): the registry with its lazily created
    metrics, what the node does to them, and the page that shows them; with the
    counters of the JSON-RPC server ([app/src/rpc.rs]). The metrics of
    [prometheus] and their text are a library; its registry and its vectors of
    series are modelled as they are documented: registering a name twice fails,
    and a wrong number of label values panics. *)
From stdpp Require Import base decidable list gmap sets strings.
From Stdlib Require Import ZArith Lia Ascii.
From S2P Require Import Prelude Bitcoin Errors AuxPow Signatures Block Retarget AuxMiner Text Store Serial JsonRpc.

Module Metrics.
Local Open Scope Z_scope.

(** ** The metrics of the node *)

Inductive Kind := IntCounter | IntCounterVec | IntGauge | Gauge | Histogram | HistogramVec.

(** A static with its options. *)
Record Metric := mkMetric {
  ident : string;
  kind : Kind;
  name : string;
  help : string;
  labels : list string;
}.

#[global] Instance kind_eq_dec : EqDecision Kind.
Proof. solve_decision. Defined.
#[global] Instance metric_eq_dec : EqDecision Metric.
Proof. solve_decision. Defined.

Definition AURA_PRODUCED_BLOCKS : Metric :=
  mkMetric "AURA_PRODUCED_BLOCKS" IntCounterVec "aura_produced_blocks_total"
    "Total number of blocks produced by the node via the Aura consensus" ["status"].
Definition AURA_CURRENT_SLOT : Metric :=
  mkMetric "AURA_CURRENT_SLOT" Gauge "aura_current_slot"
    "Tracks the current slot number processed by the node" [].
Definition AURA_SLOT_AUTHOR_RETRIEVALS : Metric :=
  mkMetric "AURA_SLOT_AUTHOR_RETRIEVALS" IntCounterVec "aura_slot_author_retrievals"
    "Number of slot author retrievals" ["status"; "authority_index"].
Definition AURA_LATEST_SLOT_AUTHOR : Metric :=
  mkMetric "AURA_LATEST_SLOT_AUTHOR" Gauge "aura_latest_slot_author"
    "The index of the latest slot author" [].
Definition AURA_VERIFY_SIGNED_BLOCK : Metric :=
  mkMetric "AURA_VERIFY_SIGNED_BLOCK" IntCounterVec "aura_verify_signed_block_total"
    "Number of times the proposed block is verified" ["status"].
Definition AURA_SLOT_CLAIM_TOTALS : Metric :=
  mkMetric "AURA_SLOT_CLAIM_TOTALS" IntCounterVec "aura_slot_claim_totals"
    "Number of slot claims" ["status"].
Definition AUXPOW_CREATE_BLOCK_CALLS : Metric :=
  mkMetric "AUXPOW_CREATE_BLOCK_CALLS" IntCounterVec "create_aux_block_calls_total"
    "Total number of times the create_aux_block method is called" ["status"].
Definition AUXPOW_SUBMIT_BLOCK_CALLS : Metric :=
  mkMetric "AUXPOW_SUBMIT_BLOCK_CALLS" IntCounterVec "auxpow_submit_block_calls_total"
    "Total number of times the submit_aux_block method is called" ["status"].
Definition AUXPOW_HASHES_PROCESSED : Metric :=
  mkMetric "AUXPOW_HASHES_PROCESSED" Histogram "auxpow_hashes_processed"
    "Histogram of the number of hashes processed during aux block creation" [].
Definition CHAIN_PEGIN_TOTALS : Metric :=
  mkMetric "CHAIN_PEGIN_TOTALS" IntCounterVec "chain_pegin_totals"
    "Total number of peg-in operations labeled by operation type (add, remove, process)" ["status"].
Definition CHAIN_TOTAL_PEGIN_AMOUNT : Metric :=
  mkMetric "CHAIN_TOTAL_PEGIN_AMOUNT" IntGauge "chain_total_pegin_amount"
    "Total amount of peg-ins processed" [].
Definition CHAIN_PROCESS_BLOCK_ATTEMPTS : Metric :=
  mkMetric "CHAIN_PROCESS_BLOCK_ATTEMPTS" IntCounter "chain_process_block_attempts_total"
    "Number of times process_block is invoked" [].
Definition CHAIN_PROCESS_BLOCK_TOTALS : Metric :=
  mkMetric "CHAIN_PROCESS_BLOCK_TOTALS" IntCounterVec "chain_process_block_totals"
    "Total number of blocks processed, labeled by status" ["status"; "reason"].
Definition CHAIN_NETWORK_GOSSIP_TOTALS : Metric :=
  mkMetric "CHAIN_NETWORK_GOSSIP_TOTALS" IntCounterVec "chain_network_gossip_totals"
    "Total number of network gossip messages, labeled by message type" ["message_type"; "status"].
Definition CHAIN_LAST_APPROVED_BLOCK : Metric :=
  mkMetric "CHAIN_LAST_APPROVED_BLOCK" IntGauge "last_approved_block"
    "The last block that was approved by node" [].
Definition CHAIN_BLOCK_HEIGHT : Metric :=
  mkMetric "CHAIN_BLOCK_HEIGHT" IntGauge "chain_block_height"
    "The current block height of the node" [].
Definition CHAIN_BTC_BLOCK_MONITOR_TOTALS : Metric :=
  mkMetric "CHAIN_BTC_BLOCK_MONITOR_TOTALS" IntCounterVec "chain_btc_block_monitor_totals"
    "Total number of BTC block monitor messages, labeled by message type" ["block_height"; "status"].
Definition CHAIN_DISCOVERED_PEERS : Metric :=
  mkMetric "CHAIN_DISCOVERED_PEERS" Gauge "chain_discovered_peers"
    "Number of discovered peers" [].
Definition CHAIN_SYNCING_OPERATION_TOTALS : Metric :=
  mkMetric "CHAIN_SYNCING_OPERATION_TOTALS" IntCounterVec "chain_syncing_operation_totals"
    "Total number of syncing operations, labeled by operation type (add, remove)" ["start_height"; "status"].
Definition CHAIN_BLOCK_PRODUCTION_TOTALS : Metric :=
  mkMetric "CHAIN_BLOCK_PRODUCTION_TOTALS" IntCounterVec "chain_block_production_totals"
    "Total number of blocks produced, labeled by status" ["message_type"; "status"].
Definition CHAIN_LAST_FINALIZED_BLOCK : Metric :=
  mkMetric "CHAIN_LAST_FINALIZED_BLOCK" IntGauge "chain_last_finalized_block"
    "The last block that was finalized by node" [].
Definition CHAIN_LAST_PROCESSED_BLOCK : Metric :=
  mkMetric "CHAIN_LAST_PROCESSED_BLOCK" IntGauge "chain_last_processed_block"
    "The last block that was processed by node" [].
Definition ENGINE_BUILD_BLOCK_CALLS : Metric :=
  mkMetric "ENGINE_BUILD_BLOCK_CALLS" IntCounterVec "engine_build_block_calls_total"
    "Number of times build_block is invoked" ["status"; "reason"].
Definition ENGINE_COMMIT_BLOCK_CALLS : Metric :=
  mkMetric "ENGINE_COMMIT_BLOCK_CALLS" IntCounterVec "engine_commit_block_calls_total"
    "Number of times commit_block is invoked" ["status"].
Definition RPC_REQUESTS : Metric :=
  mkMetric "RPC_REQUESTS" IntCounterVec "rpc_requests_total"
    "Total number of JSON-RPC requests" ["method"; "status"].
Definition RPC_REQUEST_DURATION : Metric :=
  mkMetric "RPC_REQUEST_DURATION" HistogramVec "rpc_request_duration_seconds"
    "Histogram of the time taken to process JSON-RPC requests" ["method"].

Definition ALYS_METRICS : list Metric :=
  [AURA_PRODUCED_BLOCKS; AURA_CURRENT_SLOT; AURA_SLOT_AUTHOR_RETRIEVALS; AURA_LATEST_SLOT_AUTHOR;
   AURA_VERIFY_SIGNED_BLOCK; AURA_SLOT_CLAIM_TOTALS; AUXPOW_CREATE_BLOCK_CALLS; AUXPOW_SUBMIT_BLOCK_CALLS;
   AUXPOW_HASHES_PROCESSED; CHAIN_PEGIN_TOTALS; CHAIN_TOTAL_PEGIN_AMOUNT; CHAIN_PROCESS_BLOCK_ATTEMPTS;
   CHAIN_PROCESS_BLOCK_TOTALS; CHAIN_NETWORK_GOSSIP_TOTALS; CHAIN_LAST_APPROVED_BLOCK; CHAIN_BLOCK_HEIGHT;
   CHAIN_BTC_BLOCK_MONITOR_TOTALS; CHAIN_DISCOVERED_PEERS; CHAIN_SYNCING_OPERATION_TOTALS;
   CHAIN_BLOCK_PRODUCTION_TOTALS; CHAIN_LAST_FINALIZED_BLOCK; CHAIN_LAST_PROCESSED_BLOCK;
   ENGINE_BUILD_BLOCK_CALLS; ENGINE_COMMIT_BLOCK_CALLS; RPC_REQUESTS; RPC_REQUEST_DURATION].

(** ** The library *)

Definition letter (c : ascii) : bool :=
  let n := Z.of_nat (nat_of_ascii c) in
  ((65 <=? n) && (n <=? 90)) || ((97 <=? n) && (n <=? 122)) || (n =? 95).
Definition digit (c : ascii) : bool :=
  let n := Z.of_nat (nat_of_ascii c) in (48 <=? n) && (n <=? 57).

(** Letters, digits and underscores, and no digit first. *)
Definition valid_name (s : string) : bool :=
  match Text.chars s with
  | [] => false
  | c :: cs => letter c && forallb (fun c => letter c || digit c) cs
  end.

(** Numbers as [f64], histograms, the descriptions that are accepted, and the
    text of families of metrics, each with its name and its series. *)
Class PrometheusLib := {
  Float : Type;
  float_of : Z -> Float;
  Hist : Type;
  hist_new : Hist;
  hist_observe : Float -> Hist -> Hist;
  desc_new : string -> string -> list string -> bool;
}.

Class PrometheusLaws (P : PrometheusLib) := {
  desc_valid n h ls : valid_name n = true -> h <> ""%string -> Forall (fun l => valid_name l = true) ls ->
    NoDup ls -> desc_new n h ls = true;
}.

Section WithLib.
Context `{P : PrometheusLib}.

Inductive Sample := CounterValue (n : Z) | IntGaugeValue (n : Z) | GaugeValue (x : Float) | HistogramValue (h : Hist).

Abbreviation key := (string * list string)%type.
Abbreviation family := (string * list (list string * Sample))%type.

(** The statics that have been used, the names in the registry, and the series,
    each of a static and values for its labels. *)
Record t := mk {
  initialized : gset string;
  registered : gset string;
  series : gmap key Sample;
}.

Definition empty : t := mk ∅ ∅ ∅.

Definition sample_new (k : Kind) : Sample :=
  match k with
  | IntCounter | IntCounterVec => CounterValue 0
  | IntGauge => IntGaugeValue 0
  | Gauge => GaugeValue (float_of 0)
  | Histogram | HistogramVec => HistogramValue hist_new
  end.

Definition is_vec (k : Kind) : bool :=
  match k with IntCounterVec | HistogramVec => true | _ => false end.

(** [register_*_with_registry!]: a description that is not valid, or a name that
    is there, is an error. A metric without labels has its series at once. *)
Definition register (m : Metric) : ST t unit unit := fun x =>
  if negb (desc_new (name m) (help m) (labels m)) || bool_decide (name m ∈ registered x) then (Err tt, x)
  else (Ok tt, mk (initialized x) ({[name m]} ∪ registered x)
                 (if is_vec (kind m) then series x else <[(ident m, []) := sample_new (kind m)]> (series x))).

(** A use of a static: the first one registers it, and unwraps the result. *)
Definition deref (m : Metric) : ST t unit unit := fun x =>
  if bool_decide (ident m ∈ initialized x) then (Ok tt, x)
  else
    match register m x with
    | (Ok _, x) => (Ok tt, mk ({[ident m]} ∪ initialized x) (registered x) (series x))
    | (_, x) => (Panic, x)
    end.

(** [with_label_values]: the series of these values, made if it is not there. *)
Definition get_or_create (m : Metric) (values : list string) : ST t unit unit := fun x =>
  if (length values =? length (labels m))%nat then
    (Ok tt, match series x !! (ident m, values) with
            | Some _ => x
            | None => mk (initialized x) (registered x) (<[(ident m, values) := sample_new (kind m)]> (series x))
            end)
  else (Panic, x).

Definition with_label_values (m : Metric) (values : list string) : ST t unit unit :=
  deref m ;; get_or_create m values.

Definition update (k : key) (f : Sample -> Sample) : ST t unit unit :=
  modifyS (fun x => mk (initialized x) (registered x) (alter f k (series x))).

(** What the code does to a metric. A metric without labels has one series. *)
Inductive Use :=
| IncBy (m : Metric) (values : list string) (n : Z)
| SetInt (m : Metric) (n : Z)
| SetFloat (m : Metric) (x : Float)
| Observe (m : Metric) (values : list string) (x : Float)
| StartTimer (m : Metric) (values : list string).

Definition metric_of (u : Use) : Metric :=
  match u with IncBy m _ _ | SetInt m _ | SetFloat m _ | Observe m _ _ | StartTimer m _ => m end.
Definition values_of (u : Use) : list string :=
  match u with IncBy _ vs _ | Observe _ vs _ | StartTimer _ vs => vs | _ => [] end.

(** A counter is an atomic [u64], which wraps. *)
Definition effect (u : Use) (s : Sample) : Sample :=
  match u, s with
  | IncBy _ _ n, CounterValue c => CounterValue (wrap 64 (c + n))
  | SetInt _ n, IntGaugeValue _ => IntGaugeValue n
  | SetFloat _ x, GaugeValue _ => GaugeValue x
  | Observe _ _ x, HistogramValue h => HistogramValue (hist_observe x h)
  | _, _ => s
  end.

Definition run_use (u : Use) : ST t unit unit :=
  with_label_values (metric_of u) (values_of u) ;;
  update (ident (metric_of u), values_of u) (effect u).

Fixpoint run_uses (us : list Use) : ST t unit unit :=
  match us with
  | [] => mret tt
  | u :: us => run_use u ;; run_uses us
  end.

Abbreviation Inc m vs := (IncBy m vs 1).

(** ** The page *)

Inductive PageResponse := MetricsPage (families : list family) | NotFound.

(** The series of a metric. *)
Definition series_of (m : Metric) (x : t) : list (list string * Sample) :=
  omap (fun '((i, vs), s) => if String.eqb i (ident m) then Some (vs, s) else None) (map_to_list (series x)).

(** [gather] leaves out families without series; the registry prefixes names. *)
Definition gather (x : t) : list family :=
  filter (fun f : family => f.2 <> [])
    (map (fun m => ("alys_" +:+ name m, series_of m x)%string) ALYS_METRICS).

(** [handle_request]; [encodes] says whether the encoder accepts the families. *)
Definition handle_request (encodes : list family -> bool) (is_get : bool) (path : string)
    (default_registry : list family) (x : t) : res unit PageResponse :=
  if is_get && String.eqb path "/metrics" then
    let metric_families := gather x ++ default_registry in
    if encodes metric_families then Ok (MetricsPage metric_families) else Panic
  else Ok NotFound.

(** ** The uses in the source *)

(** Counters with fixed labels, by the functions that count. *)
Definition fill_pegins_counters : list (Metric * list string) :=
  map (pair CHAIN_PEGIN_TOTALS) [["removed"]; ["added"]; ["processed"]].

Definition produce_attempt_counters : list (Metric * list string) :=
  map (pair CHAIN_BLOCK_PRODUCTION_TOTALS) [["attempted"; "default"]; ["attempted"; "not_synced"]].

Definition produce_built_counters : list (Metric * list string) :=
  map (pair CHAIN_BLOCK_PRODUCTION_TOTALS) [["blocks_built"; "success"]; ["blocks_built"; "failed"]].

Definition produce_signed_counters : list (Metric * list string) :=
  map (pair CHAIN_BLOCK_PRODUCTION_TOTALS)
    [["pegouts_created"; "success"]; ["blocks_signed"; "success"]; ["process_block"; "failed"];
     ["blocks_published"; "failed"]; ["blocks_published"; "success"]; ["success"; "default"]].

Definition process_entry_counters : list (Metric * list string) :=
  map (pair CHAIN_PROCESS_BLOCK_TOTALS)
    [["attempted"; "default"]; ["rejected"; "genesis_not_needed"]; ["rejected"; "old_height"];
     ["rejected"; "chain_incontiguous"]].

Definition process_work_counters : list (Metric * list string) :=
  map (pair CHAIN_PROCESS_BLOCK_TOTALS)
    [["rejected"; "invalid_finalization"]; ["rejected"; "missing_pow"]; ["success"; "default"]].

Definition monitor_gossip_counters : list (Metric * list string) :=
  map (pair CHAIN_NETWORK_GOSSIP_TOTALS)
    [["msg_received"; "error"]; ["msg_received"; "success"]; ["consensus_block"; "received"];
     ["approve_block"; "received"]; ["queue_pow"; "error"]; ["queue_pow"; "success"];
     ["pegout_sigs"; "success"]; ["pegout_sigs"; "error"]].

Definition monitor_bitcoin_blocks_counters : list (Metric * list string) :=
  map (pair CHAIN_BTC_BLOCK_MONITOR_TOTALS) [["queued_pegins"; "synced"]; ["ignored_pegins"; "not_synced"]].

Definition build_block_counters : list (Metric * list string) :=
  map (pair ENGINE_BUILD_BLOCK_CALLS)
    [["called"; "default"]; ["failed"; "engine_api_forkchoice_updated_error"];
     ["failed"; "engine_api_get_payload_error"]; ["success"; "default"]].

Definition commit_block_counters : list (Metric * list string) :=
  map (pair ENGINE_COMMIT_BLOCK_CALLS)
    [["called"]; ["engine_api_new_payload_error"]; ["engine_api_invalid_block_hash_error"]].

Definition slot_author_counters : list (Metric * list string) :=
  [(AURA_SLOT_AUTHOR_RETRIEVALS, ["failure"; "empty"]%string)].

Definition check_signed_counters : list (Metric * list string) :=
  map (pair AURA_VERIFY_SIGNED_BLOCK) [["called"]; ["error"]; ["success"]].

Definition claim_slot_counters : list (Metric * list string) :=
  map (pair AURA_SLOT_CLAIM_TOTALS) [["called"]; ["success"]; ["failure"]].

Definition on_slot_counters : list (Metric * list string) :=
  map (pair AURA_PRODUCED_BLOCKS) [["success"]; ["error"]].

Definition create_aux_block_counters : list (Metric * list string) :=
  map (pair AUXPOW_CREATE_BLOCK_CALLS) [["called"]; ["chain_syncing"]; ["success"]].

Definition submit_aux_block_counters : list (Metric * list string) :=
  map (pair AUXPOW_SUBMIT_BLOCK_CALLS) [["called"]; ["unknown_block"]; ["invalid_pow"]; ["invalid_auxpow"]].

Definition rpc_mining_counters : list (Metric * list string) :=
  map (pair RPC_REQUESTS)
    [["unknown"; "method_not_allowed"]; ["createauxblock"; "called"]; ["createauxblock"; "invalid_params"];
     ["createauxblock"; "success"]; ["submitauxblock"; "called"]; ["submitauxblock"; "invalid_params"];
     ["submitauxblock"; "success"]].

Definition rpc_query_counters : list (Metric * list string) :=
  map (pair RPC_REQUESTS)
    [["getdepositaddress"; "called"]; ["getheadblock"; "success"]; ["getheadblock"; "block_not_found"];
     ["getqueuedpow"; "success"]; ["getqueuedpow"; "no_data"]; ["unknown"; "method_not_found"]].

Definition counters : list (Metric * list string) :=
  fill_pegins_counters ++ produce_attempt_counters ++ produce_built_counters ++ produce_signed_counters ++
  process_entry_counters ++ process_work_counters ++ monitor_gossip_counters ++
  monitor_bitcoin_blocks_counters ++ build_block_counters ++ commit_block_counters ++ slot_author_counters ++
  check_signed_counters ++ claim_slot_counters ++ on_slot_counters ++ create_aux_block_counters ++
  submit_aux_block_counters ++ rpc_mining_counters ++ rpc_query_counters.

(** Every use of a metric in the source, with any values for labels and numbers
    that are not fixed in it. *)
Inductive source_use : Use -> Prop :=
| use_counter m vs n : (m, vs) ∈ counters -> source_use (IncBy m vs n)
| use_sync head : source_use (Inc CHAIN_SYNCING_OPERATION_TOTALS [head; "called"])
| use_author idx : source_use (Inc AURA_SLOT_AUTHOR_RETRIEVALS ["success"; idx])
| use_no_params method : source_use (Inc RPC_REQUESTS [method; "invalid_request"])
| use_not_created status : source_use (Inc RPC_REQUESTS ["createauxblock"; status])
| use_int_gauge m n :
    m ∈ [CHAIN_TOTAL_PEGIN_AMOUNT; CHAIN_LAST_APPROVED_BLOCK; CHAIN_BLOCK_HEIGHT; CHAIN_LAST_FINALIZED_BLOCK;
         CHAIN_LAST_PROCESSED_BLOCK] -> source_use (SetInt m n)
| use_gauge m x :
    m ∈ [AURA_CURRENT_SLOT; AURA_LATEST_SLOT_AUTHOR; CHAIN_DISCOVERED_PEERS] -> source_use (SetFloat m x)
| use_hashes n : source_use (Observe AUXPOW_HASHES_PROCESSED [] (float_of n))
| use_timer method : source_use (StartTimer RPC_REQUEST_DURATION [method])
| use_duration method x : source_use (Observe RPC_REQUEST_DURATION [method] x).

(** ** No metric panics *)

Context `{!PrometheusLaws P}.

Definition well_labelled (u : Use) : Prop :=
  metric_of u ∈ ALYS_METRICS /\ length (values_of u) = length (labels (metric_of u)).

Lemma counters_labelled m vs : (m, vs) ∈ counters -> m ∈ ALYS_METRICS /\ length vs = length (labels m).
Proof.
  assert (Forall (fun c : Metric * list string => c.1 ∈ ALYS_METRICS /\ length c.2 = length (labels c.1)) counters)
    as Hall; [|rewrite Forall_forall in Hall; apply (Hall (m, vs))].
  repeat (apply Forall_cons; split; [split; [cbn; set_solver|done]|]). apply Forall_nil_2.
Qed.

Lemma source_labelled u : source_use u -> well_labelled u.
Proof.
  destruct 1 as [m vs n Hc| | | | |m n Hm|m x Hm| | |]; unfold well_labelled; cbn [metric_of values_of].
  1: by apply counters_labelled.
  all: try (split; [cbn; set_solver|done]).
  all: repeat (apply elem_of_cons in Hm as [->|Hm]; [split; [cbn; set_solver|done]|]); by apply not_elem_of_nil in Hm.
Qed.

Definition described (m : Metric) : bool :=
  valid_name (name m) && negb (String.eqb (help m) "") && forallb valid_name (labels m) &&
  bool_decide (NoDup (labels m)).

Lemma metrics_described m : m ∈ ALYS_METRICS -> desc_new (name m) (help m) (labels m) = true.
Proof.
  intros Hm. assert (forallb described ALYS_METRICS = true) as Hall by reflexivity.
  rewrite List.forallb_forall in Hall. specialize (Hall m (proj1 (list_elem_of_In _ _) Hm)).
  unfold described in Hall.
  apply andb_true_iff in Hall as [[[Hn Hh]%andb_true_iff Hl]%andb_true_iff Hd].
  apply desc_valid; [done| | |by apply bool_decide_eq_true in Hd].
  - intros E. rewrite E in Hh. done.
  - apply Forall_forall. intros l Hin. rewrite List.forallb_forall in Hl. apply Hl. by apply list_elem_of_In.
Qed.

(** The statics have names of their own. *)
Lemma metrics_distinct : NoDup (map ident ALYS_METRICS) /\ NoDup (map name ALYS_METRICS).
Proof. split; refine (bool_decide_eq_true_1 _ _); reflexivity. Qed.

Lemma same_metric m m' : m ∈ ALYS_METRICS -> m' ∈ ALYS_METRICS -> name m = name m' -> m = m'.
Proof.
  intros [i Hi]%list_elem_of_lookup [j Hj]%list_elem_of_lookup E.
  assert (i = j) as ->; [|congruence].
  apply (NoDup_lookup _ i j (name m) (proj2 metrics_distinct)).
  - change (map name ALYS_METRICS) with (name <$> ALYS_METRICS). by rewrite list_lookup_fmap, Hi.
  - change (map name ALYS_METRICS) with (name <$> ALYS_METRICS). by rewrite list_lookup_fmap, Hj, E.
Qed.

(** A name is in the registry only for a static that has been used. *)
Definition ok (x : t) : Prop :=
  forall n, n ∈ registered x -> exists m, m ∈ ALYS_METRICS /\ name m = n /\ ident m ∈ initialized x.

Lemma metrics_ok_empty : ok empty.
Proof. intros n H. cbn in H. set_solver. Qed.

(** Series are never taken away. *)
Definition grows (x x' : t) : Prop := dom (series x) ⊆ dom (series x').

#[local] Instance grows_preorder : PreOrder grows.
Proof. split; unfold grows; [by intros x|intros x y z; apply transitivity]. Qed.

Lemma dom_insert_more {A} (k : key) (v : A) (s : gmap key A) : dom s ⊆ dom (<[k := v]> s) /\ k ∈ dom (<[k := v]> s).
Proof. rewrite dom_insert. set_solver. Qed.

Lemma deref_keeps m x :
  m ∈ ALYS_METRICS -> ok x -> exists x', deref m x = (Ok tt, x') /\ ok x' /\ grows x x'.
Proof.
  intros Hm Hx. unfold deref. destruct (bool_decide_reflect (ident m ∈ initialized x)) as [Hi|Hi].
  { by exists x. }
  unfold register. rewrite (metrics_described m Hm), bool_decide_false; cbn [negb orb].
  2:{ intros (m' & Hm' & E & Hi')%Hx. by rewrite (same_metric m' m Hm' Hm E) in Hi'. }
  eexists. split_and!; [done| |].
  - intros n. cbn. intros [->%elem_of_singleton|(m' & ? & ? & ?)%Hx]%elem_of_union; [exists m|exists m'];
      (split_and!; [done..|]); apply elem_of_union; [left; by apply elem_of_singleton|by right].
  - unfold grows. cbn. destruct (is_vec (kind m)); [done|]. apply dom_insert_more.
Qed.

Lemma run_use_ok u x :
  well_labelled u -> ok x ->
  exists x', run_use u x = (Ok tt, x') /\ ok x' /\ grows x x' /\
    (ident (metric_of u), values_of u) ∈ dom (series x').
Proof.
  intros [Hm Hl] Hx. destruct (deref_keeps _ _ Hm Hx) as (x1 & E1 & Hx1 & G1).
  unfold run_use, with_label_values, get_or_create, update, modifyS, mbind, st_bind.
  rewrite E1, (proj2 (Nat.eqb_eq _ _) Hl). eexists. split_and!; [done|..].
  - destruct (series x1 !! _) eqn:Es; intros n Hn; by apply Hx1.
  - unfold grows in *. cbn. rewrite dom_alter. destruct (series x1 !! _) eqn:Es; [done|].
    etrans; [exact G1|]. apply dom_insert_more.
  - cbn. rewrite dom_alter. destruct (series x1 !! _) eqn:Es; [by apply elem_of_dom_2 in Es|].
    apply dom_insert_more.
Qed.

Lemma run_uses_ok us x :
  Forall well_labelled us -> ok x ->
  exists x', run_uses us x = (Ok tt, x') /\ ok x' /\ grows x x' /\
    forall u, u ∈ us -> (ident (metric_of u), values_of u) ∈ dom (series x').
Proof.
  intros Hus. revert x. induction Hus as [|u us Hu _ IH]; intros x Hx.
  { exists x. split_and!; [done..|]. intros u Hu. by apply not_elem_of_nil in Hu. }
  destruct (run_use_ok u x Hu Hx) as (x1 & E1 & Hx1 & G1 & K1).
  destruct (IH x1 Hx1) as (x2 & E2 & Hx2 & G2 & K2).
  exists x2. cbn [run_uses]. unfold mbind, st_bind. rewrite E1. split_and!; [done..| |].
  - by etrans.
  - intros u' [->|Hin]%elem_of_cons; [by apply G2|by apply K2].
Qed.

(** The encoder takes families that have a name and series. *)
Context (encodes : list family -> bool).
Context (encodes_series : forall fs, Forall (fun f : family => f.1 <> EmptyString /\ f.2 <> []) fs -> encodes fs = true).

Lemma gather_encodes x others :
  Forall (fun f : family => f.1 <> EmptyString /\ f.2 <> []) others -> encodes (gather x ++ others) = true.
Proof.
  intros Ho. apply encodes_series, Forall_app. split; [|done].
  apply Forall_forall. intros f [Hf (m & -> & _)%list_elem_of_fmap]%list_elem_of_filter. by split.
Qed.

(** C37: The metrics cannot stop the node: whatever uses of metrics the code makes,
    in whatever order and with whatever labels and numbers, every metric is
    registered once at its first use, every use has the right number of labels,
    and the page is served at any time, if the families of the default registry
    have names and series (the encoder refuses those without). *)
Theorem metrics_never_panic us is_get path others :
  Forall source_use us -> Forall (fun f : family => f.1 <> EmptyString /\ f.2 <> []) others ->
  exists x, run_uses us empty = (Ok tt, x) /\
    handle_request encodes is_get path others x
    = Ok (if is_get && String.eqb path "/metrics" then MetricsPage (gather x ++ others) else NotFound).
Proof.
  intros Hus Ho. destruct (run_uses_ok us empty) as (x & E & _); [|apply metrics_ok_empty|].
  { eapply Forall_impl; [done|]. apply source_labelled. }
  exists x. split; [done|]. unfold handle_request. rewrite (gather_encodes x others Ho).
  by destruct (is_get && _).
Qed.

(** ** The counters of the JSON-RPC server *)

Context `{B : BitcoinLib, D : DecimalLib, K : BlockLib, M : ChainManager C, V : JsonRpc.ChainQueries C}.
Context `{J : JsonRpc.JsonLib} (args_text : JsonRpc.ArgsError -> string) (miner_text : AuxMiner.MinerError -> string).

Abbreviation miner := (AuxMiner.t (C:=C)).
Abbreviation counted method status := (Inc RPC_REQUESTS [method%string; status%string]).

(** What the methods count, on each of their ways. *)
Definition method_uses (method params : string) (m : miner) : list Use :=
  if String.eqb method "createauxblock" then
    counted "createauxblock" "called" ::
    match JsonRpc.parse_address params with
    | None => [counted "createauxblock" "invalid_params"]
    | Some script_pub_key =>
        match (AuxMiner.create_aux_block script_pub_key m).1 with
        | Ok _ => [counted "createauxblock" "success"]
        | Err e => [counted "createauxblock" (miner_text e)]
        | Panic => []
        end
    end
  else if String.eqb method "submitauxblock" then
    counted "submitauxblock" "called" ::
    match JsonRpc.decode_submitauxblock_args params with
    | Ok (h, auxpow) =>
        match (AuxMiner.submit_aux_block h auxpow m).1 with
        | Ok _ => [counted "submitauxblock" "success"]
        | _ => []
        end
    | _ => [counted "submitauxblock" "invalid_params"]
    end
  else if String.eqb method "getdepositaddress" then [counted "getdepositaddress" "called"]
  else if String.eqb method "getheadblock" then
    match AuxMiner.get_head m with
    | Ok _ => [counted "getheadblock" "success"]
    | Err _ => [counted "getheadblock" "block_not_found"]
    | Panic => []
    end
  else if String.eqb method "getblockbyheight" then []
  else if String.eqb method "getblockbyhash" then []
  else if String.eqb method "getqueuedpow" then
    match AuxMiner.get_queued_auxpow m with
    | Some _ => [counted "getqueuedpow" "success"]
    | None => [counted "getqueuedpow" "no_data"]
    end
  else [counted "unknown" "method_not_found"].

(** The uses of a request. The timer is labelled by the method the client
    named; it is read when the response is there, or dropped. *)
Definition request_uses (req : JsonRpc.HttpRequest) (duration : Float) (m : miner) : list Use :=
  if negb (JsonRpc.is_post req) then [counted "unknown" "method_not_allowed"]
  else
    match JsonRpc.body req ≫= JsonRpc.parse_request with
    | None => []
    | Some (method, None, _) => [Inc RPC_REQUESTS [method; "invalid_request"]]
    | Some (method, Some params, _) =>
        StartTimer RPC_REQUEST_DURATION [method] :: method_uses method params m
        ++ [Observe RPC_REQUEST_DURATION [method] duration]
    end.

(** A request with its counters. *)
Definition metered (addr : string) (req : JsonRpc.HttpRequest) (duration : Float) :
    ST (miner * t) JsonRpc.GenericError JsonRpc.HttpResponse := fun '(m, x) =>
  match run_uses (request_uses req duration m) x with
  | (Ok _, x) => let (r, m) := JsonRpc.http_req_json_rpc args_text addr req m in (r, (m, x))
  | (_, x) => (Panic, (m, x))
  end.

Lemma counted_use m vs n : bool_decide ((m, vs) ∈ counters) = true -> source_use (IncBy m vs n).
Proof. intros H. apply use_counter. by apply bool_decide_eq_true in H. Qed.

Lemma method_uses_source method params m : Forall source_use (method_uses method params m).
Proof.
  unfold method_uses.
  repeat (match goal with |- context [String.eqb method ?s] => destruct (String.eqb method s) end);
    repeat case_match; repeat (apply Forall_cons; split); try apply Forall_nil_2;
    try apply use_not_created; (apply counted_use; reflexivity).
Qed.

Lemma request_uses_source req duration m : Forall source_use (request_uses req duration m).
Proof.
  unfold request_uses. destruct (negb _); [apply Forall_cons; split; [(apply counted_use; reflexivity)|apply Forall_nil_2]|].
  destruct (_ ≫= _) as [[[method [params|]] id]|]; [| |apply Forall_nil_2].
  - apply Forall_cons; split; [apply use_timer|]. apply Forall_app. split; [apply method_uses_source|].
    apply Forall_cons; split; [apply use_duration|apply Forall_nil_2].
  - apply Forall_cons; split; [apply use_no_params|apply Forall_nil_2].
Qed.

(** The counters change nothing of a request; a request that names a method
    leaves a series for it. *)
Lemma metered_request addr req duration m x :
  ok x ->
  exists x', metered addr req duration (m, x)
             = ((JsonRpc.http_req_json_rpc args_text addr req m).1,
                ((JsonRpc.http_req_json_rpc args_text addr req m).2, x')) /\
    ok x' /\ grows x x' /\
    forall method params id, JsonRpc.is_post req = true ->
      (JsonRpc.body req ≫= JsonRpc.parse_request) = Some (method, Some params, id) ->
      (ident RPC_REQUEST_DURATION, [method]) ∈ dom (series x').
Proof.
  intros Hx. destruct (run_uses_ok (request_uses req duration m) x) as (x' & E & Hx' & G & Hk); [|done|].
  { eapply Forall_impl; [apply request_uses_source|]. apply source_labelled. }
  exists x'. unfold metered. rewrite E. split_and!; [by destruct (JsonRpc.http_req_json_rpc _ _ _ _)|done..|].
  intros method params id Hp Hb. apply (Hk (StartTimer RPC_REQUEST_DURATION [method])).
  unfold request_uses. rewrite Hp, Hb. cbn [negb]. apply elem_of_cons. by left.
Qed.

(** Requests one after the other. *)
Fixpoint serve_all (addr : string) (reqs : list (JsonRpc.HttpRequest * Float)) (s : miner * t) :
    list (res JsonRpc.GenericError JsonRpc.HttpResponse) * (miner * t) :=
  match reqs with
  | [] => ([], s)
  | (req, duration) :: reqs =>
      let (r, s) := metered addr req duration s in
      let (rs, s) := serve_all addr reqs s in (r :: rs, s)
  end.

Definition methods : list string :=
  ["createauxblock"; "submitauxblock"; "getdepositaddress"; "getheadblock"; "getblockbyheight";
   "getblockbyhash"; "getqueuedpow"]%string.

Lemma unknown_method addr req m method params id :
  JsonRpc.is_post req = true -> (JsonRpc.body req ≫= JsonRpc.parse_request) = Some (method, Some params, id) ->
  method ∉ methods ->
  JsonRpc.http_req_json_rpc args_text addr req m
  = (Ok (JsonRpc.new_json_rpc_error id 404 JsonRpc.method_not_found), m).
Proof.
  intros Hp Hb Hm. unfold JsonRpc.http_req_json_rpc. rewrite Hp. cbn [negb].
  destruct (JsonRpc.body req) as [b|]; [|done]. cbn in Hb. unfold mbind, st_bind, liftR. cbn [ok_or].
  rewrite Hb. cbn [ok_or]. unfold JsonRpc.dispatch.
  repeat (match goal with |- context [String.eqb method ?s] =>
    destruct (String.eqb_spec method s) as [->|_]; [by destruct Hm; repeat (first [left|right])|] end).
  done.
Qed.

Lemma series_of_dom m x vs : (ident m, vs) ∈ dom (series x) -> vs ∈ (series_of m x).*1.
Proof.
  intros [s Hs]%elem_of_dom. apply list_elem_of_fmap. exists (vs, s). split; [done|].
  apply list_elem_of_omap. exists ((ident m, vs), s). split; [by apply elem_of_map_to_list|].
  by rewrite String.eqb_refl.
Qed.

(** A request that names a method the server does not have. *)
Definition names_unknown (r : JsonRpc.HttpRequest * Float) (name : string) : Prop :=
  JsonRpc.is_post r.1 = true /\ (name ∉ methods) /\
  exists params id, (JsonRpc.body r.1 ≫= JsonRpc.parse_request) = Some (name, Some params, id).

Lemma serve_unknown addr reqs names m x :
  Forall2 names_unknown reqs names ->
  ok x ->
  exists rs x', serve_all addr reqs (m, x) = (rs, (m, x')) /\ grows x x' /\
    Forall (fun r => exists id, r = Ok (JsonRpc.new_json_rpc_error id 404 JsonRpc.method_not_found)) rs /\
    Forall (fun name => (ident RPC_REQUEST_DURATION, [name]) ∈ dom (series x')) names.
Proof.
  intros Hr. revert x. induction Hr as [|[req d] name reqs names (Hp & Hn & params & id & Hb) _ IH]; intros x Hx.
  { exists [], x. by split_and!. }
  destruct (metered_request addr req d m x Hx) as (x1 & E1 & Hx1 & G1 & K1).
  rewrite (unknown_method addr req m name params id Hp Hb Hn) in E1.
  destruct (IH x1 Hx1) as (rs & x2 & E2 & G2 & Ha & K2).
  eexists (_ :: rs), x2. cbn [serve_all]. rewrite E1. cbn [fst snd]. rewrite E2. split_and!; [done|by etrans|..].
  - apply Forall_cons. split; [by eexists|done].
  - apply Forall_cons. split; [|done]. apply G2. by eapply K1.
Qed.

(** A client decides how much the node remembers: each request for a method
    that does not exist is refused, but leaves a time series under the name it
    gave, for as long as the node runs; [n] requests with different names leave
    at least [n] series. *)
Theorem client_grows_metrics addr reqs names m x :
  ok x -> NoDup names ->
  Forall2 names_unknown reqs names ->
  exists rs x', serve_all addr reqs (m, x) = (rs, (m, x')) /\
    Forall (fun r => exists id, r = Ok (JsonRpc.new_json_rpc_error id 404 JsonRpc.method_not_found)) rs /\
    (length names <= length (series_of RPC_REQUEST_DURATION x'))%nat.
Proof.
  intros Hx Hd Hr. destruct (serve_unknown addr reqs names m x Hr Hx) as (rs & x' & E & _ & Ha & Hk).
  exists rs, x'. split_and!; [done..|].
  rewrite <-(length_fmap (fun n : string => [n]) names), <-(length_fmap fst (series_of _ _)).
  apply submseteq_length, NoDup_submseteq.
  - apply NoDup_fmap; [|done]. by intros a b [= ->].
  - intros vs (n & -> & Hn)%list_elem_of_fmap. apply series_of_dom. rewrite Forall_forall in Hk. by apply Hk.
Qed.

End WithLib.

(** ** Witnesses *)

Module Witness.
#[local] Existing Instance ExampleLib.lib.
#[local] Existing Instance Retarget.Witness.dec.
#[local] Existing Instance AuxMiner.Witness.blocks.
#[local] Existing Instance AuxMiner.Witness.chain0.
#[local] Existing Instance JsonRpc.Witness.queries.

(** Whole numbers, and histograms that keep their observations. *)
#[local] Instance prometheus : PrometheusLib := {|
  Float := Z; float_of z := z; Hist := list Z; hist_new := []; hist_observe x h := x :: h;
  desc_new n h ls := valid_name n && negb (String.eqb h "") && forallb valid_name ls && bool_decide (NoDup ls);
|}.

#[local] Instance prometheus_laws : PrometheusLaws prometheus.
Proof.
  split. intros n h ls Hn Hh Hl Hd. cbn. rewrite Hn, (bool_decide_true _ Hd), andb_true_r.
  destruct (String.eqb_spec h ""); [done|]. cbn [negb andb].
  apply List.forallb_forall. intros l Hin. rewrite Forall_forall in Hl. apply Hl. by apply list_elem_of_In.
Qed.

Definition encodes (fs : list (string * list (list string * Sample))) : bool :=
  forallb (fun f => negb (String.eqb f.1 EmptyString) && negb (Nat.eqb (length f.2) 0)) fs.

Lemma encodes_series fs :
  Forall (fun f : string * list (list string * Sample) => f.1 <> EmptyString /\ f.2 <> []) fs -> encodes fs = true.
Proof. induction 1 as [|[[|ch n] [|s l]] fs [Hn Hs] _ IH]; [done..|]. exact IH. Qed.

Definition some_uses : list Use :=
  [IncBy AURA_SLOT_CLAIM_TOTALS ["called"%string] 1; SetInt CHAIN_BLOCK_HEIGHT 7;
   StartTimer RPC_REQUEST_DURATION ["getheadblock"%string];
   IncBy AURA_SLOT_CLAIM_TOTALS ["called"%string] 1].

Lemma metrics_never_panic_witness :
  exists x, run_uses some_uses empty = (Ok tt, x) /\
    handle_request encodes true "/metrics" [] x = Ok (MetricsPage (gather x ++ [])).
Proof.
  apply (metrics_never_panic encodes encodes_series some_uses true "/metrics" []); [|apply Forall_nil_2].
  repeat (apply Forall_cons; split); try apply Forall_nil_2.
  - apply counted_use. reflexivity.
  - apply use_int_gauge. right. right. left.
  - apply use_timer.
  - apply counted_use. reflexivity.
Defined.

(** What the page shows then: counters and gauges by their numbers, histograms by
    how much they have observed. *)
Definition shown (s : Sample) : Z :=
  match s with
  | CounterValue n | IntGaugeValue n => n
  | GaugeValue x => x
  | HistogramValue h => Z.of_nat (length (h : list Z))
  end.

Example some_page :
  map (fun f => (f.1, map (prod_map id shown) f.2)) (gather (run_uses some_uses empty).2)
  = [("alys_aura_slot_claim_totals", [(["called"], 2)]); ("alys_chain_block_height", [([], 7)]);
     ("alys_rpc_request_duration_seconds", [(["getheadblock"], 0)])]%string.
Proof. vm_compute. reflexivity. Qed.

(** A body is the name of the method. *)
#[local] Instance json : JsonRpc.JsonLib := {|
  JsonRpc.Value := Z;
  JsonRpc.parse_request b :=
    Some (String.string_of_list_ascii (map (fun z => ascii_of_nat (Z.to_nat z)) b), Some "[]"%string, 0);
  JsonRpc.parse_address _ := None;
  JsonRpc.parse_string _ := None;
  JsonRpc.parse_string_pair _ := None;
  JsonRpc.hex_decode _ := None;
  JsonRpc.auxpow_decode _ := None;
  JsonRpc.error_text _ := "error"%string;
  JsonRpc.parse_int_text _ := "error"%string;
|}.

Definition asking (z : Z) : JsonRpc.HttpRequest * Float := (JsonRpc.mkHttpRequest true (Some [z]), 5).
Definition no_text {A} (_ : A) : string := "".

Lemma client_grows_metrics_witness :
  exists rs x', serve_all no_text no_text "bc1" (map asking [97; 98; 99]) (JsonRpc.Witness.m0, empty)
                = (rs, (JsonRpc.Witness.m0, x')) /\
    Forall (fun r => exists id, r = Ok (JsonRpc.new_json_rpc_error id 404 JsonRpc.method_not_found)) rs /\
    (3 <= length (series_of RPC_REQUEST_DURATION x'))%nat.
Proof.
  apply (client_grows_metrics no_text no_text "bc1" (map asking [97; 98; 99]) ["a"; "b"; "c"]%string
           JsonRpc.Witness.m0 empty).
  - apply metrics_ok_empty.
  - refine (bool_decide_eq_true_1 _ _). reflexivity.
  - repeat (apply Forall2_cons; split); try apply Forall2_nil_2;
      (split; [reflexivity|]); (split; [refine (bool_decide_eq_false_1 _ _); reflexivity|]); by eexists _, _.
Defined.

End Witness.
End Metrics.
