(* ===== verification/AuxPowCodec.v ===== *)
(** The consensus encoding of an AuxPow ([Encodable] and [Decodable] for
    [MerkleBranch] and [AuxPow] of [app/src/auxpow.rs]), over the encodings of
    the bitcoin crate. A reader is the bytes that are left. *)
From stdpp Require Import base decidable list countable.
From Stdlib Require Import ZArith Lia.
From S2P Require Import Prelude Bitcoin AuxPow Signatures Block Serial.

(** [consensus_encode] and [consensus_decode] of a type, and the values that
    have an encoding. *)
Record ConsensusCodec (A : Type) := mkCodec {
  enc : A -> bytes;
  dec : bytes -> option (A * bytes);
  encodable : A -> Prop;
}.
Arguments mkCodec {A} _ _ _.
Arguments enc {A} _ _.
Arguments dec {A} _ _.
Arguments encodable {A} _ _.

Definition is_bytes (b : bytes) : Prop := Forall (fun x => is_byte x = true) b.

(** Reading a value in front of anything gives it back. *)
Definition codec_ok {A} (c : ConsensusCodec A) : Prop :=
  forall a rest, encodable c a -> dec c (enc c a ++ rest) = Some (a, rest) /\ is_bytes (enc c a).

(** The encodings of the bitcoin crate: transactions, headers, hashes, [u32],
    [VarInt], and the decoding of a vector of hashes. *)
Class ConsensusLib := {
  tx_codec : ConsensusCodec Transaction;
  header_codec : ConsensusCodec Header;
  hash_codec : ConsensusCodec hash;
  u32_codec : ConsensusCodec Z;
  varint_encode : Z -> bytes;
  hashes_decode : bytes -> option (list hash * bytes);
}.

(** A vector is its length as a [VarInt] and its elements. *)
Class ConsensusLaws (L : ConsensusLib) := {
  tx_ok : codec_ok tx_codec;
  header_ok : codec_ok header_codec;
  hash_ok : codec_ok hash_codec;
  u32_ok : codec_ok u32_codec;
  varint_bytes n : is_bytes (varint_encode n);
  hashes_ok l rest : Forall (encodable hash_codec) l -> Z.of_nat (length l) < 2 ^ 64 ->
    hashes_decode (varint_encode (Z.of_nat (length l)) ++ mjoin (map (enc hash_codec) l) ++ rest)
    = Some (l, rest);
}.

Module AuxPowCodec.
Import AuxPow.
Local Open Scope Z_scope.

Section WithLib.
Context `{L : ConsensusLib}.

Definition branch_encode (b : MerkleBranch) : bytes :=
  varint_encode (wrap 64 (Z.of_nat (length (branch_hash b))))
  ++ mjoin (map (enc hash_codec) (branch_hash b))
  ++ enc u32_codec (branch_side_mask b).

Definition branch_decode (reader : bytes) : option (MerkleBranch * bytes) :=
  '(hashes, reader) ← hashes_decode reader;
  '(mask, reader) ← dec u32_codec reader;
  Some (mkBranch hashes mask, reader).

Definition auxpow_encode (a : t) : bytes :=
  enc tx_codec (coinbase_txn a)
  ++ enc hash_codec (auxpow_block_hash a)
  ++ branch_encode (coinbase_branch a)
  ++ branch_encode (blockchain_branch a)
  ++ enc header_codec (parent_block a).

Definition auxpow_decode (reader : bytes) : option (t * bytes) :=
  '(coinbase_txn, reader) ← dec tx_codec reader;
  '(block_hash, reader) ← dec hash_codec reader;
  '(coinbase_branch, reader) ← branch_decode reader;
  '(blockchain_branch, reader) ← branch_decode reader;
  '(parent_block, reader) ← dec header_codec reader;
  Some (mk coinbase_txn block_hash coinbase_branch blockchain_branch parent_block, reader).

(** ** Round trip *)

Definition branch_encodable (b : MerkleBranch) : Prop :=
  Forall (encodable hash_codec) (branch_hash b) /\ Z.of_nat (length (branch_hash b)) < 2 ^ 64 /\
  encodable u32_codec (branch_side_mask b).

Definition auxpow_encodable (a : t) : Prop :=
  encodable tx_codec (coinbase_txn a) /\ encodable hash_codec (auxpow_block_hash a) /\
  branch_encodable (coinbase_branch a) /\ branch_encodable (blockchain_branch a) /\
  encodable header_codec (parent_block a).

Context `{!ConsensusLaws L}.

Lemma branch_round_trip b rest :
  branch_encodable b -> branch_decode (branch_encode b ++ rest) = Some (b, rest).
Proof.
  intros (Hh & Hl & Hm). unfold branch_decode, branch_encode.
  rewrite wrap_small by lia. rewrite <-!app_assoc, hashes_ok by done. cbn.
  by rewrite (proj1 (u32_ok _ rest Hm)); destruct b.
Qed.

Lemma branch_bytes b : branch_encodable b -> is_bytes (branch_encode b).
Proof.
  intros (Hh & Hl & Hm). unfold is_bytes, branch_encode. rewrite !Forall_app.
  split; [apply varint_bytes|]. split; [|by apply (u32_ok _ [])].
  induction Hh as [|h l Hh _ IH]; cbn; [constructor|]. apply Forall_app.
  split; [by apply (hash_ok _ [])|]. apply IH. cbn in Hl. lia.
Qed.

Lemma auxpow_bytes a : auxpow_encodable a -> is_bytes (auxpow_encode a).
Proof.
  intros (H1 & H2 & H3 & H4 & H5). unfold is_bytes, auxpow_encode. rewrite !Forall_app.
  split; [by apply (tx_ok _ [])|]. split; [by apply (hash_ok _ [])|].
  split; [by apply branch_bytes|]. split; [by apply branch_bytes|]. by apply (header_ok _ []).
Qed.

(** An AuxPow is read as it was written, in front of anything. *)
Theorem auxpow_round_trip a rest :
  auxpow_encodable a -> auxpow_decode (auxpow_encode a ++ rest) = Some (a, rest).
Proof.
  intros (H1 & H2 & H3 & H4 & H5). unfold auxpow_decode, auxpow_encode. rewrite <-!app_assoc.
  rewrite (proj1 (tx_ok _ _ H1)). cbn. rewrite (proj1 (hash_ok _ _ H2)). cbn.
  rewrite branch_round_trip by done. cbn. rewrite branch_round_trip by done. cbn.
  rewrite (proj1 (header_ok _ _ H5)). by destruct a.
Qed.

End WithLib.

(** ** Witnesses *)

Module Witness.

Definition by_ser {A} `{Countable A} : ConsensusCodec A := mkCodec ser deser (fun _ => True).

Definition raw_hash : ConsensusCodec hash :=
  mkCodec id
    (fun r => if (32 <=? length r)%nat then Some (take 32 r, drop 32 r) else None)
    (fun h => length h = 32%nat /\ is_bytes h).

Fixpoint read_hashes (n : nat) (r : bytes) : option (list hash * bytes) :=
  match n with
  | O => Some ([], r)
  | S n => '(h, r) ← dec raw_hash r; '(l, r) ← read_hashes n r; Some (h :: l, r)
  end.

Definition lib : ConsensusLib := {|
  tx_codec := by_ser;
  header_codec := by_ser;
  hash_codec := raw_hash;
  u32_codec := by_ser;
  varint_encode n := ser n;
  hashes_decode r := '(n, r) ← deser r; read_hashes (Z.to_nat n) r;
|}.

Lemma bits_of_bytes p : is_bytes (bits_of p).
Proof. induction p as [p IH|p IH|]; cbn; repeat constructor; apply IH. Qed.

Lemma by_ser_ok {A} `{Countable A} : codec_ok (by_ser (A:=A)).
Proof. intros a rest _. split; [apply deser_ser|apply bits_of_bytes]. Qed.

Lemma raw_hash_ok : codec_ok raw_hash.
Proof.
  intros h rest [Hl Hb]. split; [|done]. cbn. rewrite length_app, Hl. cbn.
  by rewrite take_app_length', drop_app_length' by done.
Qed.

Lemma read_hashes_ok l rest :
  Forall (encodable raw_hash) l -> read_hashes (length l) (mjoin (map (enc raw_hash) l) ++ rest) = Some (l, rest).
Proof.
  induction 1 as [|h l Hh _ IH]; [done|].
  change (mjoin (map (enc raw_hash) (h :: l))) with (enc raw_hash h ++ mjoin (map (enc raw_hash) l)).
  cbn [length read_hashes]. rewrite <-app_assoc, (proj1 (raw_hash_ok h _ Hh)). cbn [mbind option_bind]. by rewrite IH.
Qed.

#[local] Instance lib_laws : ConsensusLaws lib.
Proof.
  split; try apply by_ser_ok; [apply raw_hash_ok|intros; apply bits_of_bytes|].
  intros l rest Hl _. cbn [hashes_decode varint_encode lib hash_codec].
  rewrite deser_ser. cbn [mbind option_bind]. rewrite Nat2Z.id. by apply read_hashes_ok.
Qed.

Definition example : t :=
  mk (mkTransaction 1 0 [] [mkTxOut 5 [1; 2]]) zero_hash (mkBranch [zero_hash; zero_hash] 2)
    (mkBranch [] 0) (mkHeader 1 zero_hash zero_hash 0 0 7).

Lemma auxpow_round_trip_witness :
  auxpow_decode (L:=lib) (auxpow_encode (L:=lib) example ++ [3]) = Some (example, [3]).
Proof.
  apply (auxpow_round_trip (L:=lib) example [3]).
  assert (encodable raw_hash zero_hash) as Hz by (split; [done|by repeat constructor]).
  split; [done|]. split; [done|]. split; [|split; [|done]]; (split; [by repeat constructor|]); cbn; split; done || lia.
Defined.

End Witness.
End AuxPowCodec.
