(* ===== verification/Miner.v ===== *)
(** The stand-alone miner ([crates/miner/src/main.rs]) against the JSON-RPC
    server of a node, with the JSON form of an aux block
    ([app/src/auxpow_miner.rs]). JSON, hexadecimal and the HTTP client are
    libraries. *)
From stdpp Require Import base decidable list gmap strings.
From Stdlib Require Import ZArith Lia.
From S2P Require Import Prelude Bitcoin Errors AuxPow AuxPowCodec Signatures Block Serial Retarget AuxMiner Text.
From S2P Require Import JsonRpc.

(** The libraries of the client: [hex::encode], the request for a method with
    string arguments, what the client reads in a response, a JSON boolean, and
    [CompactTarget::from_hex_str_no_prefix]. *)
Class ClientLib `{J : JsonRpc.JsonLib} := {
  hex_encode : bytes -> string;
  client_id : JsonRpc.Value;
  raw_args : list string -> string;
  build_request : string -> list string -> bytes;
  read_response : JsonRpc.HttpResponse -> option JsonRpc.Result;
  as_bool : JsonRpc.Result -> option bool;
  from_hex_str_no_prefix : Text.text -> option Z;
}.

Module Miner.
Import JsonRpc.
Local Open Scope Z_scope.

(** The address the miner mines for. *)
Definition ADDRESS : string := "0xb95f80EC665a534b1e309a2a24F8849d27B70FDE".
Definition address : Address :=
  [185; 95; 128; 236; 102; 90; 83; 75; 30; 48; 154; 42; 36; 248; 132; 157; 39; 183; 15; 222].

(** The JSON object of an aux block, without the constant fields. *)
Record AuxBlockJson := mkJson {
  j_hash : string;
  j_chainid : Z;
  j_previousblockhash : string;
  j_bits : Text.text;
  j_height : Z;
}.

Inductive CallError := CallFailed.

Section WithLibs.
Context `{B : BitcoinLib, D : DecimalLib, K : BlockLib, M : ChainManager C, V : ChainQueries C}.
Context `{L : ConsensusLib, J : JsonLib, CL : !ClientLib} (args_text : ArgsError -> string).

(** ** Aux blocks as JSON *)

Definition block_hash_to_consensus_hex (h : hash) : string := hex_encode (enc hash_codec h).

Definition block_hash_from_consensus_hex (s : string) : option hash :=
  b ← hex_decode s;
  fst <$> dec hash_codec b.

Definition compact_target_to_hex (bits : Z) : Text.text := Text.print_hex_u32 bits.

Definition compact_target_from_hex (s : Text.text) : option Z := from_hex_str_no_prefix s.

Definition to_json (b : AuxMiner.AuxBlock) : AuxBlockJson :=
  mkJson (block_hash_to_consensus_hex (AuxMiner.ab_hash b)) (AuxMiner.ab_chain_id b)
    (block_hash_to_consensus_hex (AuxMiner.ab_previous_block_hash b))
    (compact_target_to_hex (AuxMiner.ab_bits b)) (AuxMiner.ab_height b).

Definition from_json (j : AuxBlockJson) : option AuxMiner.AuxBlock :=
  h ← block_hash_from_consensus_hex (j_hash j);
  p ← block_hash_from_consensus_hex (j_previousblockhash j);
  bits ← compact_target_from_hex (j_bits j);
  Some (AuxMiner.mkAuxBlock h (j_chainid j) p bits (j_height j)).

Definition as_aux_block (r : Result) : option AuxMiner.AuxBlock :=
  match r with AuxBlockResult b => from_json (to_json b) | _ => None end.

(** ** The miner *)

Section Server.
Context {S : Type} (server : HttpRequest -> ST S GenericError HttpResponse).

Definition call {T} (cmd : string) (args : list string) (decode : Result -> option T) :
    ST S CallError T := fun s =>
  match server (mkHttpRequest true (Some (build_request cmd args))) s with
  | (Ok response, s') =>
      match read_response response ≫= decode with
      | Some x => (Ok x, s')
      | None => (Err CallFailed, s')
      end
  | (Err _, s') => (Err CallFailed, s')
  | (Panic, s') => (Panic, s')
  end.

Definition unwrapped {T} (m : ST S CallError T) : ST S CallError T := fun s =>
  let (r, s') := m s in (unwrap_res r, s').

(** The answer to the submission is unwrapped: the miner stops when it is an
    error. *)
Definition try_mine : ST S CallError unit :=
  aux_block ← call "createauxblock" [ADDRESS] as_aux_block;
  auxpow ← liftR (unwrap_res (AuxPow.mine (AuxMiner.ab_hash aux_block) (AuxMiner.ab_bits aux_block)
                                          (AuxMiner.ab_chain_id aux_block)));
  let stringified_auxpow := hex_encode (AuxPowCodec.auxpow_encode auxpow) in
  let stringified_aux_hash := hex_encode (enc hash_codec (AuxMiner.ab_hash aux_block)) in
  unwrapped (call "submitauxblock" [stringified_aux_hash; stringified_auxpow] as_bool) ;;
  mret tt.

End Server.

(** ** What the miner achieves *)

(** The libraries on both sides agree; [null] is no boolean. *)
Class ClientLaws := {
  hex_round_trip b : is_bytes b -> hex_decode (hex_encode b) = Some b;
  request_parsed cmd args :
    parse_request (build_request cmd args) = Some (cmd, Some (raw_args args), client_id);
  address_parsed : parse_address (raw_args [ADDRESS]) = Some address;
  pair_parsed a b : parse_string_pair (raw_args [a; b]) = Some (a, b);
  response_read r : read_response (ok_response client_id r) = Some r;
  null_no_bool : as_bool UnitResult = None;
  bits_parsed n : 0 <= n < 2 ^ 32 -> from_hex_str_no_prefix (Text.print_hex_u32 n) = Some n;
  auxpow_decoded b : JsonRpc.auxpow_decode b = fst <$> AuxPowCodec.auxpow_decode b;
  hash_raw h : length h = 32%nat -> is_bytes h -> encodable hash_codec h /\ enc hash_codec h = h;
}.

Context `{!ConsensusLaws L, !ClientLaws}.

Definition aux_block_valid (b : AuxMiner.AuxBlock) : Prop :=
  length (AuxMiner.ab_hash b) = 32%nat /\ is_bytes (AuxMiner.ab_hash b) /\
  length (AuxMiner.ab_previous_block_hash b) = 32%nat /\ is_bytes (AuxMiner.ab_previous_block_hash b) /\
  0 <= AuxMiner.ab_bits b < 2 ^ 32.

Lemma hash_hex_round_trip h :
  length h = 32%nat -> is_bytes h ->
  block_hash_from_consensus_hex (block_hash_to_consensus_hex h) = Some h.
Proof.
  intros Hl Hb. destruct (hash_raw h Hl Hb) as [He _]. destruct (hash_ok h [] He) as [Hd Hby].
  unfold block_hash_from_consensus_hex, block_hash_to_consensus_hex.
  rewrite hex_round_trip by done. cbn. rewrite app_nil_r in Hd. by rewrite Hd.
Qed.

(** An aux block survives its way to the miner. *)
Lemma aux_block_round_trip b : aux_block_valid b -> from_json (to_json b) = Some b.
Proof.
  intros (H1 & H2 & H3 & H4 & H5). unfold from_json, to_json, compact_target_from_hex, compact_target_to_hex.
  cbn [j_hash j_previousblockhash j_bits j_chainid j_height]. rewrite !hash_hex_round_trip by done.
  cbn [mbind option_bind]. rewrite bits_parsed by done. by destruct b.
Qed.

Lemma mined_is_candidate fuel n h target cid a :
  AuxPow.mine_loop fuel n h target cid = Ok a -> exists k, a = AuxPow.mine_candidate h k.
Proof.
  revert n. induction fuel as [|fuel IH]; intros n; cbn [AuxPow.mine_loop]; [done|].
  destruct (AuxPow.check_proof_of_work _ _); [|apply IH].
  destruct (AuxPow.check _ _ _); cbn; [|done..]. intros [= <-]. by exists n.
Qed.

Lemma submission_decoded h auxpow :
  length h = 32%nat -> is_bytes h -> AuxPowCodec.auxpow_encodable auxpow ->
  decode_submitauxblock_args
    (raw_args [hex_encode (enc hash_codec h); hex_encode (AuxPowCodec.auxpow_encode auxpow)])
  = Ok (h, auxpow).
Proof.
  intros Hl Hb Ha. destruct (hash_raw h Hl Hb) as [_ ->]. unfold decode_submitauxblock_args.
  rewrite pair_parsed. cbn [ok_or mbind res_bind]. rewrite (hex_round_trip h) by done.
  cbn [ok_or mbind res_bind]. unfold block_hash_from_slice. rewrite Hl. cbn [Nat.eqb mbind res_bind].
  rewrite hex_round_trip by (by apply AuxPowCodec.auxpow_bytes). cbn [ok_or mbind res_bind].
  rewrite auxpow_decoded. pose proof (AuxPowCodec.auxpow_round_trip auxpow [] Ha) as E.
  rewrite app_nil_r in E. by rewrite E.
Qed.

(** C33: A round of the miner against a node that gives it an aux block which some
    nonce solves: the work is queued for exactly the committed range, for the
    miner's address. The node answers the submission with [null] where the
    miner expects a boolean, so that the miner then panics. *)
Theorem miner_round `{!ChainManagerLaws C M} addr m ab m' k :
  cm_ok (AuxMiner.chain m) ->
  AuxMiner.create_aux_block address m = (Ok ab, m') -> aux_block_valid ab ->
  0 <= AuxMiner.ab_chain_id ab < 2 ^ 32 -> AuxMiner.ab_chain_id ab <> 1 -> 0 <= k < 2 ^ 32 - 1 ->
  AuxPow.check_proof_of_work (AuxPow.mine_candidate (AuxMiner.ab_hash ab) k) (AuxMiner.ab_bits ab) = true ->
  (forall n, AuxPowCodec.auxpow_encodable (AuxPow.mine_candidate (AuxMiner.ab_hash ab) n)) ->
  (forall start end_ auxpow,
     (exists hashes, cm_get_aggregate_hashes (AuxMiner.chain m) = Ok hashes /\
        hd_error hashes = Some start /\ list.last hashes = Some end_ /\
        AuxMiner.ab_hash ab = AuxPow.aggregate_hash hashes) ->
     exists pushed, cm_push_auxpow start end_ (AuxMiner.ab_bits ab) (AuxMiner.ab_chain_id ab)
       (AuxMiner.ab_height ab) auxpow address (AuxMiner.chain m) = (Ok true, pushed)) ->
  exists auxpow start end_ c,
    AuxPow.check_proof_of_work auxpow (AuxMiner.ab_bits ab) = true /\
    AuxPow.check auxpow (AuxMiner.ab_hash ab) (AuxMiner.ab_chain_id ab) = Ok tt /\
    cm_push_auxpow start end_ (AuxMiner.ab_bits ab) (AuxMiner.ab_chain_id ab)
      (AuxMiner.ab_height ab) auxpow address (AuxMiner.chain m) = (Ok true, c) /\
    try_mine (http_req_json_rpc args_text addr) m
    = (Panic, AuxMiner.set_chain c (AuxMiner.set_state (delete (AuxMiner.ab_hash ab) (AuxMiner.state m)) m)).
Proof.
  intros Hok Hcreate Hval Hcid H1 Hk Hpow Henc Hpush.
  destruct (AuxPow.mine_loop_finds (Z.to_nat k) (Z.to_nat (2 ^ 32 - 1)) 0 (AuxMiner.ab_hash ab)
              (AuxMiner.ab_bits ab) (AuxMiner.ab_chain_id ab)) as (auxpow & Hmine & Hp & Hc);
    [apply Hval|done|done|lia|by rewrite Z2Nat.id, Z.add_0_l by lia|].
  destruct (mined_is_candidate _ _ _ _ _ _ Hmine) as [n ->].
  set (auxpow := AuxPow.mine_candidate (AuxMiner.ab_hash ab) n) in *.
  destruct (AuxMiner.create_inv _ _ _ _ Hcreate)
    as (last & hashes & start & end_ & head & _ & _ & Ha & Hst & He & _ & _ & _ & Hab & _).
  assert (exists hashes, cm_get_aggregate_hashes (AuxMiner.chain m) = Ok hashes /\
        hd_error hashes = Some start /\ list.last hashes = Some end_ /\
        AuxMiner.ab_hash ab = AuxPow.aggregate_hash hashes) as Hrange by (exists hashes; auto).
  destruct (Hpush start end_ auxpow Hrange) as [c Hc'].
  exists auxpow, start, end_, c. split; [done|]. split; [done|]. split; [done|].
  pose proof (AuxMiner.submit_created_pushes address m ab m' auxpow true c Hok Hcreate Hp Hc) as Hsub.
  unfold try_mine, mbind, st_bind. unfold call at 1.
  rewrite (create_request args_text addr _ client_id _ address m (request_parsed _ _) address_parsed).
  rewrite Hcreate, response_read. cbn [mbind option_bind as_aux_block]. rewrite aux_block_round_trip by done.
  unfold liftR. change (AuxPow.mine (AuxMiner.ab_hash ab) (AuxMiner.ab_bits ab) (AuxMiner.ab_chain_id ab))
    with (AuxPow.mine_loop (Z.to_nat (2 ^ 32 - 1)) 0 (AuxMiner.ab_hash ab) (AuxMiner.ab_bits ab)
            (AuxMiner.ab_chain_id ab)).
  rewrite Hmine. cbn [unwrap_res]. unfold unwrapped, call.
  rewrite (submit_request args_text addr _ client_id _ (AuxMiner.ab_hash ab) auxpow m' (request_parsed _ _)).
  2: { apply submission_decoded; [apply Hval|apply Hval|apply Henc]. }
  rewrite Hsub.
  2: { intros s e (hashes' & E1 & E2 & E3 & _). rewrite Ha in E1. injection E1 as <-.
       rewrite Hst in E2. rewrite He in E3. injection E2 as <-. by injection E3 as <-. }
  rewrite response_read. cbn [mbind option_bind]. by rewrite null_no_bool.
Qed.

End WithLibs.

(** ** Witnesses *)

Module Witness.
#[local] Existing Instance ExampleLib.lib.
#[local] Existing Instance Retarget.Witness.dec.
#[local] Existing Instance AuxMiner.Witness.blocks.
#[local] Existing Instance AuxMiner.Witness.chain0.
#[local] Existing Instance AuxMiner.Witness.chain0_laws.
#[local] Existing Instance JsonRpc.Witness.queries.
#[local] Existing Instance AuxPowCodec.Witness.lib.
#[local] Existing Instance AuxPowCodec.Witness.lib_laws.

(** Bytes as characters, and any value as such a text. *)
Fixpoint to_text (b : bytes) : string :=
  match b with
  | [] => EmptyString
  | x :: b => String (Ascii.ascii_of_nat (Z.to_nat x)) (to_text b)
  end.
Fixpoint to_bytes (s : string) : bytes :=
  match s with
  | EmptyString => []
  | String c s => Z.of_nat (Ascii.nat_of_ascii c) :: to_bytes s
  end.

Lemma to_bytes_to_text b : is_bytes b -> to_bytes (to_text b) = b.
Proof.
  induction 1 as [|x b Hx _ IH]; cbn; [done|]. apply in_width_spec in Hx. change (2 ^ 8) with 256 in Hx.
  rewrite Ascii.nat_ascii_embedding, IH, Z2Nat.id by lia. done.
Qed.

Definition write {A} `{Countable A} (a : A) : string := to_text (ser a).
Definition read {A} `{Countable A} (s : string) : option A := fst <$> deser (to_bytes s).

Lemma read_write {A} `{Countable A} (a : A) : read (write a) = Some a.
Proof.
  unfold read, write. rewrite to_bytes_to_text by apply AuxPowCodec.Witness.bits_of_bytes.
  pose proof (deser_ser a []) as E. rewrite app_nil_r in E. by rewrite E.
Qed.

Definition read_args (s : string) : option (list string) := read s.

#[local] Instance json : JsonLib := {|
  Value := Z;
  parse_request b :=
    match fst <$> deser b with Some (cmd, params) => Some (cmd, Some params, 1) | None => None end;
  parse_address s :=
    match read_args s with
    | Some [a] => if String.eqb a ADDRESS then Some address else None
    | _ => None
    end;
  parse_string s := Some s;
  parse_string_pair s := match read_args s with Some [a; b] => Some (a, b) | _ => None end;
  hex_decode s := Some (to_bytes s);
  auxpow_decode b := fst <$> AuxPowCodec.auxpow_decode b;
  error_text _ := "error"%string;
  parse_int_text _ := "invalid digit found in string"%string;
|}.

#[local] Instance client : ClientLib := {|
  hex_encode := to_text;
  client_id := 1;
  raw_args := write;
  build_request cmd args := ser (cmd, write args);
  read_response r := match r with JsonRpcResponseV1 _ (Some x) None _ => Some x | _ => None end;
  as_bool _ := None;
  from_hex_str_no_prefix s := match Text.from_str_radix 16 32 s with Ok n => Some n | _ => None end;
|}.

#[local] Instance client_laws : ClientLaws (J:=json) (CL:=client).
Proof.
  split; cbn [hex_decode hex_encode parse_request build_request raw_args client_id parse_address
    parse_string_pair read_response ok_response as_bool from_hex_str_no_prefix auxpow_decode json client].
  - intros b Hb. by rewrite to_bytes_to_text.
  - intros cmd args. pose proof (deser_ser (cmd, write args) []) as E. rewrite app_nil_r in E. by rewrite E.
  - unfold read_args. by rewrite read_write.
  - intros a b. unfold read_args. by rewrite read_write.
  - done.
  - done.
  - intros n Hn. by rewrite Text.parse_print_hex.
  - done.
  - done.
Qed.

Definition m0 := AuxMiner.Witness.miner.
Definition m1 := (AuxMiner.create_aux_block address m0).2.

Lemma miner_round_witness :
  exists auxpow start end_ c,
    AuxPow.check_proof_of_work auxpow 505794034 = true /\
    AuxPow.check auxpow AuxMiner.Witness.aux_hash 1212 = Ok tt /\
    cm_push_auxpow start end_ 505794034 1212 1 auxpow address (AuxMiner.chain m0) = (Ok true, c) /\
    try_mine (http_req_json_rpc JsonRpc.Witness.text "bc1") m0
    = (Panic, AuxMiner.set_chain c
                (AuxMiner.set_state (delete AuxMiner.Witness.aux_hash (AuxMiner.state m0)) m0)).
Proof.
  apply (miner_round (J:=json) (CL:=client) JsonRpc.Witness.text "bc1" m0 AuxMiner.Witness.created m1 0).
  - exact I.
  - vm_compute. reflexivity.
  - split; [vm_compute; reflexivity|]. split; [vm_compute; repeat constructor|].
    split; [vm_compute; reflexivity|]. split; [vm_compute; repeat constructor|]. cbn. lia.
  - cbn. lia.
  - cbn. lia.
  - lia.
  - vm_compute. reflexivity.
  - intros n. split; [exact I|]. split; [split; [reflexivity|repeat constructor]|].
    split; [split; [constructor|cbn; split; [lia|exact I]]|].
    split; [split; [constructor|cbn; split; [lia|exact I]]|exact I].
  - intros start end_ auxpow _. eexists. reflexivity.
Defined.

End Witness.
End Miner.
