(* ===== verification/Chain.v ===== *)
(** The chain ([Chain] of [app/src/chain.rs]): the state of the node and its
    operations on blocks, proofs of work and peg-out signatures. It composes
    the components of the other files. Logging, tracing and metrics are left
    out; the lock around each field makes a handler a sequence of reads and
    writes of the state, and a handler runs to its end before the next one. *)
From stdpp Require Import base decidable list gmap.
From Stdlib Require Import ZArith Lia.
From S2P Require Import Prelude Bitcoin Errors AuxPow Signatures Block Serial Aura Candidates.
From S2P Require Import Store Retarget AuxMiner BTree Wallet Bridge Engine Payouts ChainRange.
From S2P Require Import RpcRetry BlockHashCache.

(** [Bridge::fee_rate]: the estimate of Bitcoin Core, if it has one, and two
    satoshis per virtual byte otherwise. *)
Class FeeEstimate `{WalletLib} := {
  estimate_smart_fee : option FeeRate;
  two_sat_per_vb : FeeRate;
}.

Definition fee_rate `{FeeEstimate} : FeeRate := default two_sat_per_vb estimate_smart_fee.

(** A component of the state run on its own. *)
Definition zoom {S T E A} (get : S -> T) (set : T -> S -> S) (m : ST T E A) : ST S E A := fun s =>
  let (r, x) := m (get s) in (r, set x s).

Definition st_map_err {S E F A} (f : E -> F) (m : ST S E A) : ST S F A := fun s =>
  let (r, s') := m s in (map_err f r, s').

(** [unwrap()] on a fallible call. *)
Definition st_unwrap {S E F A} (m : ST S E A) : ST S F A := fun s =>
  let (r, s') := m s in (unwrap_res r, s').

(** An error that is logged and dropped. *)
Definition st_ignore {S E F A} (m : ST S E A) : ST S F unit := fun s =>
  match m s with
  | (Panic, s') => (Panic, s')
  | (_, s') => (Ok tt, s')
  end.

Module Chain.

Inductive SyncStatus := InProgress | Synced.

Definition is_synced (s : SyncStatus) : bool :=
  match s with Synced => true | InProgress => false end.

Section WithLibs.
Context `{B : BitcoinLib, L : BlsLib, K : BlockLib, S : StoreLib, D : DecimalLib,
          W : WalletLib, F : !FeeEstimate, G : BridgeLib, A : !ExecutionApi}.
Context {PeerId : Type}.

(** [PubsubMessage] of [app/src/network/mod.rs]. *)
Inductive PubsubMessage :=
| ConsensusBlockMsg (b : SignedConsensusBlock)
| ApproveBlockMsg (a : Candidates.ApproveBlock)
| QueuePowMsg (p : AuxPowHeader)
| PegoutSignaturesMsg (s : gmap hash Wallet.MemberSignatures).

(** The fields of [Chain] that never change. *)
Record Config := mkConfig {
  aura : Aura.t;
  max_blocks_without_pow : Z;
  federation : list Address;
  bridge : Bridge.t;
  maybe_bitcoin_signer : option BtcSecretKey;
  retarget_params : Retarget.Params;
  is_validator : bool;
}.

(** The fields behind locks, the database, and what the node has sent:
    [outbox] are the gossip messages, [broadcasts] the Bitcoin transactions.
    [rpc] holds the circuit breaker. *)
Record t := mk {
  config : Config;
  engine : Engine.t;
  storage : Store.Db;
  head : option BlockRef;
  sync_status : SyncStatus;
  peers : list PeerId;
  block_candidates : Candidates.t;
  queued_pow : option AuxPowHeader;
  queued_pegins : list (hash * PegInInfo);
  bitcoin_wallet : Wallet.t;
  bitcoin_signature_collector : Wallet.Collector;
  block_hash_cache : option BlockHashCache.t;
  rpc : RpcRetry.State;
  outbox : list PubsubMessage;
  broadcasts : list Transaction;
}.

Definition set_engine (x : Engine.t) (c : t) : t :=
  mk (config c) x (storage c) (head c) (sync_status c) (peers c) (block_candidates c) (queued_pow c)
     (queued_pegins c) (bitcoin_wallet c) (bitcoin_signature_collector c) (block_hash_cache c)
     (rpc c) (outbox c) (broadcasts c).
Definition set_storage (x : Store.Db) (c : t) : t :=
  mk (config c) (engine c) x (head c) (sync_status c) (peers c) (block_candidates c) (queued_pow c)
     (queued_pegins c) (bitcoin_wallet c) (bitcoin_signature_collector c) (block_hash_cache c)
     (rpc c) (outbox c) (broadcasts c).
Definition set_head (x : option BlockRef) (c : t) : t :=
  mk (config c) (engine c) (storage c) x (sync_status c) (peers c) (block_candidates c) (queued_pow c)
     (queued_pegins c) (bitcoin_wallet c) (bitcoin_signature_collector c) (block_hash_cache c)
     (rpc c) (outbox c) (broadcasts c).
Definition set_sync_status (x : SyncStatus) (c : t) : t :=
  mk (config c) (engine c) (storage c) (head c) x (peers c) (block_candidates c) (queued_pow c)
     (queued_pegins c) (bitcoin_wallet c) (bitcoin_signature_collector c) (block_hash_cache c)
     (rpc c) (outbox c) (broadcasts c).
Definition set_peers (x : list PeerId) (c : t) : t :=
  mk (config c) (engine c) (storage c) (head c) (sync_status c) x (block_candidates c) (queued_pow c)
     (queued_pegins c) (bitcoin_wallet c) (bitcoin_signature_collector c) (block_hash_cache c)
     (rpc c) (outbox c) (broadcasts c).
Definition set_block_candidates (x : Candidates.t) (c : t) : t :=
  mk (config c) (engine c) (storage c) (head c) (sync_status c) (peers c) x (queued_pow c)
     (queued_pegins c) (bitcoin_wallet c) (bitcoin_signature_collector c) (block_hash_cache c)
     (rpc c) (outbox c) (broadcasts c).
Definition set_queued_pow (x : option AuxPowHeader) (c : t) : t :=
  mk (config c) (engine c) (storage c) (head c) (sync_status c) (peers c) (block_candidates c) x
     (queued_pegins c) (bitcoin_wallet c) (bitcoin_signature_collector c) (block_hash_cache c)
     (rpc c) (outbox c) (broadcasts c).
Definition set_queued_pegins (x : list (hash * PegInInfo)) (c : t) : t :=
  mk (config c) (engine c) (storage c) (head c) (sync_status c) (peers c) (block_candidates c) (queued_pow c)
     x (bitcoin_wallet c) (bitcoin_signature_collector c) (block_hash_cache c)
     (rpc c) (outbox c) (broadcasts c).
Definition set_bitcoin_wallet (x : Wallet.t) (c : t) : t :=
  mk (config c) (engine c) (storage c) (head c) (sync_status c) (peers c) (block_candidates c) (queued_pow c)
     (queued_pegins c) x (bitcoin_signature_collector c) (block_hash_cache c)
     (rpc c) (outbox c) (broadcasts c).
Definition set_bitcoin_signature_collector (x : Wallet.Collector) (c : t) : t :=
  mk (config c) (engine c) (storage c) (head c) (sync_status c) (peers c) (block_candidates c) (queued_pow c)
     (queued_pegins c) (bitcoin_wallet c) x (block_hash_cache c)
     (rpc c) (outbox c) (broadcasts c).
Definition set_block_hash_cache (x : option BlockHashCache.t) (c : t) : t :=
  mk (config c) (engine c) (storage c) (head c) (sync_status c) (peers c) (block_candidates c) (queued_pow c)
     (queued_pegins c) (bitcoin_wallet c) (bitcoin_signature_collector c) x
     (rpc c) (outbox c) (broadcasts c).
Definition set_rpc (x : RpcRetry.State) (c : t) : t :=
  mk (config c) (engine c) (storage c) (head c) (sync_status c) (peers c) (block_candidates c) (queued_pow c)
     (queued_pegins c) (bitcoin_wallet c) (bitcoin_signature_collector c) (block_hash_cache c)
     x (outbox c) (broadcasts c).
Definition send (m : PubsubMessage) (c : t) : t :=
  mk (config c) (engine c) (storage c) (head c) (sync_status c) (peers c) (block_candidates c) (queued_pow c)
     (queued_pegins c) (bitcoin_wallet c) (bitcoin_signature_collector c) (block_hash_cache c)
     (rpc c) (outbox c ++ [m]) (broadcasts c).
Definition broadcast (tx : Transaction) (c : t) : t :=
  mk (config c) (engine c) (storage c) (head c) (sync_status c) (peers c) (block_candidates c) (queued_pow c)
     (queued_pegins c) (bitcoin_wallet c) (bitcoin_signature_collector c) (block_hash_cache c)
     (rpc c) (outbox c) (broadcasts c ++ [tx]).

Definition on_storage {R} : ST Store.Db Error R -> ST t Error R := zoom storage set_storage.
Definition on_engine {R} : ST Engine.t Error R -> ST t Error R := zoom engine set_engine.
Definition on_candidates {R} : ST Candidates.t Error R -> ST t Error R :=
  zoom block_candidates set_block_candidates.
Definition on_wallet {R} : ST Wallet.t Fed.Error R -> ST t Fed.Error R :=
  zoom bitcoin_wallet set_bitcoin_wallet.
Definition on_collector {R} : ST Wallet.Collector Fed.Error R -> ST t Fed.Error R :=
  zoom bitcoin_signature_collector set_bitcoin_signature_collector.

(** [Chain::new]: the head is read from the store. *)
Definition new (cfg : Config) (e : Engine.t) (d : Store.Db) (w : Wallet.t)
    (col : Wallet.Collector) (now : Z) : res Error t :=
  h ← unwrap_res (Store.get_head d);
  Ok (mk cfg e d h Synced [] Candidates.new None [] w col
        (Some (BlockHashCache.new None))
        (RpcRetry.mkState (RpcRetry.new 3 60000) now 0) [] []).

(** ** Reading *)

(** The head block, from the stored reference. *)
Definition get_head (c : t) : res Error SignedConsensusBlock :=
  r ← Store.get_head (storage c);
  r ← ok_or r (ChainError (BlockRetrievalError Head));
  b ← Store.get_block (storage c) (ref_hash r);
  ok_or b (ChainError (BlockRetrievalError Head)).

Definition get_block_by_hash (c : t) (h : hash) : res Error ConsensusBlock :=
  b ← map_err (fun _ => GenericError) (Store.get_block (storage c) h);
  b ← unwrap b;
  Ok (message b).

Definition get_block_at_height (c : t) (height : Z) : res Error ConsensusBlock :=
  match Store.get_block_by_height (storage c) height with
  | Ok (Some b) => Ok (message b)
  | Ok None | Err _ => Err GenericError
  | Panic => Panic
  end.

Definition get_last_finalized_block (c : t) : res Error ConsensusBlock :=
  match Store.get_latest_pow_block (storage c) with
  | Ok (Some x) =>
      b ← unwrap_res (Store.get_block (storage c) (ref_hash x));
      b ← unwrap b;
      Ok (message b)
  | _ => Panic
  end.

Definition aggregate_hashes (c : t) : res Error (list hash) :=
  h ← ok_or (head c) (ChainError (BlockRetrievalError Head));
  last ← ChainRange.get_latest_finalized_block_ref (storage c);
  last ← ok_or last (ChainError (BlockRetrievalError LastFinalized));
  ChainRange.get_hashes (storage c) (ref_hash last) (ref_hash h).

(** [get_aggregate_hashes]: nothing to do when the queued proof of work ends at
    the head, and the cached hashes otherwise. *)
Definition get_aggregate_hashes (c : t) : res Error (list hash) :=
  h ← ok_or (head c) (ChainError (BlockRetrievalError Head));
  let has_work := match queued_pow c with
                  | Some pow => negb (bool_decide (range_end pow = ref_hash h))
                  | None => true
                  end in
  if negb has_work then Err (ChainError (AuxPowMiningError_ NoWorkToDo))
  else match block_hash_cache c with
       | Some cache => Ok (BlockHashCache.get cache)
       | None => Err GenericError
       end.

Definition init_block_hash_cache : ST t Error unit :=
  c ← getS;
  match block_hash_cache c with
  | Some cache =>
      hs ← liftR (map_err (fun _ => GenericError) (aggregate_hashes c));
      modifyS (set_block_hash_cache (Some (BlockHashCache.init hs cache).2))
  | None => mret tt
  end.

(** A receipt that cannot be fetched counts as missing. *)
Definition receipt_of (c : t) (tx : ExecTx) : res Error (option Receipt) :=
  match Engine.get_transaction_receipt (tx_hash tx) (engine c) with
  | Ok r => Ok r
  | Err _ => Ok None
  | Panic => Panic
  end.

(** The execution block and the receipts of its transactions; missing receipts
    are left out. *)
Definition get_block_and_receipts (c : t) (h : hash) : res Error (ExecBlock * list Receipt) :=
  eb ← Engine.get_block_with_txs h (engine c);
  eb ← ok_or eb MissingBlock;
  receipts ← collect (receipt_of c) (eb_transactions eb);
  Ok (eb, omap (M:=list) (fun r => r) receipts).

(** ** Proofs of work *)

(** What [check_pow] works out before it looks at the work: the hash that has
    to be committed to, and the target. *)
Definition pow_target (c : t) (header : AuxPowHeader) : res Error (hash * Z) :=
  last_pow_block_ref ← Store.get_latest_pow_block (storage c);
  last_pow_block_ref ← unwrap last_pow_block_ref;
  let last_pow := ref_hash last_pow_block_ref in
  last_pow_block ← Store.get_block (storage c) last_pow;
  ok_or last_pow_block MissingBlock ;;
  last_finalized ← ChainRange.get_latest_finalized_block_ref (storage c);
  last_finalized ← ok_or last_finalized MissingBlock;
  range_start_block ← Store.get_block (storage c) (range_start header);
  range_start_block ← ok_or range_start_block GenericError;
  if (53143 <? bi_height (message range_start_block))
     && negb (bool_decide (parent_hash (message range_start_block) = ref_hash last_finalized))
  then Err InvalidPowRange
  else
    hashes ← ChainRange.get_hashes (storage c) (parent_hash (message range_start_block))
               (range_end header);
    head_block ← get_head c;
    index_last ← map_err (fun _ => GenericError) (get_block_by_hash c last_pow);
    bits ← map_err (fun _ => GenericError)
             (Retarget.get_next_work_required index_last (retarget_params (config c))
                (bi_height (message head_block)));
    Ok (AuxPow.aggregate_hash hashes, bits).

(** The AuxPow must be there, and one that meets the target must pass its own
    check: both are unwrapped. *)
Definition check_pow (c : t) (header : AuxPowHeader) (pow_override : bool) : res Error unit :=
  '(h, bits) ← pow_target c header;
  auxpow ← unwrap (a_auxpow header);
  if pow_override || AuxPow.check_proof_of_work auxpow bits
  then unwrap_res (AuxPow.check auxpow h (a_chain_id header))
  else Err InvalidPow.

(** ** Peg-out signatures *)

(** Signatures are added one by one until one fails; the order of the map is one
    of those a [HashMap] may be iterated in. *)
Definition store_signatures (sigs : gmap hash Wallet.MemberSignatures) : ST t Error unit :=
  mapM_ (fun p : hash * Wallet.MemberSignatures =>
    c ← getS;
    st_map_err FederationError (on_collector (Wallet.add_signature (bitcoin_wallet c) p.1 p.2)))
    (map_to_list sigs).

Definition maybe_generate_signatures (pow : AuxPowHeader) : ST t Error unit :=
  c ← getS;
  match maybe_bitcoin_signer (config c) with
  | None => mret tt
  | Some sk =>
      proposals ← liftR (ChainRange.get_bitcoin_payment_proposals_in_range (storage c)
                           (range_start pow) (range_end pow));
      l ← liftR (collect (fun tx =>
             sig ← map_err FederationError (Wallet.get_input_signatures sk tx (bitcoin_wallet c));
             Ok (txid tx, sig)) proposals);
      let signatures := foldl (fun m p => <[p.1 := p.2]> m) ∅ l in
      st_unwrap (store_signatures signatures) ;;
      modifyS (send (PegoutSignaturesMsg signatures))
  end.

Definition queue_pow (pow : AuxPowHeader) : ST t Error unit :=
  modifyS (set_queued_pow (Some pow)) ;;
  st_unwrap (maybe_generate_signatures pow).

Definition share_pow (pow : AuxPowHeader) : ST t Error unit :=
  modifyS (send (QueuePowMsg pow)) ;;
  queue_pow pow.

Definition push_auxpow (start_hash end_hash : hash) (bits chain_id height : Z) (auxpow : AuxPow.t)
    (address : Address) : ST t Error bool := fun c =>
  let pow := mkAuxPowHeader start_hash end_hash bits chain_id height (Some auxpow) address in
  let known := match queued_pow c with
               | Some prev => bool_decide (range_start prev = range_start pow)
                              && bool_decide (range_end prev = range_end pow)
               | None => false
               end in
  if known then (Ok false, c)
  else
    match check_pow c pow false with
    | Ok _ =>
        match share_pow pow c with
        | (Ok _, c') => (Ok true, c')
        | (Err _, c') => (Ok false, c')
        | (Panic, c') => (Panic, c')
        end
    | Err _ => (Ok false, c)
    | Panic => (Panic, c)
    end.

(** ** Importing blocks *)

(** The head moves to the given block unless that is lower and no rollback was
    asked for; the operations store the reference. *)
Definition update_head_ref_ops (root : hash) (height : Z) (rollback_override : bool) :
    ST t Error (list Store.KeyValueStoreOp) := fun c =>
  let update := (Ok (Store.set_head (mkRef root height)), set_head (Some (mkRef root height)) c) in
  match head c with
  | Some x => if (height <? ref_height x) && negb rollback_override then (Ok [], c) else update
  | None => update
  end.

Definition finalize (b : SignedConsensusBlock) (root : hash) (pow : AuxPowHeader) :
    ST t Error (list Store.KeyValueStoreOp) :=
  modifyS (set_queued_pow None) ;;
  c ← getS;
  (if negb (is_zero (range_end pow)) then
     finalized_block ← liftR (Store.get_block (storage c) (range_end pow));
     finalized_block ← liftR (unwrap finalized_block);
     modifyS (fun c => set_engine
       (Engine.set_finalized (p_block_hash (execution_payload (message finalized_block))) (engine c)) c)
   else mret tt) ;;
  mret (Store.set_latest_pow_block (mkRef root (bi_height (message b)))).

(** A peg-in leaves the queue and its outputs become spendable. *)
Definition process_pegin (p : hash * hash) : ST t Error unit :=
  modifyS (fun c => set_queued_pegins (BTree.remove p.1 (queued_pegins c)) c) ;;
  c ← getS;
  tx ← liftR (unwrap (Bridge.fetch_transaction (bridge (config c)) p.1 p.2));
  st_unwrap (on_wallet (Wallet.register_pegin tx)).

Definition process_finalized_pegout (tx : Transaction) : ST t Error unit :=
  modifyS (broadcast tx) ;;
  modifyS (fun c => set_bitcoin_signature_collector
    (Wallet.cleanup_signatures_for (txid tx) (bitcoin_signature_collector c)) c).

Definition process_pegs (b : SignedConsensusBlock) : ST t Error unit :=
  mapM_ process_pegin (pegins (message b)) ;;
  (match pegout_payment_proposal (message b) with
   | Some pegout_tx => st_unwrap (on_wallet (Wallet.register_pegout pegout_tx))
   | None => mret tt
   end) ;;
  mapM_ process_finalized_pegout (finalized_pegouts (message b)).

(** The cache of hashes without work after an import. *)
Definition update_block_hash_cache (b : SignedConsensusBlock) : ST t Error unit :=
  c ← getS;
  match block_hash_cache c with
  | None => mret tt
  | Some cache =>
      if bi_height (message b) =? 0 then mret tt
      else
        let m := match auxpow_header (message b) with
                 | Some aux_header =>
                     BlockHashCache.reset_with (range_end aux_header) ;;
                     BlockHashCache.add (canonical_root b)
                 | None => BlockHashCache.add (canonical_root b)
                 end in
        let (r, cache') := m cache in
        modifyS (set_block_hash_cache (Some cache')) ;;
        liftR (map_err (fun _ => GenericError) r)
  end.

Definition import_verified_block_no_commit (b : SignedConsensusBlock) : ST t Error unit :=
  let root := canonical_root b in
  c ← getS;
  '(execution_block, execution_receipts) ←
    liftR (get_block_and_receipts c (p_block_hash (execution_payload (message b))));
  accumulate_fees_ops ←
    liftR (Payouts.accumulate_fees (storage c) b execution_block execution_receipts);
  (if is_validator (config c) then process_pegs b else mret tt) ;;
  let put_block_ops := Store.put_block root b in
  set_head_ops ← update_head_ref_ops root (bi_height (message b)) false;
  finalization_ops ← (match auxpow_header (message b) with
                      | Some pow => finalize b root pow
                      | None => mret []
                      end);
  on_storage (Store.commit_ops
    (accumulate_fees_ops ++ put_block_ops ++ set_head_ops ++ finalization_ops)) ;;
  update_block_hash_cache b.

Definition import_verified_block (b : SignedConsensusBlock) : ST t Error unit :=
  on_engine (Engine.commit_block (execution_payload (message b))) ;;
  import_verified_block_no_commit b.

Definition store_genesis (bits chain_id : Z) : ST t Error unit :=
  c ← getS;
  execution_payload ← liftR (unwrap_res (Engine.get_payload_by_tag_from_engine [48; 120; 48] (engine c)));
  genesis_block ← liftR (genesis bits chain_id execution_payload);
  known ← liftR (Store.get_block (storage c) (canonical_root genesis_block));
  match known with
  | Some _ => mret tt
  | None => import_verified_block_no_commit genesis_block
  end.

(** ** Accepting blocks *)

Definition maybe_accept_block (h : hash) : ST t Error unit :=
  c ← getS;
  match Candidates.get_block h (block_candidates c) with
  | Some b =>
      approved ← liftR (map_err AuraError_ (Aura.majority_approved (aura (config c)) b));
      if approved : bool then
        on_candidates Candidates.clear ;;
        import_verified_block b
      else mret tt
  | None => throw CandidateCacheError
  end.

Definition process_approval (a : Candidates.ApproveBlock) : ST t Error unit :=
  c ← getS;
  on_candidates (Candidates.add_approval a (Aura.authorities (aura (config c)))
                   (is_synced (sync_status c))) ;;
  maybe_accept_block (Candidates.block_hash a).

(** ** Checking blocks *)

Definition check_pegout_proposal (b : SignedConsensusBlock) (prev_payload_hash : hash) :
    ST t Error unit :=
  if bi_height (message b) =? 70132 then mret tt
  else
    c ← getS;
    '(_, execution_receipts) ← liftR (get_block_and_receipts c prev_payload_hash);
    required_outputs ← liftR (Bridge.filter_pegouts execution_receipts);
    missing_utxos ← liftR (map_err FederationError
      (Wallet.check_payment_proposal required_outputs (pegout_payment_proposal (message b))
         (Some (wallet_core (Bridge.rpc (bridge (config c))))) (bitcoin_wallet c)));
    match missing_utxos with
    | [] => mret tt
    | _ => st_map_err FederationError (on_wallet (Wallet.register_utxos missing_utxos))
    end.

(** The finalized peg-outs of an AuxPow block: the proposals of the range it
    covers, in order, each with the signatures of the federation. *)
Definition check_finalizations (c : t) (b : SignedConsensusBlock) (pow : AuxPowHeader)
    (pow_override : bool) : res Error unit :=
  proposals ← ChainRange.get_bitcoin_payment_proposals_in_range (storage c)
                (range_start pow) (range_end pow);
  let required_finalizations := map txid proposals in
  if negb (length required_finalizations =? length (finalized_pegouts (message b)))%nat
  then Err IllegalFinalization
  else if is_validator (config c) then
    collect (fun p : hash * Transaction =>
      if negb (bool_decide (txid p.2 = p.1)) then Err IllegalFinalization
      else map_err FederationError
             (Wallet.check_transaction_signatures p.2 pow_override (bitcoin_wallet c)))
      (zip required_finalizations (finalized_pegouts (message b))) ;;
    Ok tt
  else Ok tt.

(** A block with an AuxPow header, and one without. Below height 533684 the
    work itself is not checked. *)
Definition check_work (c : t) (b : SignedConsensusBlock) : res Error unit :=
  match auxpow_header (message b) with
  | Some pow =>
      let pow_override := bi_height (message b) <=? 533683 in
      check_pow c pow pow_override ;;
      check_finalizations c b pow pow_override
  | None =>
      last ← ChainRange.get_latest_finalized_block_ref (storage c);
      let latest_finalized_height := match last with Some x => ref_height x | None => 0 end in
      if max_blocks_without_pow (config c)
         <? saturating_sub (bi_height (message b)) latest_finalized_height
      then Err MissingRequiredPow
      else if negb (bool_decide (finalized_pegouts (message b) = [])) then Err IllegalFinalization
      else Ok tt
  end.

(** The candidate is filed and, by an authority, approved. *)
Definition file_candidate (b : SignedConsensusBlock) :
    ST t Error (option Signatures.CheckedIndividualApproval) :=
  c ← getS;
  let synced := is_synced (sync_status c) in
  match Aura.authority (aura (config c)) with
  | Some authority =>
      let our_approval := sign (message b) authority in
      on_candidates (Candidates.insert b synced) ;;
      on_candidates (Candidates.add_approval
        (Candidates.mkApprove (canonical_root b) (Signatures.data our_approval))
        (Aura.authorities (aura (config c))) synced) ;;
      mret (Some our_approval)
  | None =>
      on_candidates (Candidates.insert b synced) ;;
      mret None
  end.

(** What a block is checked for before it is filed: its parent, its author and
    signatures, its withdrawals and peg-out proposal, its work. *)
Definition check_block (b : SignedConsensusBlock) : ST t Error unit :=
  c ← getS;
  if is_zero (parent_hash (message b)) then throw ProcessGenesis
  else if match head c with Some x => bi_height (message b) <=? ref_height x | None => false end
  then throw InvalidBlock
  else
    prev ← liftR (ChainRange.get_parent (storage c) b);
    let prev_payload_hash := p_parent_hash (execution_payload (message b)) in
    if negb (bool_decide (prev_payload_hash = p_block_hash (execution_payload (message prev))))
    then throw ExecutionHashChainIncontiguous
    else
      liftR (map_err AuraError_ (Aura.check_signed_by_author (aura (config c)) b)) ;;
      (if is_validator (config c) then
         liftR (Payouts.check_withdrawals (storage c) (bitcoin_wallet c) (bridge (config c))
                  (federation (config c)) b) ;;
         check_pegout_proposal b prev_payload_hash
       else mret tt) ;;
      c ← getS;
      liftR (check_work c b).

Definition process_block (b : SignedConsensusBlock) :
    ST t Error (option Signatures.CheckedIndividualApproval) :=
  check_block b ;;
  our_approval ← file_candidate b;
  maybe_accept_block (canonical_root b) ;;
  mret our_approval.

(** ** Rolling back *)

(** The head goes to the block filed at the height, and the last AuxPow block
    to the nearest one at or below it. *)
Definition rollback_head (target_height : Z) : ST t Error unit :=
  c ← getS;
  target_block ← liftR (Store.get_block_by_height (storage c) target_height);
  target_block ← liftR (ok_or target_block MissingBlock);
  pow_block ← liftR (ChainRange.find_pow_block_for_rollback (storage c) target_height);
  update_ops ← update_head_ref_ops (canonical_root target_block) (bi_height (message target_block)) true;
  let pow_ops := match pow_block with
                 | Some p => Store.set_latest_pow_block (block_ref p)
                 | None => []
                 end in
  on_storage (Store.commit_ops (update_ops ++ pow_ops)).

End WithLibs.

End Chain.
