(* ===== verification/Node.v ===== *)
(** The node's tasks ([app/src/chain.rs]): producing a block for a slot,
    synchronising with peers, and the handlers of gossip messages, of requests
    for blocks, of discovered peers and of Bitcoin blocks. Also the chain as
    the merged-mining service sees it. *)
From stdpp Require Import base decidable list gmap.
From Stdlib Require Import ZArith Lia.
From S2P Require Import Prelude Bitcoin Errors AuxPow Signatures Block Serial Aura Candidates.
From S2P Require Import Store Retarget AuxMiner BTree Wallet Bridge Engine Payouts ChainRange.
From S2P Require Import RpcRetry BlockHashCache RpcTypes JsonRpc Chain.

Module Node.
Import Chain.

(** An item of the stream of answers to a request for blocks. *)
Inductive RPCResponse := BlocksByRange (b : SignedConsensusBlock) | OtherResponse.

Section WithLibs.
Context `{B : BitcoinLib, L : BlsLib, K : BlockLib, S : StoreLib, D : DecimalLib,
          W : WalletLib, F : !FeeEstimate, G : BridgeLib, A : !ExecutionApi}.
Context {PeerId : Type}.

Abbreviation t := (Chain.t (PeerId:=PeerId)).
Abbreviation ChainST := (ST t Error).

(** The peers: the [n]-th request sent gets this stream of answers, or fails. *)
Variable send_rpc : RpcTypes.BlocksByRangeRequest -> PeerId -> nat -> option (list RPCResponse).

(** ** Synchronising *)

Definition BLOCK_COUNT : nat := 1024.

(** How a received block is taken: [true] to go on with the stream. A failure
    ends the synchronisation; one that is not about the candidates or a missing
    Bitcoin block first rolls the head back to the height below [head]. *)
Definition sync_block (head : Z) (b : SignedConsensusBlock) : ChainST bool := fun c =>
  match process_block b c with
  | (Ok _, c') => (Ok true, c')
  | (Err ProcessGenesis, c') => (Ok true, c')
  | (Err CandidateCacheError, c') => (Ok false, c')
  | (Err (FederationError (Fed.BitcoinBlockNotFound _)), c') => (Ok false, c')
  | (Err _, c') =>
      if head =? 0 then (Ok false, c')
      else match rollback_head (saturating_sub head 1) c' with
           | (Panic, c'') => (Panic, c'')
           | (_, c'') => (Ok false, c'')
           end
  | (Panic, c') => (Panic, c')
  end.

(** One stream: the number of blocks received, or [None] after a failure. *)
Fixpoint sync_stream (head : Z) (stream : list RPCResponse) (blocks_processed : nat) :
    ChainST (option nat) :=
  match stream with
  | [] => mret (Some blocks_processed)
  | BlocksByRange b :: stream' =>
      go_on ← sync_block head b;
      if go_on : bool then sync_stream head stream' (Datatypes.S blocks_processed)
      else mret None
  | OtherResponse :: stream' => sync_stream head stream' blocks_processed
  end.

Definition send_with_peer_fallback (request : RpcTypes.BlocksByRangeRequest) :
    ChainST (list RPCResponse) :=
  c ← getS;
  zoom rpc set_rpc (RpcRetry.peer_fallback (send_rpc request) (peers c) 3).

(** The requests, until one brings fewer blocks than asked for. A loop that
    has not ended after [rounds] requests counts as not returning. *)
Fixpoint sync_rounds (rounds : nat) : ChainST unit := fun c =>
  match rounds with
  | O => (Panic, c)
  | Datatypes.S rounds' =>
      let head := match head c with Some x => ref_height x | None => 0 end in
      match add_chk (E:=Error) 64 head 1 with
      | Ok start_height =>
          match send_with_peer_fallback (RpcTypes.mkRange start_height (Z.of_nat BLOCK_COUNT)) c with
          | (Ok stream, c1) =>
              match sync_stream head stream 0 c1 with
              | (Ok (Some n), c2) =>
                  if (n <? BLOCK_COUNT)%nat then (Ok tt, set_sync_status Synced c2)
                  else sync_rounds rounds' c2
              | (Ok None, c2) => (Ok tt, c2)
              | (Err e, c2) => (Err e, c2)
              | (Panic, c2) => (Panic, c2)
              end
          | (Err _, c1) => (Ok tt, c1)
          | (Panic, c1) => (Panic, c1)
          end
      | _ => (Panic, c)
      end
  end.

(** [sync]: it waits for a peer first, so without one it does not return. *)
Definition sync (rounds : nat) : ChainST unit :=
  modifyS (set_sync_status InProgress) ;;
  c ← getS;
  match peers c with
  | [] => panic
  | _ => sync_rounds rounds
  end.

(** ** Producing blocks *)

(** The unsigned Bitcoin transaction for the peg-outs of the previous block. *)
Definition create_pegout_payments (c : t) (payload_hash : option hash) :
    res Error (option Transaction) :=
  match payload_hash with
  | None => Ok None
  | Some h =>
      '(_, execution_receipts) ← unwrap_res (get_block_and_receipts c h);
      payments ← Bridge.filter_pegouts execution_receipts;
      match payments with
      | [] => Ok None
      | _ => match Wallet.create_payment payments fee_rate (bitcoin_wallet c) with
             | Ok unsigned_txn => Ok (Some unsigned_txn)
             | Err _ => Ok None
             | Panic => Panic
             end
      end
  end.

(** What a block is built on. *)
Inductive Parent :=
| BuildOn (prev : hash) (payload : option hash)
| PayloadMissing (prev_height : Z).

Definition determine_parent (c : t) : res Error Parent :=
  match head c with
  | None => Ok (BuildOn zero_hash None)
  | Some x =>
      prev ← map_err (fun _ => MissingParent) (Store.get_block (storage c) (ref_hash x));
      prev ← ok_or prev MissingParent;
      let prev_payload_hash := p_block_hash (execution_payload (message prev)) in
      available ← map_err (fun _ => ExecutionLayerError)
                    (api_payload_body prev_payload_hash (Engine.el (engine c)));
      if available : bool then Ok (BuildOn (ref_hash x) (Some prev_payload_hash))
      else Ok (PayloadMissing (bi_height (message prev)))
  end.

(** The peg-outs a queued proof of work finalizes; those without enough
    signatures are left out. *)
Definition finalizable_pegouts (c : t) : res Error (list Transaction) :=
  match queued_pow c with
  | None => Ok []
  | Some pow =>
      proposals ← ChainRange.get_bitcoin_payment_proposals_in_range (storage c)
                    (range_start pow) (range_end pow);
      finalized ← collect (fun tx =>
        match Wallet.get_finalized (txid tx) (bitcoin_signature_collector c) with
        | Ok tx => Ok (Some tx)
        | Err _ => Ok None
        | Panic => Panic
        end) proposals;
      Ok (omap (M:=list) (fun x => x) finalized)
  end.

Definition fee_balances (c : t) (prev : hash) : res Error (list (Address * Z)) :=
  match queued_pow c with
  | None => Ok []
  | Some pow =>
      fees ← Payouts.queued_fees (storage c) prev;
      Payouts.split_fees (federation (config c)) fees (a_fee_recipient pow)
  end.

Definition fill_pegins (add_balances : list (Address * Z)) :
    ChainST (list (Address * Z) * list (hash * hash)) :=
  c ← getS;
  '(balances, ps, q) ← liftR (Payouts.fill_pegins (bitcoin_wallet c) (queued_pegins c) add_balances);
  modifyS (set_queued_pegins q) ;;
  mret (balances, ps).

(** The node's own block is processed and, if that succeeds, published. *)
Definition publish (signed_block : SignedConsensusBlock) : ChainST unit := fun c =>
  match process_block signed_block c with
  | (Ok _, c') => (Ok tt, send (ConsensusBlockMsg signed_block) c')
  | (Err _, c') => (Ok tt, c')
  | (Panic, c') => (Panic, c')
  end.

(** Signing the block that was built. *)
Definition propose (slot : Z) (payload : option Payload) (prev : hash) (pegins : list (hash * hash))
    (pegouts : option Transaction) (finalized_pegouts : list Transaction) : ChainST unit :=
  c ← getS;
  block ← liftR (new_block slot payload prev (queued_pow c) pegins pegouts finalized_pegouts);
  authority ← liftR (unwrap (Aura.authority (aura (config c))));
  signed_block ← liftR (sign_block block authority);
  publish signed_block.

(** Building the payload and proposing the block; a payload the client cannot
    build yet starts a synchronisation. *)
Definition build_and_propose (rounds : nat) (slot timestamp : Z) (prev : hash)
    (prev_payload_head : option hash) (add_balances : list (Address * Z))
    (pegins : list (hash * hash)) (finalized_pegouts : list Transaction) : ChainST unit := fun c =>
  match on_engine (Engine.build_block timestamp prev_payload_head add_balances) c with
  | (Ok payload, c1) =>
      match create_pegout_payments c1 prev_payload_head with
      | Ok pegouts => propose slot payload prev pegins pegouts finalized_pegouts c1
      | Err e => (Err e, c1)
      | Panic => (Panic, c1)
      end
  | (Err PayloadIdUnavailable, c1) => sync rounds c1
  | (Err _, c1) => (Ok tt, c1)
  | (Panic, c1) => (Panic, c1)
  end.

Definition produce_block (rounds : nat) (slot timestamp : Z) : ChainST unit :=
  c ← getS;
  if negb (is_synced (sync_status c)) then mret tt
  else
    parent ← liftR (determine_parent c);
    match parent with
    | PayloadMissing prev_height => st_ignore (rollback_head (saturating_sub prev_height 1))
    | BuildOn prev prev_payload_head =>
        finalized_pegouts ← liftR (finalizable_pegouts c);
        add_balances ← liftR (fee_balances c prev);
        '(add_balances, pegins) ← fill_pegins add_balances;
        build_and_propose rounds slot timestamp prev prev_payload_head add_balances pegins
          finalized_pegouts
    end.

(** ** Handlers *)

(** A block from gossip, whose parent is there: the own approval is sent. *)
Definition process_gossip_block (rounds : nat) (x : SignedConsensusBlock) : ChainST unit := fun c =>
  match process_block x c with
  | (Err MissingParent, c') | (Err MissingBlock, c') => sync rounds c'
  | (Err _, c') => (Ok tt, c')
  | (Ok (Some our_approval), c') =>
      (Ok tt, send (ApproveBlockMsg
                      (Candidates.mkApprove (canonical_root x) (Signatures.data our_approval))) c')
  | (Ok None, c') => (Ok tt, c')
  | (Panic, c') => (Panic, c')
  end.

Definition on_consensus_block (rounds : nat) (x : SignedConsensusBlock) : ChainST unit :=
  c ← getS;
  liftR (unwrap (head c)) ;;
  (match ChainRange.get_parent (storage c) x with
   | Err MissingParent => sync rounds
   | Panic => panic
   | _ => mret tt
   end) ;;
  process_gossip_block rounds x.

Definition on_queue_pow (pow : AuxPowHeader) : ChainST unit :=
  c ← getS;
  match check_pow c pow false with
  | Ok _ => queue_pow pow
  | Err _ => mret tt
  | Panic => panic
  end.

(** One turn of [monitor_gossip]. *)
Definition on_gossip (rounds : nat) (msg : PubsubMessage) : ChainST unit :=
  match msg with
  | ConsensusBlockMsg x => on_consensus_block rounds x
  | ApproveBlockMsg approval =>
      c ← getS;
      if is_synced (sync_status c) then st_ignore (process_approval approval) else mret tt
  | QueuePowMsg pow => on_queue_pow pow
  | PegoutSignaturesMsg pegout_sigs => st_ignore (store_signatures pegout_sigs)
  end.

(** [listen_for_peer_discovery]. *)
Definition on_peers (ps : list PeerId) : ChainST unit := modifyS (set_peers ps).

(** The blocks [listen_for_rpc_requests] reads for a request, none when they
    cannot be read; file [Tasks] has the whole turn. *)
Definition on_blocks_by_range (start_height count : Z) : ChainST (list SignedConsensusBlock) := fun c =>
  match on_storage (ChainRange.get_blocks (head c) start_height count) c with
  | (Err _, c') => (Ok [], c')
  | r => r
  end.

(** The loop over the peg-ins of a Bitcoin block: not synced, it stops. *)
Definition queue_pegins (was_synced : bool) (ps : list PegInInfo) (q : list (hash * PegInInfo)) :
    list (hash * PegInInfo) :=
  if was_synced then foldl (fun q p => BTree.insert (pi_txid p) p q) q ps else q.

Definition rescan_start (q : list (hash * PegInInfo)) (bitcoin_height : Z) : res Error Z :=
  next ← add_chk 32 bitcoin_height 1;
  Ok (match BTree.values q with
      | [] => next
      | p :: ps => foldl Z.min (pi_block_height p) (map pi_block_height ps)
      end).

(** The callback of [monitor_bitcoin_blocks]; [was_synced] is the status read
    when the monitor started. *)
Definition on_bitcoin_block (was_synced : bool) (ps : list PegInInfo) (bitcoin_height : Z) :
    ChainST unit :=
  modifyS (fun c => set_queued_pegins (queue_pegins was_synced ps (queued_pegins c)) c) ;;
  c ← getS;
  start ← liftR (rescan_start (queued_pegins c) bitcoin_height);
  st_unwrap (on_storage (Store.commit_ops (Store.set_bitcoin_scan_start_height start))).

(** ** The chain for the merged-mining service *)

#[global] Instance chain_manager : ChainManager t := {|
  cm_is_synced c := is_synced (sync_status c);
  cm_get_last_finalized_block := get_last_finalized_block;
  cm_get_aggregate_hashes := get_aggregate_hashes;
  cm_get_block_by_hash := get_block_by_hash;
  cm_get_head := get_head;
  cm_get_queued_auxpow := queued_pow;
  cm_push_auxpow := push_auxpow;
|}.

(** ** The chain for the JSON-RPC server *)

Definition get_block_by_height (c : t) (block_height : Z) : res Error (option SignedConsensusBlock) :=
  Store.get_block_by_height (storage c) block_height.

Definition get_block (c : t) (block_hash : hash) : res Error (option SignedConsensusBlock) :=
  Store.get_block (storage c) block_hash.

#[global] Instance chain_queries : JsonRpc.ChainQueries t := {|
  JsonRpc.cq_get_block_by_height := get_block_by_height;
  JsonRpc.cq_get_block := get_block;
|}.

End WithLibs.

End Node.
