(* ===== verification/ChainProofs.v ===== *)
(** Properties of the chain's operations ([Chain.v]): how the head moves, what
    an import writes, how the cache of hashes follows the chain, what a checked
    proof of work shows, and that the hashes handed to miners lead to an
    accepted proof of work. *)
From stdpp Require Import base decidable list gmap.
From Stdlib Require Import ZArith Lia.
From S2P Require Import Prelude Bitcoin Errors AuxPow Signatures Block Serial Aura Candidates.
From S2P Require Import Store Retarget AuxMiner BTree Wallet Bridge Engine Payouts ChainRange.
From S2P Require Import RpcRetry BlockHashCache RpcTypes Chain Node.

Module ChainProofs.
Import Chain Node.

Section WithLibs.
Context `{B : BitcoinLib, L : BlsLib, K : BlockLib, S : StoreLib, D : DecimalLib,
          W : WalletLib, F : !FeeEstimate, G : BridgeLib, A : !ExecutionApi}.
Context {PeerId : Type}.

Abbreviation t := (Chain.t (PeerId:=PeerId)).
Abbreviation number b := (block_number (execution_payload (message b))).

(** ** Frames *)

(** The parts of the state an operation may leave alone: here, the
    configuration, the head, the store and the hash cache. *)
Definition same {T} (f : t -> T) : relation t := fun c c' => f c' = f c.

#[local] Instance same_preorder {T} (f : t -> T) : PreOrder (same f).
Proof. split; [done|]. intros x y z H1 H2. unfold same in *. congruence. Qed.

Definition core (c : t) := (config c, head c, storage c, block_hash_cache c, queued_pow c).

Lemma tracks_zoom {T E X} (R : relation t) (get : t -> T) set (m : ST T E X) :
  (forall x c, R c (set x c)) -> tracks R (zoom get set m).
Proof. intros H c. unfold zoom. destruct (m (get c)). apply H. Qed.

Lemma tracks_unwrap {E E' X} (R : relation t) (m : ST t E X) :
  tracks R m -> tracks R (st_unwrap m : ST t E' X).
Proof. intros H c. unfold st_unwrap. specialize (H c). by destruct (m c). Qed.

Lemma tracks_map_err {E E' X} (R : relation t) (f : E -> E') (m : ST t E X) :
  tracks R m -> tracks R (st_map_err f m).
Proof. intros H c. unfold st_map_err. specialize (H c). by destruct (m c). Qed.

Lemma process_pegin_core p : tracks (same core) (process_pegin p).
Proof. unfold process_pegin. track. by apply tracks_unwrap, tracks_zoom. Qed.

Lemma process_pegs_core b : tracks (same core) (process_pegs b).
Proof.
  unfold process_pegs, process_finalized_pegout. track.
  - apply process_pegin_core.
  - by apply tracks_unwrap, tracks_zoom.
Qed.

Lemma store_signatures_core sigs : tracks (same core) (store_signatures sigs).
Proof. unfold store_signatures. track. by apply tracks_map_err, tracks_zoom. Qed.

(** ** How the head moves *)

(** The head stays, or goes to the block [b], which is not below it. *)
Definition head_to (b : SignedConsensusBlock) : relation t := fun c c' =>
  config c' = config c /\
  (head c' = head c \/
   head c' = Some (block_ref b) /\ forall x, head c = Some x -> ref_height x <= number b).

#[local] Instance head_to_preorder b : PreOrder (head_to b).
Proof.
  split; [by intros c; split; [|left]|].
  intros c1 c2 c3 [E1 H1] [E2 H2]. split; [congruence|].
  destruct H1 as [H1|[H1 G1]], H2 as [H2|[H2 G2]]; rewrite ?H1 in *; eauto.
Qed.

Lemma tracks_weaken {E X} (R R' : relation t) (m : ST t E X) :
  (forall c c', R c c' -> R' c c') -> tracks R m -> tracks R' m.
Proof. intros HR Hm c. apply HR, Hm. Qed.

Lemma same_core_head b c c' : same core c c' -> head_to b c c'.
Proof. unfold same, core. intros [= H1 H2 _ _ _]. split; [done|by left]. Qed.

Ltac frame := apply tracks_modifyS; intros; split; [done|by left].

(** Moving the head, writing to the store, finalizing: the rest of an import. *)
Lemma update_head_to b : tracks (head_to b) (update_head_ref_ops (canonical_root b) (number b) false).
Proof.
  intros c. unfold update_head_ref_ops. destruct (head c) as [x|] eqn:Ex.
  - destruct (Z.ltb_spec (number b) (ref_height x)); cbn; [reflexivity|].
    split; [done|]. right. split; [done|]. by rewrite Ex; intros ? [= <-].
  - split; [done|]. right. split; [done|]. by rewrite Ex.
Qed.

Lemma finalize_head b b' root pow : tracks (head_to b) (finalize b' root pow).
Proof. unfold finalize. track; frame. Qed.

Lemma update_cache_head b b' : tracks (head_to b) (update_block_hash_cache b').
Proof.
  unfold update_block_hash_cache. track; frame.
Qed.

Lemma process_pegs_head b b' : tracks (head_to b) (process_pegs b').
Proof. eapply tracks_weaken; [apply same_core_head|apply process_pegs_core]. Qed.

Lemma on_storage_head {X} b (m : ST Store.Db Error X) : tracks (head_to b) (on_storage m).
Proof. apply tracks_zoom. intros x c. split; [done|by left]. Qed.

Lemma on_engine_head {X} b (m : ST Engine.t Error X) : tracks (head_to b) (on_engine m).
Proof. apply tracks_zoom. intros x c. split; [done|by left]. Qed.

#[local] Hint Resolve update_head_to finalize_head update_cache_head process_pegs_head
  on_storage_head on_engine_head : alys.

Lemma import_head b : tracks (head_to b) (import_verified_block b).
Proof. unfold import_verified_block, import_verified_block_no_commit. track. Qed.

(** The head stays, or goes to a block that the authorities' majority approved
    and that is not below it. *)
Definition approved_head : relation t := fun c c' =>
  config c' = config c /\
  (head c' = head c \/
   exists b, Aura.majority_approved (aura (config c)) b = Ok true /\
     head c' = Some (block_ref b) /\ forall x, head c = Some x -> ref_height x <= number b).

#[local] Instance approved_head_preorder : PreOrder approved_head.
Proof.
  split; [by intros c; split; [|left]|].
  intros c1 c2 c3 [E1 H1] [E2 H2]. split; [congruence|]. rewrite E1 in H2.
  destruct H1 as [H1|(b1 & M1 & H1 & G1)], H2 as [H2|(b2 & M2 & H2 & G2)]; rewrite ?H1 in *; eauto.
  right. exists b2. split_and!; [done..|]. intros x Hx. specialize (G1 x Hx).
  specialize (G2 _ eq_refl). cbn in G2. lia.
Qed.

Lemma same_core_approved c c' : same core c c' -> approved_head c c'.
Proof. unfold same, core. intros [= H1 H2 _ _ _]. split; [done|by left]. Qed.

Lemma maybe_accept_approved h : tracks approved_head (maybe_accept_block h).
Proof.
  intros c. unfold maybe_accept_block, getS, liftR, mbind, st_bind.
  destruct (Candidates.get_block h (block_candidates c)) as [b|]; [|reflexivity].
  destruct (Aura.majority_approved (aura (config c)) b) as [[]| |] eqn:Em; cbn; try reflexivity.
  destruct (import_head b (set_block_candidates Candidates.new c)) as [E H].
  split; [done|]. destruct H as [H|[H Hx]]; [by left|]. right. by exists b.
Qed.

Lemma on_candidates_core {X} (m : ST Candidates.t Error X) : tracks (same core) (on_candidates m).
Proof. by apply tracks_zoom. Qed.

Lemma check_pegout_core b h : tracks (same core) (check_pegout_proposal b h).
Proof.
  unfold check_pegout_proposal. track.
  all: by apply tracks_map_err, tracks_zoom.
Qed.

#[local] Hint Resolve on_candidates_core check_pegout_core store_signatures_core : alys.

Lemma file_candidate_core b : tracks (same core) (file_candidate b).
Proof. unfold file_candidate. track. Qed.

(** Only the head is out of the frame of these. *)
Lemma tracks_core_approved {E X} (m : ST t E X) :
  tracks (same core) m -> tracks approved_head m.
Proof. apply tracks_weaken, same_core_approved. Qed.

#[local] Hint Resolve file_candidate_core maybe_accept_approved tracks_core_approved : alys.

(** The checks only touch the wallet. *)
Lemma check_block_core b : tracks (same core) (check_block b).
Proof. unfold check_block. track. Qed.
#[local] Hint Resolve check_block_core : alys.

Lemma process_block_approved b : tracks approved_head (process_block b).
Proof. unfold process_block. track. Qed.

Lemma process_approval_approved a : tracks approved_head (process_approval a).
Proof. unfold process_approval. track. Qed.

Lemma queue_pow_head pow : tracks approved_head (queue_pow pow).
Proof.
  unfold queue_pow. track; [frame|]. apply tracks_unwrap. unfold maybe_generate_signatures. track.
  - by apply tracks_unwrap, tracks_core_approved, store_signatures_core.
  - frame.
Qed.

(** The handlers, as steps of the node; a roll back is not one of them. *)
Inductive step : t -> t -> Prop :=
| step_block b c : step c (process_block b c).2
| step_approval a c : step c (process_approval a c).2
| step_queue_pow pow c : step c (on_queue_pow pow c).2
| step_push st en bits cid height a addr c :
    step c (push_auxpow st en bits cid height a addr c).2
| step_signatures sigs c : step c (store_signatures sigs c).2
| step_fill_pegins balances c : step c (fill_pegins balances c).2
| step_build ts h balances c : step c (on_engine (Engine.build_block ts h balances) c).2
| step_peers ps c : step c (on_peers ps c).2
| step_serve start count c : step c (on_blocks_by_range start count c).2
| step_bitcoin was_synced ps height c : step c (on_bitcoin_block was_synced ps height c).2.

Lemma on_queue_pow_head pow : tracks approved_head (on_queue_pow pow).
Proof. unfold on_queue_pow. track; [apply queue_pow_head|by intros c; split; [|left]]. Qed.

Lemma push_auxpow_head st en bits cid height a addr :
  tracks approved_head (push_auxpow st en bits cid height a addr).
Proof.
  intros c. unfold push_auxpow. case_match; [reflexivity|].
  destruct (check_pow c _ false); [|reflexivity..].
  assert (tracks approved_head
            (share_pow (mkAuxPowHeader st en bits cid height (Some a) addr))) as Hs.
  { unfold share_pow. track; [frame|apply queue_pow_head]. }
  specialize (Hs c). by destruct (share_pow _ c) as [[]].
Qed.

Lemma fill_pegins_head balances : tracks approved_head (fill_pegins balances).
Proof. unfold fill_pegins. track. frame. Qed.

Lemma on_bitcoin_head was_synced ps height :
  tracks approved_head (on_bitcoin_block was_synced ps height).
Proof.
  unfold on_bitcoin_block. track; [frame|].
  apply tracks_unwrap, tracks_zoom. intros x c. split; [done|by left].
Qed.

Lemma step_approved c c' : step c c' -> approved_head c c'.
Proof.
  destruct 1.
  - apply process_block_approved.
  - apply process_approval_approved.
  - apply on_queue_pow_head.
  - apply push_auxpow_head.
  - apply tracks_core_approved, store_signatures_core.
  - revert c. apply fill_pegins_head.
  - revert c. apply tracks_zoom. intros x c. split; [done|by left].
  - split; [done|by left].
  - unfold on_blocks_by_range, on_storage, zoom.
    destruct (ChainRange.get_blocks _ _ _ _) as [[]]; (split; [done|by left]).
  - revert c. apply on_bitcoin_head.
Qed.

(** Only blocks approved by two thirds of the authorities become the head,
    and the head never goes down: in every state the node reaches by its
    handlers (blocks and approvals of peers, proofs of work, signatures, its
    own production, peers, requests, Bitcoin blocks), short of a roll back, the
    head is still the one it started from or a block with a verified majority
    of approvals, at least as high as the start. *)
Theorem head_is_approved c c' :
  rtc step c c' ->
  head c' = head c \/
  exists b, Aura.majority_approved (aura (config c)) b = Ok true /\
    head c' = Some (block_ref b) /\
    forall x, head c = Some x -> ref_height x <= number b.
Proof.
  intros H. enough (approved_head c c') as [_ ?]; [done|].
  induction H as [|c1 c2 c3 Hs _ IH]; [reflexivity|]. etrans; [by apply step_approved|done].
Qed.

(** ** What an import writes *)

Definition import_writes (b : SignedConsensusBlock) (fees : Z) : list Store.write :=
  [Store.SetFees (canonical_root b) fees; Store.PutBlock (canonical_root b) b;
   Store.SetHead (block_ref b)]
  ++ match auxpow_header (message b) with
     | Some _ => [Store.SetPow (block_ref b)]
     | None => []
     end.

Definition view_import (v : Store.view) (b : SignedConsensusBlock) (fees : Z) : Store.view :=
  foldl (fun v w => Store.view_write w v) v (import_writes b fees).

(** The cache after importing a block; the genesis leaves it alone. *)
Definition cache_import (b : SignedConsensusBlock) : ST BlockHashCache.t BlockHashCache.error unit :=
  if number b =? 0 then mret tt
  else match auxpow_header (message b) with
       | Some header =>
           BlockHashCache.reset_with (range_end header) ;; BlockHashCache.add (canonical_root b)
       | None => BlockHashCache.add (canonical_root b)
       end.

Lemma accumulate_fees_ops d b eb rs ops :
  Payouts.accumulate_fees d b eb rs = Ok ops ->
  exists fees, ops = Store.set_accumulated_block_fees (canonical_root b) fees /\
    0 <= fees < 2 ^ 256.
Proof.
  unfold Payouts.accumulate_fees. intros H. inv_res.
  all: match goal with H : add_chk 256 _ _ = Ok _ |- _ => apply chk_inv in H as [-> ?] end; eauto.
Qed.

Lemma update_head_ok (c : t) b :
  (forall x, head c = Some x -> ref_height x <= number b) ->
  update_head_ref_ops (canonical_root b) (number b) false c
  = (Ok (Store.set_head (block_ref b)), set_head (Some (block_ref b)) c).
Proof.
  intros H. unfold update_head_ref_ops. destruct (head c) as [x|]; [|done].
  specialize (H x eq_refl). by replace (number b <? ref_height x) with false by lia.
Qed.

Lemma finalize_ok b root pow (c : t) ops c' :
  finalize b root pow c = (Ok ops, c') ->
  ops = Store.set_latest_pow_block (mkRef root (number b)) /\
  config c' = config c /\ head c' = head c /\ storage c' = storage c /\
  block_hash_cache c' = block_hash_cache c /\ queued_pow c' = None.
Proof.
  unfold finalize, modifyS, getS, liftR, mbind, st_bind, mret, st_ret. cbn [storage set_queued_pow].
  destruct (negb _); [|by intros [= <- <-]].
  destruct (Store.get_block _ _) as [o| |]; [|done..]. destruct o; [|done]. by intros [= <- <-].
Qed.

(** The batch of an import, committed. *)
Lemma commit_import `{!StoreLaws S, !BlockLaws K} d v b fees d' :
  Store.represents d v -> Store.write_wf (Store.PutBlock (canonical_root b) b) ->
  0 <= fees < 2 ^ 256 ->
  Store.commit_ops (concat (map Store.ops_of (import_writes b fees))) d = (Ok tt, d') ->
  Store.represents d' (view_import v b fees).
Proof.
  intros R Hw Hf H. unfold Store.commit_ops in H. rewrite (Store.rep_write _ _ R) in H.
  injection H as <-. rewrite <-(Store.rep_write _ _ R).
  apply (Store.represents_batch (import_writes b fees)); [|done].
  unfold import_writes. repeat (apply Forall_cons; split; [done|]).
  destruct (auxpow_header (message b)); repeat constructor.
Qed.

(** What a successful import leaves. *)
Record imported (c : t) (v : Store.view) (b : SignedConsensusBlock) (c' : t) : Prop := {
  imp_store : exists fees, Store.represents (storage c') (view_import v b fees);
  imp_head : head c' = Some (block_ref b);
  imp_config : config c' = config c;
  imp_pow : queued_pow c' = match auxpow_header (message b) with
                            | Some _ => None
                            | None => queued_pow c
                            end;
  imp_cache : forall cache, block_hash_cache c = Some cache ->
    exists cache', cache_import b cache = (Ok tt, cache') /\ block_hash_cache c' = Some cache';
}.

Lemma update_cache_ok b (c c' : t) :
  update_block_hash_cache b c = (Ok tt, c') ->
  (forall cache, block_hash_cache c = Some cache ->
     exists cache', cache_import b cache = (Ok tt, cache') /\ block_hash_cache c' = Some cache') /\
  config c' = config c /\ head c' = head c /\ storage c' = storage c /\ queued_pow c' = queued_pow c.
Proof.
  unfold update_block_hash_cache, getS, modifyS, liftR, mbind, st_bind. intros H.
  destruct (block_hash_cache c) as [cache|] eqn:Ec; [|by injection H as <-].
  unfold bi_height in H. unfold cache_import. destruct (Z.eqb_spec (number b) 0) as [E0|E0].
  { injection H as <-. split; [|done]. intros ? [= <-]. by exists cache. }
  match type of H with context [let (_, _) := ?m cache in _] =>
    destruct (m cache) as [r cache'] eqn:Ei end. cbn in H.
  destruct r as [[]| |]; cbn in H; [|done..]. injection H as <-.
  split; [|done]. intros ? [= <-]. eauto.
Qed.

Lemma import_no_commit_ok `{!StoreLaws S, !BlockLaws K} c v b c' :
  Store.represents (storage c) v -> Store.write_wf (Store.PutBlock (canonical_root b) b) ->
  (forall x, head c = Some x -> ref_height x <= number b) ->
  import_verified_block_no_commit b c = (Ok tt, c') -> imported c v b c'.
Proof.
  intros R Hw Hh H. unfold import_verified_block_no_commit in H.
  apply st_bind_Ok in H as (? & ? & [= <- <-] & H).
  apply st_bind_Ok in H as ([eb rs] & ? & [= Hbr <-] & H).
  apply st_bind_Ok in H as (ops & ? & [= Hf <-] & H).
  apply accumulate_fees_ops in Hf as (fees & -> & Hfees).
  apply st_bind_Ok in H as ([] & c1 & H1 & H).
  assert (same core c c1) as Hcore.
  { destruct (is_validator (config c)).
    - pose proof (process_pegs_core b c) as Hp. by rewrite H1 in Hp.
    - by injection H1 as <-. }
  injection Hcore as E1 E2 E3 E4 E5.
  apply st_bind_Ok in H as (hops & c2 & H2 & H).
  unfold bi_height in H2. rewrite update_head_ok in H2 by (rewrite E2; done). injection H2 as <- <-.
  apply st_bind_Ok in H as (fops & c3 & H3 & H).
  assert (config c3 = config c /\ head c3 = Some (block_ref b) /\ storage c3 = storage c /\
    block_hash_cache c3 = block_hash_cache c /\
    queued_pow c3 = match auxpow_header (message b) with Some _ => None | None => queued_pow c end /\
    fops = match auxpow_header (message b) with
           | Some _ => Store.set_latest_pow_block (block_ref b) | None => [] end)
    as (F1 & F2 & F3 & F4 & F5 & ->).
  { destruct (auxpow_header (message b)) as [pow|].
    - apply finalize_ok in H3 as (-> & G1 & G2 & G3 & G4 & G5). cbn in *.
      split_and!; (done || congruence).
    - injection H3 as <- <-. cbn. split_and!; congruence. }
  apply st_bind_Ok in H as ([] & c4 & H4 & H). unfold on_storage, zoom in H4.
  destruct (Store.commit_ops _ (storage c3)) as [r d'] eqn:Ed. injection H4 as -> <-.
  rewrite F3 in Ed.
  assert (Store.represents d' (view_import v b fees)) as Hrep.
  { eapply commit_import; [done|done|done|]. rewrite <-Ed. f_equal.
    unfold import_writes. destruct (auxpow_header (message b)); cbn [map concat app Store.ops_of];
      by rewrite ?app_nil_r. }
  apply update_cache_ok in H as (Hcache & G1 & G2 & G3 & G4). cbn in *.
  split; [exists fees; by rewrite G3|congruence|congruence|congruence|].
  intros cache Hc. apply Hcache. congruence.
Qed.

Lemma import_ok `{!StoreLaws S, !BlockLaws K} c v b c' :
  Store.represents (storage c) v -> Store.write_wf (Store.PutBlock (canonical_root b) b) ->
  (forall x, head c = Some x -> ref_height x <= number b) ->
  import_verified_block b c = (Ok tt, c') -> imported c v b c'.
Proof.
  intros R Hw Hh H. apply st_bind_Ok in H as (h & c1 & H1 & H).
  assert (same core c c1) as Hc.
  { unfold on_engine, zoom in H1. destruct (Engine.commit_block _ _). by injection H1 as _ <-. }
  injection Hc as E1 E2 E3 E4 E5.
  destruct (import_no_commit_ok c1 v b c') as [I1 I2 I3 I4 I5];
    [by rewrite E3|done|by rewrite E2|done|]. rewrite ?E1, ?E4, ?E5 in *. by split.
Qed.

(** ** The cache follows the chain *)

(** The last AuxPow block of the store finalizes up to the block [fin]. *)
Definition finalized_at (v : Store.view) (fin : hash) : Prop :=
  exists r pb pow, Store.v_pow v = Some r /\ Store.v_blocks v !! ref_hash r = Some pb /\
    auxpow_header (message pb) = Some pow /\
    (a_height pow = 0 /\ fin = ref_hash r \/
     a_height pow <> 0 /\ fin = range_end pow /\ is_Some (Store.v_blocks v !! fin)).

(** A consistent state: blocks are filed under their roots and above their
    parents, the head is the stored one, and the cache holds the hashes [l]
    from the last finalized block [fin] (exclusive) to the head. *)
Record chain_wf (c : t) (v : Store.view) (fin : hash) (l : list hash) : Prop := {
  wf_store : Store.represents (storage c) v;
  wf_keys h b : Store.v_blocks v !! h = Some b -> canonical_root b = h;
  wf_parents h b : Store.v_blocks v !! h = Some b ->
    parent_hash (message b) = zero_hash \/
    is_Some (Store.v_blocks v !! parent_hash (message b));
  wf_heights h b p : Store.v_blocks v !! h = Some b ->
    Store.v_blocks v !! parent_hash (message b) = Some p -> number p < number b;
  wf_head : head c = Store.v_head v;
  wf_final : finalized_at v fin;
  wf_path : exists hd, head c = Some hd /\ ChainRange.path (storage c) fin (ref_hash hd) l;
  wf_cache : block_hash_cache c = Some (BlockHashCache.mk l);
}.

(** The columns of an import. *)
Lemma view_import_fields v b fees :
  Store.v_blocks (view_import v b fees) = <[canonical_root b := b]> (Store.v_blocks v) /\
  Store.v_head (view_import v b fees) = Some (block_ref b) /\
  Store.v_pow (view_import v b fees)
  = match auxpow_header (message b) with Some _ => Some (block_ref b) | None => Store.v_pow v end.
Proof. unfold view_import, import_writes. by destruct (auxpow_header (message b)). Qed.

Lemma wf_decrease `{!BlockLaws K} c v fin l : chain_wf c v fin l -> ChainRange.heights_decrease (storage c).
Proof.
  intros H h b p. rewrite !(Store.represents_get_block _ _ _ (wf_store _ _ _ _ H)).
  intros [= Hb] [= Hp]. by eapply wf_heights.
Qed.

Lemma finalized_import v b fees fin :
  finalized_at v fin -> Store.v_blocks v !! canonical_root b = None ->
  auxpow_header (message b) = None -> finalized_at (view_import v b fees) fin.
Proof.
  intros (r & pb & pow & Hr & Hpb & Hpow & Hfin) Hfresh Haux.
  destruct (view_import_fields v b fees) as (Eb & _ & Ep). rewrite Haux in Ep.
  exists r, pb, pow. rewrite Ep, Eb. split_and!; [done| |done|].
  - rewrite lookup_insert_ne; [done|congruence].
  - destruct Hfin as [Hfin|(Hh & -> & [fb Hfb])]; [by left|right]. split_and!; [done..|].
    rewrite lookup_insert_ne by congruence. eauto.
Qed.

Lemma finalized_import_pow v b fees pow :
  auxpow_header (message b) = Some pow -> a_height pow <> 0 ->
  is_Some (Store.v_blocks v !! range_end pow) -> Store.v_blocks v !! canonical_root b = None ->
  finalized_at (view_import v b fees) (range_end pow).
Proof.
  intros Haux Hh [fb Hfb] Hfresh. destruct (view_import_fields v b fees) as (Eb & _ & Ep).
  rewrite Haux in Ep. exists (block_ref b), b, pow. rewrite Ep, Eb. cbn [ref_hash block_ref].
  rewrite lookup_insert_eq. split_and!; [done..|]. right. split_and!; [done..|].
  rewrite lookup_insert_ne by congruence. eauto.
Qed.

(** The block is a new child of the head. *)
Record extends (c : t) (v : Store.view) (b : SignedConsensusBlock) : Prop := {
  ext_wf : Store.write_wf (Store.PutBlock (canonical_root b) b);
  ext_new : Store.v_blocks v !! canonical_root b = None;
  ext_root : canonical_root b <> zero_hash;
  ext_parent : exists hd p, head c = Some hd /\ parent_hash (message b) = ref_hash hd /\
    Store.v_blocks v !! ref_hash hd = Some p /\ ref_height hd < number b /\
    0 <= number p < number b;
}.

(** The store after the import is as consistent as before. *)
Lemma import_blocks_wf c v fin l b fees :
  chain_wf c v fin l -> extends c v b ->
  let v' := view_import v b fees in
  (forall h x, Store.v_blocks v' !! h = Some x -> canonical_root x = h) /\
  (forall h x, Store.v_blocks v' !! h = Some x ->
     parent_hash (message x) = zero_hash \/ is_Some (Store.v_blocks v' !! parent_hash (message x))) /\
  (forall h x p, Store.v_blocks v' !! h = Some x ->
     Store.v_blocks v' !! parent_hash (message x) = Some p -> number p < number x).
Proof.
  intros Hc [_ Hnew Hroot (hd & p & Hhd & Hpar & Hp & Hlt & Hn)] v'.
  destruct (view_import_fields v b fees) as (Eb & _ & _). fold v' in Eb. rewrite Eb. split_and!.
  - intros h x [[<- <-]|[_ Hx]]%lookup_insert_Some; [done|]. by eapply wf_keys.
  - intros h x [[<- <-]|[_ Hx]]%lookup_insert_Some; rewrite lookup_insert_is_Some.
    + right. destruct (decide (canonical_root b = parent_hash (message b))); [by left|right].
      split; [done|]. rewrite Hpar. eauto.
    + destruct (wf_parents _ _ _ _ Hc h x Hx) as [?|Hs]; [by left|right].
      destruct (decide (canonical_root b = parent_hash (message x))); [by left|by right].
  - intros h x q [[<- <-]|[_ Hx]]%lookup_insert_Some Hq.
    + rewrite Hpar in Hq. apply lookup_insert_Some in Hq as [[E <-]|[_ Hq]];
        [rewrite E in Hnew; congruence|]. replace q with p by congruence. lia.
    + apply lookup_insert_Some in Hq as [[E <-]|[_ Hq]]; [|by eapply wf_heights].
      destruct (wf_parents _ _ _ _ Hc h x Hx) as [?|[y Hy]]; [congruence|].
      rewrite <-E in Hy. congruence.
Qed.

(** The finalized block of a consistent state is stored. *)
Lemma finalized_stored v fin : finalized_at v fin -> is_Some (Store.v_blocks v !! fin).
Proof. intros (r & pb & pow & _ & Hpb & _ & [[_ ->]|(_ & _ & Hf)]); eauto. Qed.

(** A path that passes a block does not end where it starts. *)
Lemma path_loop d from l : ChainRange.path d from from l -> l = [].
Proof. by inversion 1. Qed.

(** A state whose head is a block with an AuxPow header of height 0: the block
    itself is taken as finalized, so a cache with a hash in it is not consistent. *)
Lemma pow_zero_inconsistent `{!StoreLaws S, !BlockLaws K} c v b pow l h :
  Store.represents (storage c) v -> Store.v_pow v = Some (block_ref b) ->
  Store.get_block (storage c) (canonical_root b) = Ok (Some b) ->
  auxpow_header (message b) = Some pow -> a_height pow = 0 ->
  head c = Some (block_ref b) -> block_hash_cache c = Some (BlockHashCache.mk (l ++ [h])) ->
  ChainRange.get_latest_finalized_block_ref (storage c) = Ok (Some (block_ref b)) /\
  forall v' fin' l', ~ chain_wf c v' fin' l'.
Proof.
  intros R Ep Hself Eaux Hh Ih Hc. destruct (Store.represents_reads _ _ R) as (_ & _ & _ & Rp & _). split.
  - unfold ChainRange.get_latest_finalized_block_ref, ChainRange.lookup_block, mbind, res_bind, ok_or.
    rewrite Rp, Ep. cbn [ref_hash block_ref]. rewrite Hself, Eaux, Hh. done.
  - intros v' fin' l' Hbad. pose proof (wf_cache _ _ _ _ Hbad) as Hl. rewrite Hc in Hl. injection Hl as <-.
    destruct (wf_final _ _ _ _ Hbad) as (r & pb & pw & Hr & Hpb & Hpw & Hf).
    destruct (Store.represents_reads _ _ (wf_store _ _ _ _ Hbad)) as (Rb' & _ & _ & Rp' & _).
    assert (r = block_ref b) as -> by (rewrite Rp, Ep, Hr in Rp'; congruence).
    cbn [ref_hash block_ref] in *. rewrite Rb', Hpb in Hself. injection Hself as ->.
    rewrite Eaux in Hpw. injection Hpw as <-. destruct Hf as [[_ ->]|[? _]]; [|done].
    destruct (wf_path _ _ _ _ Hbad) as (hd2 & Hhd2 & Hp2). rewrite Ih in Hhd2. injection Hhd2 as <-.
    apply path_loop in Hp2. by apply app_eq_nil in Hp2 as [_ ?].
Qed.

(** C4: Importing a new child of the head: a block not stored yet, with a root
    other than zero, whose parent is the head and below it. A block without AuxPow keeps the chain
    consistent: the cache of hashes without work, with the new hash appended,
    stays the path from the last finalized block to the head. An AuxPow block
    leaves in the cache the hashes after the end of its range and its own. If its
    header has a height other than 0, the chain stays consistent, with the end of
    the range as the finalized block. If the height in the header is 0, which no
    check rules out, the node takes the AuxPow block itself as finalized, and the
    state is not consistent any more. *)
Theorem import_keeps_wf `{!StoreLaws S, !BlockLaws K} c v fin l b c' :
  chain_wf c v fin l -> extends c v b -> import_verified_block b c = (Ok tt, c') ->
  head c' = Some (block_ref b) /\
  match auxpow_header (message b) with
  | None => exists v', chain_wf c' v' fin (l ++ [canonical_root b])
  | Some pow => exists pre post, l = pre ++ range_end pow :: post /\
      block_hash_cache c' = Some (BlockHashCache.mk (post ++ [canonical_root b])) /\
      (a_height pow <> 0 -> exists v', chain_wf c' v' (range_end pow) (post ++ [canonical_root b])) /\
      (a_height pow = 0 ->
       ChainRange.get_latest_finalized_block_ref (storage c') = Ok (Some (block_ref b)) /\
       forall v' fin' l', ~ chain_wf c' v' fin' l')
  end.
Proof.
  intros Hc He H. pose proof He as [Hw Hnew Hroot (hd & p & Hhd & Hpar & Hp & Hlt & Hn)].
  assert (canonical_root b <> fin) as Hfin.
  { intros E. destruct (finalized_stored _ _ (wf_final _ _ _ _ Hc)) as [x Hx]. congruence. }
  destruct (import_ok c v b c' (wf_store _ _ _ _ Hc) Hw) as [[fees R] Ih Icfg Ip Icache];
    [intros x; rewrite Hhd; intros [= <-]; lia|done|].
  split; [done|]. destruct (Icache _ (wf_cache _ _ _ _ Hc)) as (cache' & Hci & Hc').
  destruct (import_blocks_wf c v fin l b fees Hc He) as (W1 & W2 & W3).
  destruct (view_import_fields v b fees) as (Eb & Eh & Ep).
  destruct (wf_path _ _ _ _ Hc) as (hd' & Hhd' & Hpath). simplify_eq.
  assert (forall h x, Store.get_block (storage c) h = Ok (Some x) ->
            Store.get_block (storage c') h = Ok (Some x)) as Hmono.
  { intros h x. rewrite (Store.represents_get_block _ _ _ (wf_store _ _ _ _ Hc)),
      (Store.represents_get_block _ _ _ R), Eb.
    intros [= Hx]. rewrite lookup_insert_ne by congruence. by rewrite Hx. }
  assert (Store.get_block (storage c') (canonical_root b) = Ok (Some b)) as Hself.
  { by rewrite (Store.represents_get_block _ _ _ R), Eb, lookup_insert_eq. }
  assert (forall from l0, canonical_root b <> from ->
    ChainRange.path (storage c) from (ref_hash hd) l0 ->
    ChainRange.path (storage c') from (canonical_root b) (l0 ++ [canonical_root b])) as Hext.
  { intros from l0 Hne Hp0. econstructor; [done|done|]. rewrite Hpar.
    by eapply ChainRange.path_mono. }
  unfold cache_import in Hci. replace (number b =? 0) with false in Hci by lia.
  destruct (auxpow_header (message b)) as [pow|] eqn:Eaux.
  2:{ injection Hci as <-. exists (view_import v b fees). split; try done; try congruence.
      - apply finalized_import; [by eapply wf_final|done|done].
      - exists (block_ref b). split; [done|]. by apply Hext. }
  apply st_bind_Ok in Hci as ([] & c1 & Hr & [= <-]).
  apply BlockHashCache.reset_with_inv in Hr as (pre & post & El & Hpre & ->). cbn in El.
  pose proof (ChainRange.path_NoDup _ _ _ _ (wf_decrease _ _ _ _ Hc) Hpath) as Hnd.
  rewrite El in Hnd, Hpath. apply NoDup_app in Hnd as (_ & _ & [Hpost _]%NoDup_cons).
  assert (is_Some (Store.v_blocks v !! range_end pow)) as Hre.
  { apply ChainRange.path_stored in Hpath. apply Forall_app in Hpath as [_ [[x Hx] _]%Forall_cons].
    rewrite (Store.represents_get_block _ _ _ (wf_store _ _ _ _ Hc)) in Hx.
    injection Hx as ->. eauto. }
  exists pre, post. split_and!; [done|done| |].
  - intros Hh. exists (view_import v b fees). split; try done; try congruence.
    + by apply finalized_import_pow.
    + exists (block_ref b). split; [done|]. apply Hext; [|by eapply ChainRange.path_suffix].
      destruct Hre as [x Hx]. congruence.
  - intros Hh. by eapply pow_zero_inconsistent.
Qed.

(** The genesis block is block 0, without a parent, with the header of an AuxPow
    at height 0. *)
Lemma genesis_inv bits cid payload g :
  genesis bits cid payload = Ok g ->
  number g = 0 /\ parent_hash (message g) = zero_hash /\
  auxpow_header (message g) = Some (genesis_header bits cid).
Proof.
  unfold genesis. destruct (Z.eqb_spec (block_number payload) 0); [|done]. by intros [= <-].
Qed.

(** A fresh node is consistent: started on an empty database, it stores the
    genesis block of its execution client as head and last finalized block,
    with no hash waiting for work. *)
Theorem fresh_chain_wf `{!StoreLaws S, !BlockLaws K} cfg e w col now bits cid payload g (c0 c1 : t) :
  Engine.get_payload_by_tag_from_engine [48; 120; 48] e = Ok payload ->
  genesis bits cid payload = Ok g -> canonical_root g <> zero_hash ->
  Chain.new cfg e (Store.mkDb ∅ true true) w col now = Ok c0 ->
  store_genesis bits cid c0 = (Ok tt, c1) ->
  exists v, chain_wf c1 v (canonical_root g) [] /\ head c1 = Some (block_ref g).
Proof.
  intros Hp Hg Hz0 Hnew Hgen. pose proof Store.represents_empty as R0.
  destruct (Store.represents_reads _ _ R0) as (Rb & _ & Rh & _).
  unfold new in Hnew. rewrite Rh in Hnew. injection Hnew as <-.
  unfold store_genesis, getS, liftR, mbind, st_bind in Hgen. cbn [storage engine] in Hgen.
  rewrite Hp in Hgen. cbn [unwrap_res] in Hgen. rewrite Hg, Rb in Hgen. cbn [Store.v_blocks Store.empty_view] in Hgen. rewrite lookup_empty in Hgen.
  destruct (genesis_inv _ _ _ _ Hg) as (Hn & Hz & Hx).
  apply (import_no_commit_ok _ Store.empty_view) in Hgen as [[fees R] Ih _ _ Icache]; [|done| |done];
    [|split_and!; [apply tree_merkle_root_len|by rewrite Hn|intros h; rewrite Hx; by intros [= <-]]].
  destruct (Icache _ eq_refl) as (cache & Hci & Hc).
  unfold cache_import in Hci. rewrite Hn in Hci. injection Hci as <-.
  destruct (view_import_fields Store.empty_view g fees) as (Eb & Ehd & Epow). rewrite Hx in Epow.
  assert (forall h b, Store.v_blocks (view_import Store.empty_view g fees) !! h = Some b ->
            h = canonical_root g /\ b = g) as Hone.
  { intros h b. rewrite Eb. intros [[<- <-]|[_ H]]%lookup_insert_Some; [done|].
    cbn [Store.v_blocks Store.empty_view] in H. by rewrite lookup_empty in H. }
  exists (view_import Store.empty_view g fees). split; [|done].
  split; try done; try congruence.
  - by intros h b [-> ->]%Hone.
  - intros h b [-> ->]%Hone. by left.
  - intros h b p [-> ->]%Hone. rewrite Hz. by intros [E _]%Hone.
  - exists (block_ref g), g, (genesis_header bits cid). rewrite Epow, Eb. cbn [block_ref ref_hash].
    rewrite lookup_insert_eq. eauto 10.
  - exists (block_ref g). split; [done|constructor].
Qed.

(** ** Proofs of work *)

Lemma check_pow_inv (c : t) header ov :
  check_pow c header ov = Ok tt ->
  exists h bits auxpow, pow_target c header = Ok (h, bits) /\ a_auxpow header = Some auxpow /\
    (ov = true \/ AuxPow.check_proof_of_work auxpow bits = true) /\
    AuxPow.check auxpow h (a_chain_id header) = Ok tt.
Proof.
  unfold check_pow, mbind, res_bind. intros H.
  destruct (pow_target c header) as [[h bits]| |] eqn:Et; [|done..].
  destruct (a_auxpow header) as [auxpow|] eqn:Ea; [|done]. cbn in H.
  destruct (ov || _) eqn:Eo; [|done]. apply orb_true_iff in Eo.
  destruct (AuxPow.check auxpow h _) as [[]| |] eqn:Ec; [|done..].
  exists h, bits, auxpow. by split_and!.
Qed.

(** The finalized block a consistent store reports. *)
Lemma finalized_ref `{!StoreLaws S, !BlockLaws K} c v fin l :
  chain_wf c v fin l ->
  exists r, ChainRange.get_latest_finalized_block_ref (storage c) = Ok (Some r) /\ ref_hash r = fin.
Proof.
  intros Hc. destruct (wf_final _ _ _ _ Hc) as (r & pb & pow & Hr & Hpb & Hpow & Hfin).
  pose proof (wf_store _ _ _ _ Hc) as R.
  destruct (Store.represents_reads _ _ R) as (Rb & _ & _ & Rp & _).
  unfold ChainRange.get_latest_finalized_block_ref, ChainRange.lookup_block, mbind, res_bind, ok_or.
  rewrite Rp, Hr, Rb, Hpb, Hpow. destruct Hfin as [[Hh ->]|(Hh & -> & [fb Hfb])].
  - rewrite Hh. cbn. eauto.
  - rewrite (proj2 (Z.eqb_neq _ _) Hh), Rb, Hfb. cbn [negb]. eexists. split; [done|].
    by eapply wf_keys.
Qed.

(** The hashes without work, read from a consistent store. *)
Lemma wf_get_hashes `{!StoreLaws S, !BlockLaws K} c v fin l hd :
  chain_wf c v fin l -> head c = Some hd -> l <> [] ->
  ChainRange.get_hashes (storage c) fin (ref_hash hd) = Ok l.
Proof.
  intros Hc Hhd Hl. destruct (wf_path _ _ _ _ Hc) as (hd' & Hhd' & Hpath).
  rewrite Hhd in Hhd'. injection Hhd' as <-.
  destruct (wf_final _ _ _ _ Hc) as (r & pb & pow & Hr & Hpb & Hpow & Hfin).
  assert (exists bf, Store.get_block (storage c) fin = Ok (Some bf)) as [bf Hbf].
  { rewrite (Store.represents_get_block _ _ _ (wf_store _ _ _ _ Hc)).
    destruct Hfin as [[_ ->]|(_ & _ & [bf ->])]; rewrite ?Hpb; eauto. }
  assert (exists bt, Store.get_block (storage c) (ref_hash hd) = Ok (Some bt)) as [bt Hbt].
  { pose proof (ChainRange.path_stored _ _ _ _ Hpath) as Hst. destruct (last l) as [x|] eqn:Ex; [|by apply last_None in Ex].
    rewrite <-(ChainRange.path_last _ _ _ _ _ Hpath Ex). rewrite last_Some in Ex.
    destruct Ex as [l' El]. rewrite El in Hst. by apply Forall_app in Hst as [_ [? _]%Forall_cons]. }
  eapply ChainRange.get_hashes_path; [by eapply Store.rep_read, wf_store|by eapply wf_decrease|done..| |done].
  eapply ChainRange.path_above; [by eapply wf_decrease|done..].
Qed.

Lemma pow_target_inv (c : t) header h bits :
  pow_target c header = Ok (h, bits) ->
  exists r rs hashes, ChainRange.get_latest_finalized_block_ref (storage c) = Ok (Some r) /\
    Store.get_block (storage c) (range_start header) = Ok (Some rs) /\
    (53143 < number rs -> parent_hash (message rs) = ref_hash r) /\
    ChainRange.get_hashes (storage c) (parent_hash (message rs)) (range_end header) = Ok hashes /\
    h = AuxPow.aggregate_hash hashes /\
    exists r0 pb hb, Store.get_latest_pow_block (storage c) = Ok (Some r0) /\
      Store.get_block (storage c) (ref_hash r0) = Ok (Some pb) /\ get_head c = Ok hb /\
      Retarget.get_next_work_required (message pb) (retarget_params (config c)) (number hb) = Ok bits.
Proof.
  unfold pow_target, mbind, res_bind, ok_or, unwrap. intros H.
  destruct (Store.get_latest_pow_block (storage c)) as [[r0|]| |] eqn:E0; try done.
  destruct (Store.get_block (storage c) (ref_hash r0)) as [[pb|]| |] eqn:Epb; try done.
  destruct (ChainRange.get_latest_finalized_block_ref (storage c)) as [[r|]| |] eqn:Er; try done.
  destruct (Store.get_block (storage c) (range_start header)) as [[rs|]| |] eqn:Ers; try done.
  destruct ((53143 <? _) && _) eqn:Eg; [done|].
  destruct (ChainRange.get_hashes _ _ _) as [hashes| |] eqn:Eh; try done.
  destruct (get_head c) as [hb| |] eqn:Ehb; try done.
  unfold get_block_by_hash, mbind, res_bind in H. rewrite Epb in H. cbn [map_err unwrap] in H.
  destruct (map_err _ (Retarget.get_next_work_required _ _ _)) as [x| |] eqn:Ew; try done.
  injection H as <- <-.
  exists r, rs, hashes. split_and!; [done|done| |done|done|].
  - intros Hlt. unfold bi_height in Eg. rewrite (proj2 (Z.ltb_lt _ _) Hlt) in Eg. cbn in Eg.
    apply negb_false_iff, bool_decide_eq_true in Eg. done.
  - exists r0, pb, hb. split_and!; [done..|].
    by destruct (Retarget.get_next_work_required _ _ _); cbn in Ew; simplify_eq.
Qed.

(** C6: What a header that passes [check_pow] commits to, in a consistent state,
    with the override or without. The block [rs] its range starts with is stored,
    and follows the last finalized block if it is above height 53143. The AuxPow
    of the header passes its check for the aggregate of the blocks from the
    parent of [rs] (exclusive) to the end of the range; the one other case is a
    range that ends no higher than that parent, where the commitment is to the
    parent alone. And, without the override, it meets the target that is required
    after the last AuxPow block at the height of the head. *)
Theorem check_pow_sound `{!StoreLaws S, !BlockLaws K} c v fin l header ov :
  chain_wf c v fin l -> check_pow c header ov = Ok tt ->
  exists rs hashes auxpow,
    Store.v_blocks v !! range_start header = Some rs /\
    (53143 < number rs -> parent_hash (message rs) = fin) /\
    a_auxpow header = Some auxpow /\
    AuxPow.check auxpow (AuxPow.aggregate_hash hashes) (a_chain_id header) = Ok tt /\
    (ChainRange.path (storage c) (parent_hash (message rs)) (range_end header) hashes \/
     hashes = [parent_hash (message rs)] /\
     exists bf be, Store.v_blocks v !! parent_hash (message rs) = Some bf /\
       Store.v_blocks v !! range_end header = Some be /\ number be <= number bf) /\
    (ov = false -> exists last_pow pb hd hb bits,
       Store.v_pow v = Some last_pow /\ Store.v_blocks v !! ref_hash last_pow = Some pb /\
       head c = Some hd /\ Store.v_blocks v !! ref_hash hd = Some hb /\
       Retarget.get_next_work_required (message pb) (retarget_params (config c)) (number hb) = Ok bits /\
       AuxPow.check_proof_of_work auxpow bits = true).
Proof.
  intros Hc (h & bits & auxpow & Ht & Ha & Hw & Hchk)%check_pow_inv.
  apply pow_target_inv in Ht as (r & rs & hashes & Hr & Hrs & Hfin & Hh & -> & r0 & pb & hb & H0 & Hpb & Hhb & Hbits).
  destruct (finalized_ref _ _ _ _ Hc) as (r' & Hr' & Efin). assert (r' = r) as -> by congruence.
  pose proof (wf_store _ _ _ _ Hc) as R. destruct (Store.represents_reads _ _ R) as (Rb & _ & Rh & Rp & _).
  rewrite Rb in Hrs, Hpb. injection Hrs as Hrs. injection Hpb as Hpb. rewrite Rp in H0. injection H0 as H0.
  exists rs, hashes, auxpow. split_and!; [done|by intros ?%Hfin; congruence|done|done| |].
  - unfold ChainRange.get_hashes, mbind, res_bind, ok_or in Hh. rewrite !Rb in Hh.
    destruct (Store.v_blocks v !! parent_hash (message rs)) as [bf|]; [|done].
    destruct (Store.v_blocks v !! range_end header) as [be|]; [|done].
    destruct (Z.leb_spec (number be) (number bf)) as [Hle|_].
    + injection Hh as <-. right. split; [done|]. by exists bf, be.
    + destruct (ChainRange.hashes_back _ _ _ _) as [hs| |] eqn:Eb; [|done..].
      injection Hh as <-. left. by eapply ChainRange.hashes_back_sound.
  - intros ->. destruct Hw as [|Hw]; [done|].
    unfold get_head, mbind, res_bind, ok_or in Hhb. rewrite Rh, <-(wf_head _ _ _ _ Hc) in Hhb.
    destruct (head c) as [hd|]; [|done]. rewrite Rb in Hhb.
    destruct (Store.v_blocks v !! ref_hash hd) as [hb'|] eqn:E; [|done]. injection Hhb as ->.
    by exists r0, pb, hd, hb, bits.
Qed.

(** The head block and the last AuxPow block of a consistent state. *)
Lemma wf_reads `{!StoreLaws S, !BlockLaws K} c v fin l :
  chain_wf c v fin l ->
  (forall h, Store.get_block (storage c) h = Ok (Store.v_blocks v !! h)) /\
  Store.get_head (storage c) = Ok (head c) /\
  Store.get_latest_pow_block (storage c) = Ok (Store.v_pow v).
Proof.
  intros Hc. destruct (Store.represents_reads _ _ (wf_store _ _ _ _ Hc)) as (Rb & _ & Rh & Rp & _).
  by rewrite (wf_head _ _ _ _ Hc).
Qed.

(** C5: The hashes the node hands to miners lead to an accepted proof of work: in
    a consistent state of a node without a Bitcoin signer and with no work queued
    yet, an AuxPow that meets
    the current target and commits to the aggregate of the cached hashes is
    checked without error when it is pushed for the range of these hashes,
    queued, and sent to the peers. *)
Theorem aggregate_pow_accepted `{!StoreLaws S, !BlockLaws K} c v fin l start end_
    last_block head_block bits cid height auxpow addr :
  chain_wf c v fin l -> queued_pow c = None -> maybe_bitcoin_signer (config c) = None ->
  hd_error l = Some start -> last l = Some end_ ->
  get_last_finalized_block c = Ok last_block -> get_head c = Ok head_block ->
  Retarget.get_next_work_required last_block (retarget_params (config c))
    (bi_height (message head_block)) = Ok bits ->
  AuxPow.check_proof_of_work auxpow bits = true ->
  AuxPow.check auxpow (AuxPow.aggregate_hash l) cid = Ok tt ->
  get_aggregate_hashes c = Ok l /\
  let pow := mkAuxPowHeader start end_ bits cid height (Some auxpow) addr in
  push_auxpow start end_ bits cid height auxpow addr c
  = (Ok true, set_queued_pow (Some pow) (send (QueuePowMsg pow) c)).
Proof.
  intros Hc Hq Hs Hst Hen Hlast Hhead Hbits Hw Hchk.
  destruct (wf_reads _ _ _ _ Hc) as (Rb & _ & Rp).
  destruct (wf_path _ _ _ _ Hc) as (hd & Hhd & Hpath).
  destruct (finalized_ref _ _ _ _ Hc) as (r & Hr & Efin).
  destruct (wf_final _ _ _ _ Hc) as (r0 & pb & pow0 & Hr0 & Hpb & Hpow0 & Hfin).
  destruct l as [|x l]; [done|]. injection Hst as ->.
  destruct (ChainRange.path_first _ _ _ _ _ Hpath) as (rs & Hrs & Hpar).
  pose proof (ChainRange.path_last _ _ _ _ _ Hpath Hen) as ->.
  pose proof (wf_get_hashes _ _ _ _ _ Hc Hhd ltac:(done)) as Hh.
  split; [unfold get_aggregate_hashes; by rewrite Hhd, Hq, (wf_cache _ _ _ _ Hc)|].
  intros pow. unfold push_auxpow. rewrite Hq. fold pow.
  assert (check_pow c pow false = Ok tt) as ->.
  { unfold get_last_finalized_block in Hlast. rewrite Rp, Hr0, Rb, Hpb in Hlast. injection Hlast as <-.
    unfold check_pow, pow_target, get_block_by_hash, mbind, res_bind, ok_or, unwrap.
    rewrite Rp, Hr0, Rb, Hpb, Hr. cbn [range_start range_end a_auxpow a_chain_id pow].
    rewrite Hrs, Hpar, Efin, bool_decide_true by done. cbn [negb]. rewrite andb_false_r, Hh, Hhead.
    cbn [map_err]. rewrite Hbits. cbn [map_err orb]. by rewrite Hw, Hchk. }
  unfold share_pow, queue_pow, maybe_generate_signatures, st_unwrap, modifyS, getS, mbind, st_bind.
  cbn [config set_queued_pow send]. by rewrite Hs.
Qed.

(** A header with another AuxPow in the place of its own. *)
Definition with_auxpow (header : AuxPowHeader) (a : option AuxPow.t) : AuxPowHeader :=
  mkAuxPowHeader (range_start header) (range_end header) (a_bits header)
    (a_chain_id header) (a_height header) a (a_fee_recipient header).

(** C20: A gossip message can abort the node: for any header the node accepts, the
    same header without its AuxPow, or with an AuxPow that meets the target and
    fails the structural check, makes the handler panic. *)
Theorem gossip_pow_panics rounds send_rpc (c : t) header auxpow' :
  check_pow c header false = Ok tt ->
  on_gossip send_rpc rounds (QueuePowMsg (with_auxpow header None)) c = (Panic, c) /\
  (forall h bits, pow_target c header = Ok (h, bits) ->
     AuxPow.check_proof_of_work auxpow' bits = true ->
     AuxPow.check auxpow' h (a_chain_id header) <> Ok tt ->
     on_gossip send_rpc rounds (QueuePowMsg (with_auxpow header (Some auxpow'))) c = (Panic, c)).
Proof.
  intros (h & bits & auxpow & Ht & _)%check_pow_inv.
  unfold on_gossip, on_queue_pow, check_pow, getS, mbind, st_bind, res_bind.
  assert (forall a, pow_target c (with_auxpow header a) = Ok (h, bits)) as Ht' by done.
  split.
  - by rewrite Ht'.
  - intros h' bits' Heq Hw Hchk. rewrite Ht in Heq. injection Heq as <- <-. rewrite Ht'.
    cbn [a_auxpow with_auxpow unwrap a_chain_id]. rewrite Hw. cbn [orb].
    destruct (AuxPow.check auxpow' h _) as [[]| |] eqn:E; [congruence|done..].
Qed.

(** Work for a fresh chain is refused: initialised at the genesis, the cache
    holds the genesis hash itself instead of nothing, and a range that starts at
    the genesis is never accepted, whatever the AuxPow, because the parent of
    its first block is not stored. *)
Theorem genesis_range_refused (c : t) cache g r bg pb f :
  head c = Some g -> block_hash_cache c = Some cache -> queued_pow c = None ->
  Store.get_block (storage c) (ref_hash g) = Ok (Some bg) ->
  parent_hash (message bg) = zero_hash -> Store.get_block (storage c) zero_hash = Ok None ->
  Store.get_latest_pow_block (storage c) = Ok (Some r) ->
  Store.get_block (storage c) (ref_hash r) = Ok (Some pb) ->
  ChainRange.get_latest_finalized_block_ref (storage c) = Ok (Some f) -> ref_hash f = ref_hash g ->
  init_block_hash_cache c
  = (Ok tt, set_block_hash_cache (Some (BlockHashCache.mk [ref_hash g])) c) /\
  (forall end_ bits cid height auxpow addr,
     push_auxpow (ref_hash g) end_ bits cid height auxpow addr c = (Ok false, c)).
Proof.
  intros Hh Hca Hq Hb Hz H0 Hr Hpb Hf Efg. split.
  - unfold init_block_hash_cache, aggregate_hashes, getS, modifyS, liftR, mbind, st_bind, res_bind.
    rewrite Hca, Hh, Hf. cbn. rewrite Efg, (ChainRange.get_hashes_self _ _ _ Hb). done.
  - intros end_ bits cid height auxpow addr. unfold push_auxpow, check_pow, pow_target, mbind, res_bind.
    rewrite Hq, Hr. cbn [unwrap]. rewrite Hpb, Hf. cbn [ok_or range_start]. rewrite Hb. cbn [ok_or].
    destruct (_ && _); [done|]. unfold ChainRange.get_hashes, mbind, res_bind.
    by rewrite Hz, H0.
Qed.

(** ** Accepted blocks *)

(** What [check_block] has checked of a block it does not reject: only a validator
    checks the withdrawals and compares the finalized peg-outs, and for block
    numbers up to 533683 the work is checked with the override, so not against
    the target. *)
Record acceptable_block (c : t) (b : SignedConsensusBlock) : Prop := {
  acc_above : forall x, head c = Some x -> ref_height x < number b;
  acc_parent : exists p, Store.get_block (storage c) (parent_hash (message b)) = Ok (Some p) /\
    p_parent_hash (execution_payload (message b)) = p_block_hash (execution_payload (message p));
  acc_signed : Aura.check_signed_by_author (aura (config c)) b = Ok tt;
  acc_withdrawals : is_validator (config c) = true ->
    Payouts.check_withdrawals (storage c) (bitcoin_wallet c) (bridge (config c))
      (federation (config c)) b = Ok tt;
  acc_work : match auxpow_header (message b) with
    | Some pow => check_pow c pow (number b <=? 533683) = Ok tt /\
        exists proposals, ChainRange.get_bitcoin_payment_proposals_in_range (storage c)
            (range_start pow) (range_end pow) = Ok proposals /\
          length proposals = length (finalized_pegouts (message b)) /\
          (is_validator (config c) = true -> map txid proposals = map txid (finalized_pegouts (message b)))
    | None => finalized_pegouts (message b) = [] /\
        exists o, ChainRange.get_latest_finalized_block_ref (storage c) = Ok o /\
          number b <= from_option ref_height 0 o + Z.max 0 (max_blocks_without_pow (config c))
    end;
}.

Lemma collect_finalized (c : t) ov ids txs us :
  collect (fun p : hash * Transaction =>
      if negb (bool_decide (txid p.2 = p.1)) then Err IllegalFinalization
      else map_err FederationError
             (Wallet.check_transaction_signatures p.2 ov (bitcoin_wallet c))) (zip ids txs) = Ok us ->
  length ids = length txs -> ids = map txid txs.
Proof.
  revert txs us. induction ids as [|i ids IH]; intros [|x txs] us H Hl; try done.
  cbn in H. unfold mbind, res_bind in H. case_bool_decide as Hi; [|done]. cbn [negb] in H.
  destruct (map_err _ _) as [u| |]; [|done..].
  destruct (collect _ (zip ids txs)) as [us'| |] eqn:E; [|done..].
  cbn. f_equal; [done|]. eapply IH; [exact E|]. by injection Hl.
Qed.

Lemma check_finalizations_inv (c : t) b pow ov :
  check_finalizations c b pow ov = Ok tt ->
  exists proposals, ChainRange.get_bitcoin_payment_proposals_in_range (storage c)
      (range_start pow) (range_end pow) = Ok proposals /\
    length proposals = length (finalized_pegouts (message b)) /\
    (is_validator (config c) = true -> map txid proposals = map txid (finalized_pegouts (message b))).
Proof.
  unfold check_finalizations, mbind, res_bind. intros H.
  destruct (ChainRange.get_bitcoin_payment_proposals_in_range _ _ _) as [ps| |]; [|done..].
  rewrite length_map in H. destruct (Nat.eqb_spec (length ps) (length (finalized_pegouts (message b))));
    [|done]. cbn [negb] in H. exists ps. split_and!; [done..|]. intros Hv. rewrite Hv in H.
  destruct (collect _ _) as [us| |] eqn:E; [|done..]. eapply collect_finalized; [exact E|].
  by rewrite length_map.
Qed.

Lemma check_block_valid (c : t) b c' : check_block b c = (Ok tt, c') -> acceptable_block c b.
Proof.
  unfold check_block. intros H. apply st_bind_Ok in H as (? & ? & [= <- <-] & H).
  destruct (is_zero _); [done|].
  destruct (match head c with Some x => _ | None => _ end) eqn:Eh; [done|].
  apply st_bind_Ok in H as (p & ? & [= Hp <-] & H).
  case_bool_decide as Epl; [cbn [negb] in H|done].
  apply st_bind_Ok in H as ([] & ? & [= Ha <-] & H).
  apply st_bind_Ok in H as ([] & c1 & Hv & H).
  apply st_bind_Ok in H as (? & ? & [= <- <-] & H).
  injection H as Hw <-.
  assert (same core c c1 /\ (is_validator (config c) = true ->
    Payouts.check_withdrawals (storage c) (bitcoin_wallet c) (bridge (config c))
      (federation (config c)) b = Ok tt)) as [Hcore Hwd].
  { destruct (is_validator (config c)).
    - apply st_bind_Ok in Hv as ([] & ? & [= Hwd <-] & Hpg). split; [|done].
      pose proof (check_pegout_core b (p_parent_hash (execution_payload (message b))) c) as Hc.
      by rewrite Hpg in Hc.
    - by injection Hv as <-. }
  injection Hcore as E1 E2 E3 E4 E5. split; [| | |done|].
  - intros x Hx. rewrite Hx in Eh. unfold bi_height in Eh. lia.
  - exists p. split; [|done]. unfold ChainRange.get_parent, mbind, res_bind in Hp.
    by destruct (Store.get_block _ _) as [[]| |]; simplify_eq/=.
  - by destruct (Aura.check_signed_by_author _ _) as [[]| |].
  - unfold check_work in Hw. rewrite E3 in Hw. unfold mbind, res_bind, bi_height in Hw.
    destruct (auxpow_header (message b)) as [pow|].
    + assert (check_pow c1 pow (number b <=? 533683) = check_pow c pow (number b <=? 533683)) as Ecp.
      { unfold check_pow, pow_target, get_head, get_block_by_hash. by rewrite E3, E1. }
      rewrite Ecp in Hw. destruct (check_pow c pow _) as [[]| |]; [|done..]. split; [done|].
      apply check_finalizations_inv in Hw. by rewrite E1, E3 in Hw.
    + destruct (ChainRange.get_latest_finalized_block_ref _) as [o| |]; [|done..].
      destruct (Z.ltb_spec (max_blocks_without_pow (config c1))
                  (saturating_sub (number b) (match o with Some x => ref_height x | None => 0 end)))
        as [|Hle]; [done|].
      case_bool_decide; [|done]. split; [done|]. exists o. split; [done|].
      unfold saturating_sub in Hle. rewrite E1 in Hle. destruct o; cbn; lia.
Qed.

(** C3: A block that is not rejected is above the head, its parent is stored and
    its payload builds on the parent's, and it carries valid signatures; a
    validator has checked its withdrawals. With an AuxPow, the work passes
    [check_pow] (against the target for block numbers above 533683 only), and it
    finalizes as many peg-outs as the range has proposals, for a validator the
    same ones, in order; without, it finalizes none and is at most the configured
    number of blocks above the last finalized block. *)
Theorem accepted_block_valid (c : t) b r c' :
  process_block b c = (Ok r, c') -> acceptable_block c b.
Proof. intros ([] & c1 & H & _)%st_bind_Ok. by apply check_block_valid in H. Qed.

(** ** Rolling back *)

Lemma rollback_inv height (c c' : t) :
  rollback_head height c = (Ok tt, c') ->
  exists b, Store.get_block_by_height (storage c) height = Ok (Some b) /\
    head c' = Some (block_ref b) /\ block_hash_cache c' = block_hash_cache c /\
    config c' = config c.
Proof.
  unfold rollback_head. intros H. apply st_bind_Ok in H as (? & ? & [= <- <-] & H).
  apply st_bind_Ok in H as (o & ? & [= Ho <-] & H).
  apply st_bind_Ok in H as (b & ? & [= Hb <-] & H). destruct o as [b'|]; [|done]. injection Hb as ->.
  apply st_bind_Ok in H as (pow & ? & [= Hp <-] & H).
  apply st_bind_Ok in H as (ops & c1 & Hu & H).
  assert (c1 = set_head (Some (block_ref b)) c) as ->.
  { unfold update_head_ref_ops, bi_height in Hu. destruct (head c); [rewrite andb_false_r in Hu|];
      by injection Hu as _ <-. }
  unfold on_storage, zoom in H. destruct (Store.commit_ops _ _) as [r d]. injection H as -> <-.
  exists b. by split_and!.
Qed.

(** A roll back leaves the cache of hashes behind: it moves the head to the
    block filed at the height, and the cache keeps the hashes of the blocks it
    took off, so the state is no longer consistent and miners are handed a
    commitment that does not end at the head. *)
Theorem rollback_keeps_stale_cache c v fin l height c' b :
  chain_wf c v fin l -> l <> [] -> rollback_head height c = (Ok tt, c') ->
  Store.get_block_by_height (storage c) height = Ok (Some b) ->
  (forall hd, head c = Some hd -> ref_hash hd <> canonical_root b) ->
  head c' = Some (block_ref b) /\ block_hash_cache c' = Some (BlockHashCache.mk l) /\
  forall v' fin' l', ~ chain_wf c' v' fin' l'.
Proof.
  intros Hc Hl (b' & Hb' & Hhead & Hcache & _)%rollback_inv Hb Hne.
  assert (b' = b) as -> by congruence. rewrite (wf_cache _ _ _ _ Hc) in Hcache.
  split_and!; [done..|]. intros v' fin' l' Hc'.
  assert (l' = l) as -> by (pose proof (wf_cache _ _ _ _ Hc'); congruence).
  destruct (wf_path _ _ _ _ Hc) as (hd & Hhd & Hp), (wf_path _ _ _ _ Hc') as (hd' & Hhd' & Hp').
  destruct (last l) as [x|] eqn:El; [|by apply last_None in El].
  pose proof (ChainRange.path_last _ _ _ _ _ Hp El) as ->.
  pose proof (ChainRange.path_last _ _ _ _ _ Hp' El) as E.
  rewrite Hhead in Hhd'. injection Hhd' as <-. by apply (Hne hd Hhd).
Qed.

(** ** Synchronising *)

Lemma sync_stream_count start stream n (c : t) k c' :
  sync_stream start stream n c = (Ok (Some k), c') -> (k <= n + length stream)%nat.
Proof.
  revert n c. induction stream as [|x stream IH]; intros n c H; cbn in H.
  { injection H as <- <-. cbn. lia. }
  destruct x as [b|]; [|apply IH in H; cbn; lia].
  apply st_bind_Ok in H as (go_on & c1 & _ & H).
  destruct go_on; [apply IH in H; cbn; lia|done].
Qed.

(** A stream that is read is an answer to the request. *)
Lemma fallback_answer
    (send_rpc : RpcTypes.BlocksByRangeRequest -> PeerId -> nat -> option (list RPCResponse)) req (c : t) stream c' :
  send_with_peer_fallback send_rpc req c = (Ok stream, c') -> exists p i, send_rpc req p i = Some stream.
Proof.
  unfold send_with_peer_fallback, getS, zoom, mbind, st_bind. intros H.
  destruct (RpcRetry.peer_fallback _ _ _ _) as [r s] eqn:Ef. injection H as -> _.
  by eapply RpcRetry.peer_fallback_stream.
Qed.

(** Synchronising ends: with peers whose streams of answers are shorter than
    the number of blocks asked for, one request is enough, and more rounds do
    not change what the node does. *)
Theorem sync_one_round
    (send_rpc : RpcTypes.BlocksByRangeRequest -> PeerId -> nat -> option (list RPCResponse)) rounds c :
  (forall req p i stream, send_rpc req p i = Some stream -> (length stream < BLOCK_COUNT)%nat) ->
  sync send_rpc (Datatypes.S rounds) c = sync send_rpc 1 c.
Proof.
  intros Hs. unfold sync, modifyS, getS, mbind, st_bind. destruct (peers _); [done|].
  set (c0 := set_sync_status InProgress c). cbn [sync_rounds].
  destruct (add_chk _ _ _); [|done..].
  destruct (send_with_peer_fallback send_rpc _ c0) as [r c1] eqn:Er. destruct r as [stream| |]; [|done..].
  assert (length stream < BLOCK_COUNT)%nat as Hlen.
  { apply fallback_answer in Er as (q & i & Hqi). by eapply Hs. }
  destruct (sync_stream _ stream 0 c1) as [[[n|]| |] c2] eqn:Est; [|done..].
  apply sync_stream_count in Est. by replace (n <? BLOCK_COUNT)%nat with true
    by (symmetry; apply Nat.ltb_lt; lia).
Qed.

(** ** Peg-ins from Bitcoin *)

Lemma foldl_min_le z l : foldl Z.min z l <= z /\ Forall (fun x => foldl Z.min z l <= x) l.
Proof.
  revert z. induction l as [|y l IH]; intros z; cbn; [split; [lia|constructor]|].
  destruct (IH (Z.min z y)) as [H1 H2]. split; [lia|]. constructor; [lia|done].
Qed.

Lemma rescan_covers q height start :
  rescan_start q height = Ok start ->
  Forall (fun p => start <= pi_block_height p) (BTree.values q).
Proof.
  unfold rescan_start, mbind, res_bind. destruct (add_chk 32 height 1); [|done..].
  intros [= <-]. destruct (BTree.values q) as [|p ps]; [constructor|].
  destruct (foldl_min_le (pi_block_height p) (map pi_block_height ps)) as [H1 H2].
  apply Forall_cons. split; [done|]. by apply (proj1 (Forall_map pi_block_height _ ps)) in H2.
Qed.

(** No queued peg-in is lost by a restart: after each Bitcoin block, the
    stored height from which the scan restarts is not above the block of any
    peg-in in the queue. *)
Theorem scan_restart_covers_queue `{!StoreLaws S, !BlockLaws K} was_synced ps height (c : t) v (c' : t) :
  Store.represents (storage c) v -> 0 <= height < 2 ^ 32 - 1 ->
  Forall (fun p => 0 <= pi_block_height p < 2 ^ 32) (BTree.values (queued_pegins c')) ->
  on_bitcoin_block was_synced ps height c = (Ok tt, c') ->
  exists start, Store.get_bitcoin_scan_start_height (storage c') = Ok (Some start) /\
    Forall (fun p => start <= pi_block_height p) (BTree.values (queued_pegins c')).
Proof.
  intros R Hh Hq H. unfold on_bitcoin_block in H.
  apply st_bind_Ok in H as ([] & ? & [= <-] & H).
  apply st_bind_Ok in H as (? & ? & [= <- <-] & H).
  apply st_bind_Ok in H as (start & ? & [= Hs <-] & H).
  unfold st_unwrap, on_storage, zoom in H. cbn [storage set_queued_pegins] in H.
  unfold Store.commit_ops in H. rewrite (Store.rep_write _ _ R) in H. injection H as <-.
  cbn [storage set_storage queued_pegins set_queued_pegins] in *.
  assert (0 <= start < 2 ^ 32) as Hstart.
  { unfold rescan_start, mbind, res_bind in Hs. rewrite add_chk_ok in Hs by lia. injection Hs as <-.
    destruct (BTree.values _) as [|p l]; [lia|]. apply Forall_cons in Hq as [Hp Hl].
    split; [|destruct (foldl_min_le (pi_block_height p) (map pi_block_height l)); lia].
    clear -Hp Hl. destruct Hp as [Hp _]. revert Hp. generalize (pi_block_height p) as z.
    induction Hl as [|x l [Hx _] _ IH]; intros z Hz; cbn; [done|]. apply IH. lia. }
  exists start. split; [|by eapply rescan_covers].
  pose proof (Store.represents_write (Store.SetScan start) _ _ Hstart R) as R'.
  rewrite (Store.rep_write _ _ R) in R'.
  destruct (Store.represents_reads _ _ R') as (_ & _ & _ & _ & _ & E). exact E.
Qed.

(** A monitor that starts while the node synchronises drops peg-ins for good:
    it queues nothing, whatever the status is later, and with an empty queue it
    moves the restart of the scan past the block they are in. *)
Theorem unsynced_monitor_drops_pegins `{!StoreLaws S, !BlockLaws K} ps height (c : t) v :
  Store.represents (storage c) v -> 0 <= height < 2 ^ 32 - 1 -> queued_pegins c = [] ->
  exists c', on_bitcoin_block false ps height c = (Ok tt, c') /\ queued_pegins c' = [] /\
    Store.get_bitcoin_scan_start_height (storage c') = Ok (Some (height + 1)).
Proof.
  intros R Hh Hq. unfold on_bitcoin_block, modifyS, getS, liftR, mbind, st_bind.
  cbn [queued_pegins set_queued_pegins queue_pegins]. rewrite Hq. unfold rescan_start, mbind, res_bind.
  rewrite add_chk_ok by lia. unfold st_unwrap, on_storage, zoom, Store.commit_ops.
  cbn [storage set_queued_pegins]. rewrite (Store.rep_write _ _ R). eexists. split; [done|].
  cbn [queued_pegins set_storage set_queued_pegins storage]. split; [done|].
  assert (0 <= height + 1 < 2 ^ 32) as Hs by lia.
  pose proof (Store.represents_write (Store.SetScan (height + 1)) _ _ Hs R) as R'.
  rewrite (Store.rep_write _ _ R) in R'.
  destruct (Store.represents_reads _ _ R') as (_ & _ & _ & _ & _ & E). exact E.
Qed.

(** ** The interface of the merged-mining service *)

(** The chain keeps what the service relies on, when blocks are filed under
    their roots. *)
#[global] Instance chain_manager_laws `{!StoreLaws S, !BlockLaws K} :
  ChainManagerLaws t (chain_manager (PeerId:=PeerId)).
Proof.
  refine {| cm_ok c := exists v, Store.represents (storage c) v /\
              forall h b, Store.v_blocks v !! h = Some b -> canonical_root b = h |}.
  intros c b (v & R & Hk) H. cbn in *. unfold get_last_finalized_block, mbind, res_bind in H.
  destruct (Store.get_latest_pow_block (storage c)) as [[x|]| |]; try done.
  rewrite (Store.represents_get_block _ _ _ R) in H. cbn in H.
  destruct (Store.v_blocks v !! ref_hash x) as [pb|] eqn:E; [|done]. injection H as <-.
  unfold get_block_by_hash, mbind, res_bind.
  change (bi_block_hash (message pb)) with (canonical_root pb). rewrite (Hk _ _ E).
  by rewrite (Store.represents_get_block _ _ _ R), E.
Defined.

End WithLibs.
End ChainProofs.
