(* ===== verification/Acts.v ===== *)
(** The handlers of the node as sequences of acts: one block or approval taken,
    one own block published, one roll back, one request sent, and so on. Every
    turn of a task is such a sequence; an invariant of the node is one that
    every act keeps. *)
From stdpp Require Import base decidable list gmap.
From Stdlib Require Import ZArith Lia.
From S2P Require Import Prelude Bitcoin Errors AuxPow Signatures Block Serial Aura Candidates.
From S2P Require Import Store Retarget AuxMiner BTree Wallet Bridge Engine Payouts ChainRange.
From S2P Require Import RpcRetry BlockHashCache RpcTypes Chain Node ChainProofs.

Module Acts.
Import Chain Node ChainProofs.

Section WithLibs.
Context `{B : BitcoinLib, L : BlsLib, K : BlockLib, S : StoreLib, D : DecimalLib,
          W : WalletLib, F : !FeeEstimate, G : BridgeLib, A : !ExecutionApi}.
Context {PeerId : Type}.

Abbreviation t := (Chain.t (PeerId:=PeerId)).
Abbreviation answers := (RpcTypes.BlocksByRangeRequest -> PeerId -> nat -> option (list RPCResponse)).

(** ** Acts and turns *)

(** A block of a peer: it is processed and the own approval is sent. *)
Definition take_block (b : SignedConsensusBlock) (c : t) : t :=
  match process_block b c with
  | (Ok (Some our_approval), c') =>
      send (ApproveBlockMsg (Candidates.mkApprove (canonical_root b) (Signatures.data our_approval))) c'
  | (_, c') => c'
  end.

Section Inputs.
(** The blocks and approvals that may arrive. *)
Context (in_block : SignedConsensusBlock -> Prop) (in_approval : Candidates.ApproveBlock -> Prop).

Inductive act : t -> t -> Prop :=
| act_block b c : in_block b -> act c (take_block b c)
| act_sync_block h b c : in_block b -> act c (sync_block h b c).2
| act_publish m a sb c :
    Aura.authority (aura (config c)) = Some a -> sign_block m a = Ok sb -> act c (publish sb c).2
| act_approval x c : in_approval x -> act c (process_approval x c).2
| act_rollback h c : act c (rollback_head h c).2
| act_rpc send_rpc req c : act c (send_with_peer_fallback send_rpc req c).2
| act_status x c : act c (set_sync_status x c)
| act_fill balances c : act c (fill_pegins balances c).2
| act_build ts h balances c : act c (on_engine (Engine.build_block ts h balances) c).2
| act_queue_pow pow c : act c (queue_pow pow c).2
| act_push st en bits cid height a addr c : act c (push_auxpow st en bits cid height a addr c).2
| act_signatures sigs c : act c (store_signatures sigs c).2
| act_peers ps c : act c (set_peers ps c)
| act_serve start count c : act c (on_blocks_by_range start count c).2
| act_bitcoin was_synced ps height c : act c (on_bitcoin_block was_synced ps height c).2
| act_cache c : act c (init_block_hash_cache c).2
| act_restart e w col now c c' :
    Chain.new (config c) e (storage c) w col now = Ok c' -> act c c'.

(** The peers answer with such blocks only. *)
Definition answers_in (send_rpc : answers) : Prop :=
  forall req p n stream b, send_rpc req p n = Some stream -> BlocksByRange b ∈ stream -> in_block b.

Definition message_in (msg : PubsubMessage) : Prop :=
  match msg with
  | ConsensusBlockMsg b => in_block b
  | ApproveBlockMsg a => in_approval a
  | QueuePowMsg _ | PegoutSignaturesMsg _ => True
  end.

(** A turn of one of the node's tasks, with whatever the peers answer; a task
    that panics leaves its state to the restart. *)
Inductive turn : t -> t -> Prop :=
| turn_gossip send_rpc rounds msg c :
    answers_in send_rpc -> message_in msg -> turn c (on_gossip send_rpc rounds msg c).2
| turn_produce send_rpc rounds slot ts c :
    answers_in send_rpc -> turn c (produce_block send_rpc rounds slot ts c).2
| turn_sync send_rpc rounds c : answers_in send_rpc -> turn c (sync send_rpc rounds c).2
| turn_push st en bits cid height a addr c : turn c (push_auxpow st en bits cid height a addr c).2
| turn_peers ps c : turn c (on_peers ps c).2
| turn_serve start count c : turn c (on_blocks_by_range start count c).2
| turn_bitcoin was_synced ps height c : turn c (on_bitcoin_block was_synced ps height c).2
| turn_cache c : turn c (init_block_hash_cache c).2
| turn_restart e w col now c c' :
    Chain.new (config c) e (storage c) w col now = Ok c' -> turn c c'.

(** ** A turn is a sequence of acts *)

Abbreviation acts := (rtc act).

#[local] Hint Extern 1 (act _ _) => constructor; assumption : alys.
#[local] Hint Extern 1 (rtc act ?c ?c) => apply rtc_refl : alys.

Lemma acts_once {E X} (m : ST t E X) : (forall c, act c (m c).2) -> tracks acts m.
Proof. intros H c. apply rtc_once, H. Qed.

#[local] Hint Extern 2 (tracks acts _) => apply acts_once; intros; constructor; assumption : alys.

Lemma acts_ignore {E E' X} (m : ST t E X) : tracks acts m -> tracks acts (st_ignore m : ST t E' unit).
Proof. intros H c. unfold st_ignore. specialize (H c). by destruct (m c) as [[]]. Qed.

Section Answered.
Context (send_rpc : answers) (Hin : answers_in send_rpc).

Lemma sync_stream_acts h stream n :
  (forall b, BlocksByRange b ∈ stream -> in_block b) -> tracks acts (sync_stream h stream n).
Proof.
  revert n. induction stream as [|[b|] stream IH]; intros n Hs; cbn [sync_stream].
  - auto with alys typeclass_instances.
  - assert (in_block b) by (apply Hs; by left).
    assert (forall n, tracks acts (sync_stream h stream n)) by (intros m; apply IH; intros x ?; apply Hs; by right).
    track.
  - apply IH. intros x ?. apply Hs. by right.
Qed.

Lemma fallback_in req c stream c' b :
  send_with_peer_fallback send_rpc req c = (Ok stream, c') -> BlocksByRange b ∈ stream -> in_block b.
Proof.
  intros (p & i & Hp)%fallback_answer. by eapply Hin.
Qed.

Lemma sync_rounds_acts rounds : tracks acts (sync_rounds send_rpc rounds).
Proof.
  induction rounds as [|rounds IH]; intros c; [apply rtc_refl|]. cbn [sync_rounds].
  destruct (add_chk _ _ _) as [start| |]; [|apply rtc_refl..].
  pose proof (act_rpc send_rpc (RpcTypes.mkRange start (Z.of_nat BLOCK_COUNT)) c) as Ha.
  destruct (send_with_peer_fallback _ _ c) as [[stream| |] c1] eqn:Ef; [|by apply rtc_once..].
  eapply rtc_l; [exact Ha|]. cbn [snd].
  set (h := match head c with Some x => ref_height x | None => 0 end).
  pose proof (sync_stream_acts h stream 0 (fun b => fallback_in _ _ _ _ b Ef) c1) as Hs.
  destruct (sync_stream h stream 0 c1) as [[[n|]| |] c2]; [|done..].
  etrans; [exact Hs|]. cbn [snd]. destruct (n <? BLOCK_COUNT)%nat; [|apply IH].
  apply rtc_once. constructor.
Qed.

Lemma sync_acts rounds : tracks acts (sync send_rpc rounds).
Proof.
  unfold sync. apply tracks_bind; [apply _|auto with alys|]. intros _. track; [|apply sync_rounds_acts].
  intros c. apply rtc_refl.
Qed.
#[local] Hint Resolve sync_acts : alys.

Lemma propose_acts slot payload prev ps pegouts fin :
  tracks acts (propose slot payload prev ps pegouts fin).
Proof.
  intros c. unfold propose. unfold mbind, st_bind, getS, liftR.
  destruct (new_block _ _ _ _ _ _ _) as [m| |]; [|apply rtc_refl..].
  destruct (Aura.authority (aura (config c))) as [a|] eqn:Ea; [cbn [unwrap]|apply rtc_refl].
  destruct (sign_block m a) as [sb| |] eqn:Es; [|apply rtc_refl..]. apply rtc_once. by eapply act_publish.
Qed.

Lemma build_acts rounds slot ts prev payload balances ps fin :
  tracks acts (build_and_propose send_rpc rounds slot ts prev payload balances ps fin).
Proof.
  intros c. unfold build_and_propose. pose proof (act_build ts payload balances c) as Ha.
  destruct (on_engine _ c) as [[p|e|] c1]; cbn [snd] in Ha.
  - eapply rtc_l; [exact Ha|]. destruct (create_pegout_payments c1 payload); [|apply rtc_refl..].
    apply propose_acts.
  - destruct e; try by apply rtc_once. eapply rtc_l; [exact Ha|]. apply sync_acts.
  - by apply rtc_once.
Qed.
#[local] Hint Resolve build_acts acts_ignore : alys.

Lemma produce_acts rounds slot ts : tracks acts (produce_block send_rpc rounds slot ts).
Proof. unfold produce_block. track. Qed.

Lemma gossip_block_acts rounds b : in_block b -> tracks acts (process_gossip_block send_rpc rounds b).
Proof.
  intros Hb c. unfold process_gossip_block. pose proof (act_block b c Hb) as Ha. unfold take_block in Ha.
  destruct (process_block b c) as [[[a|]|e|] c1]; try by apply rtc_once.
  destruct e; try (by apply rtc_once); (eapply rtc_l; [exact Ha|apply sync_acts]).
Qed.
#[local] Hint Resolve gossip_block_acts : alys.

Lemma gossip_acts rounds msg : message_in msg -> tracks acts (on_gossip send_rpc rounds msg).
Proof.
  destruct msg as [b|a|pow|sigs]; cbn [on_gossip message_in]; intros Hm.
  - unfold on_consensus_block. track. intros c. apply rtc_refl.
  - track.
  - unfold on_queue_pow. track. intros c. apply rtc_refl.
  - track.
Qed.

End Answered.

(** A turn of any task is a sequence of acts. *)
Lemma turn_acts c c' : turn c c' -> acts c c'.
Proof.
  intros Ht. destruct Ht.
  - by apply gossip_acts.
  - by apply produce_acts.
  - by apply sync_acts.
  - apply rtc_once, act_push.
  - apply rtc_once, act_peers.
  - apply rtc_once, act_serve.
  - apply rtc_once, act_bitcoin.
  - apply rtc_once, act_cache.
  - apply rtc_once. by eapply act_restart.
Qed.

Lemma turns_acts c c' : rtc turn c c' -> acts c c'.
Proof. induction 1 as [|c1 c2 c3 H _ IH]; [done|]. etrans; [by apply turn_acts|done]. Qed.

End Inputs.

(** ** Invariants of the node *)

Section Kept.
Context `{!StoreLaws S, !BlockLaws K}.
Context (in_block : SignedConsensusBlock -> Prop) (in_approval : Candidates.ApproveBlock -> Prop).

(** An invariant is given by what may be stored ([P]), filed ([filed]) and sent
    ([Out]), and by a property of the candidates; [started] adds that there is a
    head. *)
Context (au : Aura.t) (P filed : SignedConsensusBlock -> Prop) (Cand : Candidates.t -> Prop)
        (Out : PubsubMessage -> Prop) (started : Prop).

Record rules : Prop := {
  cand_new : Cand Candidates.new;
  cand_accept h cs b : Cand cs -> Candidates.get_block h cs = Some b ->
    Aura.majority_approved au b = Ok true -> P b;
  cand_insert b sync cs : filed b -> Cand cs -> Cand (Candidates.insert b sync cs).2;
  cand_approval x sync cs : in_approval x -> Cand cs ->
    Cand (Candidates.add_approval x (Aura.authorities au) sync cs).2;
  cand_own b a sync cs : filed b -> Aura.authority au = Some a -> Cand cs ->
    Cand (Candidates.add_approval
            (Candidates.mkApprove (canonical_root b) (Signatures.data (sign (message b) a)))
            (Aura.authorities au) sync cs).2;
  out_own b a : filed b -> Aura.authority au = Some a ->
    Out (ApproveBlockMsg
           (Candidates.mkApprove (canonical_root b) (Signatures.data (sign (message b) a))));
  out_block b : filed b -> Out (ConsensusBlockMsg b);
  out_pow x : Out (QueuePowMsg x);
  out_signatures x : Out (PegoutSignaturesMsg x);
}.

Context (Hrules : rules).

Definition ref_ok (r : BlockRef) : Prop := exists b, P b /\ r = block_ref b.

Record store_ok (d : Store.Db) : Prop := {
  so_block h b : Store.get_block d h = Ok (Some b) -> P b /\ canonical_root b = h;
  so_head r : Store.get_head d = Ok (Some r) -> ref_ok r;
  so_started : started -> Store.get_head d <> Ok None;
}.

Record ok (c : t) : Prop := {
  ok_aura : aura (config c) = au;
  ok_store : store_ok (storage c);
  ok_head r : head c = Some r -> ref_ok r;
  ok_started : started -> head c <> None;
  ok_candidates : Cand (block_candidates c);
  ok_outbox : Forall Out (outbox c);
}.

Definition keeps : relation t := fun c c' => ok c -> ok c'.

#[local] Instance keeps_preorder : PreOrder keeps.
Proof. unfold keeps. split; [by intros c H|]. intros c1 c2 c3 H1 H2 H. auto. Qed.

(** What may be written. *)
Inductive op_ok : Store.KeyValueStoreOp -> Prop :=
| op_block b :
    P b -> op_ok (Store.PutKeyValue (Store.col_key Store.Block (canonical_root b)) (rmp_signed b))
| op_head r :
    ref_ok r -> op_ok (Store.PutKeyValue (Store.col_key Store.ChainInfo Store.HEAD_KEY) (ssz_ref r))
| op_pow x :
    op_ok (Store.PutKeyValue (Store.col_key Store.ChainInfo Store.LATEST_POW_BLOCK_KEY) x)
| op_other col k x :
    col <> Store.Block -> col <> Store.ChainInfo ->
    op_ok (Store.PutKeyValue (Store.col_key col k) x).

#[local] Hint Constructors op_ok : alys.

Lemma apply_op_ok m rd wr op :
  op_ok op -> store_ok (Store.mkDb m rd wr) -> store_ok (Store.mkDb (Store.apply_op m op) rd wr).
Proof.
  intros Ho [Hb Hh Hs]. destruct rd; [|by split].
  split; [intros h b'; specialize (Hb h b')|intros r'; specialize (Hh r')|intros Hst; specialize (Hs Hst)];
    revert Hb Hh Hs; unfold Store.get_block, Store.get_block_with, Store.get_head, Store.get_ref,
      Store.get_bytes, mbind, res_bind; cbn [Store.kv Store.read_ok unwrap_res map_err];
    intros Hb Hh Hs; destruct Ho as [b Hd|r Hr|x|col k x H1 H2];
    try (rewrite Store.lookup_put_ne by naive_solver; done).
  - destruct (decide (h = canonical_root b)) as [->|Hne].
    + rewrite Store.lookup_put_eq, rmp_round_trip. by intros [= <-].
    + by rewrite Store.lookup_put_ne by naive_solver.
  - rewrite Store.lookup_put_eq, ssz_ref_round_trip. by intros [= <-].
  - by rewrite Store.lookup_put_eq, ssz_ref_round_trip.
Qed.

Lemma commit_ok ops d : Forall op_ok ops -> store_ok d -> store_ok (Store.commit_ops ops d).2.
Proof.
  intros Ho Hd. unfold Store.commit_ops. destruct (Store.write_ok d) eqn:Ew; [cbn|done].
  destruct d as [m rd wr]. cbn in *. subst wr. revert m Hd.
  induction Ho as [|op ops Ho _ IH]; intros m Hd; [done|]. cbn. by apply IH, apply_op_ok.
Qed.

Lemma by_height_ok d k b :
  store_ok d -> Store.get_block_by_height d k = Ok (Some b) -> P b.
Proof.
  intros Hd H. unfold Store.get_block_by_height in H. inv_res.
  match goal with H : Store.get_block _ _ = _ |- _ => by apply (so_block _ Hd) in H as [? _] end.
Qed.

(** The parts of the state that matter. *)
Definition stored (c : t) := (config c, head c, storage c, block_candidates c, outbox c).

Lemma same_keeps c c' : stored c' = stored c -> keeps c c'.
Proof. intros [= E1 E2 E3 E4 E5] [H1 H2 H3 H4 H5 H6]. split; by rewrite ?E1, ?E2, ?E3, ?E4, ?E5. Qed.

Lemma send_keeps m c : Out m -> keeps c (send m c).
Proof.
  intros Hm [H1 H2 H3 H4 H5 H6]. split; [done..|]. apply Forall_app. split; [done|by constructor].
Qed.

Lemma keeps_modify f : (forall c, stored (f c) = stored c) -> tracks keeps (modifyS f : ST t Error unit).
Proof. intros H. apply tracks_modifyS. intros c. by apply same_keeps. Qed.

Lemma keeps_zoom {T E X} (get : t -> T) set (m : ST T E X) :
  (forall x c, stored (set x c) = stored c) -> tracks keeps (zoom get set m).
Proof. intros H. apply tracks_zoom. intros x c. by apply same_keeps. Qed.

Lemma storage_keeps {X} (m : ST Store.Db Error X) :
  (forall d, store_ok d -> store_ok (m d).2) -> tracks keeps (on_storage m).
Proof.
  intros Hm c [H1 H2 H3 H4 H5 H6]. unfold on_storage, zoom. specialize (Hm _ H2).
  by destruct (m (storage c)).
Qed.

Lemma keeps_commit ops : Forall op_ok ops -> tracks keeps (on_storage (Store.commit_ops ops)).
Proof. intros Ho. apply storage_keeps. intros d. by apply commit_ok. Qed.

#[local] Hint Extern 2 (tracks keeps (modifyS _)) => apply keeps_modify; done : alys.
#[local] Hint Extern 2 (tracks keeps (zoom _ _ _)) => apply keeps_zoom; done : alys.
#[local] Hint Extern 2 (tracks keeps (on_wallet _)) => apply keeps_zoom; done : alys.
#[local] Hint Extern 2 (tracks keeps (on_collector _)) => apply keeps_zoom; done : alys.
#[local] Hint Extern 2 (tracks keeps (on_engine _)) => apply keeps_zoom; done : alys.
#[local] Hint Resolve tracks_unwrap tracks_map_err keeps_preorder : alys.

Lemma pow_send_keeps pow : tracks keeps (modifyS (send (QueuePowMsg pow)) : ST t Error unit).
Proof. intros c. apply send_keeps, Hrules. Qed.
Lemma signatures_send_keeps sigs : tracks keeps (modifyS (send (PegoutSignaturesMsg sigs)) : ST t Error unit).
Proof. intros c. apply send_keeps, Hrules. Qed.

Lemma store_signatures_keeps sigs : tracks keeps (store_signatures sigs).
Proof. unfold store_signatures. track. Qed.
#[local] Hint Resolve pow_send_keeps signatures_send_keeps store_signatures_keeps : alys.

Lemma queue_pow_keeps pow : tracks keeps (queue_pow pow).
Proof. unfold queue_pow. track. apply tracks_unwrap. unfold maybe_generate_signatures. track. Qed.
#[local] Hint Resolve queue_pow_keeps : alys.

Lemma push_auxpow_keeps st en bits cid height a addr :
  tracks keeps (push_auxpow st en bits cid height a addr).
Proof.
  intros c. unfold push_auxpow. case_match; [done|].
  destruct (check_pow c _ false); [|done..].
  assert (tracks keeps (share_pow (mkAuxPowHeader st en bits cid height (Some a) addr))) as Hs
    by (unfold share_pow; track).
  specialize (Hs c). by destruct (share_pow _ c) as [[]].
Qed.

(** *** Imports *)

Lemma process_pegs_keeps b : tracks keeps (process_pegs b).
Proof. unfold process_pegs, process_pegin, process_finalized_pegout. track. Qed.

Lemma finalize_keeps b root pow : tracks keeps (finalize b root pow).
Proof. unfold finalize. track. Qed.

Lemma update_cache_keeps b : tracks keeps (update_block_hash_cache b).
Proof. unfold update_block_hash_cache. track. Qed.
#[local] Hint Resolve process_pegs_keeps finalize_keeps update_cache_keeps : alys.

Lemma update_head_keeps b root height ov :
  P b -> block_ref b = mkRef root height -> tracks keeps (update_head_ref_ops root height ov).
Proof.
  intros Hb E c Hc. unfold update_head_ref_ops.
  assert (ok (set_head (Some (mkRef root height)) c)).
  { destruct Hc as [H1 H2 H3 H4 H5 H6]. split; [done|done| |done..]. intros r [= <-]. exists b. by split. }
  destruct (head c); [|done]. by destruct (_ && _).
Qed.

Lemma update_head_ops b root height ov (c : t) ops c' :
  P b -> block_ref b = mkRef root height ->
  update_head_ref_ops root height ov c = (Ok ops, c') -> Forall op_ok ops.
Proof.
  intros Hb E. unfold update_head_ref_ops.
  assert (Forall op_ok (Store.set_head (mkRef root height))).
  { constructor; [|constructor]. apply op_head. exists b. by split. }
  destruct (head c); [destruct (_ && _)|]; by intros [= <- <-].
Qed.

Lemma put_block_ops b : P b -> Forall op_ok (Store.put_block (canonical_root b) b).
Proof.
  intros Hb. unfold Store.put_block. destruct (auxpow_header (message b)); repeat constructor; done.
Qed.

Lemma import_no_commit_keeps b : P b -> tracks keeps (import_verified_block_no_commit b).
Proof.
  intros Hb. unfold import_verified_block_no_commit.
  apply tracks_bind; [apply _|auto with alys|]. intros c.
  apply tracks_bind; [apply _|auto with alys|]. intros [eb rs].
  apply (tracks_bind_post _ (Forall op_ok)); [auto with alys| |].
  { intros c1 ops c2 [= Hops _]. apply accumulate_fees_ops in Hops as (fees & -> & _).
    repeat constructor; done. }
  intros fee_ops Hfee. apply tracks_bind; [apply _|track|]. intros _.
  apply (tracks_bind_post _ (Forall op_ok)); [by eapply update_head_keeps| |].
  { intros c1 ops c2. by apply (update_head_ops b). }
  intros head_ops Hhead. apply (tracks_bind_post _ (Forall op_ok)); [track| |].
  { intros c1 ops c2 H. destruct (auxpow_header (message b)); [|by injection H as <- <-].
    apply finalize_ok in H as [-> _]. repeat constructor. }
  intros pow_ops Hpow. apply tracks_bind; [apply _| |track].
  apply keeps_commit. by rewrite !Forall_app; auto using put_block_ops.
Qed.

Lemma import_keeps b : P b -> tracks keeps (import_verified_block b).
Proof.
  intros Hb. unfold import_verified_block. track. by apply import_no_commit_keeps.
Qed.

(** *** Accepting and checking blocks *)

Lemma maybe_accept_keeps h : tracks keeps (maybe_accept_block h).
Proof.
  intros c Hc. unfold maybe_accept_block, getS, liftR, mbind, st_bind.
  destruct (Candidates.get_block h (block_candidates c)) as [b|] eqn:Eb; [|done].
  rewrite (ok_aura _ Hc). destruct (Aura.majority_approved au b) as [[]| |] eqn:Em; [|done..].
  cbn [on_candidates zoom Candidates.clear modifyS]. apply import_keeps.
  - by eapply (cand_accept Hrules); [apply (ok_candidates _ Hc)|..].
  - destruct Hc as [H1 H2 H3 H4 H5 H6]. split; [done..| |done]. apply Hrules.
Qed.

(** An update of the candidates, of a node with the authorities of [au]. *)
Lemma candidates_keeps (m : t -> ST Candidates.t Error unit) :
  (forall c cs, aura (config c) = au -> Cand cs -> Cand (m c cs).2) ->
  tracks keeps (c ← getS; on_candidates (m c)).
Proof.
  intros Hm c [H1 H2 H3 H4 H5 H6]. unfold getS, on_candidates, zoom, mbind, st_bind.
  specialize (Hm c _ H1 H5). by destruct (m c (block_candidates c)).
Qed.

Lemma process_approval_keeps x : in_approval x -> tracks keeps (process_approval x).
Proof.
  intros Hx c Hc. unfold process_approval.
  assert (keeps c (on_candidates (Candidates.add_approval x (Aura.authorities (aura (config c)))
            (is_synced (sync_status c))) c).2) as H1.
  { apply (candidates_keeps (fun c => Candidates.add_approval x (Aura.authorities (aura (config c)))
             (is_synced (sync_status c)))). intros c0 cs ->. by apply Hrules. }
  specialize (H1 Hc). unfold getS, mbind, st_bind.
  destruct (on_candidates _ c) as [[] c1]; [|done..]. by apply maybe_accept_keeps.
Qed.

Lemma set_candidates_ok cs c : ok c -> Cand cs -> ok (set_block_candidates cs c).
Proof. intros [H1 H2 H3 H4 H5 H6] Hcs. by split. Qed.

Lemma file_candidate_keeps b : filed b -> tracks keeps (file_candidate b).
Proof.
  intros Hb c Hc. unfold file_candidate, getS, on_candidates, zoom, mbind, st_bind. cbv zeta.
  pose proof (cand_insert Hrules b (is_synced (sync_status c)) _ Hb (ok_candidates _ Hc)) as Hi.
  destruct (Candidates.insert _ _ _) as [r1 cs1] eqn:Ei. cbn [snd] in Hi.
  pose proof (set_candidates_ok _ _ Hc Hi) as Hc1.
  rewrite (ok_aura _ Hc). destruct (Aura.authority au) as [a|] eqn:Ea; rewrite Ei; [|by destruct r1].
  pose proof (cand_own Hrules b a (is_synced (sync_status c)) _ Hb Ea Hi) as Ho.
  destruct r1 as [u| |]; [|done..]. cbn [block_candidates set_block_candidates] in *.
  destruct (Candidates.add_approval _ _ _ _) as [r2 cs2].
  pose proof (set_candidates_ok _ _ Hc1 Ho) as Hc2. by destruct r2.
Qed.

Lemma check_pegout_keeps b h : tracks keeps (check_pegout_proposal b h).
Proof. unfold check_pegout_proposal. track. Qed.
#[local] Hint Resolve maybe_accept_keeps file_candidate_keeps check_pegout_keeps : alys.

Lemma check_block_keeps b : tracks keeps (check_block b).
Proof. unfold check_block. track. Qed.

(** What is known of the block when its checks pass in [c]. *)
Definition passes (c : t) (b : SignedConsensusBlock) : Prop :=
  exists c', check_block b c = (Ok tt, c').

Lemma process_block_keeps b c : (passes c b -> filed b) -> keeps c (process_block b c).2.
Proof.
  intros Hb Hc. unfold process_block. unfold mbind at 1, st_bind at 1.
  pose proof (check_block_keeps b c Hc) as H1.
  destruct (check_block b c) as [[[]| |] c1] eqn:E; [|done..]. cbn [snd] in H1.
  assert (filed b) by (apply Hb; by exists c1). revert H1.
  match goal with |- ok c1 -> ok (?m c1).2 => enough (tracks keeps m) as Hm by apply Hm end. track.
Qed.

(** The approval that is returned is the own one, of a block that was filed. *)
Lemma process_block_approval b (c : t) x c' :
  process_block b c = (Ok (Some x), c') ->
  passes c b /\ exists a, Aura.authority (aura (config c)) = Some a /\ x = sign (message b) a.
Proof.
  unfold process_block. intros ([] & c1 & Hch & H)%st_bind_Ok. split; [by exists c1|].
  pose proof (check_block_core b c) as Hcore. rewrite Hch in Hcore. injection Hcore as Ecfg _ _ _ _.
  apply st_bind_Ok in H as (y & c2 & Hf & H). apply st_bind_Ok in H as ([] & c3 & _ & [= -> _]).
  unfold file_candidate in Hf. apply st_bind_Ok in Hf as (? & ? & [= <- <-] & Hf).
  rewrite Ecfg in Hf. destruct (Aura.authority (aura (config c))) as [a|].
  - apply st_bind_Ok in Hf as ([] & ? & _ & Hf). apply st_bind_Ok in Hf as ([] & ? & _ & [= <- _]). eauto.
  - apply st_bind_Ok in Hf as ([] & ? & _ & [= _]).
Qed.

(** *** Roll backs and the other acts *)

Lemma rollback_keeps h : tracks keeps (rollback_head h).
Proof.
  intros c Hc. unfold rollback_head.
  match goal with |- ok ((getS ≫= ?k) c).2 => change (ok (k c c).2); cbv beta end.
  destruct (Store.get_block_by_height (storage c) h) as [[b|]| |] eqn:Eb; [|done..].
  match goal with |- ok ((_ ≫= ?k) c).2 => change (ok (k (Some b) c).2); cbv beta end.
  match goal with |- ok ((_ ≫= ?k) c).2 => change (ok (k b c).2); cbv beta end.
  apply (by_height_ok _ _ _ (ok_store _ Hc)) in Eb.
  match goal with |- ok (?m c).2 => enough (tracks keeps m) as Hm by by apply Hm end.
  apply tracks_bind; [apply _|auto with alys|]. intros pow_block.
  apply (tracks_bind_post _ (Forall op_ok)); [by eapply update_head_keeps| |].
  { intros c1 ops c2. by apply (update_head_ops b). }
  intros ops Hops. apply keeps_commit. apply Forall_app. split; [done|].
  destruct pow_block; repeat constructor.
Qed.

Lemma sync_block_keeps h b c : (passes c b -> filed b) -> keeps c (sync_block h b c).2.
Proof.
  intros Hb Hc. unfold sync_block. pose proof (process_block_keeps b c Hb Hc) as H1.
  destruct (process_block b c) as [r c1]; cbn in H1.
  pose proof (rollback_keeps (saturating_sub h 1) c1 H1) as H2.
  destruct (rollback_head (saturating_sub h 1) c1) as [r2 c2]; cbn in H2.
  repeat (case_match; try done).
Qed.

Lemma take_block_keeps b c : (passes c b -> filed b) -> keeps c (take_block b c).
Proof.
  intros Hb Hc. unfold take_block. pose proof (process_block_keeps b c Hb Hc) as H1.
  destruct (process_block b c) as [[[x|]| |] c1] eqn:E; [|done..]. cbn in H1.
  apply process_block_approval in E as (Hp & a & Ha & ->). rewrite (ok_aura _ Hc) in Ha.
  apply send_keeps; [|done]. apply Hrules; auto.
Qed.

Lemma publish_keeps b c : (passes c b -> filed b) -> keeps c (publish b c).2.
Proof.
  intros Hb Hc. unfold publish. pose proof (process_block_keeps b c Hb Hc) as H1.
  destruct (process_block b c) as [[x| |] c1] eqn:E; [|done..]. cbn in H1.
  apply st_bind_Ok in E as ([] & c2 & Hch & _).
  apply send_keeps; [|done]. apply Hrules, Hb. by exists c2.
Qed.

Lemma serve_keeps start count : tracks keeps (on_blocks_by_range start count).
Proof.
  intros c Hc. unfold on_blocks_by_range.
  assert (tracks keeps (on_storage (ChainRange.get_blocks (head c) start count))) as Hs.
  { apply storage_keeps. intros d Hd. unfold ChainRange.get_blocks, getS, liftR, modifyS, mbind, st_bind.
    destruct (ok_or (head c) _); [|done..].
    destruct (ChainRange.blocks_loop _ _ _ _ _) as [[bs puts]| |]; [cbn|done..].
    revert d Hd. induction puts as [|b puts IH]; intros d Hd; [done|]. cbn [foldl]. apply IH.
    apply commit_ok; [|done]. repeat constructor; done. }
  specialize (Hs c Hc). by destruct (on_storage _ c) as [[]].
Qed.

Lemma bitcoin_keeps was_synced ps height : tracks keeps (on_bitcoin_block was_synced ps height).
Proof.
  unfold on_bitcoin_block. track. apply tracks_unwrap, keeps_commit. repeat constructor; done.
Qed.

Lemma new_ok cfg e d w col now (c : t) :
  aura cfg = au -> store_ok d -> Chain.new cfg e d w col now = Ok c -> ok c.
Proof.
  intros Ha Hd Hn. unfold new in Hn. destruct (Store.get_head d) as [h| |] eqn:Eh; cbn in Hn; [|done..].
  injection Hn as <-. split; cbn; [done|done| | |apply Hrules|constructor].
  - intros r ->. by apply (so_head _ Hd).
  - intros Hs ->. by apply (so_started _ Hd Hs).
Qed.

(** Every act keeps the invariant, when the blocks that pass the checks in the
    state at hand may be filed. *)
Theorem act_keeps c c' :
  (forall b, passes c b -> in_block b -> filed b) ->
  (forall m a sb, passes c sb -> Aura.authority au = Some a -> sign_block m a = Ok sb -> filed sb) ->
  act in_block in_approval c c' -> ok c -> ok c'.
Proof.
  intros Hin Hown Ha Hc. destruct Ha.
  - apply take_block_keeps; auto.
  - apply sync_block_keeps; auto.
  - apply publish_keeps; [|done]. intros Hp. eapply Hown; [done| |done]. by rewrite <-(ok_aura _ Hc).
  - by apply process_approval_keeps.
  - by apply rollback_keeps.
  - assert (tracks keeps (send_with_peer_fallback send_rpc req)) as H1
      by (unfold send_with_peer_fallback; track). by apply H1.
  - by apply (same_keeps c).
  - assert (tracks keeps (fill_pegins balances)) as H1 by (unfold fill_pegins; track). by apply H1.
  - assert (tracks keeps (on_engine (Engine.build_block ts h balances))) as H1 by auto with alys. by apply H1.
  - by apply queue_pow_keeps.
  - by apply push_auxpow_keeps.
  - by apply store_signatures_keeps.
  - by apply (same_keeps c).
  - by apply serve_keeps.
  - by apply bitcoin_keeps.
  - assert (tracks keeps init_block_hash_cache) as H1 by (unfold init_block_hash_cache; track). by apply H1.
  - eapply new_ok; [apply Hc|apply Hc|done].
Qed.

End Kept.

(** ** The start *)

Section Genesis.
Context `{!StoreLaws S, !BlockLaws K}.
Context (in_approval : Candidates.ApproveBlock -> Prop) (au : Aura.t)
        (P filed : SignedConsensusBlock -> Prop) (Cand : Candidates.t -> Prop) (Out : PubsubMessage -> Prop).

Lemma empty_store_ok : store_ok P False (Store.mkDb ∅ true true).
Proof.
  destruct (Store.represents_reads _ _ Store.represents_empty) as (Rb & _ & Rh & _).
  split; [| |done]; intros *; [rewrite Rb|rewrite Rh]; cbn; by rewrite ?lookup_empty.
Qed.

(** A node that has stored the genesis block in an empty database satisfies the
    invariant, when that block does. *)
Lemma genesis_ok cfg e w col now bits cid (c0 c : t) :
  rules in_approval au P filed Cand Out -> aura cfg = au ->
  Chain.new cfg e (Store.mkDb ∅ true true) w col now = Ok c0 ->
  store_genesis bits cid c0 = (Ok tt, c) ->
  exists payload g, Engine.get_payload_by_tag_from_engine [48; 120; 48] e = Ok payload /\
    genesis bits cid payload = Ok g /\ (P g -> ok au P Cand Out True c).
Proof.
  intros Hr Ha Hnew Hgen. assert (engine c0 = e /\ storage c0 = Store.mkDb ∅ true true /\ head c0 = None)
    as (He & Hst & Hh).
  { unfold new in Hnew. destruct (Store.represents_reads _ _ Store.represents_empty) as (_ & _ & Rh & _).
    rewrite Rh in Hnew. by injection Hnew as <-. }
  unfold store_genesis in Hgen. apply st_bind_Ok in Hgen as (? & ? & [= <- <-] & Hgen).
  apply st_bind_Ok in Hgen as (payload & ? & [= Hp <-] & Hgen).
  apply st_bind_Ok in Hgen as (g & ? & [= Hg <-] & Hgen).
  apply st_bind_Ok in Hgen as (known & ? & [= Hk <-] & Hgen).
  rewrite He in Hp. apply unwrap_res_Ok in Hp. exists payload, g. split_and!; [done|done|]. intros HPg.
  destruct (Store.represents_reads _ _ Store.represents_empty) as (Rb & _).
  rewrite Hst, Rb in Hk. cbn in Hk. rewrite lookup_empty in Hk. injection Hk as <-.
  assert (ok au P Cand Out False c0) as Hok by (eapply new_ok; [done..|apply empty_store_ok|done]).
  pose proof (import_no_commit_keeps (fun _ => True) _ _ _ _ _ g HPg c0 Hok) as Hok1. rewrite Hgen in Hok1.
  destruct (genesis_inv _ _ _ _ Hg) as (Hn & _ & Hx).
  apply (import_no_commit_ok _ Store.empty_view) in Hgen as [[fees R] Ih _ _ _];
    [|rewrite Hst; apply Store.represents_empty|split_and!; [apply tree_merkle_root_len|by rewrite Hn|intros h; rewrite Hx; by intros [= <-]]
     |by rewrite Hh].
  destruct (Store.represents_reads _ _ R) as (_ & _ & Rh & _).
  destruct Hok1 as [H1 [B1 B2 _] H3 _ H5 H6]. split; try done.
  - split; [done|done|]. intros _. rewrite Rh. by rewrite (proj1 (proj2 (view_import_fields _ _ _))).
  - intros _. by rewrite Ih.
Qed.

End Genesis.

(** A weaker invariant. *)
Lemma ok_mono au (P P' : SignedConsensusBlock -> Prop) (Cand Cand' : Candidates.t -> Prop)
    (Out Out' : PubsubMessage -> Prop) started c :
  (forall b, P b -> P' b) -> (forall cs, Cand cs -> Cand' cs) -> (forall m, Out m -> Out' m) ->
  ok au P Cand Out started c -> ok au P' Cand' Out' started c.
Proof.
  intros HP HC HO [H1 [B1 B2 B3] H3 H4 H5 H6]. split; [done| | |done|auto|by eapply Forall_impl].
  - split; [|intros r (b & ? & ->)%B2; exists b; auto|done]. intros h b [? ?]%B1. auto.
  - intros r (b & ? & ->)%H3. exists b. auto.
Qed.

Lemma act_mono (P P' : SignedConsensusBlock -> Prop) (Q Q' : Candidates.ApproveBlock -> Prop) c c' :
  (forall b, P b -> P' b) -> (forall x, Q x -> Q' x) -> act P Q c c' -> act P' Q' c c'.
Proof. intros HP HQ Ha. destruct Ha; econstructor; eauto. Qed.

End WithLibs.
End Acts.
