(* ===== verification/Safety.v ===== *)
(** Consensus safety of the whole node: whatever its handlers do, blocks of
    peers, own production, synchronisation, roll backs and restarts included,
    its head and every block it stores descend from the genesis block by
    blocks that the majority of the authorities approved. *)
From stdpp Require Import base decidable list gmap.
From Stdlib Require Import ZArith Lia.
From S2P Require Import Prelude Bitcoin Errors AuxPow Signatures Block Serial Aura Candidates.
From S2P Require Import Store Retarget AuxMiner BTree Wallet Bridge Engine Payouts ChainRange.
From S2P Require Import RpcRetry BlockHashCache Chain Node ChainProofs Acts.

Module Safety.
Import Chain Node ChainProofs Acts.

Section WithLibs.
Context `{B : BitcoinLib, L : BlsLib, K : BlockLib, S : StoreLib, D : DecimalLib,
          W : WalletLib, F : !FeeEstimate, G : BridgeLib, A : !ExecutionApi}.
Context `{!StoreLaws S, !BlockLaws K}.
Context {PeerId : Type}.

Abbreviation t := (Chain.t (PeerId:=PeerId)).

(** ** Descent from a genesis block *)

Section Descent.
Context (au : Aura.t) (g : SignedConsensusBlock).

(** [m] names [p] as its parent, and its payload is built on [p]'s. *)
Definition built_on (m : ConsensusBlock) (p : SignedConsensusBlock) : Prop :=
  parent_hash m = canonical_root p /\
  p_parent_hash (execution_payload m) = p_block_hash (execution_payload (message p)).

Inductive descends : SignedConsensusBlock -> Prop :=
| descends_genesis : descends g
| descends_approved b p :
    Aura.majority_approved au b = Ok true -> built_on (message b) p -> descends p -> descends b.

Definition proposed (m : ConsensusBlock) : Prop := exists p, built_on m p /\ descends p.

(** ** The invariant *)

Abbreviation ok := (Acts.ok (PeerId:=PeerId) au descends (Candidates.holds proposed) (fun _ => True) True).

Lemma safety_rules :
  rules (fun _ => True) au descends (fun b => proposed (message b))
    (Candidates.holds proposed) (fun _ => True).
Proof.
  split; try done.
  - intros h cs b Hcs Hb Hm. destruct (Candidates.get_block_holds _ _ _ _ Hcs Hb) as (p & Hp & Hd).
    by apply (descends_approved b p).
  - intros. by apply Candidates.insert_holds.
  - intros. by apply Candidates.add_approval_holds.
  - intros. by apply Candidates.add_approval_holds.
Qed.

(** The parent that was found makes the block a proposal. *)
Lemma passes_proposed (c : t) b : ok c -> passes c b -> proposed (message b).
Proof.
  intros Hc (c' & H). destruct (acc_parent _ _ (check_block_valid _ _ _ H)) as (p & Hp & E).
  apply (so_block _ _ _ (ok_store _ _ _ _ _ _ Hc)) in Hp as [Hd Hr]. exists p. by split.
Qed.

End Descent.

(** ** The whole node as a transition system *)

(** A turn of one of the node's tasks, whatever it is sent. *)
Definition step : t -> t -> Prop := turn (fun _ => True) (fun _ => True).

Abbreviation ok au g :=
  (Acts.ok (PeerId:=PeerId) au (descends au g) (Candidates.holds (proposed au g)) (fun _ => True) True).

Lemma run_keeps au g c c' : rtc step c c' -> ok au g c -> ok au g c'.
Proof.
  intros Hrun%turns_acts. induction Hrun as [|c1 c2 c3 Ha _ IH]; intros Hc; [done|].
  apply IH. eapply act_keeps; [apply safety_rules| | |exact Ha|done].
  - intros b Hp _. by apply (passes_proposed _ _ c1).
  - intros m a sb Hp _ _. by apply (passes_proposed _ _ c1).
Qed.

(** C1: Consensus safety. A node that starts from an empty database with the
    genesis block of its execution client, and then takes any turns (gossip of
    peers, producing and serving blocks, synchronising, proofs of work, Bitcoin
    blocks, roll backs, crashes and restarts), only ever has as head, and only
    stores, blocks that descend from that genesis block by a finite chain in
    which every block passed the majority check (signed by the author of its
    slot, two thirds of approvals, aggregate signature verified), names its
    predecessor as parent, and carries an execution payload built on its
    predecessor's. *)
Theorem heads_descend_from_genesis cfg e w col now bits cid (c0 c1 c : t) :
  Chain.new cfg e (Store.mkDb ∅ true true) w col now = Ok c0 ->
  store_genesis bits cid c0 = (Ok tt, c1) ->
  rtc step c1 c ->
  exists payload g,
    Engine.get_payload_by_tag_from_engine [48; 120; 48] e = Ok payload /\
    genesis bits cid payload = Ok g /\
    (forall r, head c = Some r -> exists b, descends (aura cfg) g b /\ r = block_ref b) /\
    (forall h b, Store.get_block (storage c) h = Ok (Some b) ->
       descends (aura cfg) g b /\ canonical_root b = h).
Proof.
  intros Hnew Hgen Hrun. pose proof (fun g => genesis_ok _ _ _ _ _ _ _ _ _ _ _ _ _ _ _
    (safety_rules (aura cfg) g) eq_refl Hnew Hgen) as Hg0.
  destruct (Hg0 (mkSigned block_default Signatures.new)) as (payload & g & Hp & Hg & _).
  exists payload, g. destruct (Hg0 g) as (payload' & g' & Hp' & Hg' & Hok).
  rewrite Hp in Hp'. injection Hp' as <-. rewrite Hg in Hg'. injection Hg' as <-.
  specialize (Hok (descends_genesis _ _)). apply (run_keeps _ _ _ _ Hrun) in Hok as [_ Hs Hh _ _ _].
  split_and!; [done|done|exact Hh|apply (so_block _ _ _ Hs)].
Qed.

End WithLibs.
End Safety.
