(* ===== verification/ChainWitness.v ===== *)
(** The chain's theorems applied to a concrete node: two blocks, one authority,
    an execution client that accepts every payload. *)
From stdpp Require Import base decidable list gmap.
From Stdlib Require Import ZArith Lia.
From S2P Require Import Prelude Bitcoin Errors AuxPow Signatures Block Serial Aura Candidates.
From S2P Require Import Store Retarget AuxMiner BTree Wallet WalletProofs Bridge Engine.
From S2P Require Import Payouts ChainRange RpcRetry BlockHashCache RpcTypes Chain Node ChainProofs.
From S2P Require Import Acts Safety.

Module ChainWitness.
Import Chain Node ChainProofs.

#[local] Existing Instance ExampleLib.lib.
#[local] Existing Instance Signatures.Example.bls.
#[local] Existing Instance Store.Witness.lib.
#[local] Existing Instance Store.Witness.lib_laws.
#[local] Existing Instance Retarget.Witness.dec.
#[local] Existing Instance WalletProofs.Witness.lib.
#[local] Existing Instance Bridge.Witness.lib.

(** Blocks are hashed by their number and slot. *)
Definition blocks : BlockLib := {|
  rmp_block b := [block_number (execution_payload b); slot b];
  rmp_signed b := ser b;
  rmp_signed_decode l := fst <$> deser l;
  tree_merkle_root := ExampleSerial.fold_root;
|}.
#[local] Existing Instance blocks.

Lemma blocks_laws : BlockLaws blocks.
Proof. split; [apply ExampleSerial.block_laws|intros; apply to_le_bytes_length]. Qed.
#[local] Existing Instance blocks_laws.

#[local] Instance fees : FeeEstimate := {| estimate_smart_fee := None; two_sat_per_vb := 2 |}.

(** Payloads are valid, empty and available. *)
#[local] Instance api : ExecutionApi := {|
  EL := unit;
  PayloadId := unit;
  api_forkchoice_updated _ _ x := (Ok (Some tt), x);
  api_get_payload _ _ := Ok (Some payload_default);
  api_new_payload p x := (Ok (Some (p_block_hash p)), x);
  api_latest_block_hash _ := Ok (Some zero_hash);
  api_payload_body _ _ := Ok true;
  api_block_with_txs _ _ := Ok (Some (mkExecBlock [] (Some 0)));
  api_receipt _ _ := Ok None;
  api_block_by_tag _ _ := Ok (Some zero_hash);
  api_block_with_txns _ _ := 
    Ok (Some (Capella (mkCapella zero_hash zero_address zero_hash zero_hash (replicate 256 0) zero_hash
                         0 0 0 0 [] 0 zero_hash [] [])));
|}.

Definition block_at (parent : hash) (n s : Z) (header : option AuxPowHeader) : ConsensusBlock :=
  mkBlock parent s header
    (mkPayload [] [] [] [] [] [] n 0 0 0 [] 0 [] [] []) [] None [].

(** The authority with secret key 3. *)
Definition authority : Authority := mkAuthority (3 : SecretKey) 0.
Definition signed (b : ConsensusBlock) : SignedConsensusBlock :=
  mkSigned b (Signatures.mkAggregate [true] [3 * (1 + from_le_bytes (signing_root b))]).

Definition bits : Z := 505794034.
Definition g : SignedConsensusBlock :=
  signed (block_at zero_hash 53143 0 (Some (genesis_header bits 1212))).
Definition b1 : SignedConsensusBlock := signed (block_at (canonical_root g) 53144 0 None).
Definition b2 : SignedConsensusBlock := signed (block_at (canonical_root b1) 53145 1 None).

Definition cfg : Config :=
  mkConfig (Aura.mk [[3]] 1000 (Some authority)) 100 [] Bridge.Witness.node None
    (Retarget.mkParams 0 0 60 5 true 20) true.

Definition wallet : Wallet.t := Wallet.mk ∅ ∅ true WalletProofs.Witness.fed.

Definition writes : list Store.write :=
  [Store.PutBlock (canonical_root g) g; Store.SetFees (canonical_root g) 0;
   Store.SetPow (block_ref g); Store.PutBlock (canonical_root b1) b1;
   Store.SetFees (canonical_root b1) 0; Store.SetHead (block_ref b1)].
Definition db : Store.Db := Store.run_writes writes (Store.mkDb ∅ true true).
Definition view1 : Store.view :=
  foldl (fun v w => Store.view_write w v) Store.empty_view writes.

(** The node after [b1]. *)
Definition node (d : Store.Db) (hd : BlockRef) (l : list hash) : Chain.t (PeerId:=Z) :=
  mk cfg (Engine.mk None tt) d (Some hd) Synced [1] Candidates.new None [] wallet
    (Wallet.collector_new WalletProofs.Witness.fed) (Some (BlockHashCache.mk l))
    (RpcRetry.mkState (RpcRetry.new 3 60000) 0 0) [] [].
Definition c1 : Chain.t (PeerId:=Z) := node db (block_ref b1) [canonical_root b1].

(** ** The node is consistent *)

Lemma put_block_wf x : 0 <= block_number (execution_payload (message x)) < 2 ^ 64 ->
  (forall h, auxpow_header (message x) = Some h -> a_height h = 0) ->
  Store.write_wf (Store.PutBlock (canonical_root x) x).
Proof. intros Hn Hh. split; [apply tree_merkle_root_len|]. split; [done|]. intros h Hx. rewrite (Hh h Hx). unfold Store.u64. lia. Qed.

Lemma db_represents : Store.represents db view1.
Proof.
  apply (Store.run_writes_represents writes (Store.mkDb ∅ true true) Store.empty_view);
    [|apply Store.represents_empty].
  unfold writes. repeat (apply Forall_cons; split); try apply Forall_nil_2;
    try exact I; try (cbn; lia); apply put_block_wf; (cbn; lia || by intros h [= <-]).
Qed.

Lemma view1_blocks h b :
  Store.v_blocks view1 !! h = Some b ->
  (h = canonical_root b1 /\ b = b1) \/ (h = canonical_root g /\ b = g).
Proof.
  change (Store.v_blocks view1) with
    (<[canonical_root b1 := b1]> (<[canonical_root g := g]> ∅ : gmap hash SignedConsensusBlock)).
  intros [[<- <-]|[_ H]]%lookup_insert_Some; [by left|].
  apply lookup_insert_Some in H as [[<- <-]|[_ H]]; [by right|]. by rewrite lookup_empty in H.
Qed.

Lemma roots_differ : canonical_root g <> canonical_root b1 /\ canonical_root g <> canonical_root b2 /\
  canonical_root b1 <> canonical_root b2.
Proof.
  split_and!; refine (bool_decide_eq_false_1 _ _); vm_compute; reflexivity.
Qed.

Lemma get_g : Store.v_blocks view1 !! canonical_root g = Some g.
Proof. vm_compute. reflexivity. Qed.
Lemma get_b1 : Store.v_blocks view1 !! canonical_root b1 = Some b1.
Proof. vm_compute. reflexivity. Qed.
Lemma get_b2 : Store.v_blocks view1 !! canonical_root b2 = None.
Proof. vm_compute. reflexivity. Qed.
Lemma get_zero : Store.v_blocks view1 !! zero_hash = None.
Proof. vm_compute. reflexivity. Qed.

Lemma c1_path : ChainRange.path db (canonical_root g) (canonical_root b1) [canonical_root b1].
Proof.
  change [canonical_root b1] with ([] ++ [canonical_root b1]).
  eapply (ChainRange.path_step _ _ _ b1); [apply not_eq_sym, roots_differ| |constructor].
  rewrite (Store.represents_get_block _ _ _ db_represents). by rewrite get_b1.
Qed.

Lemma c1_wf : chain_wf c1 view1 (canonical_root g) [canonical_root b1].
Proof.
  split; try done.
  - apply db_represents.
  - by intros h b [[-> ->]|[-> ->]]%view1_blocks.
  - intros h b [[-> ->]|[-> ->]]%view1_blocks; [|by left].
    right. change (is_Some (Store.v_blocks view1 !! canonical_root g)). rewrite get_g. eauto.
  - intros h b p [[-> ->]|[-> ->]]%view1_blocks.
    + intros H. change (Store.v_blocks view1 !! canonical_root g = Some p) in H.
      rewrite get_g in H. injection H as <-. reflexivity.
    + intros H. change (Store.v_blocks view1 !! zero_hash = Some p) in H. by rewrite get_zero in H.
  - exists (block_ref g), g, (genesis_header bits 1212). split_and!; [done| |done|by left].
    apply get_g.
  - exists (block_ref b1). split; [done|]. apply c1_path.
Qed.

Lemma b2_extends : extends c1 view1 b2.
Proof.
  split.
  - apply put_block_wf; [cbn; lia|done].
  - apply get_b2.
  - refine (bool_decide_eq_false_1 _ _). vm_compute. reflexivity.
  - exists (block_ref b1), b1. split_and!; [done|done|apply get_b1|cbn; lia..].
Qed.

(** ** Witnesses *)

Definition c2 : Chain.t (PeerId:=Z) := (import_verified_block b2 c1).2.

Lemma import_keeps_wf_witness :
  head c2 = Some (block_ref b2) /\
  exists v', chain_wf c2 v' (canonical_root g) ([canonical_root b1] ++ [canonical_root b2]).
Proof.
  apply (import_keeps_wf c1 view1 (canonical_root g) [canonical_root b1] b2 c2 c1_wf b2_extends).
  assert ((import_verified_block b2 c1).1 = Ok tt) as E by (vm_compute; reflexivity).
  unfold c2. destruct (import_verified_block b2 c1) as [r x]. cbn in *. by subst r.
Defined.

Lemma head_is_approved_witness :
  head (process_block b2 c1).2 = Some (block_ref b2) /\
  (head (process_block b2 c1).2 = head c1 \/
   exists b, Aura.majority_approved (aura (config c1)) b = Ok true /\
     head (process_block b2 c1).2 = Some (block_ref b) /\
     forall x, head c1 = Some x -> ref_height x <= block_number (execution_payload (message b))).
Proof.
  split; [vm_compute; reflexivity|]. apply head_is_approved, rtc_once, step_block.
Defined.

Lemma accepted_block_valid_witness : acceptable_block c1 b2.
Proof.
  destruct (process_block b2 c1) as [r c'] eqn:E.
  assert (exists o, r = Ok o) as [o ->].
  { assert (is_ok (process_block b2 c1).1 = true) as Ho by (vm_compute; reflexivity).
    rewrite E in Ho. cbn in Ho. destruct r; [eauto|discriminate..]. }
  exact (accepted_block_valid c1 b2 o c' E).
Defined.

(** Work on the aggregate of the cached hashes. *)
Definition work : AuxPow.t :=
  AuxPow.mine_candidate (AuxPow.aggregate_hash [canonical_root b1]) 5.
Definition header : AuxPowHeader :=
  mkAuxPowHeader (canonical_root b1) (canonical_root b1) bits 1212 53144 (Some work) zero_address.

Lemma aggregate_pow_accepted_witness :
  get_aggregate_hashes c1 = Ok [canonical_root b1] /\
  push_auxpow (canonical_root b1) (canonical_root b1) bits 1212 53144 work zero_address c1
  = (Ok true, set_queued_pow (Some header) (send (QueuePowMsg header) c1)).
Proof.
  apply (aggregate_pow_accepted c1 view1 (canonical_root g) [canonical_root b1]
           (canonical_root b1) (canonical_root b1) (message g) b1);
    [apply c1_wf|reflexivity|reflexivity|reflexivity|reflexivity|vm_compute; reflexivity..].
Defined.

Lemma header_checked : check_pow c1 header false = Ok tt.
Proof. vm_compute. reflexivity. Qed.

Lemma check_pow_sound_witness :
  exists rs hashes auxpow,
    Store.v_blocks view1 !! canonical_root b1 = Some rs /\
    (53143 < block_number (execution_payload (message rs)) -> parent_hash (message rs) = canonical_root g) /\
    a_auxpow header = Some auxpow /\
    AuxPow.check auxpow (AuxPow.aggregate_hash hashes) 1212 = Ok tt /\
    exists last_pow pb hd hb bits,
       Store.v_pow view1 = Some last_pow /\ Store.v_blocks view1 !! ref_hash last_pow = Some pb /\
       head c1 = Some hd /\ Store.v_blocks view1 !! ref_hash hd = Some hb /\
       Retarget.get_next_work_required (message pb) (retarget_params (config c1))
         (block_number (execution_payload (message hb))) = Ok bits /\
       AuxPow.check_proof_of_work auxpow bits = true.
Proof.
  destruct (check_pow_sound c1 view1 (canonical_root g) [canonical_root b1] header false c1_wf header_checked)
    as (rs & hashes & auxpow & H1 & H2 & H3 & H4 & _ & H6).
  exists rs, hashes, auxpow. split; [exact H1|]. split; [exact H2|]. split; [exact H3|]. split; [exact H4|].
  exact (H6 eq_refl).
Defined.

Definition silent (_ : RpcTypes.BlocksByRangeRequest) (_ : Z) (_ : nat) : option (list RPCResponse) := Some [].

Lemma gossip_pow_panics_witness :
  on_gossip silent 1 (QueuePowMsg (mkAuxPowHeader (canonical_root b1) (canonical_root b1) bits 1212
                                     53144 None zero_address)) c1 = (Panic, c1).
Proof. apply (gossip_pow_panics 1 silent c1 header work header_checked). Defined.

Lemma sync_one_round_witness : sync silent 7 c1 = sync silent 1 c1.
Proof. apply sync_one_round. intros req p i stream [= <-]. cbn. unfold BLOCK_COUNT. lia. Defined.

Definition c0 : Chain.t (PeerId:=Z) := node db (block_ref g) [].

Lemma genesis_range_refused_witness :
  init_block_hash_cache c0
  = (Ok tt, set_block_hash_cache (Some (BlockHashCache.mk [canonical_root g])) c0) /\
  push_auxpow (canonical_root g) (canonical_root g) bits 1212 0 work zero_address c0 = (Ok false, c0).
Proof.
  destruct (genesis_range_refused c0 (BlockHashCache.mk []) (block_ref g) (block_ref g) g g
              (block_ref g)) as [H1 H2]; [reflexivity|reflexivity|reflexivity|vm_compute; reflexivity|reflexivity
    |vm_compute; reflexivity|vm_compute; reflexivity|vm_compute; reflexivity
    |vm_compute; reflexivity|reflexivity|].
  split; [exact H1|apply H2].
Defined.

Lemma rollback_keeps_stale_cache_witness :
  head (rollback_head 53143 c1).2 = Some (block_ref g) /\
  block_hash_cache (rollback_head 53143 c1).2 = Some (BlockHashCache.mk [canonical_root b1]) /\
  forall v' fin' l', ~ chain_wf (rollback_head 53143 c1).2 v' fin' l'.
Proof.
  apply (rollback_keeps_stale_cache c1 view1 (canonical_root g) [canonical_root b1] 53143 _ g).
  - apply c1_wf.
  - discriminate.
  - assert ((rollback_head 53143 c1).1 = Ok tt) as E by (vm_compute; reflexivity).
    destruct (rollback_head 53143 c1) as [r x]. cbn in *. by subst r.
  - vm_compute. reflexivity.
  - intros hd [= <-]. apply not_eq_sym, roots_differ.
Defined.

(** ** Peg-ins *)

Definition pegin : PegInInfo := mkPegIn [1] [2] 700 [5; 5] 300.
Definition c3 : Chain.t (PeerId:=Z) := (on_bitcoin_block true [pegin] 300 c1).2.

Lemma scan_restart_covers_queue_witness :
  exists start, Store.get_bitcoin_scan_start_height (storage c3) = Ok (Some start) /\
    Forall (fun p => start <= pi_block_height p) (BTree.values (queued_pegins c3)).
Proof.
  apply (scan_restart_covers_queue true [pegin] 300 c1 view1 c3).
  - apply db_represents.
  - lia.
  - change (BTree.values (queued_pegins c3)) with [pegin]. repeat constructor; cbn; lia.
  - reflexivity.
Defined.

Lemma unsynced_monitor_drops_pegins_witness :
  exists c', on_bitcoin_block false [pegin] 300 c1 = (Ok tt, c') /\ queued_pegins c' = [] /\
    Store.get_bitcoin_scan_start_height (storage c') = Ok (Some 301).
Proof.
  apply (unsynced_monitor_drops_pegins [pegin] 300 c1 view1); [apply db_represents|lia|reflexivity].
Defined.

(** ** From an empty database *)

Definition engine0 : Engine.t := Engine.mk None tt.
Definition fresh : Chain.t (PeerId:=Z) :=
  mk cfg engine0 (Store.mkDb ∅ true true) None Synced [] Candidates.new None [] wallet
    (Wallet.collector_new WalletProofs.Witness.fed) (Some (BlockHashCache.new None))
    (RpcRetry.mkState (RpcRetry.new 3 60000) 0 0) [] [].
Definition started : Chain.t (PeerId:=Z) := (store_genesis bits 1212 fresh).2.

Definition genesis0 : SignedConsensusBlock :=
  mkSigned (mkBlock zero_hash 0 (Some (genesis_header bits 1212)) payload_default [] None [])
    Signatures.new.
Definition first : SignedConsensusBlock :=
  signed (mkBlock (canonical_root genesis0) 0 None
            (mkPayload zero_hash [] [] [] [] [] 1 0 0 0 [] 0 [] [] []) [] None []).

(** The node after a peer has sent [first]. *)
Definition advanced : Chain.t (PeerId:=Z) :=
  (on_gossip silent 0 (ConsensusBlockMsg first) started).2.

Lemma fresh_chain_wf_witness :
  exists v, chain_wf started v (canonical_root genesis0) [] /\ head started = Some (block_ref genesis0).
Proof.
  apply (fresh_chain_wf cfg engine0 wallet (Wallet.collector_new WalletProofs.Witness.fed) 0 bits 1212
           payload_default genesis0 fresh started).
  - reflexivity.
  - reflexivity.
  - refine (bool_decide_eq_false_1 _ _). vm_compute. reflexivity.
  - vm_compute. reflexivity.
  - vm_compute. reflexivity.
Defined.

Lemma heads_descend_from_genesis_witness :
  head advanced = Some (block_ref first) /\
  exists b, Safety.descends (aura cfg) genesis0 b /\ block_ref first = block_ref b.
Proof.
  assert (head advanced = Some (block_ref first)) as Hh by (vm_compute; reflexivity).
  split; [exact Hh|].
  destruct (Safety.heads_descend_from_genesis cfg engine0 wallet
              (Wallet.collector_new WalletProofs.Witness.fed) 0 bits 1212 fresh started advanced)
    as (payload & g0 & Hp & Hg & H & _).
  - vm_compute. reflexivity.
  - vm_compute. reflexivity.
  - apply rtc_once, (Acts.turn_gossip _ _ silent); [by intros req p n stream b|done].
  - assert (Ok payload_default = Ok payload :> res Error Payload) as [= <-] by exact Hp.
    assert (Ok genesis0 = Ok g0 :> res Error SignedConsensusBlock) as [= <-] by exact Hg.
    by apply H.
Defined.

End ChainWitness.
