(* ===== verification/Cluster.v ===== *)
(** Several nodes and an adversary. The nodes of the authorities act one at a
    time, in any order; blocks and approvals reach them in any order, once,
    several times or never, and anyone may send anything, except a signature
    of a node that this node has not sent. In such a run every block a node
    stores was checked by the nodes behind its approvals. *)
From stdpp Require Import base decidable list gmap.
From Stdlib Require Import ZArith Lia.
From S2P Require Import Prelude Bitcoin Errors AuxPow Signatures Block Serial Aura Candidates.
From S2P Require Import Store Retarget AuxMiner BTree Wallet Bridge Engine Payouts ChainRange.
From S2P Require Import RpcRetry BlockHashCache RpcTypes Chain Node ChainProofs Acts.

Module Cluster.
Import Chain Node ChainProofs Acts.

Section WithLibs.
Context `{B : BitcoinLib, L : BlsLib, K : BlockLib, S : StoreLib, D : DecimalLib,
          W : WalletLib, F : !FeeEstimate, G : BridgeLib, A : !ExecutionApi}.
Context {PeerId : Type}.

Abbreviation t := (Chain.t (PeerId:=PeerId)).
Abbreviation number b := (block_number (execution_payload (message b))).
Abbreviation bits b := (Signatures.aggregation_bits (b_signature b)).

(** ** Candidates whose approvals are votes *)

Section Votes.
Context (auths : list PublicKey) (V : nat -> hash -> Prop).

(** Every approval of an authority recorded in the block is a vote for it. Bits
    beyond the authorities may be set; nobody has to have voted for them. *)
Definition endorsed (b : SignedConsensusBlock) : Prop :=
  forall j, (j < length auths)%nat -> bits b !! j = Some true -> V j (canonical_root b).

(** An approval that passes its check is a vote. *)
Definition vote (x : Candidates.ApproveBlock) : Prop :=
  forall c, Signatures.check (Candidates.signature x) (Candidates.block_hash x) auths = Ok c ->
    V (Z.to_nat (Signatures.authority_index (Candidates.signature x))) (Candidates.block_hash x).

Record tallied (cs : Candidates.t) : Prop := {
  ta_block k b : Candidates.candidates_by_height cs !! k = Some (Candidates.CheckedBlock b) ->
    k <> 0 /\ endorsed b /\ 0 < number b;
  ta_queue k v :
    Candidates.candidates_by_height cs !! k = Some (Candidates.QueuedApprovals v) -> k = 0;
  ta_hash h k : Candidates.hash_to_height cs !! h = Some k -> k <> 0 ->
    exists b, Candidates.candidates_by_height cs !! k = Some (Candidates.CheckedBlock b) /\
      canonical_root b = h;
}.

Lemma tallied_new : tallied Candidates.new.
Proof. split; intros *; cbn; by rewrite lookup_empty. Qed.

Lemma endorsed_add x c b b' :
  vote x -> Candidates.block_hash x = canonical_root b ->
  Signatures.check (Candidates.signature x) (Candidates.block_hash x) auths = Ok c ->
  endorsed b -> add_approval b c = Ok b' -> endorsed b'.
Proof.
  intros Hx Hh Hc Hv Hadd. pose proof (Hx _ Hc) as Hj.
  pose proof (add_approval_root _ _ _ Hadd) as Hr.
  apply Signatures.approval_check_inv in Hc as (-> & pk & Hpk & _).
  unfold add_approval in Hadd. inv_res.
  match goal with H : Signatures.add_approval _ _ = _ |- _ =>
    destruct (Signatures.add_approval_cases _ _ _ H) as [[_ ->]|[Hb ->]] end; [done|].
  cbn [Signatures.data] in *. intros j Hlt. rewrite Hr. cbn [b_signature Signatures.aggregation_bits].
  intros [[<- _]|[_ Hj']]%list_lookup_insert_Some; [by rewrite <-Hh|by apply Hv].
Qed.

Lemma put_tallied b c c0 :
  tallied c -> endorsed b -> 0 < number b ->
  Candidates.candidates_by_height c0 = Candidates.candidates_by_height c ->
  (forall h k, Candidates.hash_to_height c0 !! h = Some k -> Candidates.hash_to_height c !! h = Some k) ->
  (forall h, Candidates.hash_to_height c0 !! h <> Some (number b)) ->
  tallied (Candidates.set_height (canonical_root b) (number b)
             (Candidates.set_candidate (number b) (Candidates.CheckedBlock b) c0)).
Proof.
  intros Hc Hb Hn Ec Hh Hfree. split; cbn; rewrite ?Ec.
  - intros k b' [[<- [= <-]]|[_ H]]%lookup_insert_Some; [split_and!; [lia|done|done]|by eapply ta_block].
  - intros k v [[_ [=]]|[_ H]]%lookup_insert_Some. by eapply ta_queue.
  - intros h k [[<- <-]|[Hne H]]%lookup_insert_Some Hk.
    + exists b. by rewrite lookup_insert_eq.
    + destruct (decide (k = number b)) as [->|Hkn]; [by apply Hfree in H|].
      rewrite lookup_insert_ne by done. apply (ta_hash _ Hc); [by apply Hh|done].
Qed.

Lemma insert_tallied b sync cs :
  endorsed b -> 0 < number b -> tallied cs -> tallied (Candidates.insert b sync cs).2.
Proof.
  intros Hb Hn Hc. unfold Candidates.insert, getS, modifyS, liftR, mbind, st_bind. cbv zeta.
  destruct (Candidates.candidates_by_height cs !! number b) as [[e|v]|] eqn:Ek.
  - cbn [Candidates.state_get_block]. destruct (_ || _); [|done]. cbn.
    change (tallied (Candidates.set_height (canonical_root b) (number b)
      (Candidates.set_candidate (number b) (Candidates.CheckedBlock b)
         (Candidates.forget_hash (canonical_root e) cs)))).
    apply (put_tallied _ cs); [done..| |].
    + intros h k. cbn. by intros [_ H]%lookup_delete_Some.
    + intros h. cbn. intros [Hne H]%lookup_delete_Some.
      destruct (ta_hash _ Hc _ _ H) as (e' & He' & <-); [lia|]. rewrite Ek in He'. by injection He' as <-.
  - apply (ta_queue _ Hc) in Ek. lia.
  - apply (put_tallied _ cs); [done..|].
    intros h H. destruct (ta_hash _ Hc _ _ H) as (e & He & _); [lia|]. by rewrite Ek in He.
Qed.

(** The candidate at a height above 0 is replaced by one with the same message. *)
Lemma update_tallied cs k b b' :
  tallied cs -> Candidates.candidates_by_height cs !! k = Some (Candidates.CheckedBlock b) ->
  message b' = message b -> endorsed b' ->
  tallied (Candidates.set_candidate k (Candidates.CheckedBlock b') cs).
Proof.
  intros Hc Hk Hm Hb. destruct (ta_block _ Hc _ _ Hk) as (Hk0 & _ & Hn). split; cbn.
  - intros k' b1 [[<- [= <-]]|[_ H]]%lookup_insert_Some; [by rewrite Hm|by eapply ta_block].
  - intros k' v [[_ [=]]|[_ H]]%lookup_insert_Some. by eapply ta_queue.
  - intros h k' H Hk'. destruct (ta_hash _ Hc _ _ H Hk') as (b1 & H1 & <-).
    destruct (decide (k' = k)) as [->|Hne].
    + exists b'. rewrite lookup_insert_eq. rewrite Hk in H1. injection H1 as <-.
      unfold canonical_root. by rewrite Hm.
    + exists b1. by rewrite lookup_insert_ne.
Qed.

(** Approvals of unknown blocks are kept aside at height 0. *)
Lemma queue_tallied cs v hs :
  tallied cs ->
  (forall h k, hs !! h = Some k -> k <> 0 -> Candidates.hash_to_height cs !! h = Some k) ->
  tallied (Candidates.mk (<[0 := Candidates.QueuedApprovals v]> (Candidates.candidates_by_height cs)) hs).
Proof.
  intros Hc Hh. split; cbn.
  - intros k b [[_ [=]]|[_ H]]%lookup_insert_Some. by eapply ta_block.
  - intros k v' [[<- _]|[_ H]]%lookup_insert_Some; [done|by eapply ta_queue].
  - intros h k H Hk. rewrite lookup_insert_ne by done. apply (ta_hash _ Hc); auto.
Qed.

Lemma add_approval_tallied x sync cs :
  vote x -> tallied cs -> tallied (Candidates.add_approval x auths sync cs).2.
Proof.
  intros Hx Hc. unfold Candidates.add_approval, getS, modifyS, liftR, mbind, st_bind,
    Candidates.update_candidate. cbv zeta.
  assert (forall r v, Candidates.add_unchecked_approval x auths Candidates.state_default
            = (r, Candidates.QueuedApprovals v) ->
          tallied (Candidates.set_candidate 0 (Candidates.QueuedApprovals v)
                     (Candidates.set_height (Candidates.block_hash x) 0 cs))) as Hnew.
  { intros r v _. apply (queue_tallied cs); [done|]. cbn.
    intros h k [[_ <-]|[_ Hh]]%lookup_insert_Some Hk; [done|exact Hh]. }
  assert (exists r v, Candidates.add_unchecked_approval x auths Candidates.state_default
            = (r, Candidates.QueuedApprovals v)) as (r0 & v0 & E0).
  { unfold Candidates.add_unchecked_approval, liftR, mbind, st_bind.
    destruct (Signatures.check _ _ _); by eexists _, _. }
  specialize (Hnew _ _ E0).
  destruct (Candidates.hash_to_height cs !! _) as [k|] eqn:Eh; cbn;
    [|rewrite E0; by destruct r0].
  destruct (Candidates.candidates_by_height cs !! k) as [[cur|v]|] eqn:Ek; cbn;
    [| |rewrite E0; by destruct r0].
  - destruct (ta_block _ Hc _ _ Ek) as (Hk0 & Hcur & _).
    destruct (ta_hash _ Hc _ _ Eh Hk0) as (e & He & Hr). rewrite Ek in He. injection He as <-.
    rewrite bool_decide_true by done. cbn [negb andb].
    unfold Candidates.add_unchecked_approval, liftR, mbind, st_bind.
    destruct (Signatures.check _ _ _) as [ch| |] eqn:Ech; cbn; [|by eapply update_tallied..].
    destruct (add_approval cur ch) as [cur'| |] eqn:Ea; cbn; [|by eapply update_tallied..].
    eapply update_tallied; [done|done|by eapply add_approval_message|].
    by eapply (endorsed_add x ch cur).
  - apply (ta_queue _ Hc) in Ek as ->.
    unfold Candidates.add_unchecked_approval, liftR, mbind, st_bind.
    destruct (Signatures.check _ _ _); cbn; by apply queue_tallied.
Qed.

Lemma get_block_tallied h cs b :
  tallied cs -> Candidates.get_block h cs = Some b -> endorsed b /\ 0 < number b.
Proof.
  intros Hc H. unfold Candidates.get_block in H.
  destruct (Candidates.hash_to_height cs !! h) as [k|]; cbn in H; [|done].
  destruct (Candidates.candidates_by_height cs !! k) as [[e|]|] eqn:Ek; cbn in H; [|done..].
  simplify_eq. by destruct (ta_block _ Hc _ _ Ek) as (_ & ? & ?).
Qed.

End Votes.

Lemma endorsed_mono auths (V V' : nat -> hash -> Prop) b :
  (forall j d, V j d -> V' j d) -> endorsed auths V b -> endorsed auths V' b.
Proof. intros HV H j Hlt Hj. by apply HV, H. Qed.

Lemma tallied_mono auths (V V' : nat -> hash -> Prop) cs :
  (forall j d, V j d -> V' j d) -> tallied auths V cs -> tallied auths V' cs.
Proof.
  intros HV [H1 H2 H3]. split; [|done|done]. intros k b Hk. destruct (H1 k b Hk) as (? & ? & ?).
  split_and!; [done| |done]. by eapply endorsed_mono.
Qed.

(** ** Own signatures *)

Lemma sign_block_bits m a sb :
  sign_block m a = Ok sb ->
  message sb = m /\ bits sb = <[Z.to_nat (index a) := true]> (replicate Signatures.MaxValidators false).
Proof.
  unfold sign_block, Signatures.into_aggregate. intros H. inv_res.
  match goal with H : unwrap_res _ = Ok _ |- _ => apply unwrap_res_Ok in H;
    destruct (Signatures.add_approval_cases _ _ _ H) as [[Hf _]|[_ ->]] end; [|done].
  unfold Signatures.is_signed_by in Hf. cbn [Signatures.new Signatures.aggregation_bits] in Hf.
  destruct (replicate _ false !! _) as [x|] eqn:Ex; [|done]. apply lookup_replicate in Ex as [-> _]. done.
Qed.

(** The position [Aura::new] gives to the signer is one of the set. *)
Lemma new_index_lt auths dur sk au a :
  Aura.new auths dur sk = Ok au -> Aura.authority au = Some a ->
  Aura.authorities au = auths /\ (Z.to_nat (index a) < length auths)%nat.
Proof.
  unfold Aura.new. destruct sk as [sk|]; [|by intros [= <-]]. intros H. inv_res.
  match goal with H : unwrap _ = _ |- _ => apply unwrap_Ok, position_Some in H as ((x & Hx & _) & _) end.
  intros [= <-]. split; [done|]. apply lookup_lt_Some in Hx. cbn [index].
  pose proof (Z.mod_le (Z.of_nat a0) (2 ^ 8)). unfold wrap. lia.
Qed.

Lemma signed_by_author_verified au b :
  Aura.check_signed_by_author au b = Ok tt -> verify_signature b (Aura.authorities au) = true.
Proof.
  unfold Aura.check_signed_by_author. intros H. by inv_res; destruct (verify_signature _ _).
Qed.

(** ** The nodes and the network *)

Section Members.
(** The authorities, and the consensus component of each node. *)
Context (auths : list PublicKey) (auras : list Aura.t).

(** The nodes, and every gossip message and block that a node has sent. *)
Record cluster := mkCluster {
  nodes : list t;
  wire : list (nat * PubsubMessage);
}.

(** Node [i] has the key of authority [j]. *)
Definition runs (j i : nat) : Prop :=
  exists au a, auras !! i = Some au /\ Aura.authority au = Some a /\ Z.to_nat (index a) = j.

(** The message has a signature of authority [j] on [d]. Bits of a block beyond
    the authorities are no signatures. *)
Definition carries (msg : PubsubMessage) (j : nat) (d : hash) : Prop :=
  match msg with
  | ConsensusBlockMsg b =>
      canonical_root b = d /\ (j < length auths)%nat /\ bits b !! j = Some true
  | ApproveBlockMsg x => Candidates.block_hash x = d /\
      Z.to_nat (Signatures.authority_index (Candidates.signature x)) = j
  | QueuePowMsg _ | PegoutSignaturesMsg _ => False
  end.

(** Signatures cannot be forged: one of an authority that a node runs has been
    sent by such a node. *)
Definition authentic (s : cluster) (j : nat) (d : hash) : Prop :=
  (exists i, runs j i) -> exists i msg, runs j i /\ (i, msg) ∈ wire s /\ carries msg j d.

(** What may reach a node: any block and any approval; the signatures that
    verify are authentic. Bits beyond the authorities take part in no
    verification and may be set at will. *)
Definition in_block (s : cluster) (b : SignedConsensusBlock) : Prop :=
  verify_signature b auths = true ->
  forall j, (j < length auths)%nat -> bits b !! j = Some true -> authentic s j (canonical_root b).

Definition in_approval (s : cluster) (x : Candidates.ApproveBlock) : Prop :=
  forall c, Signatures.check (Candidates.signature x) (Candidates.block_hash x) auths = Ok c ->
    authentic s (Z.to_nat (Signatures.authority_index (Candidates.signature x))) (Candidates.block_hash x).

(** One node acts, and what it has sent is on the wire (again); or it gives out
    a block of its store, to a peer or over JSON-RPC. *)
Inductive cstep : cluster -> cluster -> Prop :=
| cl_act i c c' s :
    nodes s !! i = Some c -> act (in_block s) (in_approval s) c c' ->
    cstep s (mkCluster (<[i := c']> (nodes s)) (wire s ++ map (pair i) (outbox c')))
| cl_disclose i c h b s :
    nodes s !! i = Some c -> Store.get_block (storage c) h = Ok (Some b) ->
    cstep s (mkCluster (nodes s) (wire s ++ [(i, ConsensusBlockMsg b)])).

(** The start: every node has its consensus component from [Aura::new] and has
    stored the genesis block of its execution client in an empty database. *)
Record init (s : cluster) : Prop := {
  init_wire : wire s = [];
  init_node i c : nodes s !! i = Some c ->
    exists cfg e w col now bits_ cid c0 dur sk,
      auras !! i = Some (aura cfg) /\ Aura.new auths dur sk = Ok (aura cfg) /\
      Chain.new cfg e (Store.mkDb ∅ true true) w col now = Ok c0 /\
      store_genesis bits_ cid c0 = (Ok tt, c);
}.

(** At some point of the run from [s0] to [s] a node with the key of [j] was in
    a state in which a block with the root [d] passed its checks. *)
Definition voted (s0 s : cluster) (j : nat) (d : hash) : Prop :=
  exists s1 i c b, rtc cstep s0 s1 /\ rtc cstep s1 s /\ runs j i /\ nodes s1 !! i = Some c /\
    passes c b /\ canonical_root b = d.

(** ** The invariant *)

Context `{!StoreLaws S, !BlockLaws K}.

Section Run.
Context (s0 : cluster).

Definition V (s : cluster) (j : nat) (d : hash) : Prop := (exists i, runs j i) -> voted s0 s j d.

Definition P (s : cluster) (au : Aura.t) (b : SignedConsensusBlock) : Prop :=
  endorsed auths (V s) b /\ 0 <= number b /\
  (0 < number b -> Aura.majority_approved au b = Ok true).

Definition Out (s : cluster) (msg : PubsubMessage) : Prop := forall j d, carries msg j d -> V s j d.

Definition filed (s : cluster) (au : Aura.t) (b : SignedConsensusBlock) : Prop :=
  endorsed auths (V s) b /\ 0 < number b /\
  forall a, Aura.authority au = Some a -> V s (Z.to_nat (index a)) (canonical_root b).

Definition node_ok (s : cluster) (au : Aura.t) : t -> Prop :=
  Acts.ok au (P s au) (tallied auths (V s)) (Out s) True.

Record inv (s : cluster) : Prop := {
  inv_run : rtc cstep s0 s;
  inv_wire i msg : (i, msg) ∈ wire s -> Out s msg;
  inv_node i c : nodes s !! i = Some c -> exists au, auras !! i = Some au /\ node_ok s au c /\
    exists dur sk, Aura.new auths dur sk = Ok au;
}.

Lemma V_mono s s' j d : cstep s s' -> V s j d -> V s' j d.
Proof.
  intros Hs H Hj. destruct (H Hj) as (s1 & i & c & b & H1 & H2 & H3). exists s1, i, c, b.
  split; [done|]. split; [|done]. by eapply rtc_r.
Qed.

Lemma P_mono s s' au b : cstep s s' -> P s au b -> P s' au b.
Proof.
  intros Hs (H1 & H2 & H3). split_and!; [|done|done].
  eapply endorsed_mono; [|done]. intros j d. by apply V_mono.
Qed.

Lemma Out_mono s s' msg : cstep s s' -> Out s msg -> Out s' msg.
Proof. intros Hs H j d Hc. eapply V_mono; [done|by apply H]. Qed.

Lemma node_ok_mono s s' au c : cstep s s' -> node_ok s au c -> node_ok s' au c.
Proof.
  intros Hs. apply ok_mono.
  - intros b. by apply P_mono.
  - intros cs. apply tallied_mono. intros j d. by apply V_mono.
  - intros m. by apply Out_mono.
Qed.

(** An authentic signature is a vote. *)
Lemma authentic_vote s s' j d : inv s -> cstep s s' -> authentic s j d -> V s' j d.
Proof.
  intros Hi Hs Ha Hj. destruct (Ha Hj) as (i & msg & _ & Hw & Hc).
  by apply (V_mono s s' j d Hs (inv_wire _ Hi _ _ Hw _ _ Hc)).
Qed.

Lemma new_authorities dur sk au : Aura.new auths dur sk = Ok au -> Aura.authorities au = auths.
Proof. unfold Aura.new. destruct sk; intros H; by inv_res. Qed.

Lemma cluster_rules s s' au :
  inv s -> cstep s s' -> Aura.authorities au = auths ->
  rules (in_approval s) au (P s' au) (filed s' au) (tallied auths (V s')) (Out s').
Proof.
  intros Hi Hs Hau. split.
  - apply tallied_new.
  - intros h cs b Hcs Hb Hm. destruct (get_block_tallied _ _ _ _ _ Hcs Hb) as [He Hn].
    split_and!; [done|lia|done].
  - intros b sync cs (He & Hn & _). by apply insert_tallied.
  - intros x sync cs Hx. rewrite Hau. apply add_approval_tallied. intros c Hc.
    by eapply authentic_vote, Hx.
  - intros b a sync cs (_ & _ & Ho) Ha. rewrite Hau. apply add_approval_tallied. intros c _. by apply Ho.
  - intros b a (_ & _ & Ho) Ha j d [<- <-]. by apply Ho.
  - intros b (Hv & _ & _) j d (<- & Hlt & Hj). by apply Hv.
  - by intros x j d.
  - by intros x j d.
Qed.

Section Step.
Context (s s' : cluster) (Hi : inv s) (Hs : cstep s s').
Context (i : nat) (c : t) (au : Aura.t).
Context (Hc : nodes s !! i = Some c) (Hau : auras !! i = Some au) (Hok : node_ok s' au c).
Context (Hauths : Aura.authorities au = auths).

(** The node's own vote for a block that passes its checks. *)
Lemma own_vote b a :
  passes c b -> Aura.authority au = Some a -> V s' (Z.to_nat (index a)) (canonical_root b).
Proof.
  intros Hb Ha _. exists s, i, c, b. split_and!; [apply Hi|by apply rtc_once| |done..]. by exists au, a.
Qed.

Lemma passes_above b : passes c b -> 0 < number b.
Proof.
  intros (c1 & Hb). pose proof (acc_above _ _ (check_block_valid _ _ _ Hb)) as Habove.
  destruct (head c) as [r|] eqn:Eh; [|by destruct (ok_started _ _ _ _ _ _ Hok I)].
  destruct (ok_head _ _ _ _ _ _ Hok _ Eh) as (x & (_ & Hx & _) & ->).
  specialize (Habove _ eq_refl). cbn in Habove. lia.
Qed.

Lemma passes_filed b : passes c b -> endorsed auths (V s') b -> filed s' au b.
Proof. intros Hb He. split_and!; [done|by apply passes_above|]. intros a. by apply own_vote. Qed.

Lemma incoming_filed b : passes c b -> in_block s b -> filed s' au b.
Proof.
  intros Hb Hin. apply passes_filed; [done|]. intros j Hlt Hj.
  eapply authentic_vote; [done|done|]. apply Hin; [|done..]. destruct Hb as (c1 & Hb).
  rewrite <-Hauths, <-(ok_aura _ _ _ _ _ _ Hok).
  apply signed_by_author_verified, (acc_signed _ _ (check_block_valid _ _ _ Hb)).
Qed.

Lemma own_filed m a sb :
  passes c sb -> Aura.authority au = Some a ->
  sign_block m a = Ok sb -> filed s' au sb.
Proof.
  intros Hb Ha Hsb. apply passes_filed; [done|].
  destruct (sign_block_bits _ _ _ Hsb) as [_ Hbits].
  intros j _ Hj. rewrite Hbits in Hj. apply list_lookup_insert_Some in Hj as [(<- & _ & _)|[_ Hj]].
  - by apply own_vote.
  - by apply lookup_replicate in Hj as [? _].
Qed.

Lemma act_node_ok c' : act (in_block s) (in_approval s) c c' -> node_ok s' au c'.
Proof.
  intros Ha. eapply act_keeps; [by apply (cluster_rules s)|apply incoming_filed| |exact Ha|exact Hok].
  intros m a sb. by apply own_filed.
Qed.

End Step.

Lemma cluster_inv_step s s' : inv s -> cstep s s' -> inv s'.
Proof.
  intros Hi Hs. pose proof Hs as Hst. destruct Hs as [i c c' s Hc Ha|i c h b s Hc Hb];
    destruct (inv_node _ Hi _ _ Hc) as (au & Hau & Hok & dur & sk & Hnew);
    pose proof (node_ok_mono _ _ _ _ Hst Hok) as Hok';
    (split; [eapply rtc_r; [apply Hi|done]|..]).
  1,2: pose proof (act_node_ok _ _ Hi Hst i c au Hc Hau Hok' (new_authorities _ _ _ Hnew) _ Ha) as Hc'.
  - intros k msg [Hm|Hm]%elem_of_app; [by eapply Out_mono; [|eapply inv_wire]|].
    apply list_elem_of_fmap in Hm as (x & [= -> ->] & Hm).
    by eapply Forall_forall in Hm; [|apply (ok_outbox _ _ _ _ _ _ Hc')].
  - intros k x Hk. cbn in Hk. apply list_lookup_insert_Some in Hk as [(<- & <- & _)|[_ Hk]];
      [exists au; split_and!; [done|done|by exists dur, sk]|].
    destruct (inv_node _ Hi _ _ Hk) as (au' & ? & ? & ?). exists au'. split_and!; [done| |done].
    by eapply node_ok_mono.
  - intros k msg [Hm|Hm]%elem_of_app; [by eapply Out_mono; [|eapply inv_wire]|].
    apply list_elem_of_singleton in Hm. injection Hm as -> ->.
    apply (so_block _ _ _ (ok_store _ _ _ _ _ _ Hok')) in Hb as [(Hv & _) _].
    intros j d (<- & Hlt & Hj). by apply Hv.
  - intros k x Hk. cbn in Hk.
    destruct (inv_node _ Hi _ _ Hk) as (au' & ? & ? & ?). exists au'. split_and!; [done| |done].
    by eapply node_ok_mono.
Qed.

(** Before the first step no vote has been cast; the genesis block needs none. *)
Lemma inv_init : init s0 -> inv s0.
Proof.
  intros [Hw Hn]. split; [done|rewrite Hw; intros i msg Hm; by apply not_elem_of_nil in Hm|].
  intros i c Hc. destruct (Hn i c Hc) as (cfg & e & w & col & now & bt & cid & c0 & dur & sk & Ha & Hnew & H0 & H1).
  exists (aura cfg). split_and!; [done| |by exists dur, sk].
  assert (rules (fun _ => False) (aura cfg) (P s0 (aura cfg))
            (fun _ => False) (tallied auths (V s0)) (Out s0)) as Hr.
  { split; [apply tallied_new| |done..|by intros x j d|by intros x j d]. intros h cs b Hcs Hb Hm.
    destruct (get_block_tallied _ _ _ _ _ Hcs Hb) as [He Hn0]. split_and!; [done|lia|done]. }
  destruct (genesis_ok _ _ _ _ _ _ _ _ _ _ _ _ _ _ _ Hr eq_refl H0 H1) as (payload & g & _ & Hg & Hok).
  apply Hok. destruct (genesis_inv _ _ _ _ Hg) as (Hg0 & _). split_and!; [|lia|lia].
  unfold genesis in Hg. destruct (negb _); [done|]. injection Hg as <-.
  intros j _ Hj. by apply lookup_replicate in Hj as [? _].
Qed.

Lemma cluster_inv_reachable s : init s0 -> rtc cstep s0 s -> inv s.
Proof.
  intros H0 Hr. revert s Hr. refine (rtc_ind_r inv s0 (inv_init H0) _).
  intros s1 s2 _ Hs Hi. by eapply cluster_inv_step.
Qed.

End Run.

(** ** Counting *)

(** The authorities that none of the nodes runs. *)
Definition is_run (j : nat) : bool :=
  existsb (fun au => match Aura.authority au with
                     | Some a => Z.to_nat (index a) =? j
                     | None => false
                     end%nat) auras.

Definition faulty : nat := length (filter (fun j => is_run j = false) (seq 0 (length auths))).

Lemma is_run_runs j : is_run j = true <-> exists i, runs j i.
Proof.
  unfold is_run. rewrite existsb_exists. split.
  - intros (au & Hin & H). apply list_elem_of_In, list_elem_of_lookup in Hin as (i & Hi).
    destruct (Aura.authority au) as [a|] eqn:Ea; [|done]. apply Nat.eqb_eq in H. exists i, au, a. done.
  - intros (i & au & a & Hi & Ha & <-). exists au. split.
    + apply list_elem_of_In, list_elem_of_lookup. by exists i.
    + rewrite Ha. apply Nat.eqb_refl.
Qed.

Lemma count_bits (l : list bool) n :
  length (filter (fun b => b = true) (take n l))
  = length (filter (fun j => l !! j = Some true) (seq 0 n)).
Proof.
  revert n. induction l as [|b l IH]; intros n.
  - rewrite take_nil. cbn. induction (seq 0 n) as [|j s IHs]; [done|]. by rewrite filter_cons_False.
  - destruct n as [|n]; [done|]. cbn [take seq]. rewrite !filter_cons, <-fmap_S_seq.
    assert (length (filter (fun j => (b :: l) !! j = Some true) (Datatypes.S <$> seq 0 n))
            = length (filter (fun j => l !! j = Some true) (seq 0 n))) as E.
    { induction (seq 0 n) as [|j s IHs]; [done|]. rewrite fmap_cons, !filter_cons.
      change ((b :: l) !! Datatypes.S j) with (l !! j). repeat case_decide; cbn; congruence. }
    cbn [lookup list_lookup]. destruct b; repeat case_decide; simplify_eq/=; by rewrite ?E, ?IH.
Qed.

(** The set of positions in [l] with [p], by [q]. *)
Lemma filter_split {X} (p : X -> Prop) `{!forall x, Decision (p x)} (q : X -> bool) l :
  (length (filter p l) <= length (filter (fun x => p x /\ q x = true) l)
                          + length (filter (fun x => q x = false) l))%nat.
Proof.
  induction l as [|x l IH]; [done|]. rewrite !filter_cons.
  destruct (q x) eqn:Eq; repeat case_decide; cbn; naive_solver lia.
Qed.

(** ** Whole turns *)

(** A node takes a whole turn of one of its tasks. *)
Inductive cturn : cluster -> cluster -> Prop :=
| cl_turn i c c' s :
    nodes s !! i = Some c -> turn (in_block s) (in_approval s) c c' ->
    cturn s (mkCluster (<[i := c']> (nodes s)) (wire s ++ map (pair i) (outbox c'))).

(** The same nodes, with as much or more on the wire. *)
Definition sim (s s' : cluster) : Prop := nodes s' = nodes s /\ wire s ⊆ wire s'.

(** More on the wire lets more in. *)
Lemma act_sim s s' (c c' : t) :
  sim s s' -> act (in_block s) (in_approval s) c c' -> act (in_block s') (in_approval s') c c'.
Proof.
  intros [_ Hw]. assert (forall j d, authentic s j d -> authentic s' j d) as Ha.
  { intros j d H Hj. destruct (H Hj) as (i & msg & Hr & Hm & Hc). exists i, msg. eauto. }
  apply act_mono.
  - intros b Hb Hv j Hlt Hj. by apply Ha, Hb.
  - intros x Hx ch Hch. by eapply Ha, Hx.
Qed.

Lemma acts_run s s1 i (c c' : t) :
  rtc (act (in_block s) (in_approval s)) c c' -> nodes s1 !! i = Some c -> wire s ⊆ wire s1 ->
  exists s2, rtc cstep s1 s2 /\ nodes s2 = <[i := c']> (nodes s1) /\ wire s1 ⊆ wire s2.
Proof.
  intros Ht. revert s1. induction Ht as [c|c1 c2 c3 Ha _ IH]; intros s1 Hc Hw.
  - exists s1. by rewrite list_insert_id.
  - set (s2 := mkCluster (<[i := c2]> (nodes s1)) (wire s1 ++ map (pair i) (outbox c2))).
    destruct (IH s2) as (s3 & Hr & Hn & Hw3); [|cbn; set_solver|].
    { apply list_lookup_insert_eq. by eapply lookup_lt_Some. }
    exists s3. split_and!; [|by rewrite Hn; cbn; rewrite list_insert_insert_eq|cbn in Hw3; set_solver].
    eapply rtc_l; [|exact Hr]. eapply cl_act; [exact Hc|].
    by apply (act_sim (mkCluster (nodes s1) (wire s))).
Qed.

(** A turn is a run of acts of one node. *)
Lemma turn_run s s' s1 : cturn s s' -> sim s s1 -> exists s2, rtc cstep s1 s2 /\ sim s' s2.
Proof.
  intros [i c c' s2 Hc Ht%turn_acts] [Hn Hw].
  destruct (acts_run _ s1 i _ _ Ht) as (s3 & Hr & Hn3 & Hw3); [by rewrite Hn|done|].
  assert (nodes s3 !! i = Some c') as Hc3.
  { rewrite Hn3. apply list_lookup_insert_eq. rewrite Hn. by eapply lookup_lt_Some. }
  exists (mkCluster (<[i := set_sync_status (sync_status c') c']> (nodes s3))
            (wire s3 ++ map (pair i) (outbox c'))). split.
  - eapply rtc_r; [exact Hr|]. exact (cl_act i c' _ s3 Hc3 (act_status _ _ (sync_status c') c')).
  - split; cbn; [|set_solver]. replace (set_sync_status (sync_status c') c') with c' by (by destruct c').
    by rewrite Hn3, list_insert_insert_eq, Hn.
Qed.

(** Whatever the nodes reach by whole turns, they reach by acts. *)
Lemma turns_run s0 s : rtc cturn s0 s -> exists s', rtc cstep s0 s' /\ sim s s'.
Proof.
  revert s. refine (rtc_ind_r _ s0 _ _); [by exists s0|].
  intros s1 s2 _ Ht (s1' & Hr & Hs). destruct (turn_run _ _ _ Ht Hs) as (s2' & Hr2 & Hs2).
  exists s2'. split; [by etrans|done].
Qed.

(** ** Every accepted block was checked by the authorities behind it *)

(** A node with the key of [j] has found, earlier in the run, that a block with
    the root [h] passes its checks. *)
Definition checked_by (s0 s : cluster) (h : hash) (j : nat) : Prop :=
  exists s1 k c b, rtc cstep s0 s1 /\ rtc cstep s1 s /\ runs j k /\ nodes s1 !! k = Some c /\
    acceptable_block c b /\ canonical_root b = h.

(** The authorities whose approval the block carries, and those of them that a
    node runs. *)
Definition approving (b : SignedConsensusBlock) : list nat :=
  filter (fun j => bits b !! j = Some true) (seq 0 (length auths)).

Definition checkers (b : SignedConsensusBlock) : list nat :=
  filter (fun j => bits b !! j = Some true /\ is_run j = true) (seq 0 (length auths)).

(** The block's signature verifies; its approvals, together with the bits set
    beyond the authorities, are two thirds of the set; every approving authority
    that a node runs has checked the block; and these are two thirds less the
    authorities that no node runs and less the bits beyond the set. *)
Record backed (s0 s : cluster) (b : SignedConsensusBlock) : Prop := {
  bk_verified : verify_signature b auths = true;
  bk_approved : (2 * length auths <=
    3 * (length (approving b) + Aura.phantom_bits (length auths) (b_signature b)))%nat;
  bk_checked : Forall (checked_by s0 s (canonical_root b)) (checkers b);
  bk_enough : (2 * length auths <=
    3 * (length (checkers b) + faulty + Aura.phantom_bits (length auths) (b_signature b)))%nat;
}.

Lemma P_backed s0 s au b :
  Aura.authorities au = auths -> P s0 s au b -> number b = 0 \/ backed s0 s b.
Proof.
  intros Hau (Hv & Hn & Hm). destruct (decide (number b = 0)) as [|Hne]; [by left|right].
  destruct (Aura.majority_approved_inv _ _ (Hm ltac:(lia))) as [Hver Hreq]. rewrite Hau in Hver, Hreq.
  unfold num_approvals in Hreq. rewrite (Aura.num_approvals_split (length auths)), count_bits in Hreq.
  apply Aura.required_two_thirds in Hreq.
  pose proof (filter_split (fun j => bits b !! j = Some true) is_run (seq 0 (length auths))) as Hf.
  split; [done|done| |unfold checkers, faulty; lia].
  apply Forall_forall. intros j [[Hj Hr] Hlt%elem_of_seq]%list_elem_of_filter.
  apply is_run_runs in Hr.
  destruct (Hv j ltac:(lia) Hj Hr) as (s1 & k & c & x & H1 & H2 & H3 & H4 & (c1 & H5) & H6).
  exists s1, k, c, x. split_and!; try done. by apply (check_block_valid c x c1).
Qed.

(** C2: Safety of the federation. Take any number of nodes, each started on an
    empty database, that act in any order, with blocks and approvals delayed,
    repeated, lost or made up by anyone, short of forging the signature of an
    authority that one of the nodes runs. Then every block above the genesis
    that any node has as its head or in its store has a signature that verifies;
    the authorities whose bit is set in it, together with the bits set beyond
    the authorities, which the code counts and does not verify, are at least two thirds
    of the number of authorities; and every one of these authorities that a node
    runs has itself checked the block before, with the checks of
    [acceptable_block]. So at least two thirds of the authorities, less those no
    node runs and less the number of bits beyond the set, checked it. *)
Theorem accepted_blocks_were_checked s0 s i c :
  init s0 -> rtc cstep s0 s -> nodes s !! i = Some c ->
  (forall r, head c = Some r -> exists b, r = block_ref b /\ (number b = 0 \/ backed s0 s b)) /\
  (forall h b, Store.get_block (storage c) h = Ok (Some b) -> number b = 0 \/ backed s0 s b).
Proof.
  intros H0 Hr Hc. destruct (inv_node _ _ (cluster_inv_reachable _ _ H0 Hr) _ _ Hc) as (au & _ & Hok & dur & sk & Hnew).
  apply new_authorities in Hnew. split.
  - intros r (b & Hb & ->)%(ok_head _ _ _ _ _ _ Hok). exists b. split; [done|]. by eapply P_backed.
  - intros h b [Hb _]%(so_block _ _ _ (ok_store _ _ _ _ _ _ Hok)). by eapply P_backed.
Qed.

End Members.
End WithLibs.
End Cluster.
