(* ===== verification/ClusterWitness.v ===== *)
(** Three nodes of a federation of three: a run in which a block is approved by
    two of them, and, when the third has not heard of it, the run goes on to two
    different approved blocks at one height, without any faulty node. *)
From stdpp Require Import base decidable list gmap.
From Stdlib Require Import ZArith Lia.
From S2P Require Import Prelude Bitcoin Errors AuxPow Signatures Block Serial Aura Candidates.
From S2P Require Import Store Retarget AuxMiner BTree Wallet WalletProofs Bridge Engine.
From S2P Require Import Payouts ChainRange RpcRetry BlockHashCache RpcTypes Chain Node ChainProofs.
From S2P Require Import Acts Safety ChainWitness Cluster.

Module ClusterWitness.
Import Chain Node ChainProofs Acts Cluster.

#[local] Existing Instance ExampleLib.lib.
#[local] Existing Instance Signatures.Example.bls.
#[local] Existing Instance Store.Witness.lib.
#[local] Existing Instance Store.Witness.lib_laws.
#[local] Existing Instance Retarget.Witness.dec.
#[local] Existing Instance WalletProofs.Witness.lib.
#[local] Existing Instance Bridge.Witness.lib.
#[local] Existing Instance ChainWitness.blocks.
#[local] Existing Instance ChainWitness.blocks_laws.
#[local] Existing Instance ChainWitness.fees.

(** The execution clients build an empty payload number 1 on the genesis. *)
Definition payload1 : Payload :=
  mkPayload zero_hash zero_address zero_hash zero_hash [] zero_hash 1 0 0 5 [] 0 [1] [] [].

#[local] Instance api : ExecutionApi := {|
  EL := unit;
  PayloadId := unit;
  api_forkchoice_updated _ _ x := (Ok (Some tt), x);
  api_get_payload _ _ := Ok (Some payload1);
  api_new_payload p x := (Ok (Some (p_block_hash p)), x);
  api_latest_block_hash _ := Ok (Some zero_hash);
  api_payload_body _ _ := Ok true;
  api_block_with_txs _ _ := Ok (Some (mkExecBlock [] (Some 0)));
  api_receipt _ _ := Ok None;
  api_block_by_tag _ _ := Ok (Some zero_hash);
  api_block_with_txns _ _ :=
    Ok (Some (Capella (mkCapella zero_hash zero_address zero_hash zero_hash (replicate 256 0) zero_hash
                         0 0 0 0 [] 0 zero_hash [] [])));
|}.

Definition auths : list PublicKey := [[3]; [5]; [7]].
Definition key (sk i : Z) : Authority := mkAuthority (sk : SecretKey) i.
Definition aura_of (sk i : Z) : Aura.t := Aura.mk auths 1000 (Some (key sk i)).
Definition auras : list Aura.t := [aura_of 3 0; aura_of 5 1; aura_of 7 2].

Definition cfg (au : Aura.t) : Config :=
  mkConfig au 100 [] Bridge.Witness.node None (Retarget.mkParams 0 0 60 5 true 20) true.
Definition wallet : Wallet.t := Wallet.mk ∅ ∅ true WalletProofs.Witness.fed.
Definition collector : Wallet.Collector := Wallet.collector_new WalletProofs.Witness.fed.
Definition fresh (au : Aura.t) : Chain.t (PeerId:=Z) :=
  mk (cfg au) (Engine.mk None tt) (Store.mkDb ∅ true true) None Synced [] Candidates.new None [] wallet
    collector (Some (BlockHashCache.new None)) (RpcRetry.mkState (RpcRetry.new 3 60000) 0 0) [] [].
Definition start (au : Aura.t) : Chain.t (PeerId:=Z) :=
  Eval vm_compute in (store_genesis ChainWitness.bits 1212 (fresh au)).2.

Definition nobody (_ : RpcTypes.BlocksByRangeRequest) (_ : Z) (_ : nat) : option (list RPCResponse) := None.

(** Node 0 produces a block in slot 3, and node 2 one in slot 5. *)
Definition a0 := start (aura_of 3 0).
Definition a1 := Eval vm_compute in (produce_block nobody 0 3 5 a0).2.
Definition c1 := Eval vm_compute in (produce_block nobody 0 5 5 (start (aura_of 7 2))).2.

Definition own_block (m : Chain.t (PeerId:=Z)) : SignedConsensusBlock :=
  match outbox m with ConsensusBlockMsg b :: _ => b | _ => ChainWitness.genesis0 end.
Definition x : SignedConsensusBlock := Eval vm_compute in own_block a1.
Definition y : SignedConsensusBlock := Eval vm_compute in own_block c1.

(** Node 1 takes the first, node 0 takes the second. *)
Definition b1 := Eval vm_compute in (on_gossip nobody 0 (ConsensusBlockMsg x) (start (aura_of 5 1))).2.
Definition a2 := Eval vm_compute in (on_gossip nobody 0 (ConsensusBlockMsg y) a1).2.

(** ** The run *)

Abbreviation cluster := (Cluster.cluster (PeerId:=Z)).
Definition nodes0 : list (Chain.t (PeerId:=Z)) := map start auras.
Definition s0 : cluster := mkCluster nodes0 [].
Definition s1 : cluster := mkCluster (<[0%nat := a1]> (nodes s0)) (wire s0 ++ map (pair 0%nat) (outbox a1)).
Definition s2 : cluster := mkCluster (<[1%nat := b1]> (nodes s1)) (wire s1 ++ map (pair 1%nat) (outbox b1)).
Definition s3 : cluster := mkCluster (<[2%nat := c1]> (nodes s2)) (wire s2 ++ map (pair 2%nat) (outbox c1)).
Definition s4 : cluster := mkCluster (<[0%nat := a2]> (nodes s3)) (wire s3 ++ map (pair 0%nat) (outbox a2)).

Lemma s0_init : init auths auras s0.
Proof.
  split; [done|]. intros i c Hc.
  assert (exists sk k, auras !! i = Some (aura_of sk k) /\ c = start (aura_of sk k) /\
            Aura.new auths 1000 (Some sk) = Ok (aura_of sk k)) as (sk & k & Ha & -> & Hn).
  { destruct i as [|[|[|i]]]; [injection Hc as <-..|done].
    - exists 3, 0. split; [exact eq_refl|]. split; exact eq_refl.
    - exists 5, 1. split; [exact eq_refl|]. split; exact eq_refl.
    - exists 7, 2. split; [exact eq_refl|]. split; exact eq_refl. }
  exists (cfg (aura_of sk k)), (Engine.mk (A:=api) None tt), wallet, collector, 0, ChainWitness.bits, 1212,
    (fresh (aura_of sk k)), 1000, (Some sk).
  split_and!; [exact Ha|exact Hn|vm_compute; reflexivity|vm_compute; reflexivity].
Qed.

Lemma nobody_in (P : SignedConsensusBlock -> Prop) : answers_in P nobody.
Proof. by intros req p n stream b. Qed.

(** A block with one signature, of a node that has sent it. *)
Lemma sent_in_block (s : cluster) b i j :
  runs auras j i -> (i, ConsensusBlockMsg b) ∈ wire s ->
  (forall k, Signatures.aggregation_bits (b_signature b) !! k = Some true -> k = j) ->
  in_block auths auras s b.
Proof.
  intros Hr Hw Hone _ k Hlt Hk. pose proof (Hone k Hk) as ->. intros _.
  exists i, (ConsensusBlockMsg b). by split_and!.
Qed.

Lemma one_bit n j k : (<[j := true]> (replicate n false) : list bool) !! k = Some true -> k = j.
Proof.
  intros [(-> & _)|[_ H]]%list_lookup_insert_Some; [done|]. by apply lookup_replicate in H as [? _].
Qed.

Lemma x_in : in_block auths auras s1 x.
Proof.
  apply (sent_in_block _ _ 0 0).
  - exists (aura_of 3 0), (key 3 0). by split_and!.
  - vm_compute. by left.
  - intros k. apply (one_bit 15 0).
Qed.

Lemma y_in : in_block auths auras s3 y.
Proof.
  apply (sent_in_block _ _ 2 2).
  - exists (aura_of 7 2), (key 7 2). by split_and!.
  - vm_compute. apply list_elem_of_lookup. by exists 2%nat.
  - intros k. apply (one_bit 15 2).
Qed.

Lemma run12 : rtc (cturn auths auras) s0 s2.
Proof.
  apply (rtc_l _ _ s1), rtc_once.
  - apply (cl_turn _ _ 0 a0 a1); [vm_compute; reflexivity|].
    assert (a1 = (produce_block nobody 0 3 5 a0).2) as -> by (vm_compute; reflexivity).
    apply turn_produce, nobody_in.
  - apply (cl_turn _ _ 1 (start (aura_of 5 1)) b1); [vm_compute; reflexivity|].
    assert (b1 = (on_gossip nobody 0 (ConsensusBlockMsg x) (start (aura_of 5 1))).2) as ->
      by (vm_compute; reflexivity).
    apply turn_gossip; [apply nobody_in|apply x_in].
Qed.

Lemma run34 : rtc (cturn auths auras) s2 s4.
Proof.
  apply (rtc_l _ _ s3), rtc_once.
  - apply (cl_turn _ _ 2 (start (aura_of 7 2)) c1); [vm_compute; reflexivity|].
    assert (c1 = (produce_block nobody 0 5 5 (start (aura_of 7 2))).2) as -> by (vm_compute; reflexivity).
    apply turn_produce, nobody_in.
  - apply (cl_turn _ _ 0 a1 a2); [vm_compute; reflexivity|].
    assert (a2 = (on_gossip nobody 0 (ConsensusBlockMsg y) a1).2) as -> by (vm_compute; reflexivity).
    apply turn_gossip; [apply nobody_in|apply y_in].
Qed.

Lemma accepted_blocks_were_checked_witness :
  exists s, head b1 = Some (block_ref x) /\ exists b, block_ref x = block_ref b /\
    (block_number (execution_payload (message b)) = 0 \/ backed auths auras s0 s b).
Proof.
  destruct (turns_run auths auras s0 s2 run12) as (s & Hr & Hn & _). exists s.
  assert (head b1 = Some (block_ref x)) as Hh by (vm_compute; reflexivity). split; [exact Hh|].
  destruct (accepted_blocks_were_checked auths auras s0 s 1 b1 s0_init Hr) as [H _].
  - rewrite Hn. vm_compute. reflexivity.
  - exact (H _ Hh).
Defined.

(** Approval by two thirds does not make a block unique at its height. In a
    federation of three nodes that all follow the protocol, node 0 produces a
    block in its slot, which node 1 approves and accepts; node 2 has not got it
    and produces another block of the same height in its own, later slot, and
    node 0, which has not heard of the approval of node 1, approves and accepts
    that one. Both blocks have two of three valid approvals, one of node 0
    each. *)
Theorem approved_blocks_can_conflict :
  exists (s : cluster) (na nb : Chain.t),
    init auths auras s0 /\ faulty auths auras = 0%nat /\ rtc (cturn auths auras) s0 s /\
    nodes s !! 0%nat = Some na /\ nodes s !! 1%nat = Some nb /\
    head na = Some (block_ref y) /\ head nb = Some (block_ref x) /\
    ref_height (block_ref x) = ref_height (block_ref y) /\ ref_hash (block_ref x) <> ref_hash (block_ref y).
Proof.
  exists s4, a2, b1. split; [apply s0_init|]. split; [vm_compute; reflexivity|].
  split; [etrans; [apply run12|apply run34]|]. split_and!; try (vm_compute; reflexivity).
  refine (bool_decide_eq_false_1 _ _). vm_compute. reflexivity.
Qed.

End ClusterWitness.
