(* ===== verification/Locks.v ===== *)
(** The locks of the node: every field of the chain that changes is behind a
    [tokio::sync::RwLock], the merged-mining service of the JSON-RPC server
    behind a [Mutex]. The sections in which a handler holds locks are written
    down function by function; because nested locks are always taken in one
    order, the tasks of the node never block each other for good, in whatever
    order they run. *)
From stdpp Require Import base decidable list relations.
From Stdlib Require Import Arith Lia.
From S2P Require Import Prelude.

Module Locks.
Local Open Scope nat_scope.

(** [head], [sync_status], [peers], [queued_pow], [queued_pegins],
    [bitcoin_wallet], [bitcoin_signature_collector], [block_hash_cache] and
    [circuit_breaker] of [Chain], [cache] of [BlockCandidates], [finalized] of
    [Engine], and the miner of the JSON-RPC server. *)
Inductive Lock :=
| Head | SyncStatus | Peers | QueuedPow | QueuedPegins | BitcoinWallet | SignatureCollector
| HashCache | CircuitBreaker | CandidateCache | Finalized | Miner.

#[global] Instance Lock_eq_dec : EqDecision Lock.
Proof. solve_decision. Defined.

Inductive Mode := Shared | Exclusive.

#[global] Instance Mode_eq_dec : EqDecision Mode.
Proof. solve_decision. Defined.

Inductive Op := Acquire (l : Lock) (m : Mode) | Release (l : Lock).

#[global] Instance Op_eq_dec : EqDecision Op.
Proof. solve_decision. Defined.

(** ** Tasks and their locks *)

(** A task: what it has still to do, whether it waits in the queue of a lock,
    and what it holds. *)
Record Task := mkTask { todo : list Op; asked : bool; held : list (Lock * Mode) }.

(** The requests that are waiting, in the order they were made. *)
Record State := mkState { tasks : list Task; queue : list (nat * Lock * Mode) }.

Definition holders (s : State) (l : Lock) : list Mode :=
  map snd (filter (fun p => p.1 = l) (concat (map held (tasks s)))).

Definition compatible (m : Mode) (hs : list Mode) : bool :=
  match m with
  | Shared => bool_decide (Forall (fun h => h = Shared) hs)
  | Exclusive => bool_decide (hs = [])
  end.

(** tokio's locks are fair: a request is granted when it is the first for its
    lock and is compatible with the guards that are out; readers that come
    after a waiting writer wait too. *)
Inductive step : State -> State -> Prop :=
| step_request i t l m ops s :
    tasks s !! i = Some t -> todo t = Acquire l m :: ops -> asked t = false ->
    step s (mkState (<[i := mkTask (todo t) true (held t)]> (tasks s)) (queue s ++ [(i, l, m)]))
| step_grant i t l m ops pre post s :
    tasks s !! i = Some t -> todo t = Acquire l m :: ops ->
    queue s = pre ++ (i, l, m) :: post -> Forall (fun e => e.1.2 <> l) pre ->
    compatible m (holders s l) = true ->
    step s (mkState (<[i := mkTask ops false ((l, m) :: held t)]> (tasks s)) (pre ++ post))
| step_release i t l ops s :
    tasks s !! i = Some t -> todo t = Release l :: ops ->
    step s (mkState (<[i := mkTask ops false (filter (fun p => p.1 <> l) (held t))]> (tasks s)) (queue s)).

Definition start (programs : list (list Op)) : State :=
  mkState (map (fun ops => mkTask ops false []) programs) [].

(** ** The order of the locks *)

Definition rank (l : Lock) : nat :=
  match l with
  | Miner => 0
  | SignatureCollector | HashCache => 2
  | BitcoinWallet | Head => 3
  | _ => 1
  end.

(** A lock is only taken while locks of lower rank are held, only held locks
    are released, and all of them are in the end. *)
Fixpoint orderly (h : list Lock) (ops : list Op) : bool :=
  match ops with
  | [] => bool_decide (h = [])
  | Acquire l _ :: ops => bool_decide (Forall (fun l' => rank l' < rank l) h) && orderly (l :: h) ops
  | Release l :: ops => bool_decide (l ∈ h) && orderly (filter (fun l' => l' <> l) h) ops
  end.

(** ** The sections of the source *)

Definition shared (l : Lock) : list Op := [Acquire l Shared; Release l].
Definition exclusive (l : Lock) : list Op := [Acquire l Exclusive; Release l].

(** A guard that is out while a second one is taken and dropped. *)
Definition nested (l1 : Lock) (m1 : Mode) (l2 : Lock) (m2 : Mode) : list Op :=
  [Acquire l1 m1; Acquire l2 m2; Release l2; Release l1].

(** For each function the sections it can go through, in the order of the
    source; loops repeat them, branches and early returns skip them. *)
Definition fill_pegins_locks : list (list Op) :=
  [shared QueuedPegins; shared QueuedPegins; shared BitcoinWallet; exclusive QueuedPegins;
   shared QueuedPegins].

Definition check_withdrawals_locks : list (list Op) := [shared BitcoinWallet].

(** The guards in the heads of the two [match]es live to their ends: the head is
    held while the execution client is asked, the queued proof of work while
    the signatures are read. *)
Definition produce_block_locks : list (list Op) :=
  [shared SyncStatus; shared Head; shared QueuedPow;
   nested QueuedPow Shared SignatureCollector Shared].

Definition create_pegout_payments_locks : list (list Op) := [exclusive BitcoinWallet].

Definition process_block_locks : list (list Op) :=
  [shared Head; shared BitcoinWallet; shared SyncStatus; exclusive CandidateCache; exclusive CandidateCache].

Definition check_pegout_proposal_locks : list (list Op) := [shared BitcoinWallet; exclusive BitcoinWallet].

Definition queue_pow_locks : list (list Op) := [exclusive QueuedPow].

Definition maybe_generate_signatures_locks : list (list Op) := [shared BitcoinWallet].

Definition process_approval_locks : list (list Op) :=
  [shared SyncStatus; exclusive CandidateCache].

Definition maybe_accept_block_locks : list (list Op) := [shared CandidateCache; exclusive CandidateCache].

Definition update_head_ref_ops_locks : list (list Op) := [exclusive Head].

Definition import_verified_block_no_commit_locks : list (list Op) :=
  [exclusive QueuedPegins; exclusive BitcoinWallet; exclusive BitcoinWallet; exclusive SignatureCollector;
   exclusive HashCache].

Definition finalize_locks : list (list Op) := [exclusive QueuedPow; exclusive Finalized].

Definition store_signatures_locks : list (list Op) :=
  [nested SignatureCollector Exclusive BitcoinWallet Shared].

Definition monitor_gossip_locks : list (list Op) := [shared Head; shared Head; shared SyncStatus].

Definition get_blocks_locks : list (list Op) := [shared Head].

Definition send_blocks_by_range_locks : list (list Op) := [exclusive CircuitBreaker; shared Peers].

Definition sync_locks : list (list Op) := [exclusive SyncStatus; shared Peers; shared Head].

Definition listen_for_peer_discovery_locks : list (list Op) := [exclusive Peers].

Definition monitor_bitcoin_blocks_locks : list (list Op) :=
  [shared SyncStatus; exclusive QueuedPegins; shared QueuedPegins].

Definition get_aggregate_hashes_locks : list (list Op) :=
  [shared Head; shared QueuedPow; nested QueuedPow Shared HashCache Shared].

Definition chain_manager_locks : list (list Op) := [shared QueuedPow; shared SyncStatus].

(** The head is read, for [aggregate_hashes], while the cache is held. *)
Definition init_block_hash_cache_locks : list (list Op) := [nested HashCache Exclusive Head Shared].

Definition engine_locks : list (list Op) := [shared Finalized; exclusive Finalized].

Definition sections : list (list Op) :=
  fill_pegins_locks ++ check_withdrawals_locks ++ produce_block_locks ++ create_pegout_payments_locks ++
  process_block_locks ++ check_pegout_proposal_locks ++ queue_pow_locks ++
  maybe_generate_signatures_locks ++ process_approval_locks ++ maybe_accept_block_locks ++
  update_head_ref_ops_locks ++ import_verified_block_no_commit_locks ++ finalize_locks ++
  store_signatures_locks ++ monitor_gossip_locks ++ get_blocks_locks ++ send_blocks_by_range_locks ++
  sync_locks ++ listen_for_peer_discovery_locks ++ monitor_bitcoin_blocks_locks ++
  get_aggregate_hashes_locks ++ chain_manager_locks ++ init_block_hash_cache_locks ++ engine_locks.

(** A request of a JSON-RPC client has the miner from its start to its end, and
    goes through sections of the chain meanwhile. *)
Definition http_request_locks (ss : list (list Op)) : list Op :=
  Acquire Miner Exclusive :: concat ss ++ [Release Miner].

(** What a task does in its life: sections, and requests of clients, in any
    order and number. *)
Inductive node_task : list Op -> Prop :=
| task_done : node_task []
| task_section sec ops : sec ∈ sections -> node_task ops -> node_task (sec ++ ops)
| task_request ss ops :
    Forall (fun sec => sec ∈ sections) ss -> node_task ops -> node_task (http_request_locks ss ++ ops).

(** ** The invariant *)

Record inv (s : State) : Prop := {
  inv_orderly i t : tasks s !! i = Some t -> orderly (map fst (held t)) (todo t) = true;
  inv_asked i t : tasks s !! i = Some t -> asked t = true ->
    exists l m ops, todo t = Acquire l m :: ops /\ (i, l, m) ∈ queue s;
  inv_queue i l m : (i, l, m) ∈ queue s ->
    exists t ops, tasks s !! i = Some t /\ asked t = true /\ todo t = Acquire l m :: ops;
  inv_once : NoDup (map (fun e : nat * Lock * Mode => e.1.1) (queue s));
}.

Lemma inv_start programs : Forall (fun ops => orderly [] ops = true) programs -> inv (start programs).
Proof.
  intros Hp. split; cbn.
  - intros i t Ht. apply list_lookup_fmap_Some in Ht as (ops & -> & Hops).
    by apply (Forall_lookup_1 _ _ _ _ Hp Hops).
  - intros i t Ht Ha. by apply list_lookup_fmap_Some in Ht as (ops & -> & _).
  - intros i l m H. by apply not_elem_of_nil in H.
  - constructor.
Qed.

Lemma map_fst_give_back (l : Lock) (h : list (Lock * Mode)) :
  map fst (filter (fun p => p.1 <> l) h) = filter (fun l' => l' <> l) (map fst h).
Proof.
  induction h as [|[l' m] h IH]; [done|]. cbn [map fst]. rewrite !filter_cons. cbn [fst].
  repeat case_decide; cbn [map fst]; congruence.
Qed.

Section Steps.
Context (s : State) (Hi : inv s) (i : nat) (t : Task) (Ht : tasks s !! i = Some t).

Lemma inv_request l m ops :
  todo t = Acquire l m :: ops -> asked t = false ->
  inv (mkState (<[i := mkTask (todo t) true (held t)]> (tasks s)) (queue s ++ [(i, l, m)])).
Proof.
  intros Hto Ha.
  pose proof (inv_orderly _ Hi _ _ Ht) as Hord. pose proof (lookup_lt_Some _ _ _ Ht) as Hlt.
  split; cbn.
  - intros j u [(<- & <- & _)|[_ Hj]]%list_lookup_insert_Some; [done|by eapply inv_orderly].
  - intros j u [(<- & <- & _)|[_ Hj]]%list_lookup_insert_Some Hu; [exists l, m, ops; set_solver|].
    destruct (inv_asked _ Hi _ _ Hj Hu) as (l' & m' & ops' & ? & ?). exists l', m', ops'. set_solver.
  - intros j l' m' [Hj|Hj]%elem_of_app.
    + destruct (inv_queue _ Hi _ _ _ Hj) as (u & ops' & Hu & Hau & ?). exists u, ops'.
      rewrite list_lookup_insert_ne; [done|]. intros ->. rewrite Ht in Hu. injection Hu as <-. by rewrite Ha in Hau.
    + apply list_elem_of_singleton in Hj. injection Hj as -> -> ->.
      eexists _, ops. by rewrite list_lookup_insert_eq.
  - rewrite map_app. apply NoDup_app. split_and!; [apply Hi| |apply NoDup_singleton]. cbn.
    intros j Hj Hji%list_elem_of_singleton. subst j. apply list_elem_of_fmap in Hj as ([[j l'] m'] & E & Hj).
    cbn in E. subst j.
    destruct (inv_queue _ Hi _ _ _ Hj) as (u & ops' & Hu & Hau & _).
    rewrite Ht in Hu. injection Hu as <-. by rewrite Ha in Hau.
Qed.

Lemma inv_grant l m ops pre post :
  todo t = Acquire l m :: ops -> queue s = pre ++ (i, l, m) :: post ->
  inv (mkState (<[i := mkTask ops false ((l, m) :: held t)]> (tasks s)) (pre ++ post)).
Proof.
  intros Hto Hq.
  pose proof (inv_orderly _ Hi _ _ Ht) as Hord. pose proof (lookup_lt_Some _ _ _ Ht) as Hlt.
  rewrite Hto in Hord. cbn in Hord. apply andb_true_iff in Hord as [_ Hord].
  pose proof (inv_once _ Hi) as Hnd. rewrite Hq, map_app in Hnd.
  apply NoDup_app in Hnd as (Hn1 & Hn2 & [Hn3 Hn4]%NoDup_cons). cbn in Hn2, Hn3.
  assert (forall x, x ∈ pre ++ post -> x ∈ queue s /\ x.1.1 <> i) as Hother.
  { intros x [Hx|Hx]%elem_of_app; (split; [rewrite Hq; set_solver|]); intros <-.
    - apply (Hn2 x.1.1); [by apply (list_elem_of_fmap_2 (fun e : nat * Lock * Mode => e.1.1))|by left].
    - apply Hn3. by apply (list_elem_of_fmap_2 (fun e : nat * Lock * Mode => e.1.1)). }
  split; cbn.
  - intros j u [(<- & <- & _)|[_ Hj]]%list_lookup_insert_Some; [done|by eapply inv_orderly].
  - intros j u [(<- & <- & _)|[Hne Hj]]%list_lookup_insert_Some Hu; [done|].
    destruct (inv_asked _ Hi _ _ Hj Hu) as (l' & m' & ops' & ? & Hin). exists l', m', ops'. split; [done|].
    rewrite Hq in Hin. apply elem_of_app in Hin as [?|[[=]|?]%elem_of_cons]; set_solver.
  - intros j l' m' Hj. destruct (Hother _ Hj) as [Hin Hne]. cbn in Hne.
    destruct (inv_queue _ Hi _ _ _ Hin) as (u & ops' & Hu & ?). exists u, ops'.
    by rewrite list_lookup_insert_ne.
  - rewrite map_app. apply NoDup_app. split_and!; [done| |done]. set_solver.
Qed.

Lemma inv_release l ops :
  todo t = Release l :: ops ->
  inv (mkState (<[i := mkTask ops false (filter (fun p => p.1 <> l) (held t))]> (tasks s)) (queue s)).
Proof.
  intros Hto.
  pose proof (inv_orderly _ Hi _ _ Ht) as Hord. pose proof (lookup_lt_Some _ _ _ Ht) as Hlt.
  rewrite Hto in Hord. cbn in Hord. apply andb_true_iff in Hord as [_ Hord].
  split; cbn; [| | |apply Hi].
  - intros j u [(<- & <- & _)|[_ Hj]]%list_lookup_insert_Some; [|by eapply inv_orderly].
    cbn. by rewrite map_fst_give_back.
  - intros j u [(<- & <- & _)|[_ Hj]]%list_lookup_insert_Some Hu; [done|by eapply inv_asked].
  - intros j l' m' Hj. destruct (inv_queue _ Hi _ _ _ Hj) as (u & ops' & Hu & Hau & Hop). exists u, ops'.
    rewrite list_lookup_insert_ne; [done|]. intros ->. rewrite Ht in Hu. injection Hu as <-.
    by rewrite Hto in Hop.
Qed.

End Steps.

Lemma locks_inv_step s s' : inv s -> step s s' -> inv s'.
Proof.
  intros Hi Hs. destruct Hs; [by eapply inv_request|by eapply inv_grant|by eapply inv_release].
Qed.

(** ** Progress *)

(** The first request for a lock. *)
Lemma first_request (q : list (nat * Lock * Mode)) l i m :
  (i, l, m) ∈ q -> exists pre j m' post, q = pre ++ (j, l, m') :: post /\ Forall (fun e => e.1.2 <> l) pre.
Proof.
  induction q as [|[[j l'] m'] q IH]; intros H; [by apply not_elem_of_nil in H|].
  destruct (decide (l' = l)) as [->|Hne]; [by exists [], j, m', q|].
  apply elem_of_cons in H as [[= _ -> _]|H]; [done|].
  destruct (IH H) as (pre & j' & m'' & post & -> & Hpre).
  exists ((j, l', m') :: pre), j', m'', post. split; [done|by constructor].
Qed.

(** A request that is not granted finds a holder. *)
Lemma blocked_by s l m : compatible m (holders s l) = false ->
  exists j t m', tasks s !! j = Some t /\ (l, m') ∈ held t.
Proof.
  intros H. assert (exists x, x ∈ holders s l) as (x & Hx).
  { destruct (holders s l) as [|x hs]; [by destruct m|]. exists x. by left. }
  unfold holders in Hx. apply list_elem_of_fmap in Hx as ([l' m'] & _ & [Hl Hin]%list_elem_of_filter).
  cbn in Hl. subst l'. apply list_elem_of_In, in_concat in Hin as (h & Hh & Hin).
  apply in_map_iff in Hh as (t & <- & Ht). apply list_elem_of_In, list_elem_of_lookup in Ht as (j & Hj).
  exists j, t, m'. split; [done|]. by apply list_elem_of_In.
Qed.

(** A task that holds a lock is not done, and waits only for locks above it. *)
Lemma holder_next h ops l : orderly h ops = true -> l ∈ h ->
  exists op ops', ops = op :: ops' /\ forall l' m, op = Acquire l' m -> rank l < rank l'.
Proof.
  destruct ops as [|op ops]; cbn; intros H Hl.
  - apply bool_decide_eq_true in H as ->. by apply not_elem_of_nil in Hl.
  - exists op, ops. split; [done|]. intros l' m ->. apply andb_true_iff in H as [H _].
    apply bool_decide_eq_true in H. rewrite Forall_forall in H. by apply H.
Qed.

(** A task that is not done moves, or waits for a lock. *)
Lemma task_moves s i t op ops :
  inv s -> tasks s !! i = Some t -> todo t = op :: ops ->
  (exists s', step s s') \/ exists l m, op = Acquire l m /\ (i, l, m) ∈ queue s.
Proof.
  intros Hi Ht Hto. destruct op as [l m|l].
  - destruct (asked t) eqn:Ea.
    + destruct (inv_asked _ Hi _ _ Ht Ea) as (l' & m' & ops' & Hto' & Hq). rewrite Hto in Hto'.
      injection Hto' as <- <- <-. right. by exists l, m.
    + left. eexists. by eapply step_request.
  - left. eexists. by eapply step_release.
Qed.

(** Along the order of the locks, from any request that waits one comes to a
    task that can move. *)
Lemma waiting_moves s n i l m :
  inv s -> 4 - rank l <= n -> (i, l, m) ∈ queue s -> exists s', step s s'.
Proof.
  intros Hi. revert i l m. induction n as [|n IH]; intros i l m Hn Hq; [destruct l; cbn in Hn; lia|].
  destruct (first_request _ _ _ _ Hq) as (pre & j & m' & post & Eq & Hpre).
  destruct (inv_queue _ Hi j l m') as (t & ops & Ht & _ & Hto); [rewrite Eq; set_solver|].
  destruct (compatible m' (holders s l)) eqn:Ec; [eexists; by eapply step_grant|].
  destruct (blocked_by _ _ _ Ec) as (k & u & m'' & Hu & Hheld).
  destruct (holder_next _ _ l (inv_orderly _ Hi _ _ Hu)) as (op & ops' & Hop & Hrank).
  { by apply (list_elem_of_fmap_2 fst) in Hheld. }
  destruct (task_moves _ _ _ _ _ Hi Hu Hop) as [?|(l' & m3 & -> & Hq')]; [done|].
  specialize (Hrank _ _ eq_refl). apply (IH k l' m3); [lia|done].
Qed.

Definition finished (s : State) : Prop := Forall (fun t => todo t = []) (tasks s).

Lemma progress s : inv s -> finished s \/ exists s', step s s'.
Proof.
  intros Hi. destruct (decide (finished s)) as [|Hn]; [by left|right].
  apply not_Forall_Exists in Hn; [|apply _]. apply Exists_exists in Hn as (t & Hin & Hne).
  apply list_elem_of_lookup in Hin as (i & Ht). destruct (todo t) as [|op ops] eqn:Hto; [done|].
  destruct (task_moves _ _ _ _ _ Hi Ht Hto) as [?|(l & m & _ & Hq)]; [done|].
  by apply (waiting_moves s 4 i l m); [|lia|].
Qed.

(** ** Runs end *)

Definition cost (ops : list Op) : nat :=
  sum_list_with (fun op => match op with Acquire _ _ => 2 | Release _ => 1 end) ops.
Definition weight (t : Task) : nat := cost (todo t) - (if asked t then 1 else 0).
Definition total (s : State) : nat := sum_list_with weight (tasks s).

Lemma sum_insert (l : list Task) i t t' :
  l !! i = Some t -> sum_list_with weight (<[i := t']> l) + weight t = sum_list_with weight l + weight t'.
Proof.
  revert i. induction l as [|x l IH]; intros [|i] H; simplify_eq/=; [lia|]. specialize (IH _ H). lia.
Qed.

Lemma step_total s s' : inv s -> step s s' -> total s = S (total s').
Proof.
  intros Hi Hs. unfold total. destruct Hs as [i t l m ops s Ht Hto Ha|i t l m ops pre post s Ht Hto Hq _ _|i t l ops s Ht Hto];
    cbn [tasks];
    match goal with |- context [<[i := ?t']> (tasks s)] => pose proof (sum_insert _ i t t' Ht) as Hsum end;
    unfold weight in Hsum at 2 4; cbn [todo asked] in Hsum.
  - rewrite Ha in Hsum. rewrite Hto in *. unfold cost in Hsum. cbn in Hsum. lia.
  - destruct (inv_queue _ Hi i l m) as (u & ops' & Hu & Hau & _); [rewrite Hq; set_solver|].
    rewrite Ht in Hu. injection Hu as <-. rewrite Hau, Hto in Hsum.
    unfold cost in Hsum. cbn in Hsum. lia.
  - destruct (asked t) eqn:Ea.
    + destruct (inv_asked _ Hi _ _ Ht Ea) as (l' & m' & ops' & Hto' & _). by rewrite Hto in Hto'.
    + rewrite Hto in Hsum. unfold cost in Hsum. cbn in Hsum. lia.
Qed.

Lemma run_bounded s n s' : inv s -> nsteps step n s s' -> inv s' /\ total s = n + total s'.
Proof.
  intros Hi Hr. induction Hr as [s|n s1 s2 s3 Hs _ IH]; [done|].
  destruct (IH (locks_inv_step _ _ Hi Hs)) as [? E]. split; [done|]. rewrite (step_total _ _ Hi Hs), E. done.
Qed.

(** ** The tasks of the node *)

(** Every section is orderly, also while the miner is held. *)
Definition section_ok (sec : list Op) : Prop :=
  forall h rest, h = [] \/ h = [Miner] -> orderly h (sec ++ rest) = orderly h rest.

Lemma sections_ok : Forall section_ok sections.
Proof.
  unfold sections. repeat (apply Forall_app; split);
    repeat (apply Forall_cons; split); try apply Forall_nil_2;
    intros h rest [-> | ->]; cbn; done.
Qed.

Lemma node_task_orderly ops : node_task ops -> orderly [] ops = true.
Proof.
  pose proof sections_ok as Hok. rewrite Forall_forall in Hok.
  induction 1 as [|sec ops Hsec _ IH|ss ops Hss _ IH]; [done| |].
  - rewrite (Hok sec Hsec); [done|by left].
  - unfold http_request_locks. cbn. rewrite <-app_assoc.
    assert (forall rest, orderly [Miner] (concat ss ++ rest) = orderly [Miner] rest) as Hcat.
    { induction Hss as [|sec ss Hsec _ IHs]; intros rest; [done|]. cbn [concat].
      rewrite <-app_assoc, (Hok sec Hsec); [apply IHs|by right]. }
    rewrite Hcat. exact IH.
Qed.

(** C26: The tasks of the node never deadlock on its locks. Let any tasks go
    through lock sections of the source and JSON-RPC requests, in any number
    and order, interleaved in any way, with fair locks: a state in which no
    task can move is one in which all are done, and every run gets there, in a
    number of steps that the tasks alone determine. *)
Theorem locks_never_deadlock programs n s :
  Forall node_task programs -> nsteps step n (start programs) s ->
  n <= sum_list_with cost programs /\ (finished s \/ exists s', step s s').
Proof.
  intros Hp Hr. assert (inv (start programs)) as Hi.
  { apply inv_start. eapply Forall_impl; [exact Hp|]. apply node_task_orderly. }
  destruct (run_bounded _ _ _ Hi Hr) as [Hi' E]. split; [|by apply progress].
  enough (total (start programs) = sum_list_with cost programs) by lia.
  unfold total, start. cbn [tasks]. clear. induction programs as [|ops l IH]; [done|].
  cbn [map sum_list_with]. rewrite IH.
  unfold weight. cbn [todo asked]. lia.
Qed.

(** ** Witness *)

Module Witness.

(** A producer, a task with signatures of a peer, and a client that asks for
    work, each with a nested section. *)
Definition programs : list (list Op) :=
  [nested QueuedPow Shared SignatureCollector Shared; nested SignatureCollector Exclusive BitcoinWallet Shared;
   http_request_locks [nested QueuedPow Shared HashCache Shared]].

Lemma programs_ok : Forall node_task programs.
Proof.
  repeat (apply Forall_cons; split); try apply Forall_nil_2.
  - rewrite <-(app_nil_r (nested _ _ _ _)). apply task_section; [|constructor].
    apply list_elem_of_In. unfold sections. cbn. tauto.
  - rewrite <-(app_nil_r (nested _ _ _ _)). apply task_section; [|constructor].
    apply list_elem_of_In. unfold sections. cbn. tauto.
  - rewrite <-(app_nil_r (http_request_locks _)). apply task_request; [|constructor].
    apply Forall_cons; split; [|apply Forall_nil_2]. apply list_elem_of_In. unfold sections. cbn. tauto.
Qed.

(** The producer has asked for the queued proof of work. *)
Definition asking : State :=
  mkState (<[0 := mkTask (nested QueuedPow Shared SignatureCollector Shared) true []]> (tasks (start programs)))
    [(0, QueuedPow, Shared)].

Lemma asking_reached : nsteps step 1 (start programs) asking.
Proof. apply nsteps_once. by refine (step_request 0 _ _ _ _ (start programs) eq_refl eq_refl eq_refl). Qed.

Lemma locks_never_deadlock_witness :
  1 <= sum_list_with cost programs /\ (finished asking \/ exists s', step asking s').
Proof.
  apply (locks_never_deadlock programs 1 asking programs_ok asking_reached).
Defined.

End Witness.

End Locks.
