(* ===== verification/Tasks.v ===== *)
(** The node's tasks that listen to the network ([monitor_gossip],
    [listen_for_peer_discovery] and [listen_for_rpc_requests] of
    [app/src/chain.rs]), each with its receiver of a broadcast channel of the
    backend: the chain of file [Node] and the backend of file [Network]
    together. *)
From stdpp Require Import base decidable list gmap sets strings.
From Stdlib Require Import ZArith Lia.
From S2P Require Import Prelude Bitcoin Errors AuxPow Signatures Block Serial Aura Candidates.
From S2P Require Import Store Retarget AuxMiner BTree Wallet WalletProofs Bridge Engine Payouts ChainRange.
From S2P Require Import RpcRetry BlockHashCache RpcTypes RateLimiter RpcBehaviour Multiaddr Network.
From S2P Require Import Chain Node ChainProofs Safety ChainWitness NetworkProofs.

Module Tasks.
Local Open Scope Z_scope.

Section WithLibs.
Context `{B : BitcoinLib, L : BlsLib, K : BlockLib, S : StoreLib, D : DecimalLib,
          W : WalletLib, F : !FeeEstimate, G : BridgeLib, A : !ExecutionApi}.
Context {PeerId : Type} `{HO : PeerOrder PeerId} {ConnectionId : Type} `{ML : MultiaddrLib}.

Abbreviation PubsubMessage := Chain.PubsubMessage.

(** The kind of a message. *)
Definition pubsub_kind (m : PubsubMessage) : GossipKind :=
  match m with
  | Chain.ConsensusBlockMsg _ => KConsensusBlock
  | Chain.ApproveBlockMsg _ => KApproveBlock
  | Chain.QueuePowMsg _ => KQueuePow
  | Chain.PegoutSignaturesMsg _ => KPegoutSignatures
  end.

(** [rmp_serde::to_vec] and [from_slice]. *)
Context (rmp_to_vec : PubsubMessage -> option (list Z)) (rmp_from_slice : list Z -> option PubsubMessage).

#[local] Instance pubsub_gossip : GossipLib PubsubMessage := {|
  kind := pubsub_kind;
  to_vec := rmp_to_vec;
  from_slice := rmp_from_slice;
|}.

Abbreviation chain_t := (Chain.t (PeerId:=PeerId)).
Abbreviation net_t := (Network.t (PeerId:=PeerId) (ConnectionId:=ConnectionId) (Msg:=PubsubMessage)).
Abbreviation message := (Network.RPCMessage (PeerId:=PeerId) (ConnectionId:=ConnectionId)).

(** The chain, the backend, and the receivers of the three tasks. *)
Record t := mk {
  chain : chain_t;
  net : net_t;
  gossip_rx : nat;
  peers_rx : nat;
  rpc_rx : nat;
}.

(** The chain's part of a turn; the backend does nothing meanwhile. *)
Definition on_chain {X} (m : ST chain_t Error X) : ST t Error X := fun s =>
  let (r, c) := m (chain s) in (r, mk c (net s) (gossip_rx s) (peers_rx s) (rpc_rx s)).

Definition on_net {X} (m : ST net_t Network.Error X) : ST t Error (res Network.Error X) := fun s =>
  let (r, n) := m (net s) in
  let s' := mk (chain s) n (gossip_rx s) (peers_rx s) (rpc_rx s) in
  match r with Panic => (Panic, s') | _ => (Ok r, s') end.

(** ** Gossip *)

(** A receiver that fell behind misses the messages and goes on. *)
Definition gossip_turn (send_rpc : RpcTypes.BlocksByRangeRequest -> PeerId -> nat -> option (list Node.RPCResponse)) (rounds : nat) :
    ST t Error unit := fun s =>
  let (r, rx) := Network.broadcast_recv Network.EVENTS_CAPACITY (Network.network_events (net s)) (gossip_rx s) in
  let s' := mk (chain s) (net s) rx (peers_rx s) (rpc_rx s) in
  match r with
  | Err (Network.Lagged _) => (Ok tt, s')
  | Ok (Some msg) => on_chain (Node.on_gossip send_rpc rounds msg) s'
  | Ok None => (Ok tt, s')
  | Panic => (Panic, s')
  end.

(** ** Peers *)

(** Here falling behind is an [unwrap] of an error. *)
Definition peers_turn : ST t Error unit := fun s =>
  let (r, rx) := Network.broadcast_recv Network.PEERS_CAPACITY (Network.peers_connected (net s)) (peers_rx s) in
  let s' := mk (chain s) (net s) (gossip_rx s) rx (rpc_rx s) in
  match r with
  | Ok (Some ps) => on_chain (Node.on_peers (elements ps)) s'
  | Ok None => (Ok tt, s')
  | Err _ | Panic => (Panic, s')
  end.

(** ** Requests of peers *)

(** The blocks one after the other, until an answer cannot be sent. *)
Fixpoint respond_blocks (respond : RpcTypes.RPCCodedResponse -> ST t Error (res Network.Error unit))
    (blocks : list SignedConsensusBlock) : ST t Error unit :=
  match blocks with
  | [] => mret tt
  | block :: blocks =>
      r ← respond (RpcTypes.Success (RpcTypes.BlocksByRangeResp block));
      match r with
      | Ok _ => respond_blocks respond blocks
      | _ => mret tt
      end
  end.

Definition on_request (now : Z) (msg : message) : ST t Error unit :=
  match Network.m_event msg with
  | RpcTypes.Received (RpcTypes.ReceivedRequest substream_id (RpcTypes.BlocksByRangeReq x)) =>
      let respond payload :=
        on_net (Network.respond_rpc true now (Network.m_peer_id msg) (Network.m_conn_id msg)
                                    substream_id payload) in
      blocks ← on_chain (Node.on_blocks_by_range (RpcTypes.start_height x) (RpcTypes.count x));
      respond_blocks respond blocks ;;
      respond (RpcTypes.StreamTermination RpcTypes.BlocksByRangeTermination) ;;
      mret tt
  | _ => mret tt
  end.

Definition rpc_turn (now : Z) : ST t Error unit := fun s =>
  let (r, rx) :=
    Network.broadcast_recv Network.RPC_EVENTS_CAPACITY (Network.network_rpc_events (net s)) (rpc_rx s) in
  let s' := mk (chain s) (net s) (gossip_rx s) (peers_rx s) rx in
  match r with
  | Ok (Some msg) => on_request now msg s'
  | Ok None => (Ok tt, s')
  | Err _ | Panic => (Panic, s')
  end.

(** ** One block per request *)

Definition answer (msg : message) (id : Z) (payload : RpcTypes.RPCCodedResponse) :
    RpcBehaviour.BehaviourAction (PeerId:=PeerId) (Id:=Z) (ConnectionId:=ConnectionId) (SubstreamId:=Z) :=
  RpcBehaviour.NotifyHandler (Network.m_peer_id msg)
    (RpcBehaviour.OneHandler (Network.m_conn_id msg)) (RpcTypes.SendResponse id payload).

Definition queued (s : t) := RpcBehaviour.events (Network.eth2_rpc (net s)).

Lemma respond_spec now msg id payload s :
  exists s', on_net (Network.respond_rpc true now (Network.m_peer_id msg) (Network.m_conn_id msg) id payload) s
             = (Ok (Err Network.OneshotRecvError), s') /\
    queued s' = queued s ++ [answer msg id payload] /\ chain s' = chain s.
Proof. unfold on_net. rewrite NetworkProofs.respond_rpc_fails. by eexists. Qed.

(** Whatever number of blocks a peer asks for and the node has, it is sent the
    first and the end of the stream: the backend reports every answer as
    failed, and the task stops at the first failure. *)
Theorem one_block_served now msg id req s blocks c :
  Network.m_event msg = RpcTypes.Received (RpcTypes.ReceivedRequest id (RpcTypes.BlocksByRangeReq req)) ->
  Node.on_blocks_by_range (RpcTypes.start_height req) (RpcTypes.count req) (chain s) = (Ok blocks, c) ->
  exists s', on_request now msg s = (Ok tt, s') /\ chain s' = c /\
    queued s' = queued s ++
      map (fun b => answer msg id (RpcTypes.Success (RpcTypes.BlocksByRangeResp b))) (take 1 blocks) ++
      [answer msg id (RpcTypes.StreamTermination RpcTypes.BlocksByRangeTermination)].
Proof.
  intros Em Eb. unfold on_request. rewrite Em. unfold mbind at 1, st_bind at 1, on_chain. rewrite Eb.
  set (s1 := mk c _ _ _ _). assert (queued s1 = queued s) as Hq by done.
  assert (exists s2, respond_blocks (fun payload => on_net (Network.respond_rpc true now
      (Network.m_peer_id msg) (Network.m_conn_id msg) id payload)) blocks s1 = (Ok tt, s2) /\
    chain s2 = c /\ queued s2 = queued s ++
      map (fun b => answer msg id (RpcTypes.Success (RpcTypes.BlocksByRangeResp b))) (take 1 blocks))
    as (s2 & E2 & Hc2 & Hq2).
  { destruct blocks as [|b blocks]; [exists s1; by rewrite app_nil_r|]. cbn [respond_blocks].
    destruct (respond_spec now msg id (RpcTypes.Success (RpcTypes.BlocksByRangeResp b)) s1) as (s2 & E2 & H2 & H3).
    exists s2. unfold mbind, st_bind. rewrite E2. split; [done|]. by rewrite H2, H3, Hq. }
  destruct (respond_spec now msg id (RpcTypes.StreamTermination RpcTypes.BlocksByRangeTermination) s2)
    as (s3 & E3 & H3 & H4).
  exists s3. unfold mbind, st_bind. rewrite E2, E3. split; [done|]. split; [congruence|].
  by rewrite H3, Hq2, <-app_assoc.
Qed.

(** ** Falling behind *)

Lemma requests_logged (burst : list message) (n : net_t) :
  Forall (fun m => exists id req, Network.m_event m = RpcTypes.Received (RpcTypes.ReceivedRequest id req)) burst ->
  exists n', Network.run (map (fun m => Network.FromSwarm (Network.Eth2Rpc m)) burst) n = (Ok tt, n') /\
    Network.network_rpc_events n' = Network.network_rpc_events n ++ burst.
Proof.
  intros Hb. revert n. induction Hb as [|m burst (id & req & Em) _ IH]; intros n; [exists n; by rewrite app_nil_r|].
  destruct (IH (Network.send_rpc_event m n)) as (n' & E & El). exists n'. cbn in El.
  rewrite El, <-app_assoc. split; [|done]. unfold Network.run in *. cbn.
  unfold mbind, st_bind, Network.on_rpc. rewrite Em. exact E.
Qed.

(** More than 64 requests since the task's last turn abort the node. *)
Theorem request_burst_aborts now s (burst : list message) :
  rpc_rx s = length (Network.network_rpc_events (net s)) ->
  Forall (fun m => exists id req, Network.m_event m = RpcTypes.Received (RpcTypes.ReceivedRequest id req)) burst ->
  (Network.RPC_EVENTS_CAPACITY < length burst)%nat ->
  exists n, Network.run (map (fun m => Network.FromSwarm (Network.Eth2Rpc m)) burst) (net s) = (Ok tt, n) /\
    (rpc_turn now (mk (chain s) n (gossip_rx s) (peers_rx s) (rpc_rx s))).1 = Panic.
Proof.
  intros Hrx Hb Hlen. destruct (requests_logged burst (net s) Hb) as (n & E & El).
  exists n. split; [done|]. unfold rpc_turn, Network.broadcast_recv. cbn [net rpc_rx].
  rewrite El, Hrx, length_app. rewrite (proj2 (Nat.ltb_lt _ _)); [done|]. lia.
Qed.

(** A receiver that has not fallen behind reads the log to its end. *)
Lemma recv_next {X} cap (log : list X) rx x rest :
  drop rx log = x :: rest -> (length (x :: rest) <= cap)%nat ->
  Network.broadcast_recv cap log rx = (Ok (Some x), Datatypes.S rx) /\ drop (Datatypes.S rx) log = rest.
Proof.
  intros Ed Hlen. assert (log !! rx = Some x) as Hx by (by rewrite <-(Nat.add_0_r rx), <-lookup_drop, Ed).
  pose proof (f_equal length Ed) as El. rewrite length_drop in El.
  unfold Network.broadcast_recv. rewrite (proj2 (Nat.ltb_ge _ _)) by lia. rewrite Hx.
  split; [done|]. apply drop_S in Hx. rewrite Hx in Ed. by injection Ed.
Qed.

Fixpoint peers_turns (n : nat) : ST t Error unit :=
  match n with
  | O => mret tt
  | Datatypes.S n => peers_turn ;; peers_turns n
  end.

(** The task of the peers catches up with the backend: with at most 32
    announcements pending, after as many turns the chain's peers are the last
    set announced. *)
Theorem peers_caught_up s ps :
  last (drop (peers_rx s) (Network.peers_connected (net s))) = Some ps ->
  (length (drop (peers_rx s) (Network.peers_connected (net s))) <= Network.PEERS_CAPACITY)%nat ->
  exists s', peers_turns (length (drop (peers_rx s) (Network.peers_connected (net s)))) s = (Ok tt, s') /\
    net s' = net s /\ Chain.peers (chain s') = elements ps.
Proof.
  remember (drop (peers_rx s) (Network.peers_connected (net s))) as pending eqn:Ep.
  revert s Ep. induction pending as [|x rest IH]; intros s Ep Hlast Hlen; [done|]. symmetry in Ep.
  destruct (recv_next _ _ _ _ _ Ep Hlen) as [E Erest]. cbn [length peers_turns].
  set (s1 := mk (Chain.set_peers (elements x) (chain s)) (net s) (gossip_rx s) (Datatypes.S (peers_rx s)) (rpc_rx s)).
  assert (peers_turn s = (Ok tt, s1)) as E1 by (unfold peers_turn; rewrite E; done).
  unfold mbind, st_bind. rewrite E1. destruct rest as [|y rest].
  - cbn in Hlast. injection Hlast as <-. by exists s1.
  - destruct (IH s1) as (s' & E' & Hn & Hp); [done|done|cbn in *; lia|]. by exists s'.
Qed.

End WithLibs.

(** ** Synchronising with nodes that serve like this *)

Section SyncPeers.
Context `{B : BitcoinLib, L : BlsLib, K : BlockLib, S : StoreLib, D : DecimalLib,
          W : WalletLib, F : !FeeEstimate, G : BridgeLib, A : !ExecutionApi}.
Context {PeerId : Type} `{HO : PeerOrder PeerId} {ConnectionId : Type} `{ML : MultiaddrLib}.
Context (rmp_to_vec : Chain.PubsubMessage -> option (list Z)) (rmp_from_slice : list Z -> option Chain.PubsubMessage).

Abbreviation chain_t := (Chain.t (PeerId:=PeerId)).
Abbreviation node_t := (t (PeerId:=PeerId) (ConnectionId:=ConnectionId)).
Abbreviation message := (Network.RPCMessage (PeerId:=PeerId) (ConnectionId:=ConnectionId)).

(** A response that the swarm is told to send on a substream, as the asking node
    reads it. *)
Definition block_sent (id : Z)
    (a : RpcBehaviour.BehaviourAction (PeerId:=PeerId) (Id:=Z) (ConnectionId:=ConnectionId) (SubstreamId:=Z)) :
    option Node.RPCResponse :=
  match a with
  | RpcBehaviour.NotifyHandler _ _ (RpcTypes.SendResponse i (RpcTypes.Success (RpcTypes.BlocksByRangeResp b))) =>
      if i =? id then Some (Node.BlocksByRange b) else None
  | _ => None
  end.

(** What a node answers to a request: its task handles the message, and the
    responses that its backend then has to send for the substream are read. *)
Definition peer_answer (now : Z) (s : node_t) (msg : message) (id : Z) : option (list Node.RPCResponse) :=
  match on_request rmp_to_vec rmp_from_slice now msg s with
  | (Ok _, s') => Some (omap (block_sent id) (drop (length (queued s)) (queued s')))
  | _ => None
  end.

(** Every answer comes from a node that runs this program, in whatever state it
    is by then, to a message with the request. *)
Definition served (send_rpc : RpcTypes.BlocksByRangeRequest -> PeerId -> nat -> option (list Node.RPCResponse)) :
    Prop :=
  forall req p n stream, send_rpc req p n = Some stream -> exists now s msg id,
    Network.m_event msg = RpcTypes.Received (RpcTypes.ReceivedRequest id (RpcTypes.BlocksByRangeReq req)) /\
    peer_answer now s msg id = Some stream.

Lemma peer_answer_short now s msg id req stream :
  Network.m_event msg = RpcTypes.Received (RpcTypes.ReceivedRequest id (RpcTypes.BlocksByRangeReq req)) ->
  peer_answer now s msg id = Some stream ->
  exists blocks, (Node.on_blocks_by_range (RpcTypes.start_height req) (RpcTypes.count req) (chain s)).1 = Ok blocks /\
    stream = map Node.BlocksByRange (take 1 blocks).
Proof.
  intros Em. unfold peer_answer.
  destruct (Node.on_blocks_by_range (RpcTypes.start_height req) (RpcTypes.count req) (chain s))
    as [[blocks| |] c] eqn:Eb.
  - destruct (one_block_served rmp_to_vec rmp_from_slice now msg id req s blocks c Em Eb) as (s' & -> & _ & Hq).
    intros [= <-]. exists blocks. split; [done|]. rewrite Hq, drop_app_length.
    destruct blocks as [|b blocks]; cbn; [done|]. by rewrite Z.eqb_refl.
  - unfold on_request. rewrite Em. unfold mbind, st_bind, on_chain. by rewrite Eb.
  - unfold on_request. rewrite Em. unfold mbind, st_bind, on_chain. by rewrite Eb.
Qed.

(** Processing a block and rolling back leave the status alone. *)
Abbreviation status := (ChainProofs.same (Chain.sync_status (PeerId:=PeerId))).

#[local] Instance status_preorder : PreOrder status.
Proof. split; [done|]. intros x y z H1 H2. unfold ChainProofs.same in *. congruence. Qed.

#[local] Hint Extern 2 (tracks status (modifyS _)) => apply tracks_modifyS; done : alys.
#[local] Hint Extern 2 (tracks status (zoom _ _ _)) => apply ChainProofs.tracks_zoom; done : alys.
#[local] Hint Extern 2 (tracks status (Chain.on_storage _)) => apply ChainProofs.tracks_zoom; done : alys.
#[local] Hint Extern 2 (tracks status (Chain.on_engine _)) => apply ChainProofs.tracks_zoom; done : alys.
#[local] Hint Extern 2 (tracks status (Chain.on_candidates _)) => apply ChainProofs.tracks_zoom; done : alys.
#[local] Hint Extern 2 (tracks status (Chain.on_wallet _)) => apply ChainProofs.tracks_zoom; done : alys.
#[local] Hint Resolve ChainProofs.tracks_unwrap ChainProofs.tracks_map_err : alys.

Lemma update_head_status root height ov : tracks status (Chain.update_head_ref_ops root height ov).
Proof. intros c. unfold Chain.update_head_ref_ops. destruct (Chain.head c); [destruct (_ && _)|]; done. Qed.
#[local] Hint Resolve update_head_status : alys.

Lemma process_block_status b : tracks status (Chain.process_block b).
Proof.
  unfold Chain.process_block, Chain.check_block, Chain.check_pegout_proposal, Chain.file_candidate,
    Chain.maybe_accept_block, Chain.import_verified_block, Chain.import_verified_block_no_commit,
    Chain.process_pegs, Chain.process_pegin, Chain.process_finalized_pegout, Chain.finalize,
    Chain.update_block_hash_cache. track.
Qed.

Lemma sync_block_status h b : tracks status (Node.sync_block h b).
Proof.
  assert (tracks status (Chain.rollback_head (PeerId:=PeerId) (saturating_sub h 1))) as Hr
    by (unfold Chain.rollback_head; track).
  intros c. unfold Node.sync_block. pose proof (process_block_status b c) as H1.
  destruct (Chain.process_block b c) as [r c1]; cbn in H1. specialize (Hr c1).
  destruct (Chain.rollback_head _ c1) as [r2 c2]; cbn in Hr. assert (status c c2) by (by etrans).
  repeat (case_match; try done).
Qed.

Lemma fallback_keeps send_rpc req (c : chain_t) :
  ChainProofs.core (Node.send_with_peer_fallback send_rpc req c).2 = ChainProofs.core c /\
  status c (Node.send_with_peer_fallback send_rpc req c).2.
Proof.
  unfold Node.send_with_peer_fallback, getS, zoom, mbind, st_bind.
  by destruct (RpcRetry.peer_fallback _ _ _ _).
Qed.

(** A block after which the stream goes on is one that was processed. *)
Lemma sync_block_went_on h b (c c' : chain_t) :
  Node.sync_block h b c = (Ok true, c') -> exists r, Chain.process_block b c = (r, c').
Proof. unfold Node.sync_block. destruct (Chain.process_block b c) as [r c1]. intros Hs. repeat case_match; naive_solver. Qed.

(** C38: Against peers that run this program, synchronising takes at most one
    block, however far ahead they are. The answers are those that the task of a
    peer has its backend send for the request. When [sync] ends with the node
    counted as synced, it has asked once, for the 1024 blocks above its head, and
    has processed nothing or the single block it was sent, the first of those the
    peer had. *)
Theorem sync_takes_one_block send_rpc rounds (c c' : chain_t) :
  served send_rpc ->
  Node.sync send_rpc (Datatypes.S rounds) c = (Ok tt, c') -> Chain.sync_status c' = Chain.Synced ->
  exists c1, ChainProofs.core c1 = ChainProofs.core c /\
    (c' = Chain.set_sync_status Chain.Synced c1 \/
     exists b r c2 (cp : chain_t) blocks, Chain.process_block b c1 = (r, c2) /\ c' = Chain.set_sync_status Chain.Synced c2 /\
       (Node.on_blocks_by_range (from_option ref_height 0 (Chain.head c) + 1) 1024 cp).1 = Ok (b :: blocks)).
Proof.
  intros Hserved. unfold Node.sync, modifyS, getS, mbind, st_bind. destruct (Chain.peers _); [done|].
  set (c0 := Chain.set_sync_status Chain.InProgress c). cbn [Node.sync_rounds].
  unfold add_chk, chk. destruct (in_width _ _); [|done]. set (req := RpcTypes.mkRange _ _).
  destruct (fallback_keeps send_rpc req c0) as [Hcore Hst].
  destruct (Node.send_with_peer_fallback send_rpc req c0) as [[stream| |] c1] eqn:Ef; cbn [snd] in *;
    [|intros [= <-]; unfold ChainProofs.same in Hst; by rewrite Hst|done].
  apply ChainProofs.fallback_answer in Ef as (q & i & (now & s & msg & id & Em & Ha)%Hserved).
  destruct (peer_answer_short _ _ _ _ _ _ Em Ha) as (blocks & Es & ->).
  cbn [RpcTypes.start_height RpcTypes.count req] in Es.
  destruct blocks as [|b blocks]; cbn [take map Node.sync_stream].
  { intros [= <-] _. exists c1. split; [done|by left]. }
  match goal with |- context [Node.sync_block ?h b] => pose proof (sync_block_status h b c1) as Hsb;
    pose proof (sync_block_went_on h b c1) as Hgo; destruct (Node.sync_block h b c1) as [r2 c2] eqn:E2 end.
  unfold mbind, st_bind. rewrite E2. cbn [snd] in Hsb. unfold ChainProofs.same in *.
  destruct r2 as [[]| |]; [| |done..]; intros [= <-].
  - intros _. destruct (Hgo _ eq_refl) as (r & Hr). exists c1. split; [done|]. right.
    by exists b, r, c2, (chain s), blocks.
  - by rewrite Hsb, Hst.
Qed.

End SyncPeers.

(** ** Witnesses *)

Module Witness.
Import ChainWitness.
#[local] Existing Instance ExampleLib.lib.
#[local] Existing Instance Signatures.Example.bls.
#[local] Existing Instance Store.Witness.lib.
#[local] Existing Instance Retarget.Witness.dec.
#[local] Existing Instance WalletProofs.Witness.lib.
#[local] Existing Instance Bridge.Witness.lib.
#[local] Existing Instance ChainWitness.blocks.
#[local] Existing Instance ChainWitness.fees.
#[local] Existing Instance ChainWitness.api.
#[local] Existing Instance Multiaddr.Witness.lib.

#[local] Instance order : PeerOrder Z.
Proof. refine {| peers_of := fun V (m : gmap Z V) => (map_to_list m).*1 |}. done. Defined.

Definition no_vec {X Y : Type} (_ : X) : option Y := None.

(** The node with two blocks, asked by peer 1 for blocks from the first on. *)
Definition ask : Network.RPCMessage (PeerId:=Z) (ConnectionId:=Z) :=
  Network.mkMessage 1 7
    (RpcTypes.Received (RpcTypes.ReceivedRequest 5 (RpcTypes.BlocksByRangeReq (RpcTypes.mkRange 53143 2)))).

Definition s0 : t (PeerId:=Z) (ConnectionId:=Z) :=
  mk c1 (Network.init (RpcBehaviour.mkRPC None None [])) 0 0 0.

Definition served := Node.on_blocks_by_range (PeerId:=Z) 53143 2 c1.

Example two_blocks : served.1 = Ok [g; b1].
Proof. vm_compute. done. Qed.

Lemma one_block_served_witness :
  exists s', on_request no_vec no_vec 0 ask s0 = (Ok tt, s') /\ chain s' = served.2 /\
    queued s' = queued s0 ++
      [answer ask 5 (RpcTypes.Success (RpcTypes.BlocksByRangeResp g));
       answer ask 5 (RpcTypes.StreamTermination RpcTypes.BlocksByRangeTermination)].
Proof.
  apply (one_block_served no_vec no_vec 0 ask 5 (RpcTypes.mkRange 53143 2) s0 [g; b1] served.2); [done|].
  vm_compute. done.
Defined.

(** A node at [g] and a peer two blocks ahead. *)
Definition far : t (PeerId:=Z) (ConnectionId:=Z) :=
  mk c2 (Network.init (RpcBehaviour.mkRPC None None [])) 0 0 0.
Definition asked (req : RpcTypes.BlocksByRangeRequest) : Network.RPCMessage (PeerId:=Z) (ConnectionId:=Z) :=
  Network.mkMessage 1 7 (RpcTypes.Received (RpcTypes.ReceivedRequest 5 (RpcTypes.BlocksByRangeReq req))).
Definition ahead (req : RpcTypes.BlocksByRangeRequest) (_ : Z) (_ : nat) : option (list Node.RPCResponse) :=
  peer_answer no_vec no_vec 0 far (asked req) 5.
Definition synced := Node.sync ahead 1 c0.

Lemma sync_takes_one_block_witness :
  Chain.head c2 = Some (block_ref b2) /\ Chain.head synced.2 = Some (block_ref b1) /\
  exists c1, ChainProofs.core c1 = ChainProofs.core c0 /\
    (synced.2 = Chain.set_sync_status Chain.Synced c1 \/
     exists b r c' (cp : Chain.t (PeerId:=Z)) blocks,
       Chain.process_block b c1 = (r, c') /\ synced.2 = Chain.set_sync_status Chain.Synced c' /\
       (Node.on_blocks_by_range (from_option ref_height 0 (Chain.head c0) + 1) 1024 cp).1 = Ok (b :: blocks)).
Proof.
  split; [vm_compute; reflexivity|]. split; [vm_compute; reflexivity|].
  apply (sync_takes_one_block (ConnectionId:=Z) no_vec no_vec ahead 0 c0 synced.2).
  - intros req p n stream Hs. by exists 0, far, (asked req), 5.
  - assert (synced.1 = Ok tt) as E by (vm_compute; reflexivity). rewrite <-E. apply surjective_pairing.
  - vm_compute. reflexivity.
Defined.

Lemma request_burst_aborts_witness :
  exists n, Network.run (GossipLib0:=pubsub_gossip no_vec no_vec)
      (map (fun m => Network.FromSwarm (Network.Eth2Rpc m)) (replicate 65 ask)) (net s0) = (Ok tt, n) /\
    (rpc_turn no_vec no_vec 0 (mk c1 n 0 0 0)).1 = Panic.
Proof.
  apply (request_burst_aborts no_vec no_vec 0 s0 (replicate 65 ask)); [done| |unfold Network.RPC_EVENTS_CAPACITY; cbn; lia].
  apply Forall_replicate. by eexists _, _.
Defined.

Definition announced : t (PeerId:=Z) (ConnectionId:=Z) :=
  mk c1 (Network.on_established 3 (Multiaddr.Witness.node "10.38.1.103")
          (Network.init (RpcBehaviour.mkRPC None None []))) 0 0 0.

Lemma peers_caught_up_witness :
  exists s', peers_turns 1 announced = (Ok tt, s') /\ net s' = net announced /\
    Chain.peers (chain s') = elements ({[3]} ∪ ∅ : gset Z).
Proof. apply (peers_caught_up announced); vm_compute; [done|lia]. Defined.

End Witness.
End Tasks.
