(* ===== verification/App.v ===== *)
(** The start of a node ([app/src/app.rs], [app/src/spec.rs]): the command line
    with its defaults for [--dev], the chain specification, and [execute], which
    puts the components together and starts the tasks; and [run], which sets up
    the log and ends with a signal. The command line parser, files, JSON, the
    HTTP clients and listeners and the runtime are libraries, and so are the
    databases behind their paths. *)
From stdpp Require Import base decidable list gmap sets strings.
From Stdlib Require Import ZArith Lia.
From S2P Require Import Prelude Bitcoin Errors AuxPow Signatures Block Serial Aura Candidates.
From S2P Require Import Store Retarget AuxMiner BTree Wallet WalletProofs Bridge Engine Payouts ChainRange.
From S2P Require Import RpcRetry BlockHashCache RpcTypes RateLimiter RpcBehaviour Multiaddr Network.
From S2P Require Import Chain Node ChainProofs Safety ChainWitness NetworkProofs Tasks.

Local Open Scope Z_scope.

(** Files, [hex::decode], and the parsers of keys and addresses. *)
Class AppLib `{BlsLib, WalletLib} := {
  read_to_string : string -> option string;
  decode_hex : string -> option bytes;
  bls_secret_key_deserialize : bytes -> option SecretKey;
  bls_public_key_from_str : string -> option PublicKey;
  btc_secret_key_from_str : string -> option BtcSecretKey;
  btc_public_key_from_str : string -> option BtcPublicKey;
  address_from_str : string -> option Address;
}.

Module App.

(** A value of the command line that does not parse ends the process. *)
Inductive CliError := ParseFailed.

Record ChainSpec := mkSpec {
  slot_duration : Z;
  authorities : list PublicKey;
  federation : list Address;
  federation_bitcoin_pubkeys : list BtcPublicKey;
  bits : Z;
  chain_id : Z;
  max_blocks_without_pow : Z;
  bitcoin_start_height : Z;
  retarget_params : Retarget.Params;
  is_validator : bool;
  execution_timeout_length : Z;
  required_btc_txn_confirmations : Z;
}.

Definition DEV_SECRET_KEY : string :=
  "0000000000000000000000000000000000000000000000000000000000000001".
Definition DEV_BITCOIN_SECRET_KEY : string :=
  "0000000000000000000000000000000000000000000000000000000000000001".
Definition DEV_AUTHORITY : string :=
  "0x97f1d3a73197d7942695638c4fa9ac0fc3688c4f9774b905a14e3a3f171bac586c55e83ff97a1aeffb3af00adb22c6bb".
Definition DEV_FEDERATION_KEY : string :=
  "0279be667ef9dcbbac55a06295ce870b07029bfcdb2dce28d959f2815b16f81798".
Definition DEV_RETARGET : Retarget.Params :=
  Retarget.mkParams 553713663 439495319 60 5 false 20.

Section Keys.
Context `{L : BlsLib, W : WalletLib, P : !AppLib}.

Definition parse_secret_key (s : string) : res CliError SecretKey :=
  b ← ok_or (decode_hex s) ParseFailed;
  ok_or (bls_secret_key_deserialize b) ParseFailed.

Definition parse_bitcoin_secret_key (s : string) : res CliError BtcSecretKey :=
  ok_or (btc_secret_key_from_str s) ParseFailed.

(** A text that cannot be parsed is an [unwrap] of an error. *)
Definition DEV : res CliError ChainSpec :=
  pk ← unwrap (bls_public_key_from_str DEV_AUTHORITY);
  addr ← unwrap (address_from_str "2e80ab37dfb510a64526296fd1f295c42ef19c29");
  btc ← unwrap (btc_public_key_from_str DEV_FEDERATION_KEY);
  Ok (mkSpec 4000 [pk] [addr] [btc] 505794034 121212 50000 95800 DEV_RETARGET true 3 144).

(** [spec_from_json] is [serde_json::from_str], which takes missing fields from
    [DEV]. *)
Definition genesis_value_parser (spec_from_json : string -> option ChainSpec) (s : string) :
    res CliError ChainSpec :=
  if String.eqb s "dev" then DEV
  else raw ← ok_or (read_to_string s) ParseFailed;
       ok_or (spec_from_json raw) ParseFailed.

(** A secret of another length panics. *)
Definition hex_file_parser (path : string) : res CliError bytes :=
  raw ← ok_or (read_to_string path) ParseFailed;
  b ← ok_or (decode_hex raw) ParseFailed;
  if (length b =? 32)%nat then Ok b else Panic.

(** ** The command line *)

(** The arguments, without the Bitcoin network, which is part of the texts of
    addresses. *)
Record App := mkApp {
  chain_spec : option ChainSpec;
  aura_secret_key : option SecretKey;
  bitcoin_secret_key : option BtcSecretKey;
  mine : bool;
  no_mine : bool;
  not_validator : bool;
  rpc_port : Z;
  p2p_port : Z;
  p2p_listen_addr : list Z;
  remote_bootnode : option (list Z);
  dev : bool;
  bitcoin_rpc_url : option string;
  bitcoin_rpc_user : option string;
  bitcoin_rpc_pass : option string;
  metrics_port : option Z;
  wallet_path : option string;
  geth_url : option string;
  geth_execution_url : option string;
  db_path : option string;
  full_log_context : bool;
  jwt_secret : bytes;
}.

(** An argument with [default_value_if("dev", IsPresent, text)]: a given value
    is kept. *)
Definition dev_default {X} (dev : bool) (text : res CliError X) (given : option X) :
    res CliError (option X) :=
  match given with
  | Some x => Ok (Some x)
  | None => if dev then x ← text; Ok (Some x) else Ok None
  end.

(** [App::parse] on the values given: the defaults of [--dev] are filled in, and
    without it the chain is required. *)
Definition parse (a : App) : res CliError App :=
  spec ← dev_default (dev a) DEV (chain_spec a);
  spec ← ok_or spec ParseFailed;
  sk ← dev_default (dev a) (parse_secret_key DEV_SECRET_KEY) (aura_secret_key a);
  btc ← dev_default (dev a) (parse_bitcoin_secret_key DEV_BITCOIN_SECRET_KEY) (bitcoin_secret_key a);
  url ← dev_default (dev a) (Ok "http://0.0.0.0:18443"%string) (bitcoin_rpc_url a);
  user ← dev_default (dev a) (Ok "rpcuser"%string) (bitcoin_rpc_user a);
  pass ← dev_default (dev a) (Ok "rpcpassword"%string) (bitcoin_rpc_pass a);
  Ok (mkApp (Some spec) sk btc (mine a) (no_mine a) (not_validator a) (rpc_port a) (p2p_port a)
        (p2p_listen_addr a) (remote_bootnode a) (dev a) url user pass (metrics_port a)
        (wallet_path a) (geth_url a) (geth_execution_url a) (db_path a) (full_log_context a) (jwt_secret a)).

(** ** Roles *)

Definition validates (a : App) (spec : ChainSpec) : bool := is_validator spec && negb (not_validator a).

(** A validator has both keys or none; a full node uses none. *)
Definition signers {E} (a : App) (spec : ChainSpec) :
    res E (option SecretKey * option BtcSecretKey) :=
  if validates a spec then
    match aura_secret_key a, bitcoin_secret_key a with
    | Some aura_sk, Some bitcoin_sk => Ok (Some aura_sk, Some bitcoin_sk)
    | None, Some _ | Some _, None => Panic
    | None, None => Ok (None, None)
    end
  else Ok (None, None).

(** Two thirds, rounded up. *)
Definition calculate_threshold (federation_bitcoin_pubkeys_len : nat) : nat :=
  ((federation_bitcoin_pubkeys_len * 2 + 2) / 3)%nat.

Definition spawns_miner (a : App) : bool := (mine a || dev a) && negb (no_mine a).

End Keys.

(** ** Starting *)

Section WithLibs.
Context `{B : BitcoinLib, L : BlsLib, K : BlockLib, S : StoreLib, D : DecimalLib,
          W : WalletLib, F : !FeeEstimate, G : BridgeLib, A : !ExecutionApi}.
Context {PeerId : Type} `{HO : PeerOrder PeerId} {ConnectionId : Type} `{ML : MultiaddrLib}.
Context {GL : GossipLib Chain.PubsubMessage}.

Abbreviation number b := (block_number (execution_payload (message b))).
Abbreviation chain_t := (Chain.t (PeerId:=PeerId)).
Abbreviation net_t := (Network.t (PeerId:=PeerId) (ConnectionId:=ConnectionId) (Msg:=Chain.PubsubMessage)).
Abbreviation tasks_t := (Tasks.t (PeerId:=PeerId) (ConnectionId:=ConnectionId)).

(** The errors [execute] returns. *)
Inductive AppError :=
| NetworkFailed (e : Network.Error)
| WalletFailed (e : Fed.Error)
| ChainFailed (e : Error)
| IoFailed (e : string).

(** What the node finds: which directories can be created and which databases
    open; which keys, URLs and clients the libraries accept, with the default
    endpoint of the execution layer, and the execution client behind two URLs;
    the swarm and the limiter of the network; the wallet's database at a path;
    the Bitcoin node under a URL with a user and a password, if the client
    accepts them; the clock; and which ports can be bound after others. *)
Record Env := mkEnv {
  create_dir_all : string -> bool;
  level_db_opens : string -> bool;
  jwt_key_from_slice : bytes -> bool;
  parse_url : string -> option string;
  http_client : string -> bool;
  default_execution_endpoint : string;
  el : string -> string -> Engine.t;
  swarm : Network.Setup;
  behaviour : RpcBehaviour.RPC (PeerId:=PeerId) (Id:=Z) (ConnectionId:=ConnectionId) (SubstreamId:=Z);
  wallet_db : string -> option (gmap OutPoint LocalUtxo * gmap hash Transaction);
  bitcoin_core : string -> string -> string -> option BridgeRpc;
  now : Z;
  can_bind : list Z -> Z -> bool;
}.

(** The node's parts before the chain. *)
Record Parts := mkParts {
  engine : Engine.t;
  net : net_t;
  spec : ChainSpec;
  scan_start : Z;
  fed : Wallet.Federation;
  wallet : Wallet.t;
  aura_signer : option SecretKey;
  config : Chain.Config;
}.

(** The running node: the chain with the tasks that listen to the network, the
    JSON-RPC server and the metrics, whether blocks are mined, the height from
    which Bitcoin is watched, if it is, and the slot worker. *)
Record Started := mkStarted {
  tasks : tasks_t;
  rpc_server : Z * bytes * Retarget.Params;
  metrics : Z;
  miner : bool;
  monitor_from : option Z;
  worker : Aura.Worker;
}.

(** The x coordinate of BIP 341's key without a known private key. *)
Definition unspendable_pubkey : BtcPublicKey :=
  [80; 146; 155; 116; 193; 160; 73; 84; 183; 139; 75; 96; 53; 233; 122; 94;
   7; 138; 90; 15; 40; 236; 150; 213; 71; 191; 238; 154; 206; 128; 58; 192].

Definition federation_new (pubkeys : list BtcPublicKey) (required_sigs : nat) :
    Wallet.result Wallet.Federation :=
  Wallet.new_with_internal_pubkey unspendable_pubkey pubkeys required_sigs.

(** [UtxoManager::new]. *)
Definition wallet_new (db : option (gmap OutPoint LocalUtxo * gmap hash Transaction))
    (f : Wallet.Federation) : Wallet.result Wallet.t :=
  db ← ok_or db Fed.DbError;
  Ok (Wallet.mk db.1 db.2 true f).

(** *** The database and the clients *)

Definition DEFAULT_ROOT_DIR : string := "etc/data/consensus/node_0".

Definition ensure_dir_exists (env : Env) (path : string) : res string string :=
  if create_dir_all env path then Ok path else Err ("Unable to create " +:+ path)%string.

(** [Storage::new_disk]: the path of the database, which has to open. *)
Definition new_disk {E} (env : Env) (path_override : option string) : res E string :=
  let db_path := default (DEFAULT_ROOT_DIR +:+ "/chain_db")%string path_override in
  db_path ← unwrap_res (ensure_dir_exists env db_path);
  if level_db_opens env db_path then Ok db_path else Panic.

Definition DEFAULT_EXECUTION_PUBLIC_ENDPOINT : string := "http://0.0.0.0:8545".

(** The clients of the execution layer, by their URLs. *)
Definition new_http_engine_json_rpc {E} (env : Env) (url_override : option string) : res E string :=
  rpc_url ← unwrap (parse_url env (default (default_execution_endpoint env) url_override));
  if http_client env rpc_url then Ok rpc_url else Panic.

Definition new_http_public_execution_json_rpc {E} (env : Env) (url_override : option string) : res E string :=
  rpc_url ← unwrap (parse_url env (default DEFAULT_EXECUTION_PUBLIC_ENDPOINT url_override));
  if http_client env rpc_url then Ok rpc_url else Panic.

(** [BitcoinCore::new]. *)
Definition bitcoin_core_new {E} (env : Env) (url rpc_user rpc_pass : string) : res E BridgeRpc :=
  unwrap (bitcoin_core env url rpc_user rpc_pass).

(** [execute] up to the arguments of [Chain::new]. *)
Definition prepare (a : App) (env : Env) (disk_store : Store.Db) : res AppError Parts :=
  _ ← new_disk env (db_path a);
  _ ← (if jwt_key_from_slice env (jwt_secret a) then Ok tt else Panic);
  http_engine_json_rpc ← new_http_engine_json_rpc env (geth_url a);
  public_execution_json_rpc ← new_http_public_execution_json_rpc env (geth_execution_url a);
  let engine := el env http_engine_json_rpc public_execution_json_rpc in
  let (r, network) := Network.spawn_network_handler (swarm env) (p2p_listen_addr a) (p2p_port a)
                        (remote_bootnode a) (Network.init (behaviour env)) in
  _ ← map_err NetworkFailed r;
  chain_spec ← unwrap (chain_spec a);
  start ← unwrap_res (Store.get_bitcoin_scan_start_height disk_store);
  let bitcoin_start_height := default (bitcoin_start_height chain_spec) start in
  let threshold := calculate_threshold (length (federation_bitcoin_pubkeys chain_spec)) in
  bitcoin_federation ← unwrap_res (federation_new (federation_bitcoin_pubkeys chain_spec) threshold);
  let bitcoin_addresses := [Wallet.taproot_address bitcoin_federation] in
  let wallet_path := default (DEFAULT_ROOT_DIR +:+ "/wallet")%string (wallet_path a) in
  bitcoin_wallet ← map_err WalletFailed (wallet_new (wallet_db env wallet_path) bitcoin_federation);
  '(maybe_aura_signer, maybe_bitcoin_signer) ← signers a chain_spec;
  aura ← unwrap_res (Aura.new (authorities chain_spec) (slot_duration chain_spec) maybe_aura_signer);
  url ← unwrap (bitcoin_rpc_url a);
  user ← unwrap (bitcoin_rpc_user a);
  pass ← unwrap (bitcoin_rpc_pass a);
  core ← bitcoin_core_new env url user pass;
  let bridge := Bridge.mk bitcoin_addresses core (required_btc_txn_confirmations chain_spec) in
  Ok (mkParts engine network chain_spec bitcoin_start_height bitcoin_federation bitcoin_wallet maybe_aura_signer
        (Chain.mkConfig aura (max_blocks_without_pow chain_spec) (federation chain_spec) bridge
           maybe_bitcoin_signer (retarget_params chain_spec) (validates a chain_spec))).

(** [Chain::new], the genesis block and the cache of hashes. An error leaves
    what was written. *)
Definition boot (env : Env) (p : Parts) : ST Store.Db AppError chain_t := fun disk_store =>
  match Chain.new (config p) (engine p) disk_store (wallet p) (Wallet.collector_new (fed p)) (now env) with
  | Ok chain =>
      let (r, chain) := st_unwrap (Chain.store_genesis (bits (spec p)) (chain_id (spec p))) chain in
      match r with
      | Ok _ =>
          let (r, chain) := Chain.init_block_hash_cache chain in
          ((fun _ => chain) <$> map_err ChainFailed r, Chain.storage chain)
      | Err e => (Err (ChainFailed e), Chain.storage chain)
      | Panic => (Panic, Chain.storage chain)
      end
  | Err e => (Err (ChainFailed e), disk_store)
  | Panic => (Panic, disk_store)
  end.

Definition DEFAULT_METRICS_PORT : Z := 9001.

(** The servers bind their ports, which panics when it fails; then the tasks
    start, each with a receiver of what the network sends from now on. *)
Definition start_tasks (a : App) (env : Env) (p : Parts) (chain : chain_t) : res AppError Started :=
  let metrics := default DEFAULT_METRICS_PORT (metrics_port a) in
  _ ← (if can_bind env [] (rpc_port a) then Ok tt else Panic);
  _ ← (if can_bind env [rpc_port a] metrics then Ok tt else Panic);
  Ok (mkStarted
        (Tasks.mk chain (net p) (length (Network.network_events (net p)))
           (length (Network.peers_connected (net p))) (length (Network.network_rpc_events (net p))))
        (rpc_port a, Wallet.taproot_address (fed p), retarget_params (spec p))
        metrics (spawns_miner a)
        (if validates a (spec p) then Some (scan_start p) else None)
        (Aura.mkWorker 0 (slot_duration (spec p)) (authorities (spec p)) (aura_signer p))).

Definition execute (a : App) (env : Env) : ST Store.Db AppError Started :=
  disk_store ← getS;
  p ← liftR (prepare a env disk_store);
  chain ← boot env p;
  liftR (start_tasks a env p chain).

(** *** The process *)

Inductive Level := TRACE | DEBUG | INFO | WARN | ERROR.

Definition level_str (l : Level) : string :=
  match l with
  | TRACE => "TRACE" | DEBUG => "DEBUG" | INFO => "INFO" | WARN => "WARN" | ERROR => "ERROR"
  end.

(** The filter of the log, and whether it has files and lines. *)
Record LogConfig := mkLog { filter : string; with_location : bool }.

(** [init_tracing], by the variable [RUST_LOG]; a level that does not parse
    panics. *)
Definition init_tracing {E} (level_from_str : string -> option Level) (rust_log : option string)
    (full_log_context : bool) : res E LogConfig :=
  rust_log_level ← unwrap (level_from_str (default "info"%string rust_log));
  let text := level_str rust_log_level in
  let filter := if full_log_context then text
                else ("app=" +:+ text +:+ ",federation=" +:+ text +:+ ",miner=" +:+ text)%string in
  Ok (mkLog filter (match rust_log_level with DEBUG | TRACE => true | _ => false end)).

(** What completes first: a signal, or the node, which returns or panics. *)
Inductive Completed := CtrlC | SigTerm | NodeEnded (r : res AppError unit).

(** [terminate] is an error of the registration of the signal, if there is one. *)
Definition run_until_ctrl_c (terminate : option string) (first : Completed) : res AppError unit :=
  match terminate with
  | Some e => Err (IoFailed e)
  | None =>
      match first with
      | CtrlC | SigTerm => Ok tt
      | NodeEnded res => res
      end
  end.

(** [App::run]; [runtime] is an error of the start of the runtime. *)
Definition run (level_from_str : string -> option Level) (rust_log runtime terminate : option string)
    (a : App) (first : Completed) : res AppError unit :=
  _ ← init_tracing level_from_str rust_log (full_log_context a);
  match runtime with
  | Some e => Err (IoFailed e)
  | None => run_until_ctrl_c terminate first
  end.

(** What [execute] returns, if it does: after the start the slot worker runs on. *)
Definition ends (r : res AppError Started) : option (res AppError unit) :=
  match r with Ok _ => None | Err e => Some (Err e) | Panic => Some Panic end.

(** What can complete first for a node on a database. *)
Definition completes (a : App) (env : Env) (d : Store.Db) (first : Completed) : Prop :=
  match first with NodeEnded r => ends (execute a env d).1 = Some r | _ => True end.

(** [main]: the exit status; a panic aborts without one. *)
Definition exit_status (r : res AppError unit) : option Z :=
  match r with Ok _ => Some 0 | Err _ => Some 1 | Panic => None end.

(** ** When a node starts *)

Lemma threshold_bounds n :
  (2 * n <= 3 * calculate_threshold n <= 2 * n + 2)%nat /\ (calculate_threshold n <= n)%nat.
Proof.
  unfold calculate_threshold. pose proof (Nat.div_mod (n * 2 + 2) 3 ltac:(lia)).
  pose proof (Nat.mod_upper_bound (n * 2 + 2) 3 ltac:(lia)). lia.
Qed.

(** The federation of any list of keys is created, and needs two thirds of
    them. *)
Lemma federation_created pks :
  Z.of_nat (length pks) < 2 ^ 64 ->
  exists f, federation_new pks (calculate_threshold (length pks)) = Ok f /\
    Wallet.threshold f = calculate_threshold (length pks) /\ Wallet.pubkeys f = pks.
Proof.
  intros Hl. unfold federation_new, Wallet.new_with_internal_pubkey.
  destruct (threshold_bounds (length pks)) as [_ Ht].
  rewrite sub_chk_ok by lia. eexists. by split_and!.
Qed.

(** Any two sets of members that reach the threshold share a third of the
    federation. *)
Theorem quorums_intersect (pks : list BtcPublicKey) (x y : gset BtcPublicKey) :
  NoDup pks -> x ⊆ list_to_set pks -> y ⊆ list_to_set pks ->
  (calculate_threshold (length pks) <= size x)%nat -> (calculate_threshold (length pks) <= size y)%nat ->
  (length pks <= 3 * size (x ∩ y))%nat.
Proof.
  intros Hd Hx Hy Sx Sy. destruct (threshold_bounds (length pks)) as [Ht _].
  pose proof (size_union_alt x y) as Hu.
  assert (size (x ∪ y) <= length pks)%nat as Hb.
  { rewrite <-(size_list_to_set (C:=gset BtcPublicKey) pks Hd). apply subseteq_size. set_solver. }
  pose proof (size_difference_alt y x) as Hs.
  assert (y ∩ x = x ∩ y) as Ec by (apply set_eq; set_solver). rewrite Ec in Hs.
  pose proof (subseteq_size (x ∩ y) y ltac:(set_solver)). lia.
Qed.

Lemma aura_new_ok_iff auths dur signer :
  (exists x, Aura.new auths dur signer = Ok x) <->
  forall sk, signer = Some sk -> public_key sk ∈ auths.
Proof.
  unfold Aura.new. destruct signer as [sk|]; [|split; [done|by eauto]].
  destruct (position _ auths) as [i|] eqn:Ep.
  - split; [intros _|cbn; eauto]. intros ? [= <-].
    apply position_Some in Ep as ((x & Hx & Hp) & _). apply bool_decide_eq_true in Hp as ->.
    by eapply list_elem_of_lookup_2.
  - split; [by intros [? [=]]|]. intros Hin. specialize (Hin sk eq_refl).
    apply position_None in Ep. rewrite Forall_forall in Ep. specialize (Ep _ Hin).
    by apply bool_decide_eq_false in Ep.
Qed.

(** Exactly one of the two keys given to a validator is refused. *)
Lemma signers_panic_iff {E} (a : App) sp :
  signers (E:=E) a sp = Panic <->
  validates a sp = true /\
  ((aura_secret_key a = None /\ is_Some (bitcoin_secret_key a)) \/
   (is_Some (aura_secret_key a) /\ bitcoin_secret_key a = None)).
Proof.
  unfold signers, is_Some. destruct (validates a sp), (aura_secret_key a), (bitcoin_secret_key a);
    naive_solver.
Qed.

(** The client of a URL can be made. *)
Definition reachable (env : Env) (text : string) : Prop :=
  exists url, parse_url env text = Some url /\ http_client env url = true.

Lemma new_disk_Ok {E} env o path :
  new_disk (E:=E) env o = Ok path <->
  path = default (DEFAULT_ROOT_DIR +:+ "/chain_db")%string o /\
  create_dir_all env path = true /\ level_db_opens env path = true.
Proof.
  unfold new_disk, ensure_dir_exists. set (p := default _ o).
  destruct (create_dir_all env p) eqn:Ec; cbn; [|naive_solver congruence].
  destruct (level_db_opens env p) eqn:Eo; naive_solver congruence.
Qed.

Lemma client_Ok {E} env text :
  (exists url, (rpc_url ← unwrap (parse_url env text);
                if http_client env rpc_url then Ok rpc_url else Panic) = Ok (E:=E) url) <->
  reachable env text.
Proof.
  unfold reachable. destruct (parse_url env text) as [u|]; cbn; [|naive_solver].
  destruct (http_client env u) eqn:Eu; naive_solver congruence.
Qed.

(** The conditions of a start up to the chain. *)
Record startable (a : App) (env : Env) (d : Store.Db) (sp : ChainSpec) : Prop := {
  st_disk : create_dir_all env (default (DEFAULT_ROOT_DIR +:+ "/chain_db")%string (db_path a)) = true /\
    level_db_opens env (default (DEFAULT_ROOT_DIR +:+ "/chain_db")%string (db_path a)) = true;
  st_jwt : jwt_key_from_slice env (jwt_secret a) = true;
  st_engine : reachable env (default (default_execution_endpoint env) (geth_url a));
  st_public : reachable env (default DEFAULT_EXECUTION_PUBLIC_ENDPOINT (geth_execution_url a));
  st_net : NetworkProofs.network_ready (swarm env) (p2p_listen_addr a) (p2p_port a) (remote_bootnode a);
  st_spec : chain_spec a = Some sp;
  st_scan : Store.read_ok d = true /\
    forall bytes, Store.kv d !! Store.col_key Store.BitcoinScanStartHeight Store.DEFAULT_KEY = Some bytes ->
      is_Some (ssz_u32_decode bytes);
  st_wallet : is_Some (wallet_db env (default (DEFAULT_ROOT_DIR +:+ "/wallet")%string (wallet_path a)));
  st_keys : validates a sp = true ->
    (is_Some (aura_secret_key a) <-> is_Some (bitcoin_secret_key a));
  st_member sk : validates a sp = true -> aura_secret_key a = Some sk ->
    public_key sk ∈ authorities sp;
  st_bitcoin : exists url user pass, bitcoin_rpc_url a = Some url /\ bitcoin_rpc_user a = Some user /\
    bitcoin_rpc_pass a = Some pass /\ is_Some (bitcoin_core env url user pass);
}.

(** What [signers] chooses when the keys agree. *)
Lemma signers_ok {E} (a : App) sp :
  (validates a sp = true -> (is_Some (aura_secret_key a) <-> is_Some (bitcoin_secret_key a))) ->
  signers (E:=E) a sp
  = Ok (if validates a sp then (aura_secret_key a, bitcoin_secret_key a) else (None, None)).
Proof.
  unfold signers, is_Some. destruct (validates a sp), (aura_secret_key a), (bitcoin_secret_key a);
    naive_solver.
Qed.

Lemma scan_readable d :
  (exists h, Store.get_bitcoin_scan_start_height d = Ok h) <->
  Store.read_ok d = true /\
  forall bytes, Store.kv d !! Store.col_key Store.BitcoinScanStartHeight Store.DEFAULT_KEY = Some bytes ->
    is_Some (ssz_u32_decode bytes).
Proof.
  unfold Store.get_bitcoin_scan_start_height, Store.get_bytes, mbind, res_bind.
  destruct (Store.read_ok d); cbn; [|naive_solver].
  destruct (Store.kv d !! _) as [bytes|]; cbn; [|naive_solver].
  destruct (ssz_u32_decode bytes) as [z|] eqn:E; cbn; [naive_solver|].
  split; [naive_solver|]. intros [_ Hd]. destruct (Hd bytes eq_refl). congruence.
Qed.

(** What the node is made of: a validator has the two keys it was given, a full
    node none; the federation needs two thirds of its keys; Bitcoin is watched
    from the stored height, or else from the specification's. *)
Record prepared (a : App) (d : Store.Db) (sp : ChainSpec) (p : Parts) : Prop := {
  pr_validator : Chain.is_validator (config p) = validates a sp;
  pr_aura_signer : aura_signer p = if validates a sp then aura_secret_key a else None;
  pr_bitcoin_signer : Chain.maybe_bitcoin_signer (config p)
                      = if validates a sp then bitcoin_secret_key a else None;
  pr_authorities : Aura.authorities (Chain.aura (config p)) = authorities sp;
  pr_members : Wallet.pubkeys (fed p) = federation_bitcoin_pubkeys sp;
  pr_threshold : (2 * length (federation_bitcoin_pubkeys sp) <= 3 * Wallet.threshold (fed p)
                  <= 2 * length (federation_bitcoin_pubkeys sp) + 2)%nat;
  pr_scan : exists h, Store.get_bitcoin_scan_start_height d = Ok h /\
    scan_start p = default (bitcoin_start_height sp) h;
}.

Lemma aura_new_authorities (auths : list PublicKey) dur sk au :
  Aura.new auths dur sk = Ok au -> Aura.authorities au = auths.
Proof.
  unfold Aura.new. intros Hn. destruct sk; [|by injection Hn as <-].
  apply res_bind_Ok in Hn as (i & _ & Hn). by injection Hn as <-.
Qed.

Lemma prepare_inv a env d sp p :
  Z.of_nat (length (federation_bitcoin_pubkeys sp)) < 2 ^ 64 ->
  prepare a env d = Ok p -> spec p = sp -> startable a env d sp /\ prepared a d sp p.
Proof.
  intros Hl Hp Hs. destruct (federation_created _ Hl) as (f & Ef & Ht & Hk). unfold prepare in Hp.
  apply res_bind_Ok in Hp as (path & E1 & Hp).
  apply res_bind_Ok in Hp as ([] & Ej & Hp).
  apply res_bind_Ok in Hp as (u1 & Eu1 & Hp). apply res_bind_Ok in Hp as (u2 & Eu2 & Hp).
  destruct (Network.spawn_network_handler _ _ _ _ _) as [r n] eqn:En.
  apply res_bind_Ok in Hp as ([] & ->%map_err_Ok & Hp).
  apply res_bind_Ok in Hp as (sp' & E2%unwrap_Ok & Hp).
  apply res_bind_Ok in Hp as (h & E3%unwrap_res_Ok & Hp).
  apply res_bind_Ok in Hp as (f' & E4%unwrap_res_Ok & Hp).
  apply res_bind_Ok in Hp as (w & E5%map_err_Ok & Hp).
  apply res_bind_Ok in Hp as ([sa sb] & E6 & Hp).
  apply res_bind_Ok in Hp as (au & E7%unwrap_res_Ok & Hp).
  pose proof (aura_new_authorities _ _ _ _ E7) as Hau.
  apply res_bind_Ok in Hp as (url & E8%unwrap_Ok & Hp).
  apply res_bind_Ok in Hp as (user & E9%unwrap_Ok & Hp).
  apply res_bind_Ok in Hp as (pass & E10%unwrap_Ok & Hp).
  apply res_bind_Ok in Hp as (core & E11%unwrap_Ok & [= <-]).
  cbn [spec] in Hs. subst sp'. rewrite Ef in E4. injection E4 as <-.
  pose proof (proj1 (aura_new_ok_iff _ _ _) (ex_intro _ _ E7)) as Hm.
  assert (validates a sp = true -> (is_Some (aura_secret_key a) <-> is_Some (bitcoin_secret_key a))) as Hkeys.
  { intros Hv. unfold signers in E6. rewrite Hv in E6.
    destruct (aura_secret_key a), (bitcoin_secret_key a); naive_solver. }
  rewrite (signers_ok a sp Hkeys) in E6. split.
  - split; try done.
    + by apply new_disk_Ok in E1 as (-> & ? & ?).
    + by destruct (jwt_key_from_slice env _).
    + apply (client_Ok (E:=AppError)). by exists u1.
    + apply (client_Ok (E:=AppError)). by exists u2.
    + eapply (NetworkProofs.spawn_ok_iff (swarm env)). by rewrite En.
    + apply scan_readable. by exists h.
    + unfold wallet_new in E5. destruct (wallet_db env _); [by eexists|done].
    + intros sk Hv Hsk. rewrite Hv, Hsk in E6. apply Hm. by injection E6 as <- <-.
    + exists url, user, pass. split_and!; try done.
  - split; cbn [config Chain.is_validator aura_signer Chain.maybe_bitcoin_signer Chain.aura fed scan_start]; try done.
    + by destruct (validates a sp); injection E6.
    + by destruct (validates a sp); injection E6.
    + rewrite Ht. apply threshold_bounds.
    + by exists h.
Qed.

Lemma startable_prepare a env d sp :
  Z.of_nat (length (federation_bitcoin_pubkeys sp)) < 2 ^ 64 ->
  startable a env d sp -> exists p, prepare a env d = Ok p /\ spec p = sp.
Proof.
  intros Hl. destruct (federation_created _ Hl) as (f & Ef & _). unfold prepare.
  intros [[Hd1 Hd2] Hj He Hpub H2 H3 H4 [db H5] H6 H7 (url & user & pass & H8 & H9 & H10 & [core H11])].
  apply scan_readable in H4 as [h H4].
  assert (new_disk (E:=AppError) env (db_path a) = Ok (default (DEFAULT_ROOT_DIR +:+ "/chain_db")%string (db_path a)))
    as H1 by (by apply new_disk_Ok).
  apply (client_Ok (E:=AppError)) in He as [u1 Eu1], Hpub as [u2 Eu2].
  unfold new_http_engine_json_rpc, new_http_public_execution_json_rpc. rewrite H1, Hj, Eu1, Eu2.
  cbn [mbind res_bind].
  apply (NetworkProofs.spawn_ok_iff _ _ _ _ (Network.init (behaviour env))) in H2.
  destruct (Network.spawn_network_handler _ _ _ _ _) as [r n].
  cbn in H2. subst r.
  destruct (proj2 (aura_new_ok_iff (authorities sp) (slot_duration sp)
    (if validates a sp then aura_secret_key a else None))) as [au Ha].
  { destruct (validates a sp); [by intros sk; apply H7|done]. }
  unfold wallet_new. rewrite H3, H4, H5, H8, H9, H10.
  cbn [mbind res_bind map_err unwrap unwrap_res ok_or]. rewrite Ef.
  cbn [mbind res_bind map_err unwrap_res]. rewrite (signers_ok a sp H6). cbn [mbind res_bind].
  destruct (validates a sp); rewrite Ha; cbn [mbind res_bind unwrap unwrap_res]; unfold bitcoin_core_new; rewrite H11; by eexists.
Qed.

(** C39: A node gets as far as its chain exactly under these conditions: the
    database can be created and opened and its scan height read; the JWT secret
    is a key; the two URLs of the execution layer are read and their clients
    made; the network starts; the chain is specified; the wallet opens; a
    validator has both keys or neither, and its key is one of an authority; and
    the Bitcoin node's URL, user and password are given and its client is made
    (for a full node too, though it never watches Bitcoin). What it then is made
    of is what [prepared] says. *)
Theorem prepare_iff a env d sp :
  Z.of_nat (length (federation_bitcoin_pubkeys sp)) < 2 ^ 64 ->
  ((exists p, prepare a env d = Ok p /\ spec p = sp) <-> startable a env d sp) /\
  forall p, prepare a env d = Ok p -> spec p = sp -> prepared a d sp p.
Proof.
  intros Hl. split; [split|].
  - intros (p & Hp & Hs). by apply (prepare_inv _ _ _ _ _ Hl Hp).
  - by apply startable_prepare.
  - intros p Hp Hs. by apply (prepare_inv _ _ _ _ _ Hl Hp).
Qed.

(** The process ends well only by a signal; any other end is an error or, with a
    log level that does not parse, a panic before anything else. *)
Lemma exits_well_iff level_from_str rust_log runtime terminate a env d first :
  completes a env d first ->
  exit_status (run level_from_str rust_log runtime terminate a first) = Some 0 <->
  is_Some (level_from_str (default "info"%string rust_log)) /\ runtime = None /\ terminate = None /\
  (first = CtrlC \/ first = SigTerm).
Proof.
  intros Hc. unfold run, init_tracing. destruct (level_from_str _) as [l|]; cbn; [|naive_solver].
  destruct runtime; [naive_solver|]. unfold run_until_ctrl_c. destruct terminate; [naive_solver|].
  destruct first as [| |r]; [naive_solver..|]. split; [|naive_solver].
  cbn in Hc. destruct (execute a env d).1; cbn in Hc; [done|by injection Hc as <-..].
Qed.

(** ** The chain after a start *)

(** The database of a node that ran before: consistent as in
    [ChainProofs.chain_wf], whatever the process had in memory. *)
Record stored_chain (d : Store.Db) (v : Store.view) (fin : hash) (l : list hash) : Prop := {
  sc_store : Store.represents d v;
  sc_keys h b : Store.v_blocks v !! h = Some b -> canonical_root b = h;
  sc_parents h b : Store.v_blocks v !! h = Some b ->
    parent_hash (message b) = zero_hash \/
    is_Some (Store.v_blocks v !! parent_hash (message b));
  sc_heights h b p : Store.v_blocks v !! h = Some b ->
    Store.v_blocks v !! parent_hash (message b) = Some p -> number p < number b;
  sc_final : ChainProofs.finalized_at v fin;
  sc_path : exists hd, Store.v_head v = Some hd /\ ChainRange.path d fin (ref_hash hd) l;
}.

Lemma running_stored (c : chain_t) v fin l :
  ChainProofs.chain_wf c v fin l -> stored_chain (Chain.storage c) v fin l.
Proof.
  intros [H1 H2 H3 H4 H5 H6 (hd & H7 & H8) H9]. split; try done. exists hd. by rewrite <-H5.
Qed.

(** The cache a node builds: with nothing to finalize it holds the finalized
    block itself. *)
Definition rebuilt (fin : hash) (l : list hash) : list hash :=
  match l with [] => [fin] | _ => l end.

Lemma aggregate_hashes_stored `{!StoreLaws S, !BlockLaws K} (c : chain_t) v fin l :
  stored_chain (Chain.storage c) v fin l -> Chain.head c = Store.v_head v ->
  Chain.aggregate_hashes c = Ok (rebuilt fin l).
Proof.
  intros [R Hk Hp Hh Hfin (hd & Ehd & Hpath)] Ec.
  assert (ChainProofs.chain_wf (Chain.set_block_hash_cache (Some (BlockHashCache.mk l)) c) v fin l) as Hwf.
  { split; try done. exists hd. by rewrite <-Ehd. }
  destruct (ChainProofs.finalized_ref _ _ _ _ Hwf) as (r & Hr & Efin).
  unfold Chain.aggregate_hashes. rewrite Ec, Ehd. cbn [ok_or mbind res_bind].
  cbn [Chain.storage Chain.set_block_hash_cache] in Hr. rewrite Hr. cbn [ok_or mbind res_bind].
  rewrite Efin. destruct l as [|x l].
  - destruct Hfin as (r0 & pb & pow & Hr0 & Hpb & _ & Hfin). inversion Hpath as [E|? ? l' ? ? ? E]; [|by destruct l'].
    assert (exists bf, Store.v_blocks v !! fin = Some bf) as [bf Hbf]
      by (destruct Hfin as [[_ ->]|(_ & _ & [? ?])]; eauto).
    rewrite <-E. eapply ChainRange.get_hashes_self. by rewrite (Store.represents_get_block _ _ _ R), Hbf.
  - by eapply (ChainProofs.wf_get_hashes (PeerId:=PeerId) _ _ _ _ _ Hwf); [rewrite <-Ehd|].
Qed.

Lemma new_stored `{!StoreLaws S, !BlockLaws K} cfg e d w col now0 v :
  Store.represents d v ->
  exists c0 : chain_t, Chain.new cfg e d w col now0 = Ok c0 /\ Chain.storage c0 = d /\
    Chain.engine c0 = e /\ Chain.head c0 = Store.v_head v /\ is_Some (Chain.block_hash_cache c0).
Proof.
  intros R. destruct (Store.represents_reads _ _ R) as (_ & _ & Rh & _).
  unfold Chain.new. rewrite Rh. eexists. split; [done|]. cbn. eauto.
Qed.

(** Bitcoin is watched from the stored height, or from the specification's. *)
Lemma prepare_scan a env d p h :
  prepare a env d = Ok p -> Store.get_bitcoin_scan_start_height d = Ok h ->
  scan_start p = default (bitcoin_start_height (spec p)) h.
Proof.
  unfold prepare. intros Hp Hs. rewrite Hs in Hp.
  repeat (apply res_bind_Ok in Hp as (? & _ & Hp); cbn [unwrap_res mbind res_bind] in Hp).
  destruct (Network.spawn_network_handler _ _ _ _ _) as [r n].
  repeat (apply res_bind_Ok in Hp as (? & _ & Hp); cbn [unwrap_res mbind res_bind] in Hp).
  case_match. repeat (apply res_bind_Ok in Hp as (? & _ & Hp)). by injection Hp as <-.
Qed.

(** Once the genesis block is stored, the cache is built and the tasks start. *)
Lemma execute_booted `{!StoreLaws S, !BlockLaws K} a env d p c0 c1 v fin l :
  prepare a env d = Ok p ->
  Chain.new (config p) (engine p) d (wallet p) (Wallet.collector_new (fed p)) (now env) = Ok c0 ->
  Chain.store_genesis (bits (spec p)) (chain_id (spec p)) c0 = (Ok tt, c1) ->
  stored_chain (Chain.storage c1) v fin l -> Chain.head c1 = Store.v_head v ->
  is_Some (Chain.block_hash_cache c1) ->
  can_bind env [] (rpc_port a) = true ->
  can_bind env [rpc_port a] (default DEFAULT_METRICS_PORT (metrics_port a)) = true ->
  exists s, execute a env d = (Ok s, Chain.storage c1) /\
    Tasks.chain (tasks s)
    = Chain.set_block_hash_cache (Some (BlockHashCache.mk (rebuilt fin l))) c1 /\
    Tasks.net (tasks s) = net p /\
    monitor_from s = (if validates a (spec p) then Some (scan_start p) else None).
Proof.
  intros Hp Hnew Hgen Hst Hh [cache Hca] Hb1 Hb2.
  pose proof (aggregate_hashes_stored _ _ _ _ Hst Hh) as Ha.
  unfold execute, boot, start_tasks, getS, liftR, mbind, st_bind, st_unwrap. rewrite Hp, Hnew, Hgen.
  unfold Chain.init_block_hash_cache, getS, liftR, modifyS, mbind, st_bind. cbn [unwrap_res].
  rewrite Hca, Ha, Hb1, Hb2. cbn. eexists. by split_and!.
Qed.

(** C34: Together with the chain's invariant: what was in memory is rebuilt from the
    database. *)
Theorem restart_rebuilds `{!StoreLaws S, !BlockLaws K} a env d v fin l p payload g :
  stored_chain d v fin l -> prepare a env d = Ok p ->
  Engine.get_payload_by_tag_from_engine [48; 120; 48] (engine p) = Ok payload ->
  genesis (bits (spec p)) (chain_id (spec p)) payload = Ok g ->
  is_Some (Store.v_blocks v !! canonical_root g) ->
  can_bind env [] (rpc_port a) = true ->
  can_bind env [rpc_port a] (default DEFAULT_METRICS_PORT (metrics_port a)) = true ->
  exists s, execute a env d = (Ok s, d) /\
    let c := Tasks.chain (tasks s) in
    Chain.storage c = d /\ Chain.head c = Store.v_head v /\
    Chain.block_hash_cache c = Some (BlockHashCache.mk (rebuilt fin l)) /\
    (l <> [] -> ChainProofs.chain_wf c v fin l) /\
    monitor_from s = (if validates a (spec p)
                      then Some (default (bitcoin_start_height (spec p)) (Store.v_scan v)) else None).
Proof.
  intros Hst Hp Hpay Hg [gb Hgb] Hb1 Hb2. pose proof (sc_store _ _ _ _ Hst) as R.
  destruct (Store.represents_reads _ _ R) as (Rb & _ & _ & _ & _ & Rs).
  destruct (new_stored (config p) (engine p) d (wallet p) (Wallet.collector_new (fed p)) (now env) v R)
    as (c0 & Hnew & E1 & E2 & E3 & E4).
  destruct (execute_booted a env d p c0 c0 v fin l) as (s & Hs & Hc & _ & Hm); try done.
  - unfold Chain.store_genesis, getS, liftR, mbind, st_bind. rewrite E2, Hpay. cbn [unwrap_res].
    by rewrite Hg, E1, Rb, Hgb.
  - by rewrite E1.
  - exists s. rewrite E1 in Hs. split; [done|]. rewrite Hc, Hm, (prepare_scan _ _ _ _ _ Hp Rs).
    split_and!; try done. intros Hl. destruct Hst as [_ Hk Hpa Hhe Hfin (hd & Ehd & Hpath)].
    split; try done; cbn [Chain.storage Chain.head Chain.set_block_hash_cache Chain.block_hash_cache].
    + by rewrite E1.
    + exists hd. by rewrite E1, E3.
    + by destruct l.
Qed.

(** The first start of a node stores the genesis block. Its cache then holds
    the genesis hash, where the chain's invariant has nothing. *)
Theorem first_start `{!StoreLaws S, !BlockLaws K} a env p payload g c0 c1 :
  prepare a env (Store.mkDb ∅ true true) = Ok p ->
  Engine.get_payload_by_tag_from_engine [48; 120; 48] (engine p) = Ok payload ->
  genesis (bits (spec p)) (chain_id (spec p)) payload = Ok g -> canonical_root g <> zero_hash ->
  Chain.new (config p) (engine p) (Store.mkDb ∅ true true) (wallet p) (Wallet.collector_new (fed p))
    (now env) = Ok c0 ->
  Chain.store_genesis (PeerId:=PeerId) (bits (spec p)) (chain_id (spec p)) c0 = (Ok tt, c1) ->
  can_bind env [] (rpc_port a) = true ->
  can_bind env [rpc_port a] (default DEFAULT_METRICS_PORT (metrics_port a)) = true ->
  exists s d v, execute a env (Store.mkDb ∅ true true) = (Ok s, d) /\
    stored_chain d v (canonical_root g) [] /\ Store.v_head v = Some (block_ref g) /\
    let c := Tasks.chain (tasks s) in
    Chain.storage c = d /\ Chain.head c = Some (block_ref g) /\
    Chain.block_hash_cache c = Some (BlockHashCache.mk [canonical_root g]).
Proof.
  intros Hp Hpay Hg Hz Hnew Hgen Hb1 Hb2.
  destruct (ChainProofs.fresh_chain_wf _ _ _ _ _ _ _ _ _ _ _ Hpay Hg Hz Hnew Hgen) as (v & Hwf & Hh).
  pose proof (running_stored _ _ _ _ Hwf) as Hst.
  pose proof (ChainProofs.wf_head _ _ _ _ Hwf) as Hhd.
  destruct (execute_booted a env (Store.mkDb ∅ true true) p c0 c1 v (canonical_root g) []) as (s & Hs & Hc & _); try done.
  - rewrite (ChainProofs.wf_cache _ _ _ _ Hwf). by eexists.
  - exists s, (Chain.storage c1), v. rewrite Hc. split_and!; try done. by rewrite <-Hhd.
Qed.

(** ** A development node *)

(** With [--dev] alone the node is the only authority of its chain: the
    development key is the generator's, which the chain names as its authority,
    and mining is on unless it is turned off. *)
Theorem dev_node `{P : !AppLib} (a : App) sk pk btc_sk addr btc :
  parse_secret_key DEV_SECRET_KEY = Ok sk -> bls_public_key_from_str DEV_AUTHORITY = Some pk ->
  public_key sk = pk -> parse_bitcoin_secret_key DEV_BITCOIN_SECRET_KEY = Ok btc_sk ->
  address_from_str "2e80ab37dfb510a64526296fd1f295c42ef19c29" = Some addr ->
  btc_public_key_from_str DEV_FEDERATION_KEY = Some btc ->
  dev a = true -> chain_spec a = None -> aura_secret_key a = None -> bitcoin_secret_key a = None ->
  not_validator a = false ->
  exists a' sp, parse a = Ok a' /\ chain_spec a' = Some sp /\ DEV = Ok sp /\
    signers (E:=AppError) a' sp = Ok (Some sk, Some btc_sk) /\
    Aura.new (authorities sp) (slot_duration sp) (Some sk) = Ok (Aura.mk [pk] 4000 (Some (mkAuthority sk 0))) /\
    spawns_miner a' = negb (no_mine a) /\
    is_Some (bitcoin_rpc_url a') /\ is_Some (bitcoin_rpc_user a') /\ is_Some (bitcoin_rpc_pass a').
Proof.
  intros Hsk Hpk Hkey Hb Haddr Hbtc Hdev Hs Ha Hbs Hv.
  unfold parse, DEV. rewrite Hpk, Haddr, Hbtc, Hs, Ha, Hbs, Hdev, Hsk, Hb.
  cbn [dev_default mbind res_bind unwrap ok_or].
  assert (forall o (x : string), exists y, dev_default true (Ok x) o = Ok (Some y)) as Hd
    by (intros [] ?; cbn; eauto).
  destruct (Hd (bitcoin_rpc_url a) "http://0.0.0.0:18443"%string) as [url ->].
  destruct (Hd (bitcoin_rpc_user a) "rpcuser"%string) as [user ->].
  destruct (Hd (bitcoin_rpc_pass a) "rpcpassword"%string) as [pass ->].
  eexists _, _. split_and!; try done.
  - unfold signers, validates. cbn. by rewrite Hv.
  - unfold Aura.new. cbn [authorities slot_duration position]. by rewrite bool_decide_true.
  - unfold spawns_miner. cbn. by rewrite orb_true_r.
Qed.

(** The first target of that chain is within its limits, and a retarget comes
    every twelve blocks. *)
Example dev_limits :
  Retarget.params_wf DEV_RETARGET /\
  Retarget.uint256_target_from_compact (Retarget.pow_lower_limit DEV_RETARGET)
  <= Retarget.uint256_target_from_compact 505794034
  <= Retarget.uint256_target_from_compact (Retarget.pow_limit DEV_RETARGET) /\
  Retarget.difficulty_adjustment_interval DEV_RETARGET = Ok 12.
Proof. by vm_compute. Qed.

End WithLibs.

(** ** Witnesses *)

Module Witness.
#[local] Existing Instance ExampleLib.lib.
#[local] Existing Instance Signatures.Example.bls.
#[local] Existing Instance Store.Witness.lib.
#[local] Existing Instance Store.Witness.lib_laws.
#[local] Existing Instance Retarget.Witness.dec.
#[local] Existing Instance WalletProofs.Witness.lib.
#[local] Existing Instance Bridge.Witness.lib.
#[local] Existing Instance ChainWitness.blocks.
#[local] Existing Instance ChainWitness.blocks_laws.
#[local] Existing Instance ChainWitness.fees.
#[local] Existing Instance ChainWitness.api.
#[local] Existing Instance Multiaddr.Witness.lib.
#[local] Existing Instance Tasks.Witness.order.

#[local] Instance gossip : GossipLib Chain.PubsubMessage :=
  Tasks.pubsub_gossip Tasks.Witness.no_vec Tasks.Witness.no_vec.

(** Keys by their texts. *)
#[local] Instance keys : AppLib := {|
  read_to_string _ := None;
  decode_hex _ := Some (replicate 31 0 ++ [1]);
  bls_secret_key_deserialize b := last b;
  bls_public_key_from_str s := if String.eqb s DEV_AUTHORITY then Some [1] else None;
  btc_secret_key_from_str _ := Some [1];
  btc_public_key_from_str _ := Some [1];
  address_from_str _ := Some (replicate 20 46);
|}.

Definition dev_args : App :=
  mkApp None None None false false false 3000 0 (Multiaddr.lit "0.0.0.0") None true None None None None
    None None None None false (replicate 32 7).

Lemma dev_node_witness :
  exists a' sp, parse dev_args = Ok a' /\ chain_spec a' = Some sp /\ DEV = Ok sp /\
    signers (E:=AppError) a' sp = Ok (Some (1 : SecretKey), Some ([1] : BtcSecretKey)) /\
    Aura.new (authorities sp) (slot_duration sp) (Some (1 : SecretKey))
    = Ok (Aura.mk [[1]] 4000 (Some (mkAuthority (1 : SecretKey) 0))) /\
    spawns_miner a' = true /\
    is_Some (bitcoin_rpc_url a') /\ is_Some (bitcoin_rpc_user a') /\ is_Some (bitcoin_rpc_pass a').
Proof. apply (dev_node dev_args 1 [1] [1] (replicate 20 46) [1]); reflexivity. Defined.

Definition members : list BtcPublicKey := [[1]; [2]; [3]].
Definition some_members : gset BtcPublicKey := list_to_set (take 2 members).
Definition other_members : gset BtcPublicKey := list_to_set (drop 1 members).

Lemma quorums_intersect_witness : (3 <= 3 * size (some_members ∩ other_members))%nat.
Proof.
  apply (quorums_intersect members); [|set_solver|set_solver|vm_compute; lia..].
  refine (bool_decide_eq_true_1 _ _). reflexivity.
Defined.

(** A node that has the keys of the only authority. *)
Definition dev_spec : ChainSpec :=
  mkSpec 4000 [[1]] [replicate 20 46] [[1]] 505794034 1212 50000 95800 DEV_RETARGET true 3 144.
Definition args : App :=
  mkApp (Some dev_spec) (Some (1 : SecretKey)) (Some ([1] : BtcSecretKey)) false false false 3000 0
    (Multiaddr.lit "0.0.0.0") None true (Some "url"%string) (Some "user"%string) (Some "pass"%string) None
    None None None None false (replicate 32 7).

Definition env : Env (PeerId:=Z) (ConnectionId:=Z) :=
  mkEnv (fun _ => true) (fun _ => true) (fun b => (length b =? 32)%nat) Some (fun _ => true)
    "http://localhost:8551/" (fun _ _ => Engine.mk None tt) (Network.mkSetup (Ok tt) (fun _ => true) (fun _ => true) (fun _ => true))
    (RpcBehaviour.mkRPC None None []) (fun _ => Some (∅, ∅))
    (fun _ _ _ => Some (Bridge.rpc Bridge.Witness.node)) 0
    (fun _ _ => true).

Definition empty : Store.Db := Store.mkDb ∅ true true.

Lemma startable_args : startable args env empty dev_spec.
Proof.
  split; try done.
  - by eexists.
  - by eexists.
  - split; try done; by eexists.
  - intros sk _ [= <-]. by left.
  - eexists _, _, _. split_and!; [done..|]. by eexists.
Qed.

Lemma prepare_iff_witness :
  exists p, prepare args env empty = Ok p /\ spec p = dev_spec /\ prepared args empty dev_spec p.
Proof.
  destruct (prepare_iff args env empty dev_spec) as [[_ Hp] Hq]; [cbn; lia|].
  destruct (Hp startable_args) as (p & E & Es). exists p. split; [exact E|]. split; [exact Es|exact (Hq p E Es)].
Defined.

Definition parts0 : Parts (PeerId:=Z) (ConnectionId:=Z) :=
  match prepare args env empty with
  | Ok p => p
  | _ => mkParts (Engine.mk None tt) (Network.init (behaviour env)) dev_spec 0 WalletProofs.Witness.fed ChainWitness.wallet None
           ChainWitness.cfg
  end.

(** The first start, and the chain with the genesis block. *)
Definition created : Chain.t (PeerId:=Z) :=
  match Chain.new (config parts0) (engine parts0) empty (wallet parts0) (Wallet.collector_new (fed parts0)) 0 with
  | Ok c => c
  | _ => ChainWitness.fresh
  end.
Definition with_genesis : Chain.t (PeerId:=Z) := (Chain.store_genesis 505794034 1212 created).2.

Lemma first_start_witness :
  exists s d v, execute args env empty = (Ok s, d) /\
    stored_chain d v (canonical_root ChainWitness.genesis0) [] /\
    Store.v_head v = Some (block_ref ChainWitness.genesis0) /\
    let c := Tasks.chain (tasks s) in
    Chain.storage c = d /\ Chain.head c = Some (block_ref ChainWitness.genesis0) /\
    Chain.block_hash_cache c = Some (BlockHashCache.mk [canonical_root ChainWitness.genesis0]).
Proof.
  apply (first_start args env parts0 payload_default ChainWitness.genesis0 created with_genesis); try reflexivity.
  refine (bool_decide_eq_false_1 _ _). vm_compute. reflexivity.
Defined.

(** The database of a node that imported a block after the genesis block and
    watched Bitcoin up to a height. *)
Definition writes : list Store.write :=
  [Store.PutBlock (canonical_root ChainWitness.genesis0) ChainWitness.genesis0;
   Store.SetPow (block_ref ChainWitness.genesis0);
   Store.PutBlock (canonical_root ChainWitness.first) ChainWitness.first;
   Store.SetHead (block_ref ChainWitness.first); Store.SetScan 95900].
Definition db : Store.Db := Store.run_writes writes empty.
Definition view : Store.view := foldl (fun v w => Store.view_write w v) Store.empty_view writes.

Lemma earlier_represents : Store.represents db view.
Proof.
  apply (Store.run_writes_represents writes empty Store.empty_view); [|apply Store.represents_empty].
  unfold writes. repeat (apply Forall_cons; split); try apply Forall_nil_2;
    try exact I; try (cbn; lia); apply ChainWitness.put_block_wf; (cbn; lia || by intros h [= <-]).
Qed.

Lemma earlier_blocks h b :
  Store.v_blocks view !! h = Some b ->
  (h = canonical_root ChainWitness.first /\ b = ChainWitness.first) \/
  (h = canonical_root ChainWitness.genesis0 /\ b = ChainWitness.genesis0).
Proof.
  change (Store.v_blocks view) with
    (<[canonical_root ChainWitness.first := ChainWitness.first]>
       (<[canonical_root ChainWitness.genesis0 := ChainWitness.genesis0]> ∅ : gmap hash SignedConsensusBlock)).
  intros [[<- <-]|[_ H]]%lookup_insert_Some; [by left|].
  apply lookup_insert_Some in H as [[<- <-]|[_ H]]; [by right|]. by rewrite lookup_empty in H.
Qed.

Lemma get_genesis : Store.v_blocks view !! canonical_root ChainWitness.genesis0 = Some ChainWitness.genesis0.
Proof. vm_compute. reflexivity. Qed.
Lemma no_zero_block : Store.v_blocks view !! zero_hash = None.
Proof. vm_compute. reflexivity. Qed.

Lemma earlier_stored :
  stored_chain db view (canonical_root ChainWitness.genesis0) [canonical_root ChainWitness.first].
Proof.
  split.
  - apply earlier_represents.
  - by intros h b [[-> ->]|[-> ->]]%earlier_blocks.
  - intros h b [[-> ->]|[-> ->]]%earlier_blocks; [|by left].
    right. exists ChainWitness.genesis0. apply get_genesis.
  - intros h b p [[-> ->]|[-> ->]]%earlier_blocks H.
    + change (Store.v_blocks view !! canonical_root ChainWitness.genesis0 = Some p) in H.
      rewrite get_genesis in H. injection H as <-. reflexivity.
    + change (Store.v_blocks view !! zero_hash = Some p) in H. by rewrite no_zero_block in H.
  - exists (block_ref ChainWitness.genesis0), ChainWitness.genesis0, (genesis_header 505794034 1212).
    split_and!; [done|apply get_genesis|done|by left].
  - exists (block_ref ChainWitness.first). split; [done|].
    change [canonical_root ChainWitness.first] with ([] ++ [canonical_root ChainWitness.first]).
    eapply (ChainRange.path_step _ _ _ ChainWitness.first); [| |constructor].
    2: { by vm_compute. }
    refine (bool_decide_eq_false_1 _ _). vm_compute. reflexivity.
Qed.

Definition parts1 : Parts (PeerId:=Z) (ConnectionId:=Z) :=
  match prepare args env db with Ok p => p | _ => parts0 end.

Lemma restart_rebuilds_witness :
  exists s, execute args env db = (Ok s, db) /\
    let c := Tasks.chain (tasks s) in
    Chain.storage c = db /\ Chain.head c = Some (block_ref ChainWitness.first) /\
    Chain.block_hash_cache c = Some (BlockHashCache.mk [canonical_root ChainWitness.first]) /\
    ([canonical_root ChainWitness.first] <> [] ->
     ChainProofs.chain_wf c view (canonical_root ChainWitness.genesis0) [canonical_root ChainWitness.first]) /\
    monitor_from s = Some 95900.
Proof.
  apply (restart_rebuilds args env db view (canonical_root ChainWitness.genesis0)
           [canonical_root ChainWitness.first] parts1 payload_default ChainWitness.genesis0);
    [apply earlier_stored|reflexivity..| |reflexivity|reflexivity].
  exists ChainWitness.genesis0. apply get_genesis.
Defined.

End Witness.
End App.
